(* ===== verification/_CoqProject ===== *)
-Q . S2P
Prelude.v
PyBytes.v
PyText.v
AsciiText.v
PyTime.v
Scope.v
Utf8.v
Json.v
JsonAscii.v
PyNumbers.v
WorkItems.v
WorkQueue.v
PullRequests.v
DagResolver.v
QueueLedger.v
QueueSafety.v
QueueSpec.v
QueueAudit.v
QueueAuditSpec.v
Readiness.v
Sha256.v
DeltaPatcher.v
LedgerCompactor.v
CompactorSpec.v
LockManager.v
FencingToken.v
RingBuffer.v
RingQueue.v
RateLimiter.v
RateLimiterSpec.v
PriorityScheduler.v
SchedulerSpec.v
WorkStealing.v
StealingSpec.v
LeaseStore.v
TaskLifecycle.v
TaskRecovery.v
QuorumVerifier.v
QuorumSpec.v
Events.v
StateMachine.v
Lifecycle.v
History.v
Projection.v
Replay.v
Journal.v
Ledger.v
Verification.v
Controller.v
Service.v
Http.v
EventStream.v
Serve.v
Duties.v
Redelivery.v
WorkerSpec.v
WorkerSpecSafety.v
OrphanGate.v
OrphanGateSafety.v
WorkerOutbox.v
WorkerHost.v
WorkerLoop.v
WorkerDelivery.v
WorkerResults.v
WorkerProtocol.v
OutboxRestart.v
Fixtures.v
Witnesses.v
QueueWitnesses.v
HttpWitnesses.v
DagWitnesses.v
LockWitnesses.v
WorkerWitnesses.v
RecoveryWitnesses.v
UpkeepWitnesses.v
FleetWitnesses.v
