(* ===== verification/Prelude.v ===== *)
(** * Courier v1: a verification development

    Courier carries computer work to a verified finish: a controller records
    every task in an append-only journal and leases attempts to workers; a
    worker claims attempts, runs them as child processes and delivers their
    results; a work queue hands out the development work of the repository
    itself.  This library models the controller and the queue of
    [src/courier_core], the worker of [src/courier_worker] and several services
    beside them, and proves what makes them correct.  Definitions keep the names of the source.

    ** The controller: one task, one history

    [serve.py] answers HTTP requests by calling [controller.py], the only
    writer of [journal.py]; every event the journal appends is checked by
    [events.py] and folded through [state_machine.py] into the table of
    [projection.py]; [verification.py] judges results.

    - [Events] ([events.py]): event types with the fields each carries,
      [Event.__post_init__], [validate], default dedupe keys, canonical JSON,
      sealing.  Over [Json] (the two encoders, the decoder, [==], truth value,
      [str]), [PyText] (texts as UTF-8) and [Sha256] (executable).
    - [StateMachine] ([state_machine.py]): [apply], the retry decision.
      [Lifecycle] gives the life cycle as a relation [step], one rule per legal
      transition; [History] proves what holds of every legal history.
    - [Projection] ([projection.py]): rows, conversions, [apply_event],
      [rebuild], [fold], the table hash.  [Replay]: the table is the pure fold.
    - [Journal] ([journal.py]): open, append, reads, integrity checks, over
      [Db], the rows of the SQLite file.  [Ledger] states what a file
      promises, [Sound db es m] - the sealed events [es], chained and numbered,
      and the fold [m] - and relates every operation to it.
    - [Verification] ([verification.py]): the fail-closed rules.
    - [Controller] ([controller.py]): boot, requests, ticks, the verification
      queue, as computations [C A := Ctl -> result A * Ctl] that keep the state
      they reached when they raise.  [Service] proves what any sequence of
      requests guarantees, [Duties] the background duties and idempotency,
      [Redelivery] what a result sent again is answered.
    - [Http] ([serve.py], the request handler): a connection [Conn] with the
      bytes to read and the answers sent, the token check, body rules, routes,
      the event stream.  [EventStream]: what a stream delivers.  [Serve]
      ([serve.py], the process): home lock, token file, start and shutdown.

    ** The worker: one dispatch at a time, results kept until answered

    A worker polls the controller over HTTP, in the bounded cycles of
    [courier_worker/service.py].

    - [WorkerSpec] ([adapter_bridge.py], [service.py], [host.py]): a claim
      becomes an [ExecutionSpec], or a [SpecError].  [WorkerSpecSafety]: what
      every spec promises.
    - [OrphanGate] ([host.py], [run_orphan_gate]): before a worker starts, the
      process trees of dead workers are stopped; the claim files of a home, and
      the operating system's answers, kept as a trace.  [OrphanGateSafety]: what
      may be signalled, and that the gate ends.
    - [WorkerOutbox] ([host.py]): the files of the outbox and of quarantine, by
      name; write, read back, remove, quarantine.
    - [WorkerHost] ([host.py]): [run_once] and the loop of [_wait]: time bound,
      lease, output bounds, cancellation, heartbeats, artifacts, the outcome.
    - [WorkerLoop] ([service.py]): requests to the controller, the flush of the
      outbox, delivery, the report read back, the payload, the cycle [iterate]
      and [run], as computations [W A := Worker -> result A * Worker] that, like
      the controller's, keep the state they reached when they raise.  The world
      around a worker (answers, clocks, children) is the [WorkerWorld].
    - [WorkerDelivery] gives the state logic of a cycle ([placid], [kept]);
      [WorkerResults] follows a result from its run to an answer;
      [WorkerProtocol] puts a worker's report before the controller.
    - [Utf8], [JsonAscii]: the encodings a request and a file go through.

    ** The work queue: one ledger, several readers

    - [Scope], [WorkItems], [WorkQueue], [PullRequests] ([work_queue.py]):
      file scopes and [fnmatch]; the catalog, its schema
      ([registries/work_items/work_item.schema.json]) and validation; the ledger
      and the operations claim, renew, release; pull requests, the prompt and
      the command line.  Over [PyTime] (UTC dates) and [AsciiText].
    - [QueueLedger]: a written line is read back as its event.  [QueueSafety]:
      an abstract protocol on items and its safety.  [QueueSpec]: every
      operation is one step of the protocol, so runs inherit its safety.
    - [QueueAudit] ([work_queue_audit.py]): the independent auditor;
      [QueueAuditSpec]: it accepts what the queue writes.
    - [DagResolver] ([dag_resolver.py]): schedules, cycles, readiness;
      [Readiness]: its completions are the queue's.
    - [LedgerCompactor] ([ledger_compactor.py]): the ledger folded into records,
      snapshots with a checksum, the replay of a snapshot and the lines behind
      it.  [CompactorSpec]: the replay is the replay of the whole.  Over
      [PyNumbers] ([int] and [float] of a value).
    - [LockManager] ([lock_manager.py]) and [FencingToken]
      ([fencing_token.py]): leases with fencing tokens.

    ** Transport and recovery

    - [RingBuffer] ([shared_memory_ring.py]): a ring in shared memory, its
      operations as programs of loads and stores over the bytes of a segment
      ([prog]), the calls of [struct] byte by byte too ([access]), and a writer
      and a reader whose steps interleave ([Pair]).  [RingQueue]: a rely and
      guarantee logic for such programs ([wp]), the bounded queue a ring
      implements, and the simulation from bytes to whole header fields.  Over [PyBytes] (slices, fields).
    - [DeltaPatcher] ([delta_patcher.py]): patches between files, base 64.
    - [OutboxRestart] ([courier_worker/outbox_restart.py]): the effect journal,
      resuming an outbox after a restart, cleaning it up.

    ** Limits and scheduling

    - [RateLimiter] ([rate_limiter.py]): token bucket, sliding window, tiers;
      the loop of [acquire] reads a clock and sleeps.  [RateLimiterSpec].
    - [PriorityScheduler] ([priority_scheduler.py]): slots, ready queue, aging,
      preemption, [tick].  [SchedulerSpec].
    - [WorkStealing] ([work_stealing.py]): queues of workers, stealing with
      fencing tokens, rebalancing.  [StealingSpec].
    - [QuorumVerifier] ([quorum_verifier.py]): votes by digest, policies,
      reputations.  [QuorumSpec].

    ** The runtime before v1

    - [LeaseStore] ([courier_runtime/lease.py]): leases by scope with fencing
      tokens, and what they fence.
    - [TaskLifecycle] ([courier_runtime/task_lifecycle.py]): stalls, recoveries,
      deadlocks and wakes of active tasks.  [TaskRecovery]: graphs of waiting
      tasks, and the budget of recoveries.

    [Fixtures] holds concrete inputs; [Witnesses], [QueueWitnesses],
    [HttpWitnesses], [DagWitnesses], [LockWitnesses], [WorkerWitnesses],
    [RecoveryWitnesses], [UpkeepWitnesses] and [FleetWitnesses] apply each theorem with hypotheses there.

    ** What the theorems show

    - A task: [apply] is the relation [step]; results are accepted and tasks
      complete at most once; attempts are numbered, bounded and fenced by
      dispatch; an attempt of unknown outcome is not replayed blindly; BLOCKED
      waits for a human; terminal states absorb ([History]).
    - The journal: an append is all or nothing and idempotent; refusals are
      classified; tampering shows or SHA-256 collides; the table is the fold of
      the events ([Ledger], [Replay]).
    - The controller: histories only grow, a degraded controller never writes,
      due leases are expired, draining ends, requests with an idempotency key
      repeat nothing ([Service], [Duties]); over HTTP it does what authorised
      requests ask and nothing else, open connections stay in step, streams
      deliver every event once, in order ([Http], [EventStream]); a start is
      all or nothing, as long as a controller can be stopped, and tokens survive
      restarts ([Serve]).
    - A result: a worker keeps it through failed turns and restarts until the
      controller answered or it is quarantined ([WorkerResults]); a well-formed
      report is never a bad request ([WorkerProtocol]); one taken is
      acknowledged as a duplicate ever after ([Redelivery]).
    - A run: a claim can only start Courier's runner, within bounds
      ([WorkerSpecSafety]); the host runs one dispatch at a time, its wait ends
      and success is what the child earned in time, with its lease, not
      cancelled and within its bounds ([WorkerHost]).
    - Start of a worker: only the trees of dead workers are signalled, each
      after its owner was found gone and its child was found gone or in place;
      the gate ends and leaves only what belongs to the living
      ([OrphanGateSafety]).
    - The queue: calls refine the protocol; live leases are exclusive in files
      and respected; claims take effect; auditor and resolver agree with it
      ([QueueSpec], [QueueAuditSpec], [Readiness]).
    - A ring is linearizable as long as no read of its header overlaps a write
      of a header field: one writer and one reader, interleaved byte by byte,
      see a first-in first-out queue; a torn header can make messages nobody
      wrote ([RingQueue], [RecoveryWitnesses]); a patch rebuilds its target, and nothing but the target it
      names is ever put in place ([DeltaPatcher]); confirmed effects are not
      executed again by restarts, which settle a readable outbox
      ([OutboxRestart]).
    - Snapshots: replaying one with the lines behind it gives the very records,
      times included, of replaying the ledger, where items and results are texts;
      fresh ones verify; of the queue's own ledger they know no status
      ([CompactorSpec]).
    - A bucket limits the throughput of every stretch of time, waits for tokens
      end, the window is exact, tiers give all or nothing ([RateLimiterSpec]);
      a tick ends, loses no task, keeps to the slots and dispatches what comes
      first; aging bounds how long a task is overtaken ([SchedulerSpec]).
    - Stolen work is fenced and rebalancing ends ([StealingSpec]); a consensus is
      what enough voters sent, reputations count consensus results
      ([QuorumSpec]); tokens of leases fence writes ([LeaseStore]); deadlock
      scans break every cycle and touch no other task, recoveries are bounded
      ([TaskRecovery]).
    - Schedules respect dependencies and cycles are what makes them fail
      ([DagResolver]); fencing tokens fence, in files of
      their own ([LockManager], [FencingToken]).

    ** Bounds and fuel

    Functions with fuel get enough of it from the length of what they read:
    the JSON decoder one more than the bytes, [translate] of [fnmatch] the
    pattern, [discard] of a body the bytes that remain, [stages_from] one more
    than the items, [drain] one more than the queued results: each turn consumes
    one of them, and the round-trip, coverage and termination theorems would
    fail if fuel ran out.  The wait of a run has [wait_fuel] turns, twice the
    quanta of the time bound and one, which is proved to be enough; [scan] of a patch has
    a turn per byte of the target, proved enough for any chunk size above 0;
    the gate waits at most forty rounds for a group, [acquire] one round more
    than the twentieths of a second that filling the bucket takes, [tick] as
    many rounds as there are slots and running tasks, [rebalance] the sum of the
    squared loads, the walk of a deadlock scan the number of tasks, each proved
    enough;
    the calls on a ring are finite programs, a write of at most 150 steps and
    two for each byte of its message, a read of at most 50 and four for each
    byte of the segment; the turns
    of a worker have no end of their own, and the theorems on [run] hold for
    any number of them.  Event sequence numbers are
    bounded by SQLite's 64 bits where the code meets them.

    ** Where the model idealises

    - Time: the controller's and the locks' clock readings are exact rationals,
      the queue's whole microseconds; [strftime] is used on years of four
      digits.
    - Threads: an operation under its lock is one step; whether a lock was
      free is an oracle of the [World].  The halves of [verify_next] around the
      adapter call are two steps.  The queue's calls hold the ledger's file
      lock for their whole length and their writes succeed.
    - SQLite: a transaction either commits all its rows or leaves the old
      ones; [PRAGMA]s and [quick_check] are an oracle.  Any text can be bound to
      a column: the [UnicodeEncodeError] for a text with a lone surrogate is
      not modelled.
    - JSON: numbers are finite; [NaN] and [Infinity], which [json.loads] takes
      though no JSON standard does, are refused by [Json.loads].
    - Python: exceptions carry their class and fixed text; floats, and digits
      and letters beyond ASCII, are parameters ([PyPlatform], [FloatRepr],
      and the character classes of [Http] and [LockManager]); the recursion and
      integer-text limits of [json] are ignored.
    - HTTP: [http.server], [urlsplit] and [parse_qs] deliver the fields of an
      [HttpRequest]; an answer is one write, which may fail.
    - Adapters, fresh identifiers, random tokens and the adapters' sources are
      parameters.
    - The worker's world: each answer of the controller, each reading of a
      clock, each child's behaviour and each report file is a function of how
      much has been asked so far ([WorkerWorld]); the theorems name what they
      rely on ([decent_world], [clocked]).  Files are written whole.
    - The gate on orphans: every answer of the system, and how long it takes, is
      a function of the number of the question; files are read, renamed and
      removed without failure.
    - Snapshots and the scheduler's state: a file is the value read from it;
      [int] of a text knows ASCII digits.  Limits and scheduling: numbers and
      times are exact, ratios of votes before they are rounded.  A stolen task
      and an active task are one object under their id.
    - A ring: a load or store of one byte is one step; slices are copied in
      ascending order, [struct] zeroes a field and writes its last byte first,
      as CPython does, and steps are seen in one order by all processes; the
      segment's size is what the system gives, at least what was asked.
    - Restarts and patches: reads and writes of files succeed; keys are texts
      without lone surrogates where a theorem says so ([decent]); [int] of a
      value that is no integer is a parameter.

    ** Not modelled

    Of the worker: the process group of a running child (its end is the
    environment's), probes of memory and load, the lock on its home, the
    cancel watcher's connection (what it reports is an oracle), texts of crash
    reports, and the work of the adapters themselves.  The desktop hub, the [server/] and
    [scripts/] of the version before v1 and most of its [courier_runtime], the
    user interfaces and the rest of [courier_core] (dead letters, metrics,
    packaging, diagnostics, experiments that the programs above do not call):
    they are input and output around the parts that are modelled, or stand
    alone.  Of [task_lifecycle.py] the process probes and the sweeps of files.
*)

From stdpp Require Export base option list gmap strings sorting.
From Stdlib Require Export ZArith QArith Lia.

#[global] Open Scope string_scope.
#[global] Open Scope list_scope.
#[global] Open Scope Z_scope.

Declare Scope courier_scope.
Delimit Scope courier_scope with courier.
#[global] Open Scope courier_scope.

(** ** Exceptions

    The exception classes the modelled code raises or catches.  A message is
    kept as the fixed text the source raises it with (interpolated values are
    left out). *)
Inductive exn_class :=
  | EventValidationError | TransitionError | ValueError | UnicodeEncodeError
  | TypeError | KeyError | AttributeError | OverflowError
  | ProjectionError | JournalError | DedupeConflict
  | IntegrityError | OperationalError
  | OSError | BrokenPipeError | ConnectionResetError | ConnectionAbortedError | TimeoutError
  | SystemExit
  | FencingError | StaleFencingTokenError | LeaseConflictError
  | SpecError | HostBusy | ContainmentError | ResourcePaused | OutboxFull
  | ControllerError | ControllerUnreachable | StaleDispatch | AuthenticationError
  | SyntheticError | LocalShellError
  | UnicodeDecodeError | FileNotFoundError | ZeroDivisionError | StructError
  | BufferFullError | BufferEmptyError | CorruptRingBufferError | MessageTooLargeError
  | OutboxRestartError | BaseFileMismatchError | TargetCorruptError | InvalidPatchError
  | IndexError | NoStealableTaskError | IncompatibleCapabilityError | CapacityExceededError
  | QuorumError | DuplicateVoteError | InsufficientParticipantsError
  | LeaseConflict | StaleLease | CorruptDLQError
  | ApiError (status : Z) (code : string)
  | WorkQueueError (code : string).

Record exn := Exn { exn_cls : exn_class; exn_msg : string }.

#[export] Instance exn_class_eq_dec : EqDecision exn_class.
Proof. solve_decision. Defined.
#[export] Instance exn_eq_dec : EqDecision exn.
Proof. solve_decision. Defined.

(** [except ValueError] also catches its subclasses. *)
Definition is_value_error (e : exn) : bool :=
  match exn_cls e with
  | EventValidationError | TransitionError | ValueError | UnicodeEncodeError | UnicodeDecodeError
  | SpecError | SyntheticError | LocalShellError | CorruptDLQError => true
  | _ => false
  end.

(** [class DedupeConflict(JournalError)]. *)
Definition is_journal_error (e : exn) : bool :=
  match exn_cls e with JournalError | DedupeConflict => true | _ => false end.

(** [sqlite3.DatabaseError] and the subclasses that occur. *)
Definition is_database_error (e : exn) : bool :=
  match exn_cls e with IntegrityError | OperationalError => true | _ => false end.

(** ** Results: a value or a raised exception *)
Inductive result (A : Type) :=
  | Ok (a : A)
  | Err (e : exn).
Arguments Ok {A} a.
Arguments Err {A} e.

#[export] Instance result_ret : MRet result := @Ok.
#[export] Instance result_bind : MBind result := fun A B f m =>
  match m with Ok a => f a | Err e => Err e end.
#[export] Instance result_fmap : FMap result := fun A B f m =>
  match m with Ok a => Ok (f a) | Err e => Err e end.

Definition raise {A} (cls : exn_class) (msg : string) : result A := Err (Exn cls msg).

(** [if b: raise e] *)
Definition raise_if (b : bool) (e : exn) : result unit := if b then Err e else Ok tt.

Definition of_option {A} (e : exn) (o : option A) : result A :=
  match o with Some a => Ok a | None => Err e end.

Definition is_ok {A} (r : result A) : bool := match r with Ok _ => true | Err _ => false end.

#[export] Instance Ok_inj {A} : Inj (=) (=) (@Ok A).
Proof. by intros ?? [= ->]. Qed.

Lemma bind_Ok {A B} (f : A → result B) m b :
  (m ≫= f) = Ok b ↔ ∃ a, m = Ok a ∧ f a = Ok b.
Proof.
  destruct m; simpl; split; [by eauto|by intros (? & [= ->] & ?)|done|by intros (? & ? & ?)].
Qed.

Lemma raise_if_Ok b e u : raise_if b e = Ok u ↔ b = false.
Proof. destruct b, u; simpl; split; congruence. Qed.

Lemma of_option_Ok {A} e (o : option A) a : of_option e o = Ok a ↔ o = Some a.
Proof. destruct o; simpl; naive_solver. Qed.

(** ** Lists *)

Lemma filter_all {A} (P : A → Prop) `{∀ x, base.Decision (P x)} l : Forall P l → filter P l = l.
Proof. induction 1 as [|x l Hx _ IH]; [done|]. by rewrite filter_cons, decide_True, IH. Qed.

Lemma filter_none {A} (P : A → Prop) `{∀ x, base.Decision (P x)} l :
  Forall (λ x, ¬ P x) l → filter P l = [].
Proof. induction 1 as [|x l Hx _ IH]; [done|]. by rewrite filter_cons, decide_False, IH. Qed.

Lemma filter_ext_in {A} (P Q : A → Prop) `{∀ x, base.Decision (P x), ∀ x, base.Decision (Q x)} (l : list A) :
  (∀ x, x ∈ l → P x ↔ Q x) → filter P l = filter Q l.
Proof.
  induction l as [|x l IH]; intros Hl; [done|]. rewrite !filter_cons, IH by (intros; apply Hl; by right).
  pose proof (Hl x ltac:(by left)). repeat case_decide; tauto.
Qed.

Lemma filter_bool {A} (P : A → Prop) `{∀ x, base.Decision (P x)} (l : list A) :
  List.filter (λ x, bool_decide (P x)) l = filter P l.
Proof.
  induction l as [|x l IH]; [done|]. rewrite filter_cons. simpl. rewrite IH.
  by case_bool_decide; case_decide.
Qed.

(** ** Tactics *)

Create HintDb courier.

(** Takes apart every [... = Ok _] hypothesis built from binds, guards and options. *)
Ltac inv_ok :=
  repeat match goal with
  | H : Ok _ = Ok _ |- _ => simplify_eq
  | H : Err _ = Ok _ |- _ => discriminate H
  | H : Ok _ = Err _ |- _ => discriminate H
  | H : raise _ _ = Ok _ |- _ => discriminate H
  | H : mret _ = Ok _ |- _ => unfold mret, result_ret in H
  | H : raise_if _ _ = Ok _ |- _ => apply raise_if_Ok in H
  | H : of_option _ _ = Ok _ |- _ => apply of_option_Ok in H
  | H : (?m ≫= _) = Ok _ |- _ =>
      let a := fresh "a" in let Ha := fresh "Ha" in
      apply bind_Ok in H as (a & Ha & H)
  | H : (_, _) = (_, _) |- _ => simplify_eq
  end.

Ltac bool_hyps :=
  repeat match goal with
  | H : (_ && _)%bool = true |- _ => apply andb_true_iff in H as [? ?]
  | H : (_ || _)%bool = false |- _ => apply orb_false_iff in H as [? ?]
  | H : negb _ = true |- _ => apply negb_true_iff in H
  | H : negb _ = false |- _ => apply negb_false_iff in H
  | H : bool_decide _ = true |- _ => apply bool_decide_eq_true in H
  | H : bool_decide _ = false |- _ => apply bool_decide_eq_false in H
  | H : (_ <? _)%Z = true |- _ => apply Z.ltb_lt in H
  | H : (_ <? _)%Z = false |- _ => apply Z.ltb_ge in H
  | H : (_ <=? _)%Z = true |- _ => apply Z.leb_le in H
  | H : (_ <=? _)%Z = false |- _ => apply Z.leb_gt in H
  | H : (_ =? _)%Z = true |- _ => apply Z.eqb_eq in H
  | H : (_ =? _)%Z = false |- _ => apply Z.eqb_neq in H
  end.

(** Splits every [match]/[if] of a hypothesis until it is decided. *)
Ltac case_hyp H :=
  repeat (match type of H with
          | context [match ?x with _ => _ end] =>
              let E := fresh "E" in destruct x eqn:E
          end; try discriminate H).
