(* ===== verification/PyBytes.v ===== *)
(** * Bytes objects

    A bytes object is the list of its bytes.  Python's slices, with indices
    that may be negative or out of range, and the big-endian fields of
    [struct]. *)

From S2P Require Import Prelude.

Notation bytes := (list Z).

Definition blen {A} (l : list A) : Z := Z.of_nat (length l).

(** The position a slice index stands for in a sequence of length [n]. *)
Definition slice_index (n i : Z) : Z := if i <? 0 then Z.max 0 (n + i) else Z.min i n.

(** [l[lo:hi]] *)
Definition slice {A} (lo hi : Z) (l : list A) : list A :=
  let a := slice_index (blen l) lo in
  let b := slice_index (blen l) hi in
  take (Z.to_nat (b - a)) (drop (Z.to_nat a) l).

(** The [n] bytes of a field, and the value of such bytes. *)
Fixpoint be_bytes (n : nat) (v : Z) : bytes :=
  match n with
  | O => []
  | S n => (v / 256 ^ Z.of_nat n) mod 256 :: be_bytes n v
  end.
Definition be_value (bs : bytes) : Z := fold_left (λ v b, v * 256 + b) bs 0.

(** ** Lemmas *)

Lemma length_be_bytes n v : length (be_bytes n v) = n.
Proof. induction n; simpl; congruence. Qed.

Lemma be_value_acc bs v : fold_left (λ v b, v * 256 + b) bs v = v * 256 ^ blen bs + be_value bs.
Proof.
  revert v. induction bs as [|b bs IH]; intros v; unfold be_value, blen in *; simpl fold_left; [simpl; lia|].
  rewrite IH, (IH (0 * 256 + b)). simpl length. rewrite Nat2Z.inj_succ, Z.pow_succ_r by lia. ring.
Qed.

Lemma be_value_bytes n v : 0 ≤ v < 256 ^ Z.of_nat n → be_value (be_bytes n v) = v.
Proof.
  intros Hv. rewrite <- (Z.mod_small v (256 ^ Z.of_nat n)) at 2 by done. clear Hv.
  induction n as [|n IH]; [symmetry; apply Z.mod_1_r|].
  unfold be_value. cbn [be_bytes fold_left]. rewrite be_value_acc, IH. unfold blen.
  rewrite length_be_bytes, Nat2Z.inj_succ, Z.pow_succ_r by lia.
  rewrite (Z.mul_comm 256), Z.rem_mul_r by lia. ring.
Qed.

Lemma slice_take {A} lo hi (l : list A) :
  0 ≤ lo ≤ hi → slice lo hi l = take (Z.to_nat (hi - lo)) (drop (Z.to_nat lo) l).
Proof.
  intros Hlo. unfold slice, slice_index. rewrite (proj2 (Z.ltb_ge lo 0)), (proj2 (Z.ltb_ge hi 0)) by lia.
  destruct (decide (lo ≤ blen l)) as [Hin|Hout].
  - rewrite (Z.min_l lo) by lia. destruct (decide (hi ≤ blen l)); [by rewrite Z.min_l by lia|].
    rewrite Z.min_r, (take_ge _ (Z.to_nat (blen l - lo))), (take_ge _ (Z.to_nat (hi - lo)));
      rewrite ?length_drop; unfold blen in *; [done|lia..].
  - rewrite !Z.min_r, !drop_ge, !take_nil; [done|unfold blen in *; lia..].
Qed.

Lemma lookup_slice {A} lo hi (l : list A) i :
  0 ≤ lo ≤ hi → hi ≤ blen l → 0 ≤ i < hi - lo → slice lo hi l !! Z.to_nat i = l !! Z.to_nat (lo + i).
Proof.
  intros. rewrite slice_take, lookup_take_lt, lookup_drop by lia. f_equal. lia.
Qed.

Lemma length_slice {A} lo hi (l : list A) : 0 ≤ lo ≤ hi → hi ≤ blen l → blen (slice lo hi l) = hi - lo.
Proof. intros. rewrite slice_take by done. unfold blen in *. rewrite length_take, length_drop. lia. Qed.

(** A slice is known from its elements. *)
Lemma slice_eq {A} lo hi (l xs : list A) :
  0 ≤ lo → hi = lo + blen xs → hi ≤ blen l → (∀ i, 0 ≤ i < blen xs → l !! Z.to_nat (lo + i) = xs !! Z.to_nat i) →
  slice lo hi l = xs.
Proof.
  intros Hlo -> Hhi Hi. assert (0 ≤ blen xs) by (unfold blen; lia). apply list_eq_same_length with (length xs).
  - done.
  - pose proof (length_slice lo (lo + blen xs) l ltac:(lia) Hhi). unfold blen in *. lia.
  - intros i x y Hlt Hx Hy. rewrite <- (Nat2Z.id i), lookup_slice in Hx by (unfold blen in *; lia).
    rewrite Hi, Nat2Z.id in Hx by (unfold blen in *; lia). congruence.
Qed.
