(* ===== verification/PyText.v ===== *)
(** * Python text

    A Python [str] is a sequence of code points.  It is represented here by
    the [string] of bytes of its (generalised) UTF-8 encoding, a bijection
    that also has an image for a lone surrogate; byte order of the encodings
    is code point order of the texts.  This file models what the source uses
    of [str]: [len], slicing, [lower], [upper], [strip], [in], [endswith],
    [encode("utf-8")], and the decimal text of an [int]; of [bytes]:
    [decode("utf-8")] and [splitlines]. *)

From Stdlib Require Import Ascii DecimalString DecimalN DecimalFacts DecimalPos.
From S2P Require Import Prelude.

Definition code (a : ascii) : Z := Z.of_N (N_of_ascii a).

(** A byte 10xxxxxx continues a code point. *)
Definition is_cont (a : ascii) : bool := (128 <=? code a) && (code a <? 192).

(** [len(s)]: code points, not bytes. *)
Fixpoint py_len (s : string) : Z :=
  match s with
  | "" => 0
  | String a r => (if is_cont a then 0 else 1) + py_len r
  end.

(** [s[:n]]: the first [n] code points. *)
Fixpoint py_take (n : nat) (s : string) : string :=
  match s with
  | "" => ""
  | String a r =>
      if is_cont a then String a (py_take n r)
      else match n with O => "" | S n => String a (py_take n r) end
  end.

(** The code points of a text. *)
Fixpoint code_points_aux (acc : option Z) (s : string) : list Z :=
  match s with
  | "" => match acc with Some c => [c] | None => [] end
  | String a r =>
      let b := code a in
      if is_cont a then
        match acc with
        | Some c => code_points_aux (Some (c * 64 + (b - 128))) r
        | None => code_points_aux None r
        end
      else
        let lead := if b <? 128 then b else if b <? 224 then b - 192
                    else if b <? 240 then b - 224 else b - 240 in
        (match acc with Some c => [c] | None => [] end) ++ code_points_aux (Some lead) r
  end.
Definition code_points (s : string) : list Z := code_points_aux None s.

Definition byte_chr (z : Z) : string := String (ascii_of_N (Z.to_N z)) "".

(** The UTF-8 bytes of one code point ([chr]). *)
Definition py_chr (c : Z) : string :=
  if c <? 128 then byte_chr c
  else if c <? 2048 then byte_chr (192 + c / 64) +:+ byte_chr (128 + c mod 64)
  else if c <? 65536 then
    byte_chr (224 + c / 4096) +:+ byte_chr (128 + c / 64 mod 64) +:+ byte_chr (128 + c mod 64)
  else byte_chr (240 + c / 262144) +:+ byte_chr (128 + c / 4096 mod 64)
       +:+ byte_chr (128 + c / 64 mod 64) +:+ byte_chr (128 + c mod 64).

(** [s.encode("utf-8")] raises for a lone surrogate (bytes ED A0..BF xx);
    otherwise the bytes are those of the representation. *)
Fixpoint has_surrogate (s : string) : bool :=
  match s with
  | String a r =>
      (match r with
       | String b _ => (code a =? 237) && (160 <=? code b) && (code b <? 192)
       | "" => false
       end || has_surrogate r)%bool
  | "" => false
  end.

Definition encode_utf8 (s : string) : result (list ascii) :=
  if has_surrogate s then raise UnicodeEncodeError "surrogates not allowed"
  else Ok (String.list_ascii_of_string s).

(** [s.lower()].  Only ASCII needles are ever searched for in the result, and
    U+0130 and U+212A are the only other code points whose lower case has an
    ASCII letter in it; every other code point is left alone here. *)
Definition lower_ascii (a : ascii) : ascii :=
  if (65 <=? code a) && (code a <=? 90) then ascii_of_N (Z.to_N (code a + 32)) else a.

Fixpoint py_lower (s : string) : string :=
  match s with
  | String "196" (String "176" r) => String "i" (String "204" (String "135" (py_lower r)))
  | String "226" (String "132" (String "170" r)) => String "k" (py_lower r)
  | String a r => String (lower_ascii a) (py_lower r)
  | "" => ""
  end.

(** [needle in hay] *)
Fixpoint py_in (needle hay : string) : bool :=
  (String.prefix needle hay || match hay with "" => false | String _ r => py_in needle r end)%bool.

(** [str.isspace] of one code point. *)
Definition is_space (c : Z) : bool :=
  ((9 <=? c) && (c <=? 13) || (28 <=? c) && (c <=? 32) || (c =? 133) || (c =? 160) || (c =? 5760)
   || (8192 <=? c) && (c <=? 8202) || (c =? 8232) || (c =? 8233) || (c =? 8239) || (c =? 8287)
   || (c =? 12288))%bool.

(** [not s.strip()] *)
Definition py_blank (s : string) : bool := forallb is_space (code_points s).

(** The text cut into code points, each the bytes of one. *)
Fixpoint chars_aux (cur : string) (s : string) : list string :=
  match s with
  | "" => match cur with "" => [] | _ => [cur] end
  | String a r =>
      if is_cont a then chars_aux (cur +:+ String a "") r
      else match cur with
           | "" => chars_aux (String a "") r
           | _ => cur :: chars_aux (String a "") r
           end
  end.
Definition chars (s : string) : list string := chars_aux "" s.

Fixpoint drop_blank (l : list string) : list string :=
  match l with c :: r => if py_blank c then drop_blank r else l | [] => [] end.

(** [s.strip()] *)
Definition py_strip (s : string) : string :=
  String.concat "" (rev (drop_blank (rev (drop_blank (chars s))))).

(** [s.upper()], exact for a test whether the result starts with one of the
    ASCII words the source looks for: U+0131 and U+1E97 are the only other
    code points whose upper case has a letter of them. *)
Definition upper_ascii (a : ascii) : ascii :=
  if (97 <=? code a) && (code a <=? 122) then ascii_of_N (Z.to_N (code a - 32)) else a.

Fixpoint py_upper (s : string) : string :=
  match s with
  | String "196" (String "177" r) => String "I" (py_upper r)
  | String "225" (String "186" (String "151" r)) => String "T" (String "204" (String "136" (py_upper r)))
  | String a r => String (upper_ascii a) (py_upper r)
  | "" => ""
  end.

(** Bytes that [bytes.decode("utf-8")] accepts. *)
Fixpoint utf8_valid (s : string) : bool :=
  match s with
  | "" => true
  | String a r =>
      let c := code a in
      if c <? 128 then utf8_valid r
      else if (194 <=? c) && (c <? 224) then
        match r with String b r => is_cont b && utf8_valid r | "" => false end
      else if (224 <=? c) && (c <? 240) then
        match r with
        | String b (String d r) =>
            is_cont b && is_cont d && (negb (c =? 224) || (160 <=? code b))
            && (negb (c =? 237) || (code b <? 160)) && utf8_valid r
        | _ => false
        end
      else if (240 <=? c) && (c <? 245) then
        match r with
        | String b (String d (String e r)) =>
            is_cont b && is_cont d && is_cont e && (negb (c =? 240) || (144 <=? code b))
            && (negb (c =? 244) || (code b <? 144)) && utf8_valid r
        | _ => false
        end
      else false
  end%bool.

Definition LF : ascii := "010".
Definition CR : ascii := "013".

(** [raw.splitlines()] of bytes: lines end in LF, CR or CR LF. *)
Fixpoint split_lines (cur : string) (s : string) : list string :=
  match s with
  | "" => match cur with "" => [] | _ => [cur] end
  | String a r =>
      if Ascii.eqb a LF then cur :: split_lines "" r
      else if Ascii.eqb a CR then
        match r with
        | String b r' => if Ascii.eqb b LF then cur :: split_lines "" r' else cur :: split_lines "" r
        | "" => [cur]
        end
      else split_lines (cur +:+ String a "") r
  end.
Definition splitlines (s : string) : list string := split_lines "" s.

(** [not line.strip()] of bytes *)
Definition bytes_blank (s : string) : bool :=
  forallb (λ a, (9 <=? code a) && (code a <=? 13) || (code a =? 32))%bool (String.list_ascii_of_string s).

(** [s.endswith("Z")] for a one-byte suffix. *)
Fixpoint ends_with (c : ascii) (s : string) : bool :=
  match s with
  | "" => false
  | String a "" => Ascii.eqb a c
  | String _ r => ends_with c r
  end.

(** Order of [str]: code point order, the byte order of the representation. *)
Definition str_leb (a b : string) : bool := String.leb a b.

(** ** Integers as text *)
Definition str_of_N (n : N) : string := NilEmpty.string_of_uint (N.to_uint n).
Definition str_of_Z (z : Z) : string :=
  if z <? 0 then String "-" (str_of_N (Z.to_N (- z))) else str_of_N (Z.to_N z).

Definition is_digit (a : ascii) : bool := (48 <=? code a) && (code a <=? 57).

Definition hex_digit (n : Z) : ascii :=
  ascii_of_N (Z.to_N (if n <? 10 then 48 + n else 87 + n)).

(** ** Facts *)
Lemma string_app_cons a s t : String a s +:+ t = String a (s +:+ t).
Proof. done. Qed.

Lemma list_ascii_app a b :
  String.list_ascii_of_string (a +:+ b)
  = (String.list_ascii_of_string a ++ String.list_ascii_of_string b)%list.
Proof. induction a as [|x a IH]; [done|]. rewrite string_app_cons; simpl. by rewrite IH. Qed.

Lemma string_app_assoc (a b c : string) : (a +:+ b) +:+ c = a +:+ (b +:+ c).
Proof. induction a as [|x a IH]; [done|]. by rewrite !string_app_cons, IH. Qed.

Lemma string_app_nil_r (a : string) : a +:+ "" = a.
Proof. induction a as [|x a IH]; [done|]. by rewrite string_app_cons, IH. Qed.

Lemma string_length_app (a b : string) :
  String.length (a +:+ b) = (String.length a + String.length b)%nat.
Proof. induction a as [|x a IH]; [done|]. rewrite string_app_cons; simpl. by rewrite IH. Qed.

Lemma string_app_inj_l (a b c : string) : a +:+ b = a +:+ c → b = c.
Proof. induction a; [done|]. rewrite !string_app_cons. intros; simplify_eq; auto. Qed.

Lemma string_app_inj_r (a b c : string) : a +:+ c = b +:+ c → a = b.
Proof.
  intros H. assert (Hl : String.length a = String.length b).
  { apply (f_equal String.length) in H. rewrite !string_length_app in H. lia. }
  revert b H Hl. induction a as [|x a IH]; intros [|y b] H Hl; simpl in *; try done.
  rewrite !string_app_cons in H. simplify_eq. f_equal. apply IH; [done|lia].
Qed.

Lemma string_snoc s : s = "" ∨ ∃ r c, s = r +:+ String c "".
Proof.
  induction s as [|a s [->|(r & c & ->)]]; [by left|right..].
  - by exists "", a.
  - by exists (String a r), c.
Qed.

Lemma string_snoc_inj a b c d : a +:+ String c "" = b +:+ String d "" → a = b ∧ c = d.
Proof.
  revert b. induction a as [|x a IH]; intros [|y b]; rewrite ?string_app_cons; intros; simplify_eq.
  - done.
  - by destruct b.
  - by destruct a.
  - destruct (IH b) as [-> ->]; done.
Qed.

Lemma py_len_nonneg s : 0 ≤ py_len s.
Proof. induction s as [|a s IH]; simpl; [lia|]. destruct (is_cont a); lia. Qed.

Lemma py_len_app a b : py_len (a +:+ b) = py_len a + py_len b.
Proof.
  induction a as [|x a IH]; [done|]. rewrite string_app_cons; simpl. rewrite IH. lia.
Qed.

#[export] Instance str_of_N_inj : Inj (=) (=) str_of_N.
Proof.
  intros a b H. unfold str_of_N in H.
  assert (N.to_uint a = N.to_uint b) as Hu.
  { apply (f_equal NilEmpty.uint_of_string) in H. rewrite !NilEmpty.usu in H. congruence. }
  apply (f_equal N.of_uint) in Hu. by rewrite !DecimalN.Unsigned.of_to in Hu.
Qed.
