(* ===== verification/AsciiText.v ===== *)
(** * Printable and stripped ASCII texts

    Facts about texts of ASCII characters that the ledgers and the token file
    share: how they are cut into lines and characters, and what [strip] leaves. *)

From Stdlib Require Import Ascii.
From S2P Require Import Prelude PyText.

Definition is_ascii (s : string) : bool :=
  forallb (λ a, code a <? 128) (String.list_ascii_of_string s).

Lemma is_ascii_app a b : is_ascii (a +:+ b) = (is_ascii a && is_ascii b)%bool.
Proof. unfold is_ascii. by rewrite list_ascii_app, forallb_app. Qed.

Definition codes (s : string) : list Z := map code (String.list_ascii_of_string s).

Lemma codes_app a b : codes (a +:+ b) = (codes a ++ codes b)%list.
Proof. unfold codes. by rewrite list_ascii_app, map_app. Qed.

Lemma code_points_ascii s : is_ascii s = true → code_points s = codes s.
Proof.
  unfold code_points, codes. intros Hs.
  enough (∀ acc, code_points_aux acc s
    = (match acc with Some c => [c] | None => [] end ++ map code (String.list_ascii_of_string s))%list)
    as -> by done.
  induction s as [|a s IH]; intros acc; [by destruct acc|]. simpl in *.
  unfold is_ascii in Hs. simpl in Hs. apply andb_true_iff in Hs as [Ha Hs].
  unfold is_cont. apply Z.ltb_lt in Ha as Ha'. rewrite (proj2 (Z.leb_gt 128 (code a))) by lia. simpl.
  rewrite Ha, IH by done. by destruct acc.
Qed.

(** ** Lines *)

(** A file that does not end in the middle of a line. *)
Definition complete (raw : string) : Prop := raw = "" ∨ ends_with LF raw = true.

Definition printable_char (a : ascii) : bool := (32 <=? code a) && (code a <? 127).
Definition printable (s : string) : bool := forallb printable_char (String.list_ascii_of_string s).

Lemma printable_app a b : printable (a +:+ b) = (printable a && printable b)%bool.
Proof. unfold printable. by rewrite list_ascii_app, forallb_app. Qed.

Lemma printable_cons a s : printable (String a s) = (printable_char a && printable s)%bool.
Proof. done. Qed.

Lemma printable_char_lf a : printable_char a = true → Ascii.eqb a LF = false ∧ Ascii.eqb a CR = false.
Proof. intros Ha. by destruct a as [[] [] [] [] [] [] [] []]. Qed.

Lemma split_lines_text cur text :
  printable text = true → split_lines cur (text +:+ String LF "") = [cur +:+ text].
Proof.
  revert cur. induction text as [|a text IH]; intros cur Ht.
  { simpl. by rewrite string_app_nil_r. }
  rewrite printable_cons in Ht. apply andb_true_iff in Ht as [[H1 H2]%printable_char_lf Ht].
  rewrite string_app_cons. cbn [split_lines]. rewrite H1, H2, IH by done.
  by rewrite string_app_assoc.
Qed.

Lemma split_lines_app n raw cur s :
  (String.length raw < n)%nat → raw = "" ∧ cur = "" ∨ ends_with LF raw = true →
  split_lines cur (raw +:+ s) = (split_lines cur raw ++ split_lines "" s)%list.
Proof.
  revert raw cur. induction n as [|n IH]; intros raw cur Hn Hr; [lia|].
  destruct raw as [|a r]; [destruct Hr as [[_ ->]|]; done|]. destruct Hr as [[]|Hr]; [done|].
  simpl in Hn. rewrite string_app_cons. cbn [split_lines].
  assert (r = "" ∧ Ascii.eqb a LF = true ∨ ends_with LF r = true) as Hr'.
  { destruct r; [left|right]; done. }
  destruct (Ascii.eqb a LF) eqn:Ea.
  - simpl. f_equal. apply IH; [lia|]. destruct Hr' as [[-> _]|]; auto.
  - destruct Hr' as [[_ [=]]|Hr']. destruct (Ascii.eqb a CR) eqn:Ec; [|apply IH; [lia|auto]].
    destruct r as [|b r]; [done|]. rewrite string_app_cons. simpl in Hn.
    destruct (Ascii.eqb b LF) eqn:Eb.
    + simpl. f_equal. apply IH; [lia|]. destruct r; [left|right]; done.
    + pose proof (IH (String b r) "" ltac:(simpl in *; lia) ltac:(by right)) as Hi.
      rewrite string_app_cons in Hi. cbn [app]. by rewrite Hi.
Qed.

Lemma splitlines_append raw text :
  complete raw → printable text = true →
  splitlines (raw +:+ text +:+ String LF "") = (splitlines raw ++ [text])%list.
Proof.
  intros Hr Ht. unfold splitlines.
  rewrite (split_lines_app (S (String.length raw))), split_lines_text; [done|done|lia|].
  destruct Hr; auto.
Qed.

Lemma complete_append raw text : complete (raw +:+ text +:+ String LF "").
Proof.
  right. rewrite <-string_app_assoc. generalize (raw +:+ text). intros s.
  induction s as [|a [|b s] IH]; done.
Qed.

(** ** Texts *)
Lemma printable_ascii s : printable s = true → is_ascii s = true.
Proof.
  unfold printable, is_ascii. rewrite !forallb_forall. intros Hs a Ha. apply Hs in Ha.
  apply andb_true_iff in Ha as [_ Ha]. apply Z.ltb_lt in Ha. apply Z.ltb_lt. lia.
Qed.

Lemma ascii_utf8 s : is_ascii s = true → utf8_valid s = true.
Proof.
  induction s as [|a s IH]; [done|]. unfold is_ascii in *. simpl.
  intros [Ha Hs]%andb_true_iff. by rewrite Ha, IH.
Qed.

Lemma py_chr_code a : code a < 128 → py_chr (code a) = String a "".
Proof.
  intros Ha. unfold py_chr. rewrite (proj2 (Z.ltb_lt _ _)) by done. unfold byte_chr, code.
  by rewrite N2Z.id, ascii_N_embedding.
Qed.

(** ** Stripping printable texts *)
Section strip.
Context {A : Type} (blank : A → bool).

Fixpoint drop_while (l : list A) : list A :=
  match l with x :: r => if blank x then drop_while r else l | [] => [] end.
Definition strip_list (l : list A) : list A := rev (drop_while (rev (drop_while l))).

Lemma drop_while_suffix l : ∃ k, l = (k ++ drop_while l)%list.
Proof.
  induction l as [|x l [k IH]]; [by exists []|]. simpl. destruct (blank x); [|by exists []].
  exists (x :: k). simpl. by rewrite <-IH.
Qed.

Lemma drop_while_idem l : drop_while (drop_while l) = drop_while l.
Proof. induction l as [|x l IH]; [done|]. simpl. destruct (blank x) eqn:E; [done|]. simpl. by rewrite E. Qed.

Lemma strip_list_part l : ∃ j k, l = (j ++ strip_list l ++ k)%list.
Proof.
  destruct (drop_while_suffix l) as [j Hj]. destruct (drop_while_suffix (rev (drop_while l))) as [k Hk].
  exists j, (rev k). unfold strip_list. rewrite <-rev_app_distr, <-Hk, rev_involutive. done.
Qed.

Lemma strip_list_idem l : strip_list (strip_list l) = strip_list l.
Proof.
  assert (drop_while (strip_list l) = strip_list l) as Hd.
  { assert (∃ k, drop_while l = (strip_list l ++ k)%list) as [k Hk].
    { unfold strip_list. destruct (drop_while_suffix (rev (drop_while l))) as [k Hk]. exists (rev k).
      rewrite <-rev_app_distr, <-Hk. by rewrite rev_involutive. }
    pose proof (drop_while_idem l) as Hi. rewrite Hk in Hi. clear Hk.
    destruct (strip_list l) as [|x r]; [done|]. simpl in *. destruct (blank x); [|done]. exfalso.
    destruct (drop_while_suffix (r ++ k)) as [j Hj]. rewrite Hi in Hj.
    apply (f_equal length) in Hj. simpl in Hj. rewrite !length_app in Hj. simpl in Hj. rewrite ?length_app in Hj. lia. }
  unfold strip_list at 1. rewrite Hd. unfold strip_list. by rewrite rev_involutive, drop_while_idem.
Qed.
End strip.

Definition char1 (a : ascii) : string := String a "".
Definition blank_char (a : ascii) : bool := py_blank (char1 a).

Lemma chars_ascii s : is_ascii s = true → chars s = map char1 (String.list_ascii_of_string s).
Proof.
  intros Hs. unfold chars.
  enough (∀ cur, chars_aux cur s = (match cur with "" => [] | _ => [cur] end
    ++ map char1 (String.list_ascii_of_string s))%list) as -> by done.
  induction s as [|a s IH]; intros cur; [by destruct cur|].
  unfold is_ascii in Hs. simpl in *. apply andb_true_iff in Hs as [Ha Hs]. apply Z.ltb_lt in Ha.
  unfold is_cont. rewrite (proj2 (Z.leb_gt 128 (code a))) by lia. simpl. rewrite IH by done.
  by destruct cur.
Qed.

Lemma drop_blank_chars l : drop_blank (map char1 l) = map char1 (drop_while blank_char l).
Proof. induction l as [|a l IH]; [done|]. simpl. unfold blank_char at 1. by destruct (py_blank (char1 a)). Qed.

Lemma concat_chars l : String.concat "" (map char1 l) = String.string_of_list_ascii l.
Proof.
  induction l as [|a [|b l] IH]; [done..|].
  change (char1 a +:+ "" +:+ String.concat "" (map char1 (b :: l)) = String.string_of_list_ascii (a :: b :: l)).
  rewrite IH. done.
Qed.

Lemma py_strip_ascii s :
  is_ascii s = true →
  py_strip s = String.string_of_list_ascii (strip_list blank_char (String.list_ascii_of_string s)).
Proof.
  intros Hs. unfold py_strip. rewrite chars_ascii by done.
  by rewrite drop_blank_chars, <-map_rev, drop_blank_chars, <-map_rev, concat_chars.
Qed.

Lemma py_strip_part s : is_ascii s = true → ∃ j k, s = j +:+ py_strip s +:+ k.
Proof.
  intros Hs. rewrite py_strip_ascii by done.
  destruct (strip_list_part blank_char (String.list_ascii_of_string s)) as (j & k & Hl).
  exists (String.string_of_list_ascii j), (String.string_of_list_ascii k).
  apply (f_equal String.string_of_list_ascii) in Hl. rewrite String.string_of_list_ascii_of_string in Hl.
  rewrite Hl at 1. clear. generalize (strip_list blank_char (String.list_ascii_of_string s)). intros m.
  assert (∀ a b, String.string_of_list_ascii (a ++ b)
    = String.string_of_list_ascii a +:+ String.string_of_list_ascii b) as Ha.
  { induction a as [|x a IH]; intros b; [done|]. simpl. by rewrite IH. }
  by rewrite !Ha.
Qed.

Lemma py_strip_printable s : printable s = true → printable (py_strip s) = true.
Proof.
  intros Hs. destruct (py_strip_part s) as (j & k & E); [by apply printable_ascii|].
  rewrite E, !printable_app in Hs. by bool_hyps.
Qed.

Lemma py_strip_idem s : printable s = true → py_strip (py_strip s) = py_strip s.
Proof.
  intros Hs. rewrite (py_strip_ascii (py_strip s)) by (by apply printable_ascii, py_strip_printable).
  rewrite !py_strip_ascii by (by apply printable_ascii).
  by rewrite String.list_ascii_of_string_of_list_ascii, strip_list_idem.
Qed.

(** A text between braces has nothing to strip. *)
Lemma py_strip_braces body : printable body = true → py_strip ("{" +:+ body +:+ "}") = "{" +:+ body +:+ "}".
Proof.
  intros Hb. rewrite py_strip_ascii by (by rewrite !is_ascii_app, (printable_ascii body)).
  rewrite !list_ascii_app. change (String.list_ascii_of_string "{") with ["{"%char].
  change (String.list_ascii_of_string "}") with ["}"%char]. unfold strip_list. cbn [app drop_while].
  replace (blank_char "{") with false by done. cbn [rev]. rewrite rev_app_distr. cbn [rev app drop_while].
  replace (blank_char "}") with false by done. cbn [rev]. rewrite rev_app_distr, rev_involutive. cbn [rev app].
  cbn [String.string_of_list_ascii]. rewrite string_app_cons. f_equal.
  rewrite <- (String.string_of_list_ascii_of_string (body +:+ "}")). by rewrite list_ascii_app.
Qed.
