(* ===== verification/PyTime.v ===== *)
(** * Python dates

    What the source uses of [datetime] in UTC: the proleptic Gregorian
    calendar, [strftime("%Y-%m-%dT%H:%M:%SZ")] and [fromisoformat] on texts of
    that shape.  A moment is its number of microseconds since 1970-01-01, the
    resolution of [datetime].  The main result is that a printed moment is
    read back, cut to its second. *)

From Stdlib Require Import Ascii.
From S2P Require Import Prelude PyText.

(** ** The calendar *)
Definition is_leap (y : Z) : bool :=
  (y mod 4 =? 0) && (negb (y mod 100 =? 0) || (y mod 400 =? 0)).

Definition days_in_month (y m : Z) : Z :=
  if m =? 2 then if is_leap y then 29 else 28
  else if (m =? 4) || (m =? 6) || (m =? 9) || (m =? 11) then 30 else 31.

(** A date the [datetime] constructor accepts. *)
Definition date_ok (y m d : Z) : bool :=
  (1 <=? y) && (y <=? 9999) && (1 <=? m) && (m <=? 12) && (1 <=? d) && (d <=? days_in_month y m).

(** Days since 1970-01-01; years are counted from 1 March, 400 at a time. *)
Definition days_of_date (y m d : Z) : Z :=
  let y := if m <=? 2 then y - 1 else y in
  let yoe := y mod 400 in
  let doy := (153 * (if m >? 2 then m - 3 else m + 9) + 2) / 5 + d - 1 in
  y / 400 * 146097 + (yoe * 365 + yoe / 4 - yoe / 100 + doy) - 719468.

Definition year_of_era (doe : Z) : Z := (doe - doe / 1460 + doe / 36524 - doe / 146096) / 365.
Definition day_of_year (doe : Z) : Z :=
  doe - (365 * year_of_era doe + year_of_era doe / 4 - year_of_era doe / 100).

Definition date_of_days (n : Z) : Z * Z * Z :=
  let n := n + 719468 in
  let doe := n mod 146097 in
  let mp := (5 * day_of_year doe + 2) / 153 in
  let d := day_of_year doe - (153 * mp + 2) / 5 + 1 in
  let m := if mp <? 10 then mp + 3 else mp - 9 in
  (year_of_era doe + n / 146097 * 400 + (if m <=? 2 then 1 else 0), m, d).

Lemma year_of_era_bounds doe : 0 ≤ doe < 146097 → 0 ≤ year_of_era doe ≤ 399.
Proof. unfold year_of_era. intros. Z.to_euclidean_division_equations; lia. Qed.

Lemma day_of_year_bounds doe : 0 ≤ doe < 146097 → 0 ≤ day_of_year doe ≤ 365.
Proof. unfold day_of_year, year_of_era. intros. Z.to_euclidean_division_equations; lia. Qed.

(** The 366th day, counted from 1 March, falls in a leap year. *)
Lemma last_day_leap doe era :
  0 ≤ doe < 146097 → day_of_year doe = 365 → is_leap (year_of_era doe + era * 400 + 1) = true.
Proof.
  intros Hd Hy. unfold is_leap.
  assert (year_of_era doe mod 4 = 3 ∧
    (year_of_era doe mod 100 ≠ 99 ∨ year_of_era doe = 399)) as [H4 H100].
  { unfold day_of_year, year_of_era in *. Z.to_euclidean_division_equations; lia. }
  pose proof (year_of_era_bounds doe Hd).
  apply andb_true_iff; split; [|apply orb_true_iff; rewrite negb_true_iff].
  - apply Z.eqb_eq. Z.to_euclidean_division_equations; lia.
  - rewrite Z.eqb_neq, Z.eqb_eq. Z.to_euclidean_division_equations; lia.
Qed.

Lemma date_of_days_ok n y m d :
  date_of_days n = (y, m, d) → 1 ≤ m ≤ 12 ∧ 1 ≤ d ≤ days_in_month y m.
Proof.
  unfold date_of_days. set (doe := (n + 719468) mod 146097). set (era := (n + 719468) / 146097).
  assert (0 ≤ doe < 146097) as Hd by (subst doe; apply Z.mod_pos_bound; lia).
  pose proof (day_of_year_bounds doe Hd) as Hy. pose proof (last_day_leap doe era Hd) as Hl.
  set (doy := day_of_year doe) in *.
  assert (0 ≤ (5 * doy + 2) / 153 ≤ 11) as Hmp by (Z.to_euclidean_division_equations; lia).
  assert (0 ≤ doy - (153 * ((5 * doy + 2) / 153) + 2) / 5 ≤ 30) as Hdd
    by (Z.to_euclidean_division_equations; lia).
  remember ((5 * doy + 2) / 153) as mp eqn:Emp.
  assert (153 * mp ≤ 5 * doy + 2 < 153 * mp + 153) as Hb by (Z.to_euclidean_division_equations; lia).
  clearbody doe. clear Emp.
  assert (mp = 0 ∨ mp = 1 ∨ mp = 2 ∨ mp = 3 ∨ mp = 4 ∨ mp = 5 ∨ mp = 6 ∨ mp = 7 ∨ mp = 8 ∨ mp = 9
    ∨ mp = 10 ∨ mp = 11) as Hc by lia.
  intros [= <- <- <-]. unfold days_in_month.
  destruct Hc as [->|[->|[->|[->|[->|[->|[->|[->|[->|[->|[->| ->]]]]]]]]]]]; simpl;
    try (split; [lia|]; Z.to_euclidean_division_equations; lia).
  split; [lia|]. destruct (decide (doy = 365)) as [E|]; [rewrite (Hl E)|destruct is_leap];
    Z.to_euclidean_division_equations; lia.
Qed.

Lemma days_of_date_of_days n y m d : date_of_days n = (y, m, d) → days_of_date y m d = n.
Proof.
  unfold date_of_days. set (doe := (n + 719468) mod 146097). set (era := (n + 719468) / 146097).
  assert (0 ≤ doe < 146097) as Hd by (subst doe; apply Z.mod_pos_bound; lia).
  assert (n = era * 146097 + doe - 719468) as Hn
    by (subst era doe; Z.to_euclidean_division_equations; lia).
  pose proof (day_of_year_bounds doe Hd). pose proof (year_of_era_bounds doe Hd) as Hyoe.
  assert (doe = 365 * year_of_era doe + year_of_era doe / 4 - year_of_era doe / 100 + day_of_year doe)
    as Hdoe by (unfold day_of_year; lia).
  set (yoe := year_of_era doe) in *. set (doy := day_of_year doe) in *.
  assert (0 ≤ (5 * doy + 2) / 153 ≤ 11) as Hmp by (Z.to_euclidean_division_equations; lia).
  set (mp := (5 * doy + 2) / 153) in *. clearbody mp doy yoe doe era.
  intros [= <- <- <-]. unfold days_of_date.
  destruct (Z.ltb_spec mp 10); simpl.
  - rewrite (proj2 (Z.leb_gt (mp + 3) 2)) by lia. rewrite (proj2 (Z.gtb_lt (mp + 3) 2)) by lia.
    replace (yoe + era * 400 + 0) with (yoe + era * 400) by lia.
    rewrite Z.div_add, Z.mod_add, (Z.div_small yoe), (Z.mod_small yoe) by lia.
    replace (mp + 3 - 3) with mp by lia. lia.
  - rewrite (proj2 (Z.leb_le (mp - 9) 2)) by lia.
    replace (mp - 9 >? 2) with false by (symmetry; rewrite Z.gtb_ltb; apply Z.ltb_ge; lia).
    replace (yoe + era * 400 + 1 - 1) with (yoe + era * 400) by lia.
    rewrite Z.div_add, Z.mod_add, (Z.div_small yoe), (Z.mod_small yoe) by lia.
    replace (mp - 9 + 9) with mp by lia. lia.
Qed.

(** ** Digits *)
Definition digit_chr (n : Z) : ascii := ascii_of_N (Z.to_N (48 + n)).
Definition digit_val (a : ascii) : Z := code a - 48.

Lemma digit_chr_code n : 0 ≤ n ≤ 9 → code (digit_chr n) = 48 + n.
Proof. intros. unfold code, digit_chr. rewrite N_ascii_embedding; lia. Qed.

Lemma digit_chr_is_digit n : 0 ≤ n ≤ 9 → is_digit (digit_chr n) = true.
Proof.
  intros Hn. unfold is_digit. rewrite digit_chr_code by done.
  apply andb_true_iff; split; apply Z.leb_le; lia.
Qed.

Lemma digit_val_chr n : 0 ≤ n ≤ 9 → digit_val (digit_chr n) = n.
Proof. intros. unfold digit_val. rewrite digit_chr_code; lia. Qed.

(** [f"{n:02d}"] and [f"{n:04d}"] *)
Definition two (n : Z) (rest : string) : string :=
  String (digit_chr (n / 10)) (String (digit_chr (n mod 10)) rest).
Definition four (n : Z) (rest : string) : string := two (n / 100) (two (n mod 100) rest).

Definition val2 (a b : ascii) : Z := 10 * digit_val a + digit_val b.
Definition val4 (a b c d : ascii) : Z := 100 * val2 a b + val2 c d.

(** ** Moments as text *)
Definition MICROS : Z := 1000000.
Definition DAY_S : Z := 86400.

(** The first moment of year [y]. *)
Definition year_start (y : Z) : Z := days_of_date y 1 1 * DAY_S * MICROS.

(** [moment.strftime("%Y-%m-%dT%H:%M:%SZ")]; the C library does not pad a
    year before 1000. *)
Definition stamp (moment : Z) : string :=
  let s := moment / MICROS in
  let '(y, m, d) := date_of_days (s / DAY_S) in
  let r := s mod DAY_S in
  (if y <? 1000 then str_of_Z y else four y "")
  +:+ String "-" (two m (String "-" (two d (String "T"
      (two (r / 3600) (String ":" (two (r / 60 mod 60) (String ":" (two (r mod 60) "Z"))))))))).

(** [re.fullmatch("^[0-9]{4}-[0-9]{2}-[0-9]{2}T[0-9]{2}:[0-9]{2}:[0-9]{2}Z$", text)]:
    the six numbers, or [None]. *)
Definition time_fields (s : string) : option (Z * Z * Z * Z * Z * Z) :=
  match String.list_ascii_of_string s with
  | [y1; y2; y3; y4; c1; m1; m2; c2; d1; d2; c3; h1; h2; c4; n1; n2; c5; s1; s2; c6] =>
      if (forallb is_digit [y1; y2; y3; y4; m1; m2; d1; d2; h1; h2; n1; n2; s1; s2]
          && (Ascii.eqb c1 "-" && Ascii.eqb c2 "-" && Ascii.eqb c3 "T" && Ascii.eqb c4 ":"
              && Ascii.eqb c5 ":" && Ascii.eqb c6 "Z"))%bool
      then Some (val4 y1 y2 y3 y4, val2 m1 m2, val2 d1 d2, val2 h1 h2, val2 n1 n2, val2 s1 s2)
      else None
  | _ => None
  end.

Definition time_match (s : string) : bool :=
  match time_fields s with Some _ => true | None => false end.

(** [datetime.fromisoformat(value[:-1] + "+00:00")] of a text that matches;
    [None] where it raises [ValueError]. *)
Definition parse_stamp (s : string) : option Z :=
  match time_fields s with
  | Some (y, m, d, hh, mm, ss) =>
      if date_ok y m d && (hh <=? 23) && (mm <=? 59) && (ss <=? 59)
      then Some (((days_of_date y m d * DAY_S) + hh * 3600 + mm * 60 + ss) * MICROS)
      else None
  | None => None
  end.

Lemma time_fields_text y m d hh mm ss :
  0 ≤ y ≤ 9999 → 0 ≤ m ≤ 99 → 0 ≤ d ≤ 99 → 0 ≤ hh ≤ 99 → 0 ≤ mm ≤ 99 → 0 ≤ ss ≤ 99 →
  time_fields (four y (String "-" (two m (String "-" (two d (String "T"
      (two hh (String ":" (two mm (String ":" (two ss "Z"))))))))))) = Some (y, m, d, hh, mm, ss).
Proof.
  intros. unfold time_fields, four, two. cbn [String.list_ascii_of_string].
  cbn [forallb]. rewrite !digit_chr_is_digit by (Z.to_euclidean_division_equations; lia).
  simpl. unfold val4, val2. rewrite !digit_val_chr by (Z.to_euclidean_division_equations; lia).
  repeat f_equal; Z.to_euclidean_division_equations; lia.
Qed.

(** Years between the first and the last day of a span of years. *)
Lemma date_of_days_year n y m d :
  date_of_days n = (y, m, d) → days_of_date 1000 1 1 ≤ n < days_of_date 10000 1 1 → 1000 ≤ y ≤ 9999.
Proof.
  intros Hd Hn. pose proof (date_of_days_ok _ _ _ _ Hd) as [Hm Hdd].
  pose proof (days_of_date_of_days _ _ _ _ Hd) as He. clear Hd.
  assert (1 ≤ d ≤ 31) as Hd31.
  { unfold days_in_month in Hdd. repeat case_match; lia. }
  clear Hdd. unfold days_of_date in *. simpl in Hn.
  change (999 mod 400) with 199 in Hn. change (9999 mod 400) with 399 in Hn. simpl in Hn.
  destruct (Z.leb_spec m 2), (Z.gtb_spec m 2); try lia;
    Z.to_euclidean_division_equations; lia.
Qed.

(** A printed moment is read back as the start of its second. *)
Lemma parse_stamp_stamp t :
  year_start 1000 ≤ t < year_start 10000 → parse_stamp (stamp t) = Some (t / MICROS * MICROS).
Proof.
  intros Ht. unfold stamp, parse_stamp.
  destruct (date_of_days (t / MICROS / DAY_S)) as [[y m] d] eqn:Ed.
  pose proof (date_of_days_ok _ _ _ _ Ed) as [Hm Hdd].
  assert (1000 ≤ y ≤ 9999) as Hy.
  { apply (date_of_days_year _ _ _ _ Ed). unfold year_start, MICROS, DAY_S in *.
    Z.to_euclidean_division_equations; lia. }
  apply days_of_date_of_days in Ed.
  assert (d ≤ 31) as Hd31 by (unfold days_in_month in Hdd; repeat case_match; lia).
  set (r := (t / MICROS) mod DAY_S).
  assert (0 ≤ r < 86400) as Hr by (subst r; apply Z.mod_pos_bound; unfold DAY_S; lia).
  assert (t / MICROS = days_of_date y m d * DAY_S + r) as Hs.
  { rewrite Ed. subst r. unfold DAY_S. pose proof (Z.div_mod (t / MICROS) 86400). lia. }
  rewrite (proj2 (Z.ltb_ge y 1000)) by lia.
  change (four y "" +:+ ?r) with (four y r).
  rewrite time_fields_text by (Z.to_euclidean_division_equations; lia).
  replace (date_ok y m d && _ && _ && _)%bool with true.
  2: { symmetry. unfold date_ok. rewrite !andb_true_iff, !Z.leb_le.
       Z.to_euclidean_division_equations; lia. }
  rewrite Hs. do 2 f_equal. clearbody r. Z.to_euclidean_division_equations; lia.
Qed.

Lemma time_match_stamp t : year_start 1000 ≤ t < year_start 10000 → time_match (stamp t) = true.
Proof.
  intros Ht. pose proof (parse_stamp_stamp t Ht) as Hp. unfold parse_stamp, time_match in *.
  by destruct (time_fields (stamp t)).
Qed.
