(* ===== verification/Scope.v ===== *)
(** * File scopes of work items ([work_queue.py], path helpers)

    [fnmatch.fnmatchcase] of the standard library, the path helpers and the
    test whether two scopes overlap, with what that test guarantees. *)

From Stdlib Require Import Ascii.
From S2P Require Import Prelude PyText AsciiText.

(** ** [fnmatch.fnmatchcase]

    The pattern is compiled the way [fnmatch.translate] does it; characters
    are code points. *)
Inductive set_item := SRange (lo hi : Z).
Inductive token := TStar | TAny | TNever | TLit (c : Z) | TSet (negated : bool) (items : list set_item).

Definition ch (a : ascii) : Z := code a.

(** The texts between the hyphens that make ranges: a hyphen among the first
    [skip] characters of a chunk is literal. *)
Fixpoint range_chunks (skip : nat) (cur s : list Z) : list (list Z) :=
  match s with
  | [] => match cur with [] => [[ch "-"]] | _ => [cur] end
  | c :: r =>
      match skip with
      | S skip => range_chunks skip (cur ++ [c]) r
      | O =>
          if c =? ch "-"
          then match r with
               | [] => [cur ++ [c]]
               | _ => cur :: range_chunks 2 [] r
               end
          else range_chunks 0 (cur ++ [c]) r
      end
  end.

(** Drops a range whose ends are out of order, from the last chunk backwards. *)
Definition merge_chunk (c : list Z) (rest : list (list Z)) : list (list Z) :=
  match rest with
  | [] => [c]
  | d :: r => if default 0 (head d) <? default 0 (last c) then (removelast c ++ tail d) :: r else c :: rest
  end.

(** The regular expression's reading of a set: [true] marks a bare hyphen. *)
Fixpoint set_items (s : list (Z * bool)) : list set_item :=
  match s with
  | (a, _) :: (((_, true) :: (b, _) :: r)) => SRange a b :: set_items r
  | (a, _) :: r => SRange a a :: set_items r
  | [] => []
  end.

Fixpoint mark_chunks (chunks : list (list Z)) : list (Z * bool) :=
  match chunks with
  | [] => []
  | [c] => map (λ x, (x, false)) c
  | c :: r => map (λ x, (x, false)) c ++ (ch "-", true) :: mark_chunks r
  end.

(** [\[stuff\]] of a pattern, without its brackets. *)
Definition set_token (stuff : list Z) : token :=
  let skip := if decide (head stuff = Some (ch "!")) then 2%nat else 1%nat in
  match mark_chunks (foldr merge_chunk [] (range_chunks skip [] stuff)) with
  | [] => TNever
  | [(c, _)] => if c =? ch "!" then TAny else TSet false [SRange c c]
  | ((c, _) :: r) as marked =>
      if c =? ch "!" then TSet true (set_items r) else TSet false (set_items marked)
  end.

(** The text up to the first closing bracket, and what follows it. *)
Fixpoint until_bracket (s : list Z) : option (list Z * list Z) :=
  match s with
  | [] => None
  | c :: r =>
      if c =? ch "]" then Some ([], r)
      else '(a, b) ← until_bracket r; Some (c :: a, b)
  end.

(** The set after an opening bracket: a bracket right at its start, or right
    after the negation mark, does not close it. *)
Definition bracket (s : list Z) : option (list Z * list Z) :=
  let '(bang, s1) := match s with c :: r => if c =? ch "!" then ([c], r) else ([], s) | [] => ([], s) end in
  let '(close, s2) := match s1 with c :: r => if c =? ch "]" then ([c], r) else ([], s1) | [] => ([], s1) end in
  '(a, b) ← until_bracket s2; Some (bang ++ close ++ a, b).

Fixpoint translate (fuel : nat) (pat : list Z) : list token :=
  match fuel, pat with
  | S fuel, c :: r =>
      if c =? ch "*" then TStar :: translate fuel r
      else if c =? ch "?" then TAny :: translate fuel r
      else if c =? ch "[" then
        match bracket r with
        | Some (stuff, r') => set_token stuff :: translate fuel r'
        | None => TLit c :: translate fuel r
        end
      else TLit c :: translate fuel r
  | _, _ => []
  end.

Definition in_set (items : list set_item) (c : Z) : bool :=
  existsb (λ i, match i with SRange lo hi => (lo <=? c) && (c <=? hi) end) items.

Definition token_matches (t : token) (c : Z) : bool :=
  match t with
  | TAny => true
  | TLit d => c =? d
  | TSet negated items => xorb negated (in_set items c)
  | TStar | TNever => false
  end.

Fixpoint token_match (ts : list token) (s : list Z) : bool :=
  match ts with
  | [] => match s with [] => true | _ => false end
  | TStar :: ts =>
      (fix star s := (token_match ts s || match s with [] => false | _ :: r => star r end)%bool) s
  | t :: ts => match s with [] => false | c :: r => token_matches t c && token_match ts r end
  end.

(** [fnmatch.fnmatchcase(name, pat)] *)
Definition fnmatchcase (name pat : string) : bool :=
  let p := code_points pat in token_match (translate (length p) p) (code_points name).

(** ** Text helpers of the standard library *)

(** [s.replace("\\", "/")] *)
Fixpoint slashes (s : string) : string :=
  match s with
  | String a r => String (if Ascii.eqb a "\" then "/"%char else a) (slashes r)
  | "" => ""
  end.

(** [s.lstrip("./")] *)
Fixpoint lstrip_dots (s : string) : string :=
  match s with
  | String a r => if (Ascii.eqb a "." || Ascii.eqb a "/")%bool then lstrip_dots r else s
  | "" => ""
  end.

(** [s.rstrip("/")] *)
Fixpoint rstrip_slash (s : string) : string :=
  match s with
  | "" => ""
  | String a r =>
      match rstrip_slash r with
      | "" => if Ascii.eqb a "/" then "" else String a ""
      | t => String a t
      end
  end.

Definition startswith (s p : string) : bool := String.prefix p s.

(** [s[:-1]] of a text that ends in a one-byte character. *)
Fixpoint drop_last (s : string) : string :=
  match s with
  | "" | String _ "" => ""
  | String a r => String a (drop_last r)
  end.

(** [s.split("/")] *)
Fixpoint split_slash (s : string) : list string :=
  match s with
  | "" => [""]
  | String a r =>
      if Ascii.eqb a "/" then "" :: split_slash r
      else match split_slash r with
           | p :: ps => String a p :: ps
           | [] => [String a ""]
           end
  end.

Fixpoint join_slash (l : list string) : string :=
  match l with [] => "" | [p] => p | p :: r => p +:+ "/" +:+ join_slash r end.

(** ** The path helpers *)
Definition _norm (value : string) : string := lstrip_dots (slashes value).

Definition _wild (value : string) : bool :=
  existsb (λ a, Ascii.eqb a "*" || Ascii.eqb a "?" || Ascii.eqb a "[")%bool
    (String.list_ascii_of_string value).

(** The components before the first one with a wildcard. *)
Fixpoint take_concrete (parts : list string) : list string :=
  match parts with
  | [] => []
  | p :: r => if _wild p then [] else p :: take_concrete r
  end.

Definition _prefix (pattern : string) : string := join_slash (take_concrete (split_slash pattern)).

Definition _inside_dir (directory path : string) : bool :=
  if (negb (ends_with "/" directory) || _wild directory)%bool then false
  else (bool_decide (path = drop_last directory) || startswith path directory)%bool.

Definition _paths_overlap (left right : string) : bool :=
  let a := _norm left in
  let b := _norm right in
  if (bool_decide (a = b) || fnmatchcase a b || fnmatchcase b a)%bool then true
  else if (_inside_dir a b || _inside_dir b a)%bool then true
  else
    let a_wild := _wild a in
    let b_wild := _wild b in
    if (a_wild && negb b_wild)%bool then startswith b (_prefix a +:+ "/")
    else if (b_wild && negb a_wild)%bool then startswith a (_prefix b +:+ "/")
    else if (a_wild && b_wild)%bool then
      let pa := _prefix a in
      let pb := _prefix b in
      if (bool_decide (pa = "") || bool_decide (pb = ""))%bool then true
      else (bool_decide (pa = pb) || startswith pa (pb +:+ "/") || startswith pb (pa +:+ "/"))%bool
    else false.

Definition _directory_covers (scope path : string) : bool :=
  if _paths_overlap scope path then true
  else
    let directory := rstrip_slash (_norm scope) in
    let concrete := rstrip_slash (_norm path) in
    if (bool_decide (directory = "") || bool_decide (concrete = "") || _wild directory)%bool then false
    else (bool_decide (concrete = directory) || startswith concrete (directory +:+ "/"))%bool.

Definition scopes_overlap (left right : list string) : bool :=
  existsb (λ a, existsb (λ b, _paths_overlap a b) right) left.

(** ** What an empty overlap guarantees *)

(** A scope covers a path: it names it, its glob matches it, or it is a
    directory above it. *)
Definition covers (scope path : string) : bool :=
  let a := _norm scope in
  (bool_decide (path = a) || fnmatchcase path a || _inside_dir a path)%bool.

Definition covered (scopes : list string) (path : string) : bool := existsb (λ s, covers s path) scopes.

(** A path of a file: ASCII and without wildcards. *)
Definition plain (path : string) : bool := (is_ascii path && negb (_wild path))%bool.

(** A directory scope and a glob scope are not compared soundly. *)
Definition comparable (left right : string) : bool :=
  let a := _norm left in
  let b := _norm right in
  negb (_wild a && negb (_wild b) && ends_with "/" b || _wild b && negb (_wild a) && ends_with "/" a).

Lemma prefix_app p s : String.prefix p s = true ↔ ∃ r, s = p +:+ r.
Proof.
  revert s. induction p as [|a p IH]; intros s.
  { split; [|by destruct s]. exists s. done. }
  destruct s as [|b s]; simpl; [split; [done|by intros [r [=]]]|].
  destruct (ascii_dec a b) as [->|Hn].
  - rewrite IH. split; intros [r Hr]; exists r; [by rewrite string_app_cons, Hr|].
    rewrite string_app_cons in Hr. by simplify_eq.
  - split; [done|]. intros [r Hr]. rewrite string_app_cons in Hr. by simplify_eq.
Qed.

Lemma wild_app a b : _wild (a +:+ b) = (_wild a || _wild b)%bool.
Proof. unfold _wild. by rewrite list_ascii_app, existsb_app. Qed.


#[export] Instance code_inj : Inj (=) (=) code.
Proof.
  intros a b Hab%(inj Z.of_N). apply (f_equal ascii_of_N) in Hab.
  by rewrite !ascii_N_embedding in Hab.
Qed.

#[export] Instance codes_inj : Inj (=) (=) codes.
Proof.
  intros a b Hab. unfold codes in Hab. apply (inj (fmap code)) in Hab.
  by rewrite <-(String.string_of_list_ascii_of_string a), Hab, String.string_of_list_ascii_of_string.
Qed.

(** The concrete beginning of a pattern is matched letter by letter. *)
Lemma translate_concrete u r n :
  _wild u = false → translate (length (codes u) + n) (codes u ++ r) = (map TLit (codes u) ++ translate n r)%list.
Proof.
  unfold _wild, codes. induction (String.list_ascii_of_string u) as [|a l IH]; [done|].
  simpl. intros [Ha Hl]%orb_false_iff.
  assert (code a ≠ ch "*" ∧ code a ≠ ch "?" ∧ code a ≠ ch "[") as (H1 & H2 & H3).
  { unfold ch. split_and!; intros ->%(inj code); done. }
  rewrite !(proj2 (Z.eqb_neq _ _)) by done. by rewrite IH.
Qed.

Lemma token_match_lits u ts s :
  token_match (map TLit u ++ ts) s = true ↔ ∃ r, s = (u ++ r)%list ∧ token_match ts r = true.
Proof.
  revert s. induction u as [|c u IH]; intros s; [naive_solver|]. destruct s as [|d s]; simpl.
  { split; [done|by intros (r & [=] & _)]. }
  rewrite andb_true_iff, Z.eqb_eq, IH. naive_solver.
Qed.

Lemma fnmatch_starts_with path u r :
  is_ascii path = true → is_ascii (u +:+ r) = true → _wild u = false →
  fnmatchcase path (u +:+ r) = true → String.prefix u path = true.
Proof.
  intros Hp Hs Hw. unfold fnmatchcase. rewrite !code_points_ascii, codes_app, length_app by done.
  rewrite translate_concrete by done. rewrite token_match_lits. intros (t & Ht & _).
  apply prefix_app. clear -Ht. revert path Ht. induction u as [|a u IH]; intros path Ht; [by exists path|].
  destruct path as [|b path]; [done|]. unfold codes in *. simpl in Ht. simplify_eq.
  destruct (IH path) as [q ->]; [done|]. by exists q.
Qed.

Lemma fnmatch_concrete path u :
  is_ascii path = true → is_ascii u = true → _wild u = false →
  fnmatchcase path u = true ↔ path = u.
Proof.
  intros Hp Hs Hw. unfold fnmatchcase. rewrite !code_points_ascii by done.
  pose proof (translate_concrete u [] 0 Hw) as Ht. rewrite Nat.add_0_r, !app_nil_r in Ht. rewrite Ht.
  rewrite <-(app_nil_r (map TLit (codes u))), token_match_lits. split.
  - intros (r & Hr & Hm). destruct r; [|done]. rewrite app_nil_r in Hr. by apply (inj codes).
  - intros ->. exists []. by rewrite app_nil_r.
Qed.

(** *** The concrete directory in front of a glob *)
Lemma split_slash_ne s : split_slash s ≠ [].
Proof. destruct s; simpl; [done|]. repeat case_match; done. Qed.

Lemma join_split s : join_slash (split_slash s) = s.
Proof.
  induction s as [|a s IH]; [done|]. simpl. destruct (Ascii.eqb_spec a "/") as [->|].
  - destruct (split_slash s) eqn:E; [by apply split_slash_ne in E|]. cbn [join_slash] in *.
    change ("" +:+ "/" +:+ ?x) with (String "/" x). by rewrite IH.
  - destruct (split_slash s) as [|p [|q l]] eqn:E; [by apply split_slash_ne in E| |].
    + by rewrite <-IH.
    + change (String a (join_slash (p :: q :: l)) = String a s). by rewrite IH.
Qed.

Lemma join_app l1 l2 :
  l1 ≠ [] → l2 ≠ [] → join_slash (l1 ++ l2) = join_slash l1 +:+ "/" +:+ join_slash l2.
Proof.
  intros H1 H2. induction l1 as [|p l1 IH]; [done|]. destruct l1 as [|q l1].
  { simpl. destruct l2; done. }
  change (p +:+ "/" +:+ join_slash ((q :: l1) ++ l2)
          = (p +:+ "/" +:+ join_slash (q :: l1)) +:+ "/" +:+ join_slash l2).
  rewrite (IH ltac:(done)). by rewrite !string_app_assoc.
Qed.

Lemma take_concrete_app parts : ∃ rest, parts = (take_concrete parts ++ rest)%list.
Proof.
  induction parts as [|p r [rest IH]]; [by exists []|]. simpl. destruct (_wild p); [by exists (p :: r)|].
  exists rest. simpl. by f_equal.
Qed.

Lemma join_concrete parts : _wild (join_slash (take_concrete parts)) = false.
Proof.
  induction parts as [|p r IH]; [done|]. simpl. destruct (_wild p) eqn:Ep; [done|].
  destruct (take_concrete r); cbn [join_slash] in *; [done|]. by rewrite !wild_app, Ep, IH.
Qed.

Lemma prefix_concrete s : _wild (_prefix s) = false.
Proof. apply join_concrete. Qed.

Lemma prefix_splits s : _wild s = true → _prefix s ≠ "" → ∃ r, s = (_prefix s +:+ "/") +:+ r.
Proof.
  intros Hw Hp. unfold _prefix in *. destruct (take_concrete_app (split_slash s)) as [rest Hr].
  pose proof (join_split s) as Hj. pose proof (join_concrete (split_slash s)) as Hc.
  set (l1 := take_concrete (split_slash s)) in *.
  destruct (decide (l1 = [])) as [E|]; [by rewrite E in Hp|]. destruct (decide (rest = [])) as [E|].
  { rewrite E, app_nil_r in Hr. rewrite Hr in Hj. congruence. }
  exists (join_slash rest). rewrite string_app_assoc, <-join_app by done. by rewrite <-Hr, Hj.
Qed.

(** Of two prefixes of a text one is a prefix of the other. *)
Lemma prefixes_nested p q s :
  String.prefix p s = true → String.prefix q s = true →
  String.prefix p q = true ∨ String.prefix q p = true.
Proof.
  revert q s. induction p as [|a p IH]; intros q s Hp Hq; [left; by destruct q|].
  destruct q as [|b q]; [by right|]. destruct s as [|c s]; [done|]. simpl in *.
  repeat case_match; simplify_eq. by eapply IH.
Qed.

Lemma prefix_refl s : String.prefix s s = true.
Proof. apply prefix_app. exists "". by rewrite string_app_nil_r. Qed.

Lemma ends_drop s : ends_with "/" s = true → s = drop_last s +:+ "/".
Proof.
  induction s as [|a [|b s] IH]; [done| |].
  - simpl. by intros ->%Ascii.eqb_eq.
  - intros Hs. change (drop_last (String a (String b s))) with (String a (drop_last (String b s))).
    rewrite string_app_cons, <-IH; [done|exact Hs].
Qed.

Lemma inside_dir_spec d p :
  _inside_dir d p = true ↔
  ends_with "/" d = true ∧ _wild d = false ∧ (d = p +:+ "/" ∨ String.prefix d p = true).
Proof.
  unfold _inside_dir, startswith.
  destruct (ends_with "/" d) eqn:E, (_wild d) eqn:W; simpl; try naive_solver.
  rewrite orb_true_iff, bool_decide_eq_true. pose proof (ends_drop _ E) as Ed. split.
  - intros [->|Hp]; naive_solver.
  - intros (_ & _ & [Hp|Hp]); [left|by right]. apply (string_app_inj_r _ _ "/"). congruence.
Qed.

Lemma paths_overlap_sym a b : _paths_overlap a b = _paths_overlap b a.
Proof.
  unfold _paths_overlap. set (x := _norm a). set (y := _norm b).
  rewrite (bool_decide_ext (x = y) (y = x)) by done.
  rewrite (bool_decide_ext (_prefix x = _prefix y) (_prefix y = _prefix x)) by done.
  destruct (bool_decide (y = x)), (fnmatchcase x y), (fnmatchcase y x); simpl; try done.
  destruct (_inside_dir x y), (_inside_dir y x); simpl; try done.
  destruct (_wild x), (_wild y); simpl; try done.
  destruct (bool_decide (_prefix x = "")), (bool_decide (_prefix y = "")); simpl; try done.
  rewrite <-!orb_assoc. f_equal. apply orb_comm.
Qed.

Lemma scopes_overlap_sym l r : scopes_overlap l r = scopes_overlap r l.
Proof.
  apply eq_iff_eq_true. unfold scopes_overlap. rewrite !existsb_exists.
  setoid_rewrite existsb_exists.
  split; intros (a & Ha & b & Hb & Ho); exists b; (split; [done|]); exists a; (split; [done|]);
    by rewrite paths_overlap_sym.
Qed.

Section soundness.
Variables (a b p : string).
Hypothesis (Hp : plain p = true).

Lemma plain_ascii : is_ascii p = true.
Proof. by apply andb_true_iff in Hp as [? _]. Qed.

Lemma plain_concrete : _wild p = false.
Proof. apply andb_true_iff in Hp as [_ Hw]. by apply negb_true_iff. Qed.

(** What covers a path, by the kind of scope. *)
Lemma covers_concrete s : is_ascii (_norm s) = true → _wild (_norm s) = false → covers s p = true →
  p = _norm s ∨ _inside_dir (_norm s) p = true.
Proof.
  unfold covers. intros Ha Hw Hc. apply orb_true_iff in Hc as [[Hc|Hc]%orb_true_iff|]; [| |by right].
  - left. by apply bool_decide_eq_true in Hc.
  - left. by apply fnmatch_concrete in Hc; [| apply plain_ascii| |].
Qed.

Lemma covers_glob s : _wild (_norm s) = true → covers s p = true → fnmatchcase p (_norm s) = true.
Proof.
  unfold covers. intros Hw Hc. apply orb_true_iff in Hc as [[Hc|Hc]%orb_true_iff|Hc]; [|done|].
  - apply bool_decide_eq_true in Hc. rewrite <-Hc, plain_concrete in Hw. done.
  - apply inside_dir_spec in Hc as (_ & Hc & _). congruence.
Qed.

Lemma concrete_overlap x y :
  (p = x ∨ _inside_dir x p = true) → (p = y ∨ _inside_dir y p = true) →
  x = y ∨ _inside_dir x y = true ∨ _inside_dir y x = true.
Proof.
  intros [->|Hx] [Hy|Hy]; subst; try by auto.
  apply inside_dir_spec in Hx as Hx'; apply inside_dir_spec in Hy as Hy'.
  destruct Hx' as (Ex & Wx & [Hx'|Hx']), Hy' as (Ey & Wy & [Hy'|Hy']); [left; congruence| | |].
  - right; right. apply inside_dir_spec. split_and!; [done..|]. right. subst x.
    apply prefix_app in Hy' as [r ->]. apply prefix_app. exists (r +:+ "/"). by rewrite string_app_assoc.
  - right; left. apply inside_dir_spec. split_and!; [done..|]. right. subst y.
    apply prefix_app in Hx' as [r ->]. apply prefix_app. exists (r +:+ "/"). by rewrite string_app_assoc.
  - right. destruct (prefixes_nested _ _ _ Hx' Hy'); [left|right]; apply inside_dir_spec; auto.
Qed.

(** Two globs over one path have nested concrete directories. *)
Lemma globs_overlap x y :
  is_ascii x = true → is_ascii y = true → _wild x = true → _wild y = true →
  _prefix x ≠ "" → _prefix y ≠ "" → fnmatchcase p x = true → fnmatchcase p y = true →
  _prefix x = _prefix y ∨ String.prefix (_prefix y +:+ "/") (_prefix x) = true
  ∨ String.prefix (_prefix x +:+ "/") (_prefix y) = true.
Proof.
  assert (∀ s, is_ascii s = true → _wild s = true → _prefix s ≠ "" → fnmatchcase p s = true →
    String.prefix (_prefix s +:+ "/") p = true) as Hs.
  { intros s Ha Hw Hn Hf. destruct (prefix_splits s Hw Hn) as [r Hr]. rewrite Hr in Ha, Hf.
    apply fnmatch_starts_with in Hf; [done|apply plain_ascii|done|].
    by rewrite wild_app, prefix_concrete. }
  assert (∀ u v, String.prefix (u +:+ "/") (v +:+ "/") = true → u = v ∨ String.prefix (u +:+ "/") v = true) as Hn.
  { intros u v [r Hr]%prefix_app. rewrite string_app_assoc in Hr.
    destruct (string_snoc r) as [->|(r' & c & ->)].
    - left. rewrite string_app_nil_r in Hr. by apply string_app_inj_r in Hr.
    - right. apply prefix_app. exists r'. rewrite <-!string_app_assoc in Hr.
      apply string_snoc_inj in Hr as [-> _]. done. }
  intros. destruct (prefixes_nested (_prefix x +:+ "/") (_prefix y +:+ "/") p) as [Hxy|Hxy]; [by apply Hs..| |].
  - destruct (Hn _ _ Hxy); auto.
  - destruct (Hn _ _ Hxy); auto.
Qed.

Lemma covers_overlap :
  is_ascii (_norm a) = true → is_ascii (_norm b) = true → comparable a b = true →
  covers a p = true → covers b p = true → _paths_overlap a b = true.
Proof.
  intros Ha Hb Hc Ca Cb. unfold comparable in Hc. unfold _paths_overlap.
  destruct (_wild (_norm a)) eqn:Wa, (_wild (_norm b)) eqn:Wb; simpl in *.
  - apply covers_glob in Ca, Cb; [|done..].
    destruct (bool_decide (_norm a = _norm b) || _ || _)%bool; [done|].
    destruct (_inside_dir _ _ || _)%bool; [done|].
    destruct (decide (_prefix (_norm a) = "")) as [E|]; [by rewrite E|].
    destruct (decide (_prefix (_norm b) = "")) as [E|]; [by rewrite E, orb_true_r|].
    rewrite !bool_decide_eq_false_2 by done. simpl. unfold startswith.
    destruct (globs_overlap (_norm a) (_norm b)) as [E|E]; try done.
    { by rewrite bool_decide_eq_true_2. }
    by destruct E as [-> | ->]; rewrite ?orb_true_r.
  - apply covers_glob in Ca; [|done]. apply covers_concrete in Cb; [|done..].
    assert (p = _norm b) as <-. { destruct Cb as [|Cb]; [done|]. apply inside_dir_spec in Cb as [E _].
      rewrite E in Hc. done. }
    rewrite Ca, orb_true_r. done.
  - apply covers_glob in Cb; [|done]. apply covers_concrete in Ca; [|done..].
    assert (p = _norm a) as <-. { destruct Ca as [|Ca]; [done|]. apply inside_dir_spec in Ca as [E _].
      rewrite E in Hc. done. }
    rewrite Cb, orb_true_r. done.
  - apply covers_concrete in Ca, Cb; [|done..].
    destruct (concrete_overlap _ _ Ca Cb) as [E|E].
    { by rewrite E, bool_decide_eq_true_2. }
    destruct (bool_decide _ || _ || _)%bool; [done|].
    by destruct E as [-> | ->]; rewrite ?orb_true_r.
Qed.
End soundness.

(** Work items whose scopes do not overlap share no file: for ASCII
    scopes in which no glob meets a directory, a path without wildcards that
    one of the scopes covers is covered by none of the other item's.  This is
    what lets the queue hand two items out at the same time. *)
Theorem disjoint_scopes_share_no_file left right path :
  Forall (λ a, is_ascii (_norm a) = true) left → Forall (λ b, is_ascii (_norm b) = true) right →
  (∀ a b, a ∈ left → b ∈ right → comparable a b = true) → plain path = true →
  scopes_overlap left right = false → (covered left path && covered right path)%bool = false.
Proof.
  rewrite !Forall_forall. intros Hl Hr Hc Hp Hn. apply not_true_iff_false in Hn.
  apply not_true_iff_false. intros [Ca Cb]%andb_true_iff. apply Hn. unfold covered, scopes_overlap in *.
  apply existsb_exists in Ca as (a & Ha & Ca). apply existsb_exists in Cb as (b & Hb & Cb).
  apply existsb_exists. exists a. split; [done|]. apply existsb_exists. exists b. split; [done|].
  apply (covers_overlap a b path); try done.
  - apply Hl. by apply list_elem_of_In.
  - apply Hr. by apply list_elem_of_In.
  - apply Hc; by apply list_elem_of_In.
Qed.

(** A glob scope and a directory scope over the same file are taken to be
    disjoint: the restriction above is needed. *)
Lemma glob_and_directory_missed :
  covered ["*/model.py"] "src/model.py" = true ∧ covered ["src/"] "src/model.py" = true
  ∧ scopes_overlap ["*/model.py"] ["src/"] = false.
Proof. by vm_compute. Qed.
