(* ===== verification/Utf8.v ===== *)
(** * Well-formed UTF-8

    A text that [utf8_valid] accepts is a sequence of characters, each the
    bytes of a Unicode scalar value; what cutting and joining such texts
    leaves. *)

From Stdlib Require Import Ascii.
From S2P Require Import Prelude PyText AsciiText Scope.

(** A Unicode scalar value: a code point that is no surrogate. *)
Definition scalar_value (c : Z) : Prop := 0 ≤ c < 1114112 ∧ ¬ 55296 ≤ c < 57344.

Lemma code_bounds a : 0 ≤ code a < 256.
Proof. unfold code. pose proof (N_ascii_bounded a). lia. Qed.

Lemma byte_chr_code a : byte_chr (code a) = String a "".
Proof. unfold byte_chr, code. by rewrite N2Z.id, ascii_N_embedding. Qed.

Lemma code_byte c : 0 ≤ c < 256 → code (ascii_of_N (Z.to_N c)) = c.
Proof. intros Hc. unfold code. rewrite N_ascii_embedding; lia. Qed.

Lemma utf8_head a r : utf8_valid (String a r) = true → is_cont a = false.
Proof.
  intros Hv. unfold is_cont. destruct (Z.leb_spec 128 (code a)), (Z.ltb_spec (code a) 192); try done.
  cbn [utf8_valid] in Hv. destruct (Z.ltb_spec (code a) 128); [lia|].
  destruct (Z.leb_spec 194 (code a)); [lia|]. destruct (Z.leb_spec 224 (code a)); [lia|].
  destruct (Z.leb_spec 240 (code a)); [lia|]. done.
Qed.

Lemma code_points_after c s :
  utf8_valid s = true → code_points_aux (Some c) s = c :: code_points s.
Proof.
  destruct s as [|a r]; [done|]. intros Hv%utf8_head. unfold code_points. cbn [code_points_aux].
  by rewrite Hv.
Qed.

Lemma is_cont_bounds a : is_cont a = true ↔ 128 ≤ code a < 192.
Proof. unfold is_cont. rewrite andb_true_iff, Z.leb_le, Z.ltb_lt. done. Qed.

(** The UTF-8 bytes of a code point, by their number. *)
Lemma py_chr_2 a b :
  194 ≤ code a < 224 → 128 ≤ code b < 192 →
  py_chr ((code a - 192) * 64 + (code b - 128)) = String a (String b "").
Proof.
  intros Ha Hb. set (c := _ + _).
  assert (128 ≤ c < 2048 ∧ 192 + c / 64 = code a ∧ 128 + c mod 64 = code b) as (Hc & E1 & E2)
    by (unfold c; clear c; Z.to_euclidean_division_equations; lia).
  clearbody c. unfold py_chr. destruct (Z.ltb_spec c 128), (Z.ltb_spec c 2048); try lia.
  by rewrite E1, E2, !byte_chr_code.
Qed.

Lemma py_chr_3 a b d :
  224 ≤ code a < 240 → 128 ≤ code b < 192 → 128 ≤ code d < 192 → (code a = 224 → 160 ≤ code b) →
  py_chr (((code a - 224) * 64 + (code b - 128)) * 64 + (code d - 128)) = String a (String b (String d "")).
Proof.
  intros Ha Hb Hd He. set (c := _ + (code d - 128)).
  assert (2048 ≤ c < 65536 ∧ 224 + c / 4096 = code a ∧ 128 + c / 64 mod 64 = code b
          ∧ 128 + c mod 64 = code d) as (Hc & E1 & E2 & E3)
    by (unfold c; clear c; Z.to_euclidean_division_equations; lia).
  clearbody c. unfold py_chr.
  destruct (Z.ltb_spec c 128), (Z.ltb_spec c 2048), (Z.ltb_spec c 65536); try lia.
  by rewrite E1, E2, E3, !byte_chr_code.
Qed.

Lemma py_chr_4 a b d e :
  240 ≤ code a < 245 → 128 ≤ code b < 192 → 128 ≤ code d < 192 → 128 ≤ code e < 192 →
  (code a = 240 → 144 ≤ code b) →
  py_chr ((((code a - 240) * 64 + (code b - 128)) * 64 + (code d - 128)) * 64 + (code e - 128))
  = String a (String b (String d (String e ""))).
Proof.
  intros Ha Hb Hd He Hlow. set (c := _ + (code e - 128)).
  assert (65536 ≤ c ∧ 240 + c / 262144 = code a ∧ 128 + c / 4096 mod 64 = code b
          ∧ 128 + c / 64 mod 64 = code d ∧ 128 + c mod 64 = code e) as (Hc & E1 & E2 & E3 & E4)
    by (unfold c; clear c; Z.to_euclidean_division_equations; lia).
  clearbody c. unfold py_chr.
  destruct (Z.ltb_spec c 128), (Z.ltb_spec c 2048), (Z.ltb_spec c 65536); try lia.
  by rewrite E1, E2, E3, E4, !byte_chr_code.
Qed.

(** A well-formed text is its first character and the rest. *)
Lemma utf8_first s :
  utf8_valid s = true → s ≠ "" →
  ∃ c r, s = py_chr c +:+ r ∧ scalar_value c ∧ code_points s = c :: code_points r ∧
         utf8_valid r = true ∧ (String.length r < String.length s)%nat.
Proof.
  destruct s as [|a r]; [done|]. intros Hv _. pose proof (utf8_head a r Hv) as Ha.
  pose proof (code_bounds a) as Hab. cbn [utf8_valid] in Hv. unfold code_points, scalar_value. cbn [code_points_aux]. rewrite Ha.
  destruct (Z.ltb_spec (code a) 128) as [H1|H1].
  { exists (code a), r. unfold py_chr. destruct (Z.ltb_spec (code a) 128); [|lia].
    rewrite byte_chr_code. cbn [app]. rewrite code_points_after by done. split_and!; done || lia || (simpl; lia). }
  assert (194 ≤ code a) as H2.
  { destruct (Z.leb_spec 194 (code a)); [done|]. destruct (Z.leb_spec 224 (code a)); [lia|].
    by destruct (Z.leb_spec 240 (code a)); [lia|]. }
  apply Z.leb_le in H2 as H2'. rewrite H2' in Hv. cbn [andb] in Hv.
  destruct (Z.ltb_spec (code a) 224) as [H3|H3].
  { destruct r as [|b r]; [done|]. bool_hyps. rename select (is_cont b = true) into Hb.
    pose proof Hb as Hb'%is_cont_bounds. exists ((code a - 192) * 64 + (code b - 128)), r.
    rewrite py_chr_2 by lia. cbn [app code_points_aux]. rewrite Hb, code_points_after by done.
    split_and!; done || lia || (simpl; lia). }
  destruct (Z.leb_spec 224 (code a)) as [H4|H4], (Z.ltb_spec (code a) 240) as [H5|H5]; try lia; cbn [andb] in Hv.
  { destruct r as [|b [|d r]]; [done..|]. bool_hyps.
    rename select (is_cont b = true) into Hb. rename select (is_cont d = true) into Hd.
    pose proof Hb as Hb'%is_cont_bounds. pose proof Hd as Hd'%is_cont_bounds.
    assert (code a = 224 → 160 ≤ code b) as Hlow.
    { intros E. rewrite E in *. simpl in *. bool_hyps. lia. }
    assert (code a = 237 → code b < 160) as Hsur.
    { intros E. rewrite E in *. simpl in *. bool_hyps. lia. }
    exists (((code a - 224) * 64 + (code b - 128)) * 64 + (code d - 128)), r.
    rewrite py_chr_3 by lia. cbn [app code_points_aux]. rewrite Hb, Hd, code_points_after by done.
    split_and!; done || lia || (simpl; lia). }
  destruct (Z.leb_spec 240 (code a)) as [H6|H6], (Z.ltb_spec (code a) 245) as [H7|H7]; try lia; cbn [andb] in Hv.
  2: done.
  destruct r as [|b [|d [|e r]]]; [done..|]. bool_hyps.
  rename select (is_cont b = true) into Hb. rename select (is_cont d = true) into Hd.
  rename select (is_cont e = true) into He.
  pose proof Hb as Hb'%is_cont_bounds. pose proof Hd as Hd'%is_cont_bounds. pose proof He as He'%is_cont_bounds.
  assert (code a = 240 → 144 ≤ code b) as Hlow.
  { intros E. rewrite E in *. simpl in *. bool_hyps. lia. }
  assert (code a = 244 → code b < 144) as Hhigh.
  { intros E. rewrite E in *. simpl in *. bool_hyps. lia. }
  exists ((((code a - 240) * 64 + (code b - 128)) * 64 + (code d - 128)) * 64 + (code e - 128)), r.
  rewrite py_chr_4 by lia. cbn [app code_points_aux]. rewrite Hb, Hd, He, code_points_after by done.
  split_and!; done || lia || (simpl; lia).
Qed.


(** ** The bytes of a character *)

(** A character is one ASCII byte, or a lead byte with continuation bytes, none of them ASCII. *)
Lemma py_chr_bytes c :
  scalar_value c → ∃ a l, py_chr c = String a l ∧ is_cont a = false ∧
    forallb is_cont (String.list_ascii_of_string l) = true ∧ (code a < 128 → l = "" ∧ code a = c) ∧
    (∀ t, utf8_valid (String a (l +:+ t)) = utf8_valid t).
Proof.
  intros [Hc Hs]. unfold py_chr, byte_chr.
  set (byte z := ascii_of_N (Z.to_N z)).
  assert (∀ x, 0 ≤ x < 256 → code (byte x) = x) as Hcode by (intros; by apply code_byte).
  assert (∀ x, 128 ≤ x < 192 → is_cont (byte x) = true) as Hcont.
  { intros x Hx. apply is_cont_bounds. by rewrite Hcode by lia. }
  assert (∀ x, 192 ≤ x < 256 → is_cont (byte x) = false) as Hlead.
  { intros x Hx. unfold is_cont. rewrite Hcode by lia. destruct (Z.ltb_spec x 192); [lia|]. apply andb_false_r. }
  destruct (Z.ltb_spec c 128).
  { exists (byte c), "". split; [done|]. split.
    { unfold is_cont. rewrite Hcode by lia. by destruct (Z.leb_spec 128 c); [lia|]. }
    rewrite Hcode by lia. split_and!; try done. intros t. cbn [utf8_valid]. rewrite Hcode by lia.
    change ("" +:+ t) with t. by destruct (Z.ltb_spec c 128); [|lia]. }
  destruct (Z.ltb_spec c 2048).
  { set (x := 192 + c / 64). set (y := 128 + c mod 64).
    assert (194 ≤ x < 224 ∧ 128 ≤ y < 192) as [Hx Hy] by (unfold x, y; Z.to_euclidean_division_equations; lia).
    clearbody x y. exists (byte x), (String (byte y) "").
    split; [done|]. rewrite Hlead, Hcode by lia. split_and!; [done|simpl; by rewrite Hcont|lia|].
    intros t. rewrite string_app_cons. cbn [utf8_valid]. rewrite Hcont, Hcode by lia.
    destruct (Z.ltb_spec x 128), (Z.leb_spec 194 x), (Z.ltb_spec x 224); done || lia. }
  destruct (Z.ltb_spec c 65536).
  { set (x := 224 + c / 4096). set (y := 128 + c / 64 mod 64). set (z := 128 + c mod 64).
    assert (224 ≤ x < 240 ∧ 128 ≤ y < 192 ∧ 128 ≤ z < 192 ∧ (x = 224 → 160 ≤ y) ∧ (x = 237 → y < 160))
      as (Hx & Hy & Hz & Hlo & Hsur) by (unfold x, y, z; Z.to_euclidean_division_equations; lia).
    clearbody x y z. exists (byte x), (String (byte y) (String (byte z) "")).
    split; [done|]. rewrite Hlead, Hcode by lia. split_and!; [done|simpl; by rewrite !Hcont|lia|].
    intros t. rewrite !string_app_cons. cbn [utf8_valid]. rewrite !Hcont, !Hcode by lia.
    destruct (Z.ltb_spec x 128), (Z.leb_spec 194 x), (Z.ltb_spec x 224), (Z.leb_spec 224 x), (Z.ltb_spec x 240);
      try lia.
    destruct (Z.eqb_spec x 224), (Z.eqb_spec x 237), (Z.leb_spec 160 y), (Z.ltb_spec y 160); done || lia. }
  set (x := 240 + c / 262144). set (y := 128 + c / 4096 mod 64). set (z := 128 + c / 64 mod 64).
  set (v := 128 + c mod 64).
  assert (240 ≤ x < 245 ∧ 128 ≤ y < 192 ∧ 128 ≤ z < 192 ∧ 128 ≤ v < 192 ∧ (x = 240 → 144 ≤ y)
          ∧ (x = 244 → y < 144)) as (Hx & Hy & Hz & Hv & Hlo & Hhi)
    by (unfold x, y, z, v; Z.to_euclidean_division_equations; lia).
  clearbody x y z v. exists (byte x), (String (byte y) (String (byte z) (String (byte v) ""))).
  split; [done|]. rewrite Hlead, Hcode by lia. split_and!; [done|simpl; by rewrite !Hcont|lia|].
  intros t. rewrite !string_app_cons. cbn [utf8_valid]. rewrite !Hcont, !Hcode by lia.
  destruct (Z.ltb_spec x 128), (Z.leb_spec 194 x), (Z.ltb_spec x 224), (Z.leb_spec 224 x), (Z.ltb_spec x 240),
    (Z.leb_spec 240 x), (Z.ltb_spec x 245); try lia.
  destruct (Z.eqb_spec x 240), (Z.eqb_spec x 244), (Z.leb_spec 144 y), (Z.ltb_spec y 144); done || lia.
Qed.

(** Induction on the characters of a text. *)
Lemma utf8_ind (P : string → Prop) :
  P "" → (∀ c s, scalar_value c → utf8_valid s = true → P s → P (py_chr c +:+ s)) →
  ∀ s, utf8_valid s = true → P s.
Proof.
  intros H0 Hc s. remember (String.length s) as n eqn:Hn. revert s Hn.
  induction n as [n IH] using lt_wf_ind. intros s -> Hv.
  destruct (decide (s = "")) as [->|Hne]; [done|].
  destruct (utf8_first s Hv Hne) as (c & r & -> & Hs & _ & Hr & Hlt). apply Hc; [done..|]. by eapply IH.
Qed.

Lemma utf8_chr c s : scalar_value c → utf8_valid (py_chr c +:+ s) = utf8_valid s.
Proof. intros Hc. destruct (py_chr_bytes c Hc) as (a & l & -> & _ & _ & _ & Hv). apply Hv. Qed.

Lemma utf8_app a b : utf8_valid a = true → utf8_valid b = true → utf8_valid (a +:+ b) = true.
Proof.
  intros Ha Hb. revert a Ha. apply utf8_ind; [done|]. intros c s Hc _ IH.
  by rewrite string_app_assoc, utf8_chr.
Qed.

Lemma py_take_cont n l t :
  forallb is_cont (String.list_ascii_of_string l) = true → py_take n (l +:+ t) = l +:+ py_take n t.
Proof.
  induction l as [|a l IH]; intros Hl; [done|]. simpl in Hl. bool_hyps. rewrite !string_app_cons.
  simpl. rewrite H. by rewrite IH.
Qed.

Lemma utf8_take n s : utf8_valid s = true → utf8_valid (py_take n s) = true.
Proof.
  intros Hs. revert s Hs n. apply (utf8_ind (λ s, ∀ n, utf8_valid (py_take n s) = true)); [done|].
  intros c s Hc Hs IH n. destruct (py_chr_bytes c Hc) as (a & l & -> & Ha & Hl & _ & Hv).
  rewrite string_app_cons. cbn [py_take]. rewrite Ha. destruct n as [|n]; [done|].
  by rewrite py_take_cont, Hv.
Qed.

(** ** Paths *)

Definition slash_free (s : string) : bool :=
  forallb (λ a, negb (Ascii.eqb a "/")) (String.list_ascii_of_string s).

Lemma split_after s t :
  slash_free s = true → ∃ p ps, split_slash t = p :: ps ∧ split_slash (s +:+ t) = (s +:+ p) :: ps.
Proof.
  intros Hs. destruct (split_slash t) as [|p ps] eqn:E; [by apply split_slash_ne in E|]. exists p, ps.
  split; [done|]. revert Hs. unfold slash_free.
  induction s as [|a s IH]; intros Hs; [done|]. simpl in Hs. bool_hyps. rewrite !string_app_cons.
  cbn [split_slash]. destruct (Ascii.eqb a "/"); [done|]. by rewrite IH.
Qed.

(** A character is a slash or has none among its bytes. *)
Lemma chr_slash c : scalar_value c → py_chr c = "/" ∨ slash_free (py_chr c) = true.
Proof.
  intros Hc. destruct (py_chr_bytes c Hc) as (a & l & -> & _ & Hl & Ha & _). unfold slash_free. simpl.
  destruct (Ascii.eqb_spec a "/") as [->|Hne].
  - left. by destruct (Ha eq_refl) as [-> _].
  - right. simpl. rewrite forallb_forall in Hl |- *. intros b Hb. apply Hl, is_cont_bounds in Hb.
    destruct (Ascii.eqb_spec b "/") as [E|]; [|done]. subst b. by destruct Hb.
Qed.

Lemma utf8_split s : utf8_valid s = true → Forall (λ p, utf8_valid p = true) (split_slash s).
Proof.
  revert s. apply utf8_ind; [by repeat constructor|]. intros c s Hc _ IH.
  destruct (chr_slash c Hc) as [->|Hf].
  - change ("/" +:+ s) with (String "/" s). simpl. by constructor.
  - destruct (split_after (py_chr c) s Hf) as (p & ps & E & ->). rewrite E in IH.
    apply Forall_cons in IH as [Hp Hps]. constructor; [by rewrite utf8_chr|done].
Qed.

Lemma utf8_join l : Forall (λ p, utf8_valid p = true) l → utf8_valid (join_slash l) = true.
Proof.
  induction 1 as [|p l Hp Hl IH]; [done|]. destruct l as [|q l]; [done|].
  change (join_slash (p :: q :: l)) with (p +:+ "/" +:+ join_slash (q :: l)). by apply utf8_app, (utf8_app "/").
Qed.
