(* ===== verification/Json.v ===== *)
(** * JSON values

    What the source uses of Python's [json]: the values, the canonical
    encoding [json.dumps(value, sort_keys=True, separators=(",", ":"),
    ensure_ascii=False, allow_nan=False)], the decoder [json.loads], and of
    Python itself truth value, equality and [str()] of such values.  The main
    result is the round trip of the two encoders. *)

From Stdlib Require Import Ascii DecimalString DecimalN DecimalFacts DecimalPos.
From S2P Require Import Prelude PyText.

(** What is taken from the platform: binary64 conversion and the Unicode
    database.  A finite float is carried as the text [repr] gives it. *)
Class PyPlatform := {
  (** [repr(float(text))] of a JSON number literal; [None] when it overflows. *)
  float_norm : string → option string;
  (** The number a [repr] text denotes. *)
  float_val : string → Q;
  (** [str.isprintable] of a code point above 126. *)
  isprintable : Z → bool;
}.

Inductive json :=
  | JNull
  | JBool (b : bool)
  | JInt (z : Z)
  | JFloat (tok : string)
  | JStr (s : string)
  | JArr (l : list json)
  | JObj (kvs : list (string * json)).

(** Induction with hypotheses for the members of arrays and objects. *)
Section json_induction.
Context (P : json → Prop).
Context (Hnull : P JNull) (Hbool : ∀ b, P (JBool b)) (Hint : ∀ z, P (JInt z))
        (Hfloat : ∀ t, P (JFloat t)) (Hstr : ∀ s, P (JStr s))
        (Harr : ∀ l, Forall P l → P (JArr l))
        (Hobj : ∀ kvs, Forall (λ kv, P kv.2) kvs → P (JObj kvs)).

Fixpoint json_ind' (j : json) : P j :=
  match j with
  | JNull => Hnull
  | JBool b => Hbool b
  | JInt z => Hint z
  | JFloat t => Hfloat t
  | JStr s => Hstr s
  | JArr l => Harr l
      ((fix go l : Forall P l :=
          match l with
          | [] => Forall_nil_2 P
          | x :: r => Forall_cons_2 P x r (json_ind' x) (go r)
          end) l)
  | JObj kvs => Hobj kvs
      ((fix go l : Forall (λ kv, P kv.2) l :=
          match l with
          | [] => Forall_nil_2 _
          | x :: r => Forall_cons_2 (λ kv, P kv.2) x r (json_ind' x.2) (go r)
          end) kvs)
  end.
End json_induction.

#[export] Instance json_eq_dec : EqDecision json.
Proof.
  refine (fix go (a b : json) : Decision (a = b) :=
    match a, b with
    | JNull, JNull => left eq_refl
    | JBool x, JBool y => cast_if (decide (x = y))
    | JInt x, JInt y => cast_if (decide (x = y))
    | JFloat x, JFloat y => cast_if (decide (x = y))
    | JStr x, JStr y => cast_if (decide (x = y))
    | JArr x, JArr y =>
        let _ : EqDecision json := go in cast_if (decide (x = y))
    | JObj x, JObj y =>
        let _ : EqDecision json := go in cast_if (decide (x = y))
    | _, _ => right _
    end); abstract congruence.
Defined.

(** ** Dictionaries: association lists in insertion order *)
Fixpoint jget (k : string) (kvs : list (string * json)) : option json :=
  match kvs with
  | [] => None
  | (k', v) :: r => if decide (k = k') then Some v else jget k r
  end.

(** [d.get(k)]: [None] for a missing key and for a null alike. *)
Definition jget_none (k : string) (kvs : list (string * json)) : json :=
  default JNull (jget k kvs).

(** [k in d] *)
Definition jhas (k : string) (kvs : list (string * json)) : bool :=
  match jget k kvs with Some _ => true | None => false end.

(** [d[k] = v] *)
Fixpoint jset (k : string) (v : json) (kvs : list (string * json)) : list (string * json) :=
  match kvs with
  | [] => [(k, v)]
  | (k', v') :: r => if decide (k = k') then (k', v) :: r else (k', v') :: jset k v r
  end.

Definition is_null (j : json) : bool := match j with JNull => true | _ => false end.
Definition is_list (j : json) : bool := match j with JArr _ => true | _ => false end.
Definition is_dict (j : json) : bool := match j with JObj _ => true | _ => false end.
Definition is_bool (j : json) : bool := match j with JBool _ => true | _ => false end.

(** [json_hashable]: lists and dicts raise [TypeError] in a membership test of
    a set or a dict. *)
Definition json_hashable (j : json) : bool :=
  match j with JArr _ | JObj _ => false | _ => true end.

(** [j in {"..", ".."}] for a set of strings. *)
Definition json_in_strs (j : json) (l : list string) : result bool :=
  if json_hashable j
  then Ok match j with JStr s => bool_decide (s ∈ l) | _ => false end
  else raise TypeError "unhashable type".

(** ** The canonical encoding *)
Definition dquote : string := String "034" "".

Definition escape_char (a : ascii) : string :=
  let c := code a in
  if c =? 34 then String "\" dquote
  else if c =? 92 then "\\"
  else if c =? 8 then "\b"
  else if c =? 9 then "\t"
  else if c =? 10 then "\n"
  else if c =? 12 then "\f"
  else if c =? 13 then "\r"
  else if c <? 32 then "\u00" +:+ String (hex_digit (c / 16)) (String (hex_digit (c mod 16)) "")
  else String a "".

Fixpoint escape (s : string) : string :=
  match s with "" => "" | String a r => escape_char a +:+ escape r end.

Definition quote (s : string) : string := dquote +:+ escape s +:+ dquote.

Fixpoint join (sep : string) (l : list string) : string :=
  match l with
  | [] => ""
  | [x] => x
  | x :: r => x +:+ sep +:+ join sep r
  end.

(** An encoder, by how it writes texts and the separators of items and keys. *)
Section encoder.
Variables (qt : string → string) (comma colon : string).

Fixpoint print_with (j : json) : string :=
  match j with
  | JNull => "null"
  | JBool true => "true"
  | JBool false => "false"
  | JInt z => str_of_Z z
  | JFloat t => t
  | JStr s => qt s
  | JArr l => "[" +:+ join comma (map print_with l) +:+ "]"
  | JObj kvs => "{" +:+ join comma (map (λ kv, qt kv.1 +:+ colon +:+ print_with kv.2) kvs) +:+ "}"
  end.

Definition print_member (kv : string * json) : string := qt kv.1 +:+ colon +:+ print_with kv.2.
End encoder.

Definition print : json → string := print_with quote "," ":".

Fixpoint insert_kv (k : string) (v : json) (kvs : list (string * json)) :=
  match kvs with
  | [] => [(k, v)]
  | (k', v') :: r => if str_leb k k' then (k, v) :: kvs else (k', v') :: insert_kv k v r
  end.
Definition sort_kvs (kvs : list (string * json)) : list (string * json) :=
  foldr (λ kv acc, insert_kv kv.1 kv.2 acc) [] kvs.

(** [sort_keys=True], at every depth. *)
Fixpoint canon (j : json) : json :=
  match j with
  | JArr l => JArr (map canon l)
  | JObj kvs => JObj (sort_kvs (map (λ kv, (kv.1, canon kv.2)) kvs))
  | _ => j
  end.

Definition canonical_json (j : json) : string := print (canon j).

Definition hex_n (width : nat) (c : Z) : string :=
  (fix go (w : nat) (c : Z) (acc : string) := match w with
   | O => acc
   | S w => go w (c / 16) (String (hex_digit (c mod 16)) acc)
   end) width c "".

(** [json.dumps] with [ensure_ascii]: every code point outside the printable
    ASCII range is escaped, those above U+FFFF as a surrogate pair. *)
Definition u_escape (c : Z) : string := "\u" +:+ hex_n 4 c.
Definition ascii_escape (c : Z) : string :=
  if c =? 34 then String "\" dquote else if c =? 92 then "\\"
  else if c =? 10 then "\n" else if c =? 13 then "\r" else if c =? 9 then "\t"
  else if c =? 8 then "\b" else if c =? 12 then "\f"
  else if (32 <=? c) && (c <? 127) then py_chr c
  else if c <? 65536 then u_escape c
  else u_escape (55296 + (c - 65536) / 1024) +:+ u_escape (56320 + (c - 65536) mod 1024).
Definition ascii_quote (s : string) : string :=
  dquote +:+ String.concat "" (map ascii_escape (code_points s)) +:+ dquote.

(** [json.dumps(value, separators=(",", ":"))] *)
Definition dumps : json → string := print_with ascii_quote "," ":".

(** [json.dumps(value)] *)
Definition dumps_spaced : json → string := print_with ascii_quote ", " ": ".

Definition is_ws (a : ascii) : bool :=
  let c := code a in ((c =? 32) || (c =? 9) || (c =? 10) || (c =? 13))%bool.

Fixpoint skip_ws (s : string) : string :=
  match s with String a r => if is_ws a then skip_ws r else s | "" => "" end.

Fixpoint strip_prefix (p s : string) : option string :=
  match p, s with
  | "", _ => Some s
  | String a p, String b s => if Ascii.eqb a b then strip_prefix p s else None
  | _, _ => None
  end.

Fixpoint span_digits (s : string) : string * string :=
  match s with
  | String a r => if is_digit a then let '(d, t) := span_digits r in (String a d, t) else ("", s)
  | "" => ("", "")
  end.

Definition digits_val (d : string) : Z :=
  match NilEmpty.uint_of_string d with Some u => Z.of_N (N.of_uint u) | None => 0 end.

Definition hex_val (a : ascii) : option Z :=
  let c := code a in
  if (48 <=? c) && (c <=? 57) then Some (c - 48)
  else if (97 <=? c) && (c <=? 102) then Some (c - 87)
  else if (65 <=? c) && (c <=? 70) then Some (c - 55)
  else None.

Definition hex4 (a b c d : ascii) : option Z :=
  a ← hex_val a; b ← hex_val b; c ← hex_val c; d ← hex_val d;
  Some (((a * 16 + b) * 16 + c) * 16 + d).

Definition unescape (a : ascii) : option string :=
  let c := code a in
  if c =? 34 then Some dquote else if c =? 92 then Some "\" else if c =? 47 then Some "/"
  else if c =? 98 then Some (String "008" "") else if c =? 102 then Some (String "012" "")
  else if c =? 110 then Some (String "010" "") else if c =? 114 then Some (String "013" "")
  else if c =? 116 then Some (String "009" "") else None.

(** The body of a string literal, after its opening quote; a high and a low
    surrogate escape in a row are one code point. *)
Fixpoint parse_chars (s : string) : option (string * string) :=
  match s with
  | "" => None
  | String a r =>
      if code a =? 34 then Some ("", r)
      else if code a <? 32 then None
      else if negb (code a =? 92) then
        '(t, rest) ← parse_chars r; Some (String a t, rest)
      else match r with
      | String e r' =>
          if code e =? 117 then
            match r' with
            | String h1 (String h2 (String h3 (String h4 r4))) =>
                c ← hex4 h1 h2 h3 h4;
                let single := '(t, rest) ← parse_chars r4; Some (py_chr c +:+ t, rest) in
                if (55296 <=? c) && (c <? 56320) then
                  match r4 with
                  | String b (String u (String g1 (String g2 (String g3 (String g4 r10))))) =>
                      if (code b =? 92) && (code u =? 117) then
                        c2 ← hex4 g1 g2 g3 g4;
                        if (56320 <=? c2) && (c2 <? 57344) then
                          '(t, rest) ← parse_chars r10;
                          Some (py_chr (65536 + (c - 55296) * 1024 + (c2 - 56320)) +:+ t, rest)
                        else single
                      else single
                  | _ => single
                  end
                else single
            | _ => None
            end
          else x ← unescape e; '(t, rest) ← parse_chars r'; Some (x +:+ t, rest)
      | "" => None
      end
  end.

(** -? (0 | [1-9][0-9]* ) : the text and what follows. *)
Definition scan_int (s : string) : option (string * string) :=
  match s with
  | String a r =>
      if code a =? 48 then Some ("0", r)
      else if is_digit a then Some (span_digits s) else None
  | "" => None
  end.

(** A fraction "." digits, if there is one. *)
Definition scan_frac (s : string) : string * string :=
  match s with
  | String a r =>
      if code a =? 46 then
        match span_digits r with ("", _) => ("", s) | (d, t) => (String a d, t) end
      else ("", s)
  | "" => ("", s)
  end.

(** An exponent [eE] [+-]? digits, if there is one. *)
Definition scan_exp (s : string) : string * string :=
  match s with
  | String a r =>
      if (code a =? 101) || (code a =? 69) then
        match r with
        | String b r' =>
            if (code b =? 43) || (code b =? 45) then
              match span_digits r' with ("", _) => ("", s) | (d, t) => (String a (String b d), t) end
            else match span_digits r with ("", _) => ("", s) | (d, t) => (String a d, t) end
        | "" => ("", s)
        end
      else ("", s)
  | "" => ("", s)
  end.

Section decoder.
Context `{PyPlatform}.

Definition scan_sign (s : string) : bool * string :=
  match s with String a r => if code a =? 45 then (true, r) else (false, s) | "" => (false, s) end.

Definition scan_number (s : string) : option (json * string) :=
  let '(neg, s1) := scan_sign s in
  '(i, s2) ← scan_int s1;
  let '(f, s3) := scan_frac s2 in
  let '(e, s4) := scan_exp s3 in
  match f, e with
  | "", "" => Some (JInt (if neg then - digits_val i else digits_val i), s4)
  | _, _ => t ← float_norm ((if neg then "-" else "") +:+ i +:+ f +:+ e); Some (JFloat t, s4)
  end.

(** [dict(pairs)]: a repeated key keeps its place and takes the last value. *)
Definition dict_of_pairs (kvs : list (string * json)) : list (string * json) :=
  foldl (λ d kv, jset kv.1 kv.2 d) [] kvs.

(** The fuel bounds the depth of calls; [loads] gives one unit per character. *)
Fixpoint parse_value (n : nat) (s : string) {struct n} : option (json * string) :=
  match n with
  | O => None
  | S n =>
      match s with
      | "" => None
      | String a r =>
          if code a =? 34 then '(t, rest) ← parse_chars r; Some (JStr t, rest)
          else if code a =? 123 then
            match strip_prefix "}" (skip_ws r) with
            | Some r' => Some (JObj [], r')
            | None =>
                '(kvs, rest) ← parse_members n (skip_ws r); Some (JObj (dict_of_pairs kvs), rest)
            end
          else if code a =? 91 then
            match strip_prefix "]" (skip_ws r) with
            | Some r' => Some (JArr [], r')
            | None => '(l, rest) ← parse_elems n (skip_ws r); Some (JArr l, rest)
            end
          else match strip_prefix "null" s, strip_prefix "true" s, strip_prefix "false" s with
          | Some r', _, _ => Some (JNull, r')
          | _, Some r', _ => Some (JBool true, r')
          | _, _, Some r' => Some (JBool false, r')
          | _, _, _ => scan_number s
          end
      end
  end
with parse_elems (n : nat) (s : string) {struct n} : option (list json * string) :=
  match n with
  | O => None
  | S n =>
      '(v, r) ← parse_value n s;
      match skip_ws r with
      | String a r' =>
          if code a =? 44 then '(l, rest) ← parse_elems n (skip_ws r'); Some (v :: l, rest)
          else if code a =? 93 then Some ([v], r') else None
      | "" => None
      end
  end
with parse_members (n : nat) (s : string) {struct n} : option (list (string * json) * string) :=
  match n with
  | O => None
  | S n =>
      match s with
      | String q r =>
          if code q =? 34 then
            '(k, r1) ← parse_chars r;
            match strip_prefix ":" (skip_ws r1) with
            | Some r2 =>
                '(v, r3) ← parse_value n (skip_ws r2);
                match skip_ws r3 with
                | String a r' =>
                    if code a =? 44
                    then '(l, rest) ← parse_members n (skip_ws r'); Some ((k, v) :: l, rest)
                    else if code a =? 125 then Some ([(k, v)], r') else None
                | "" => None
                end
            | None => None
            end
          else None
      | "" => None
      end
  end.

(** [json.loads(text)] of texts whose numbers are finite; NaN and the infinities,
    which it takes too, fail here. *)
Definition loads (s : string) : result json :=
  match parse_value (S (String.length s)) (skip_ws s) with
  | Some (j, rest) => if decide (skip_ws rest = "") then Ok j else raise ValueError "Extra data"
  | None => raise ValueError "invalid JSON"
  end.

End decoder.

(** ** Python views of a value: truth, equality, [repr], [str] *)
Section python.
Context `{PyPlatform}.

Definition num_val (j : json) : option Q :=
  match j with
  | JBool b => Some (if b then 1%Q else 0%Q)
  | JInt z => Some (inject_Z z)
  | JFloat t => Some (float_val t)
  | _ => None
  end.

(** [bool(value)] *)
Definition py_truthy (j : json) : bool :=
  match j with
  | JNull => false
  | JStr s => negb (bool_decide (s = ""))
  | JArr l => match l with [] => false | _ => true end
  | JObj l => match l with [] => false | _ => true end
  | _ => match num_val j with Some q => negb (Qeq_bool q 0) | None => false end
  end.

(** [a == b]: numbers by value across [bool], [int] and [float], dicts
    whatever the order of their keys. *)
Fixpoint py_eq (a b : json) {struct a} : bool :=
  match a, b with
  | JNull, JNull => true
  | JStr s, JStr t => bool_decide (s = t)
  | JArr l, JArr m =>
      (fix go l m := match l, m with
       | [], [] => true
       | x :: l, y :: m => (py_eq x y && go l m)%bool
       | _, _ => false
       end) l m
  | JObj l, JObj m =>
      (bool_decide (length l = length m)
       && (fix go l := match l with
           | [] => true
           | kv :: l =>
               (match jget kv.1 m with Some w => py_eq kv.2 w | None => false end && go l)%bool
           end) l)%bool
  | _, _ =>
      match num_val a, num_val b with Some x, Some y => Qeq_bool x y | _, _ => false end
  end.

Definition repr_char (q : Z) (c : Z) : string :=
  if (c =? q) || (c =? 92) then String "\" (py_chr c)
  else if c =? 9 then "\t" else if c =? 10 then "\n" else if c =? 13 then "\r"
  else if (32 <=? c) && (c <? 127) then py_chr c
  else if (127 <? c) && isprintable c then py_chr c
  else if c <? 256 then "\x" +:+ hex_n 2 c
  else if c <? 65536 then "\u" +:+ hex_n 4 c
  else "\U" +:+ hex_n 8 c.

Definition repr_str (s : string) : string :=
  let q := if py_in "'" s && negb (py_in dquote s) then 34 else 39 in
  py_chr q +:+ String.concat "" (map (repr_char q) (code_points s)) +:+ py_chr q.

Fixpoint py_repr (j : json) : string :=
  match j with
  | JNull => "None"
  | JBool true => "True"
  | JBool false => "False"
  | JInt z => str_of_Z z
  | JFloat t => t
  | JStr s => repr_str s
  | JArr l => "[" +:+ join ", " (map py_repr l) +:+ "]"
  | JObj kvs => "{" +:+ join ", " (map (λ kv, repr_str kv.1 +:+ ": " +:+ py_repr kv.2) kvs) +:+ "}"
  end.

(** [str(value)] *)
Definition py_str (j : json) : string :=
  match j with JStr s => s | _ => py_repr j end.

End python.

(** ** Round trip *)

(** A text after which a number literal has ended. *)
Definition stops (s : string) : Prop :=
  match s with "" => True | String a _ => code a ∈ [44; 93; 125] end.

Lemma digit_code a : is_digit a = true → 48 ≤ code a ≤ 57.
Proof. unfold is_digit. intros. bool_hyps. lia. Qed.

Lemma stops_cases a r : stops (String a r) → code a = 44 ∨ code a = 93 ∨ code a = 125.
Proof. simpl. rewrite !elem_of_cons, elem_of_nil. tauto. Qed.

Lemma stops_not_digit a r : stops (String a r) → is_digit a = false.
Proof.
  intros Hs%stops_cases. destruct (is_digit a) eqn:E; [|done].
  apply digit_code in E. lia.
Qed.

Lemma span_digits_app s d r rest :
  span_digits s = (d, r) → stops rest → span_digits (s +:+ rest) = (d, r +:+ rest).
Proof.
  intros Hs Hr. revert d r Hs. induction s as [|a s IH]; intros d r Hs; simpl in Hs.
  - simplify_eq. change ("" +:+ rest) with rest. destruct rest as [|b rest]; [done|].
    simpl. by rewrite (stops_not_digit b rest).
  - rewrite string_app_cons. simpl. destruct (is_digit a).
    + destruct (span_digits s) as [d' t] eqn:E. simplify_eq. by rewrite (IH d' r).
    + by simplify_eq.
Qed.

Lemma string_of_uint_digits u rest :
  stops rest →
  span_digits (NilEmpty.string_of_uint u +:+ rest) = (NilEmpty.string_of_uint u, rest).
Proof.
  intros Hr. induction u; simpl; rewrite ?string_app_cons; simpl; try (by rewrite IHu).
  change ("" +:+ rest) with rest. destruct rest as [|a r]; [done|].
  simpl. by rewrite (stops_not_digit a r).
Qed.

Lemma digits_val_str n : digits_val (str_of_N n) = Z.of_N n.
Proof. unfold digits_val, str_of_N. by rewrite NilEmpty.usu, DecimalN.Unsigned.of_to. Qed.

Lemma to_uint_normal n : Decimal.unorm (N.to_uint n) = N.to_uint n.
Proof. by rewrite <- DecimalN.Unsigned.to_of, DecimalN.Unsigned.of_to. Qed.

(** The decimal text of a number is what [scan_int] reads back. *)
Lemma scan_int_str n rest :
  stops rest → scan_int (str_of_N n +:+ rest) = Some (str_of_N n, rest).
Proof.
  intros Hr. pose proof (string_of_uint_digits (N.to_uint n) rest Hr) as Hsp.
  pose proof (to_uint_normal n) as Hnorm.
  unfold str_of_N, scan_int.
  destruct (N.to_uint n) as [|u|u|u|u|u|u|u|u|u|u] eqn:E;
    simpl in *; rewrite ?string_app_cons in *; simpl in *; try (by rewrite Hsp).
  assert (u = Decimal.Nil) as Hu; [|by subst u].
  unfold Decimal.unorm in Hnorm. simpl in Hnorm.
  destruct (Decimal.nzhead u) as [|v|v|v|v|v|v|v|v|v|v] eqn:Ez; try discriminate Hnorm.
  - by injection Hnorm.
  - by destruct (DecimalFacts.nzhead_nonzero u v).
Qed.

Lemma str_of_N_head n :
  ∃ a r, str_of_N n = String a r ∧ is_digit a = true.
Proof.
  unfold str_of_N. destruct (N.to_uint n) eqn:E; simpl; eauto.
  pose proof (to_uint_normal n) as Hn. by rewrite E in Hn.
Qed.

Lemma scan_frac_stops rest : stops rest → scan_frac rest = ("", rest).
Proof.
  destruct rest as [|a r]; [done|]. intros H%stops_cases. simpl.
  by destruct (Z.eqb_spec (code a) 46); [lia|].
Qed.

Lemma scan_exp_stops rest : stops rest → scan_exp rest = ("", rest).
Proof.
  destruct rest as [|a r]; [done|]. intros H%stops_cases. simpl.
  destruct (_ || _)%bool eqn:E; [|done]. apply orb_true_iff in E as [E|E]; bool_hyps; lia.
Qed.

Lemma scan_int_app s i r rest :
  scan_int s = Some (i, r) → stops rest → scan_int (s +:+ rest) = Some (i, r +:+ rest).
Proof.
  destruct s as [|a s]; [done|]. unfold scan_int. rewrite string_app_cons.
  destruct (code a =? 48); [intros; by simplify_eq|].
  destruct (is_digit a) eqn:Ha; [|done]. intros Hs Hr. apply (inj Some) in Hs. f_equal.
  rewrite <- string_app_cons. by apply span_digits_app.
Qed.

Lemma scan_frac_app s f r rest :
  scan_frac s = (f, r) → stops rest → scan_frac (s +:+ rest) = (f, r +:+ rest).
Proof.
  destruct s as [|a s]; intros Hs Hr.
  - simpl in Hs. simplify_eq. by apply scan_frac_stops.
  - rewrite string_app_cons. simpl in *. destruct (code a =? 46); [|by simplify_eq].
    destruct (span_digits s) as [d t] eqn:E. rewrite (span_digits_app s d t) by done.
    by destruct d; simplify_eq.
Qed.

Lemma scan_exp_app s f r rest :
  scan_exp s = (f, r) → stops rest → scan_exp (s +:+ rest) = (f, r +:+ rest).
Proof.
  destruct s as [|a s]; intros Hs Hr.
  - simpl in Hs. simplify_eq. by apply scan_exp_stops.
  - rewrite string_app_cons. unfold scan_exp in *. destruct (_ || _)%bool; [|by simplify_eq].
    destruct s as [|b s].
    + simplify_eq. change ("" +:+ rest) with rest. destruct rest as [|c rest]; [done|].
      pose proof (stops_cases _ _ Hr). pose proof (stops_not_digit _ _ Hr) as Hd.
      destruct (_ || _)%bool eqn:E; [apply orb_true_iff in E as [E|E]; bool_hyps; lia|].
      simpl. by rewrite Hd.
    + rewrite string_app_cons. destruct (_ || _)%bool.
      * destruct (span_digits s) as [d t] eqn:E. rewrite (span_digits_app s d t) by done.
        by destruct d; simplify_eq.
      * destruct (span_digits (String b s)) as [d t] eqn:E.
        rewrite <- string_app_cons, (span_digits_app (String b s) d t) by done.
        by destruct d; simplify_eq.
Qed.

Section roundtrip.
Context `{PyPlatform}.

Lemma scan_number_app s j rest :
  scan_number s = Some (j, "") → stops rest → scan_number (s +:+ rest) = Some (j, rest).
Proof.
  unfold scan_number. intros Hs Hr. destruct s as [|a s]; [done|].
  assert (scan_sign (String a s +:+ rest)
          = ((scan_sign (String a s)).1, (scan_sign (String a s)).2 +:+ rest)) as ->.
  { rewrite string_app_cons. simpl. by destruct (code a =? 45). }
  destruct (scan_sign (String a s)) as [neg s1]. simpl.
  destruct (scan_int s1) as [[i s2]|] eqn:Ei; [|done]. simpl in *.
  rewrite (scan_int_app _ _ _ _ Ei Hr). simpl.
  destruct (scan_frac s2) as [f s3] eqn:Ef. rewrite (scan_frac_app _ _ _ _ Ef Hr).
  destruct (scan_exp s3) as [e s4] eqn:Ee. rewrite (scan_exp_app _ _ _ _ Ee Hr).
  destruct f, e; simpl in *;
    try (destruct (float_norm _) as [t|]; simpl in *; [|done]); by simplify_eq.
Qed.

Lemma scan_number_int z rest :
  stops rest → scan_number (str_of_Z z +:+ rest) = Some (JInt z, rest).
Proof.
  intros Hr. unfold scan_number, str_of_Z. destruct (Z.ltb_spec z 0) as [Hz|Hz].
  - rewrite string_app_cons. simpl. rewrite scan_int_str by done. simpl.
    rewrite scan_frac_stops, scan_exp_stops by done. simpl.
    rewrite digits_val_str. do 3 f_equal. lia.
  - assert (scan_sign (str_of_N (Z.to_N z) +:+ rest) = (false, str_of_N (Z.to_N z) +:+ rest)) as ->.
    { destruct (str_of_N_head (Z.to_N z)) as (a & r & -> & Ha%digit_code).
      rewrite string_app_cons. simpl. by destruct (Z.eqb_spec (code a) 45); [lia|]. }
    rewrite scan_int_str by done. simpl.
    rewrite scan_frac_stops, scan_exp_stops by done. simpl.
    rewrite digits_val_str. do 3 f_equal. lia.
Qed.

(** A finite float as [repr] writes it: a number literal with a fraction or
    an exponent that the platform reads back as itself. *)
Definition float_token (t : string) : Prop := scan_number t = Some (JFloat t, "").


Lemma parse_escape_char a rest :
  parse_chars (escape_char a +:+ rest)
  = ('(t, r) ← parse_chars rest; Some (String a t, r)).
Proof.
  destruct a as [[] [] [] [] [] [] [] []]; lazy - [parse_chars]; try reflexivity;
    simpl; by destruct (parse_chars rest) as [[t r]|].
Qed.

Lemma parse_quote s rest : parse_chars (escape s +:+ dquote +:+ rest) = Some (s, rest).
Proof.
  induction s as [|a s IH]; [reflexivity|]. simpl.
  by rewrite string_app_assoc, parse_escape_char, IH.
Qed.


(** Values as Python holds them (keys of a dict are distinct, floats are
    finite) and, for [canonical], with the keys of every dict in order. *)
Definition keys (kvs : list (string * json)) : list string := map fst kvs.
Definition keys_sorted (kvs : list (string * json)) : Prop :=
  StronglySorted String.le (keys kvs) ∧ NoDup (keys kvs).

Fixpoint json_ok (P : list (string * json) → Prop) (j : json) : Prop :=
  match j with
  | JFloat t => float_token t
  | JArr l => foldr (λ x Q, json_ok P x ∧ Q) True l
  | JObj kvs => P kvs ∧ foldr (λ kv Q, json_ok P kv.2 ∧ Q) True kvs
  | _ => True
  end.
Definition json_wf : json → Prop := json_ok (λ kvs, NoDup (keys kvs)).
Definition canonical : json → Prop := json_ok keys_sorted.

(** Every text of a value, keys included. *)
Fixpoint texts (okt : string → Prop) (j : json) : Prop :=
  match j with
  | JStr s => okt s
  | JArr l => foldr (λ x Q, texts okt x ∧ Q) True l
  | JObj kvs => foldr (λ kv Q, (okt kv.1 ∧ texts okt kv.2) ∧ Q) True kvs
  | _ => True
  end.

Lemma texts_arr okt l : texts okt (JArr l) ↔ Forall (texts okt) l.
Proof. simpl. induction l; simpl; rewrite ?Forall_nil, ?Forall_cons; tauto. Qed.

Lemma texts_obj okt kvs : texts okt (JObj kvs) ↔ Forall (λ kv, okt kv.1 ∧ texts okt kv.2) kvs.
Proof. simpl. induction kvs; simpl; rewrite ?Forall_nil, ?Forall_cons; tauto. Qed.

Lemma json_ok_arr P l : json_ok P (JArr l) ↔ Forall (json_ok P) l.
Proof. simpl. induction l; simpl; rewrite ?Forall_nil, ?Forall_cons; tauto. Qed.

Lemma json_ok_obj P kvs : json_ok P (JObj kvs) ↔ P kvs ∧ Forall (λ kv, json_ok P kv.2) kvs.
Proof.
  simpl. apply and_iff_compat_l. induction kvs; simpl; rewrite ?Forall_nil, ?Forall_cons; tauto.
Qed.

Lemma canonical_arr l : canonical (JArr l) ↔ Forall canonical l.
Proof. apply json_ok_arr. Qed.

Lemma canonical_obj kvs :
  canonical (JObj kvs) ↔ keys_sorted kvs ∧ Forall (λ kv, canonical kv.2) kvs.
Proof. apply json_ok_obj. Qed.

Lemma canonical_wf j : canonical j → json_wf j.
Proof.
  induction j as [|[]|z|tok|s|l IH|kvs IH] using json_ind'; intros Hc; try done.
  - apply canonical_arr in Hc. apply json_ok_arr.
    eapply Forall_impl; [apply Forall_and; split; [exact IH|exact Hc]|]. naive_solver.
  - apply canonical_obj in Hc as [[_ Hnd] Hc]. apply json_ok_obj. split; [done|].
    eapply Forall_impl; [apply Forall_and; split; [exact IH|exact Hc]|]. naive_solver.
Qed.

Definition number_start (a : ascii) : Prop := code a = 45 ∨ is_digit a = true.

Lemma scan_number_start s j rest :
  scan_number s = Some (j, rest) → ∃ a r, s = String a r ∧ number_start a.
Proof.
  destruct s as [|a s]; [done|]. intros Hs. exists a, s. split; [done|].
  unfold scan_number, scan_sign, number_start in *. destruct (Z.eqb_spec (code a) 45); [by left|].
  right. unfold scan_int in Hs. destruct (Z.eqb_spec (code a) 48) as [E|].
  - unfold is_digit. by rewrite E.
  - by destruct (is_digit a).
Qed.

Lemma parse_value_number n a r :
  number_start a → parse_value (S n) (String a r) = scan_number (String a r).
Proof.
  intros Ha. assert (code a = 45 ∨ 48 ≤ code a ≤ 57) as Hc.
  { destruct Ha as [|H'%digit_code]; auto. }
  cbn [parse_value strip_prefix].
  destruct (Z.eqb_spec (code a) 34); [lia|]. destruct (Z.eqb_spec (code a) 123); [lia|].
  destruct (Z.eqb_spec (code a) 91); [lia|].
  assert (∀ b, code b = 110 ∨ code b = 116 ∨ code b = 102 → Ascii.eqb b a = false) as Hne.
  { intros b Hb. apply Ascii.eqb_neq. intros ->. lia. }
  by rewrite !Hne by (vm_compute; auto).
Qed.

(** How the text of a value begins: no white space, no closing bracket. *)
Definition starts (s : string) : Prop :=
  ∃ a r, s = String a r ∧ is_ws a = false ∧ code a ≠ 93 ∧ code a ≠ 125.

Lemma starts_app s t : starts s → starts (s +:+ t).
Proof. intros (a & r & -> & ?). rewrite string_app_cons. by eexists _, _. Qed.

Lemma skip_ws_starts s : starts s → skip_ws s = s.
Proof. intros (a & r & -> & Hw & _). simpl. by rewrite Hw. Qed.

Lemma strip_prefix_ne a b r : code a ≠ code b → strip_prefix (String b "") (String a r) = None.
Proof. intros Hc. simpl. by destruct (Ascii.eqb_spec b a) as [->|]. Qed.

Lemma strip_close s : starts s → strip_prefix "]" s = None ∧ strip_prefix "}" s = None.
Proof. intros (a & r & -> & _ & ? & ?). split; by apply strip_prefix_ne. Qed.

Lemma jget_None k kvs : jget k kvs = None ↔ k ∉ keys kvs.
Proof.
  induction kvs as [|[k' v] r IH]; simpl; [set_solver|].
  case_decide; [set_solver|]. set_solver.
Qed.

Lemma jset_new k v d : jget k d = None → jset k v d = (d ++ [(k, v)])%list.
Proof.
  induction d as [|[k' v'] d IH]; simpl; [done|]. case_decide; [done|]. intros. by rewrite IH.
Qed.

Lemma dict_of_pairs_nodup kvs : NoDup (keys kvs) → dict_of_pairs kvs = kvs.
Proof.
  unfold dict_of_pairs. intros Hd. change kvs with ([] ++ kvs)%list at 2.
  assert (NoDup (keys ([] ++ kvs)%list)) as Hnd by done. clear Hd. revert Hnd.
  generalize (@nil (string * json)) as acc. induction kvs as [|[k v] kvs IH]; intros acc Hnd; simpl.
  - by rewrite app_nil_r.
  - rewrite jset_new; [rewrite IH|].
    + by rewrite <- app_assoc.
    + by rewrite <- app_assoc.
    + apply jget_None. unfold keys in Hnd. rewrite map_app in Hnd.
      apply NoDup_app in Hnd as (_ & Hnd & _). simpl in Hnd. set_solver.
Qed.

Lemma stops_cons a r : code a = 44 ∨ code a = 93 ∨ code a = 125 → stops (String a r).
Proof. simpl. rewrite !elem_of_cons, elem_of_nil. tauto. Qed.

(** ** The decoder reads an encoder's text

    An encoder whose texts are read back, and whose separators are a comma
    and a colon with white space behind them, is read back. *)
Section encoder_text.
Variables (qt body : string → string) (comma colon cws kws : string) (okt : string → Prop).
Hypothesis Hqt : ∀ s, qt s = dquote +:+ body s +:+ dquote.
Hypothesis Hbody : ∀ s rest, okt s → parse_chars (body s +:+ dquote +:+ rest) = Some (s, rest).
Hypothesis Hcomma : comma = "," +:+ cws.
Hypothesis Hcolon : colon = ":" +:+ kws.
Hypothesis Hcws : ∀ s, skip_ws (cws +:+ s) = skip_ws s.
Hypothesis Hkws : ∀ s, skip_ws (kws +:+ s) = skip_ws s.

#[local] Abbreviation pr := (print_with qt comma colon).
#[local] Abbreviation member := (print_member qt comma colon).

Lemma pr_start j : json_wf j → starts (pr j).
Proof.
  assert (∀ a, number_start a → is_ws a = false ∧ code a ≠ 93 ∧ code a ≠ 125) as Hn.
  { intros a [Ha|Ha%digit_code]; unfold is_ws;
      repeat (destruct (Z.eqb_spec (code a) _); [lia|]); lia. }
  unfold starts. destruct j as [|[]|z|tok|s|l|kvs]; intros Hc; try (by eexists _, _).
  - destruct (scan_number_start (str_of_Z z +:+ "") (JInt z) "") as (a & r & E & Ha).
    { by apply scan_number_int. }
    rewrite string_app_nil_r in E. simpl. rewrite E. eexists _, _. eauto.
  - destruct (scan_number_start tok (JFloat tok) "") as (a & r & E & Ha); [done|].
    simpl. rewrite E. eexists _, _. eauto.
  - simpl. rewrite Hqt. by eexists _, _.
Qed.

Lemma join_starts l : Forall json_wf l → l ≠ [] → starts (join comma (map pr l)).
Proof.
  intros Hc Hne. destruct l as [|x [|y l]]; [done| |].
  - apply pr_start. by inversion Hc.
  - change (join comma (map pr (x :: y :: l))) with (pr x +:+ comma +:+ join comma (map pr (y :: l))).
    apply starts_app, pr_start. by inversion Hc.
Qed.

Lemma member_start kv : starts (member kv).
Proof. unfold print_member. rewrite Hqt. by eexists _, _. Qed.

Lemma members_start kvs : kvs ≠ [] → starts (join comma (map member kvs)).
Proof. destruct kvs as [|kv [|]]; intros ?; [done|apply member_start|apply starts_app, member_start]. Qed.

Lemma comma_app s : comma +:+ s = "," +:+ cws +:+ s.
Proof. by rewrite Hcomma, string_app_assoc. Qed.

Lemma colon_app s : colon +:+ s = ":" +:+ kws +:+ s.
Proof. by rewrite Hcolon, string_app_assoc. Qed.

Definition parses (j : json) : Prop :=
  json_wf j → texts okt j → ∀ n rest, (String.length (pr j) < n)%nat → stops rest →
  parse_value n (pr j +:+ rest) = Some (j, rest).

Lemma skip_ws_cons a r : is_ws a = false → skip_ws (String a r) = String a r.
Proof. intros Hw. simpl. by rewrite Hw. Qed.

(** Steps over one character of concrete syntax. *)
Ltac step_char :=
  rewrite ?string_app_cons; change ("" +:+ ?s) with s;
  rewrite skip_ws_cons by reflexivity; cbn [mbind option_bind strip_prefix]; rewrite ?Ascii.eqb_refl;
  repeat match goal with
  | |- context [code ?a =? ?n] =>
      let b := eval vm_compute in (code a =? n) in change (code a =? n) with b
  end; cbv iota beta.

Ltac stops_here := apply stops_cons; vm_compute; auto.

Lemma parse_elems_print l rest :
  Forall parses l → Forall json_wf l → Forall (texts okt) l → l ≠ [] →
  ∀ n, (String.length (join comma (map pr l)) + 1 < n)%nat →
  parse_elems n (join comma (map pr l) +:+ "]" +:+ rest) = Some (l, rest).
Proof.
  induction l as [|x l IH]; intros HF Hc Ht Hne n Hn; [done|].
  apply Forall_cons in HF as [Hx HF]. apply Forall_cons in Hc as [Hcx Hc]. apply Forall_cons in Ht as [Htx Ht].
  destruct n as [|n]; [lia|]. destruct l as [|y l].
  - cbn [map join] in *. cbn [parse_elems].
    rewrite Hx by (done || lia || stops_here). cbn [mbind option_bind]. by step_char.
  - change (join comma (map pr (x :: y :: l)))
      with (pr x +:+ comma +:+ join comma (map pr (y :: l))) in *.
    rewrite comma_app, !string_length_app in Hn. cbn [String.length] in Hn.
    rewrite comma_app, !string_app_assoc. cbn [parse_elems].
    rewrite Hx by (done || lia || stops_here). cbn [mbind option_bind]. step_char.
    rewrite Hcws, skip_ws_starts by (by apply starts_app, join_starts).
    by rewrite IH by (done || lia).
Qed.

Lemma parse_members_print kvs rest :
  Forall (λ kv, parses kv.2) kvs → Forall (λ kv, json_wf kv.2) kvs →
  Forall (λ kv, okt kv.1 ∧ texts okt kv.2) kvs → kvs ≠ [] →
  ∀ n, (String.length (join comma (map member kvs)) + 1 < n)%nat →
  parse_members n (join comma (map member kvs) +:+ "}" +:+ rest) = Some (kvs, rest).
Proof.
  induction kvs as [|[k v] kvs IH]; intros HF Hc Ht Hne n Hn; [done|].
  apply Forall_cons in HF as [Hx HF]. apply Forall_cons in Hc as [Hcx Hc].
  apply Forall_cons in Ht as [[Hk Htx] Ht]. destruct n as [|n]; [lia|].
  assert (∃ tail, join comma (map member ((k, v) :: kvs)) = member (k, v) +:+ tail
    ∧ (tail = "" ∧ kvs = [] ∨ tail = comma +:+ join comma (map member kvs) ∧ kvs ≠ []))
    as (tail & E & Htail).
  { destruct kvs; [exists ""|by eexists; eauto]. split; [by rewrite string_app_nil_r|auto]. }
  rewrite E in *. unfold print_member at 1 in Hn. unfold print_member at 1. simpl fst in *. simpl snd in *.
  rewrite Hqt in Hn. rewrite !string_length_app in Hn. cbn [String.length dquote] in Hn.
  rewrite Hqt, !string_app_assoc. unfold dquote at 1. rewrite string_app_cons. cbn [parse_members].
  change ("" +:+ ?s) with s.
  change (code "034" =? 34) with true. cbv iota. rewrite Hbody by done. cbn [mbind option_bind].
  rewrite colon_app, ?string_app_assoc. step_char.
  rewrite Hkws, skip_ws_starts by (by apply starts_app, pr_start).
  destruct Htail as [[-> ->]|[-> Hne']].
  - change ("" +:+ ?s) with s. rewrite Hx by (done || lia || stops_here).
    cbn [mbind option_bind]. by step_char.
  - rewrite comma_app, !string_length_app in Hn. cbn [String.length] in Hn.
    rewrite !string_app_assoc, comma_app, ?string_app_assoc. rewrite Hx by (done || lia || stops_here).
    cbn [mbind option_bind]. step_char.
    rewrite Hcws, skip_ws_starts by (by apply starts_app, members_start).
    by rewrite IH by (done || lia).
Qed.

(** The decoder reads an encoded value back, whatever follows it. *)
Lemma parse_print j : parses j.
Proof.
  induction j as [|[]|z|tok|s|l IH|kvs IH] using json_ind'; intros Hc Ht n rest Hn Hr;
    (destruct n as [|n]; [simpl in Hn; lia|]).
  1-3: reflexivity.
  - destruct (scan_number_start _ _ _ (scan_number_int z "" I)) as (a & r & E & Ha).
    rewrite string_app_nil_r in E. simpl print_with. rewrite E, string_app_cons.
    rewrite parse_value_number by done. rewrite <- string_app_cons, <- E. by apply scan_number_int.
  - destruct (scan_number_start _ _ _ Hc) as (a & r & E & Ha). simpl print_with.
    assert (scan_number (tok +:+ rest) = Some (JFloat tok, rest)) as Hsc by (by apply scan_number_app).
    rewrite E, string_app_cons in *. by rewrite parse_value_number.
  - simpl print_with. rewrite Hqt. unfold dquote at 1. rewrite !string_app_assoc, string_app_cons.
    cbn [parse_value]. change (code "034" =? 34) with true. cbv iota.
    change ("" +:+ ?s) with s. by rewrite Hbody.
  - apply json_ok_arr in Hc. apply texts_arr in Ht. cbn [print_with] in *.
    rewrite !string_app_assoc, string_app_cons.
    cbn [parse_value]. change ("" +:+ ?s) with s.
    change (code "[" =? 34) with false. change (code "[" =? 123) with false.
    change (code "[" =? 91) with true. cbv iota.
    rewrite !string_length_app in Hn. cbn [String.length] in Hn.
    destruct (decide (l = [])) as [->|Hne]; [reflexivity|].
    assert (starts (join comma (map pr l) +:+ "]" +:+ rest)) as Hs by (by apply starts_app, join_starts).
    rewrite skip_ws_starts by done. destruct (strip_close _ Hs) as [-> _].
    by rewrite parse_elems_print by (done || lia).
  - apply json_ok_obj in Hc as [Hnd Hc]. apply texts_obj in Ht. cbn [print_with] in *.
    change (map (λ kv, qt kv.1 +:+ colon +:+ pr kv.2) kvs) with (map member kvs) in *.
    rewrite !string_app_assoc, string_app_cons.
    cbn [parse_value]. change ("" +:+ ?s) with s.
    change (code "{" =? 34) with false. change (code "{" =? 123) with true. cbv iota.
    rewrite !string_length_app in Hn. cbn [String.length] in Hn.
    destruct (decide (kvs = [])) as [->|Hne]; [reflexivity|].
    assert (starts (join comma (map member kvs) +:+ "}" +:+ rest)) as Hs by (by apply starts_app, members_start).
    rewrite skip_ws_starts by done. destruct (strip_close _ Hs) as [_ ->].
    rewrite parse_members_print by (done || lia). simpl. by rewrite dict_of_pairs_nodup.
Qed.

Lemma loads_print_with j : json_wf j → texts okt j → loads (pr j) = Ok j.
Proof.
  intros Hc Ht. unfold loads. rewrite skip_ws_starts by (by apply pr_start).
  rewrite <- (string_app_nil_r (pr j)) at 2. by rewrite parse_print by (done || lia).
Qed.

End encoder_text.

Lemma texts_any j : texts (λ _, True) j.
Proof.
  induction j as [| | | | |l IH|kvs IH] using json_ind'; try done; [by apply texts_arr|].
  apply texts_obj. eapply Forall_impl; [exact IH|]. by intros.
Qed.

Lemma loads_print_wf j : json_wf j → loads (print j) = Ok j.
Proof.
  intros Hw. eapply (loads_print_with quote escape "," ":" "" "" (λ _, True)); auto using texts_any.
  intros s rest _. apply parse_quote.
Qed.

Lemma loads_print j : canonical j → loads (print j) = Ok j.
Proof. intros Hc. by apply loads_print_wf, canonical_wf. Qed.

(** ** Sorting of keys *)
Lemma str_leb_le a b : str_leb a b = true ↔ String.le a b.
Proof. unfold str_leb, String.le. by destruct (String.leb a b). Qed.

Lemma str_leb_total a b : str_leb a b = false → String.le b a.
Proof.
  intros E. destruct (String.leb_total a b) as [E'|E'].
  - unfold str_leb in E. congruence.
  - by apply str_leb_le.
Qed.

Lemma insert_kv_perm k v kvs : insert_kv k v kvs ≡ₚ (k, v) :: kvs.
Proof.
  induction kvs as [|[k' v'] r IH]; simpl; [done|]. destruct (str_leb k k'); [done|].
  by rewrite IH, Permutation_swap.
Qed.

Lemma sort_kvs_perm kvs : sort_kvs kvs ≡ₚ kvs.
Proof. induction kvs as [|[k v] r IH]; simpl; [done|]. by rewrite insert_kv_perm, IH. Qed.

Lemma insert_kv_sorted k v kvs :
  StronglySorted String.le (keys kvs) → StronglySorted String.le (keys (insert_kv k v kvs)).
Proof.
  induction kvs as [|[k' v'] r IH]; simpl; intros Hs; [by repeat constructor|].
  apply StronglySorted_inv in Hs as [Hs Hf]. destruct (str_leb k k') eqn:E; simpl.
  - apply str_leb_le in E. repeat constructor; [done..|]. eapply Forall_impl; [done|].
    intros x Hx. by transitivity k'.
  - apply str_leb_total in E. constructor; [by apply IH|]. unfold keys.
    rewrite insert_kv_perm. by constructor.
Qed.

Lemma sort_kvs_sorted kvs : StronglySorted String.le (keys (sort_kvs kvs)).
Proof. induction kvs as [|[k v] r IH]; simpl; [constructor|]. by apply insert_kv_sorted. Qed.

Lemma sort_kvs_id kvs : StronglySorted String.le (keys kvs) → sort_kvs kvs = kvs.
Proof.
  induction kvs as [|[k v] r IH]; simpl; intros Hs; [done|].
  apply StronglySorted_inv in Hs as [Hs Hf]. rewrite IH by done.
  destruct r as [|[k' v'] r]; [done|]. simpl. apply Forall_cons in Hf as [Hk _].
  apply str_leb_le in Hk. simpl in Hk. by rewrite Hk.
Qed.

Lemma jget_elem k v kvs : NoDup (keys kvs) → jget k kvs = Some v ↔ (k, v) ∈ kvs.
Proof.
  induction kvs as [|[k' v'] r IH]; simpl; intros Hnd; [set_solver|].
  apply NoDup_cons in Hnd as [Hk Hnd]. rewrite elem_of_cons. case_decide as E.
  - subst k'. split; [intros; simplify_eq; by left|]. intros [|Hin]; [by simplify_eq|].
    destruct Hk. by apply (list_elem_of_fmap_2 fst r (k, v)) in Hin.
  - rewrite IH by done. naive_solver.
Qed.

Lemma jget_perm k kvs kvs' : NoDup (keys kvs) → kvs ≡ₚ kvs' → jget k kvs = jget k kvs'.
Proof.
  intros Hnd Hp. assert (NoDup (keys kvs')) as Hnd' by (unfold keys; by rewrite <- Hp).
  apply option_eq. intros v. by rewrite !jget_elem, Hp by done.
Qed.

Lemma jget_sort k kvs : NoDup (keys kvs) → jget k (sort_kvs kvs) = jget k kvs.
Proof. intros Hnd. symmetry. apply jget_perm; [done|]. by rewrite sort_kvs_perm. Qed.

Lemma jget_map k (f : json → json) kvs :
  jget k (map (λ kv, (kv.1, f kv.2)) kvs) = f <$> jget k kvs.
Proof. induction kvs as [|[k' v] r IH]; simpl; [done|]. by case_decide. Qed.

Lemma keys_canon kvs : keys (map (λ kv, (kv.1, canon kv.2)) kvs) = keys kvs.
Proof. unfold keys. by rewrite map_map. Qed.

Lemma canon_obj kvs :
  canon (JObj kvs) = JObj (sort_kvs (map (λ kv, (kv.1, canon kv.2)) kvs)).
Proof. done. Qed.

Lemma canon_canonical j : json_wf j → canonical (canon j).
Proof.
  induction j as [|[]|z|tok|s|l IH|kvs IH] using json_ind'; intros Hw; try done.
  - apply json_ok_arr in Hw. apply canonical_arr. simpl. apply Forall_map.
    eapply Forall_impl; [apply Forall_and; split; [exact IH|exact Hw]|]. naive_solver.
  - apply json_ok_obj in Hw as [Hnd Hw]. rewrite canon_obj. apply canonical_obj. split; [split|].
    + apply sort_kvs_sorted.
    + unfold keys at 1. rewrite sort_kvs_perm. fold (keys (map (λ kv, (kv.1, canon kv.2)) kvs)).
      by rewrite keys_canon.
    + rewrite sort_kvs_perm. apply Forall_map. simpl.
      eapply Forall_impl; [apply Forall_and; split; [exact IH|exact Hw]|]. naive_solver.
Qed.

Lemma canon_id j : canonical j → canon j = j.
Proof.
  induction j as [|[]|z|tok|s|l IH|kvs IH] using json_ind'; intros Hc; try done.
  - apply canonical_arr in Hc. simpl. f_equal. rewrite <- (map_id l) at 2.
    apply map_ext_Forall, Forall_forall. rewrite !Forall_forall in *. eauto.
  - apply canonical_obj in Hc as [[Hs _] Hc]. rewrite canon_obj. f_equal.
    assert (map (λ kv, (kv.1, canon kv.2)) kvs = kvs) as ->; [|by apply sort_kvs_id].
    rewrite <- (map_id kvs) at 2. apply map_ext_Forall. rewrite Forall_forall in *.
    intros [k v] Hkv. simpl. f_equal. by apply (IH (k, v) Hkv), (Hc (k, v)).
Qed.

(** Decoding a canonical encoding gives the value with its keys in order. *)
Lemma loads_canonical_json j : json_wf j → loads (canonical_json j) = Ok (canon j).
Proof. intros Hw. by apply loads_print, canon_canonical. Qed.

Lemma print_inj j j' : canonical j → canonical j' → print j = print j' → j = j'.
Proof.
  intros Hc Hc' E. apply loads_print in Hc, Hc'. rewrite E in Hc. congruence.
Qed.

(** A member of a canonical object is canonical. *)
Lemma jget_canonical k kvs v : canonical (JObj kvs) → jget k kvs = Some v → canonical v.
Proof.
  intros [[_ Hnd] Hc]%canonical_obj Hg. apply jget_elem in Hg; [|done].
  rewrite Forall_forall in Hc. by apply (Hc (k, v)).
Qed.

Lemma py_eq_refl j : json_wf j → py_eq j j = true.
Proof.
  induction j as [|[]|z|tok|s|l IH|kvs IH] using json_ind'; intros Hw; simpl; try done.
  - apply Qeq_bool_iff. reflexivity.
  - apply Qeq_bool_iff. reflexivity.
  - by apply bool_decide_eq_true.
  - apply json_ok_arr in Hw. induction l as [|x l IHl]; simpl; [done|].
    apply Forall_cons in IH as [Hx IH], Hw as [Hwx Hw]. by rewrite Hx, IHl.
  - apply json_ok_obj in Hw as [Hnd Hw]. rewrite bool_decide_eq_true_2 by done. simpl.
    assert (∀ l, l ⊆ kvs → (fix go (l : list (string * json)) : bool := match l with
       | [] => true
       | kv :: l => (match jget kv.1 kvs with Some w => py_eq kv.2 w | None => false end && go l)%bool
       end) l = true) as Hgo; [|by apply Hgo].
    rewrite Forall_forall in IH, Hw.
    induction l as [|[k v] l IHl]; intros Hsub; simpl; [done|].
    assert ((k, v) ∈ kvs) as Hin by set_solver.
    apply (jget_elem _ _ _ Hnd) in Hin as Hg. rewrite Hg, IHl by set_solver.
    pose proof (IH (k, v) Hin (Hw (k, v) Hin)) as Hv. simpl in Hv. by rewrite Hv.
Qed.

End roundtrip.

#[export] Hint Resolve canon_canonical canonical_wf jget_canonical : courier.
