(* ===== verification/JsonAscii.v ===== *)
(** * The ASCII encoder is read back

    [json.dumps] with its default [ensure_ascii] writes every text in ASCII;
    [json.loads] reads any value whose texts are well-formed UTF-8 back. *)

From Stdlib Require Import Ascii.
From S2P Require Import Prelude PyText AsciiText Utf8 Json.

(** ** One code point *)

Lemma hex_val_digit n : 0 ≤ n < 16 → hex_val (hex_digit n) = Some n.
Proof.
  intros Hn. assert (n ∈ map Z.of_nat (seq 0 16)) as Hin.
  { apply list_elem_of_In, in_map_iff. exists (Z.to_nat n). rewrite in_seq. lia. }
  repeat (apply elem_of_cons in Hin as [->|Hin]; [reflexivity|]). by apply elem_of_nil in Hin.
Qed.

Lemma hex_four c : 0 ≤ c < 65536 → ∃ a b d e,
  hex_n 4 c = String a (String b (String d (String e ""))) ∧ hex4 a b d e = Some c.
Proof.
  intros Hc. eexists _, _, _, _. split; [reflexivity|]. unfold hex4.
  assert (∀ x, 0 ≤ x mod 16 < 16) as Hm by (intros; by apply Z.mod_pos_bound).
  rewrite !hex_val_digit by apply Hm. cbn [mbind option_bind]. f_equal.
  Z.to_euclidean_division_equations. lia.
Qed.

(** An escape of four digits. *)
Lemma parse_chars_u h1 h2 h3 h4 r :
  parse_chars (String "\" (String "u" (String h1 (String h2 (String h3 (String h4 r)))))) =
  (c ← hex4 h1 h2 h3 h4;
   let single := '(t, rest) ← parse_chars r; Some (py_chr c +:+ t, rest) in
   if (55296 <=? c) && (c <? 56320) then
     match r with
     | String b (String u (String g1 (String g2 (String g3 (String g4 r10))))) =>
         if (code b =? 92) && (code u =? 117) then
           c2 ← hex4 g1 g2 g3 g4;
           if (56320 <=? c2) && (c2 <? 57344) then
             '(t, rest) ← parse_chars r10;
             Some (py_chr (65536 + (c - 55296) * 1024 + (c2 - 56320)) +:+ t, rest)
           else single
         else single
     | _ => single
     end
   else single)%bool.
Proof. reflexivity. Qed.

Lemma parse_u c rest :
  0 ≤ c < 65536 → ¬ 55296 ≤ c < 56320 →
  parse_chars (u_escape c +:+ rest) = ('(t, r) ← parse_chars rest; Some (py_chr c +:+ t, r)).
Proof.
  intros Hc Hs. destruct (hex_four c Hc) as (a & b & d & e & E & Hx). unfold u_escape. rewrite E.
  change (("\u" +:+ String a (String b (String d (String e "")))) +:+ rest)
    with (String "\" (String "u" (String a (String b (String d (String e rest)))))).
  rewrite parse_chars_u, Hx. cbn [mbind option_bind].
  destruct (Z.leb_spec 55296 c), (Z.ltb_spec c 56320); done || lia.
Qed.

Lemma parse_pair c rest :
  65536 ≤ c < 1114112 →
  parse_chars (u_escape (55296 + (c - 65536) / 1024) +:+ u_escape (56320 + (c - 65536) mod 1024) +:+ rest)
  = ('(t, r) ← parse_chars rest; Some (py_chr c +:+ t, r)).
Proof.
  intros Hc. set (hi := 55296 + _). set (lo := 56320 + _).
  assert (55296 ≤ hi < 56320 ∧ 56320 ≤ lo < 57344 ∧ 65536 + (hi - 55296) * 1024 + (lo - 56320) = c)
    as (Hh & Hl & Hv) by (unfold hi, lo; clear rest hi lo; Z.to_euclidean_division_equations; lia).
  clearbody hi lo. destruct (hex_four hi ltac:(lia)) as (a & b & d & e & E & Hx).
  destruct (hex_four lo ltac:(lia)) as (a' & b' & d' & e' & E' & Hx').
  unfold u_escape. rewrite E, E'.
  change (("\u" +:+ String a (String b (String d (String e "")))) +:+
          ("\u" +:+ String a' (String b' (String d' (String e' "")))) +:+ rest)
    with (String "\" (String "u" (String a (String b (String d (String e
           (String "\" (String "u" (String a' (String b' (String d' (String e' rest)))))))))))).
  rewrite parse_chars_u, Hx. cbn [mbind option_bind].
  change ((code "\" =? 92) && (code "u" =? 117))%bool with true. cbv iota. rewrite Hx'.
  cbn [mbind option_bind]. rewrite Hv.
  destruct (Z.leb_spec 55296 hi), (Z.ltb_spec hi 56320); try lia.
  destruct (Z.leb_spec 56320 lo), (Z.ltb_spec lo 57344); try lia. done.
Qed.

Lemma parse_ascii_escape c rest :
  scalar_value c →
  parse_chars (ascii_escape c +:+ rest) = ('(t, r) ← parse_chars rest; Some (py_chr c +:+ t, r)).
Proof.
  intros [Hc Hs]. unfold ascii_escape.
  repeat (match goal with |- context [c =? ?n] => destruct (Z.eqb_spec c n) as [->|] end;
          [reflexivity|]).
  destruct (Z.leb_spec 32 c), (Z.ltb_spec c 127); cbn [andb].
  2-4: destruct (Z.ltb_spec c 65536); [apply parse_u; lia|rewrite string_app_assoc; apply parse_pair; lia].
  unfold py_chr. destruct (Z.ltb_spec c 128); [|lia]. unfold byte_chr. rewrite string_app_cons.
  change ("" +:+ ?x) with x. cbn [parse_chars]. rewrite code_byte by lia.
  destruct (Z.eqb_spec c 34), (Z.ltb_spec c 32), (Z.eqb_spec c 92); done || lia.
Qed.

(** ** Values *)

Lemma parse_ascii_body s rest :
  utf8_valid s = true →
  parse_chars (String.concat "" (map ascii_escape (code_points s)) +:+ dquote +:+ rest) = Some (s, rest).
Proof.
  remember (String.length s) as n eqn:Hn. revert s Hn. induction n as [n IH] using lt_wf_ind.
  intros s -> Hv. destruct (decide (s = "")) as [->|Hne]; [reflexivity|].
  destruct (utf8_first s Hv Hne) as (c & r & E & Hc & Hcp & Hr & Hlt). rewrite Hcp. cbn [map].
  assert (String.concat "" (ascii_escape c :: map ascii_escape (code_points r))
          = ascii_escape c +:+ String.concat "" (map ascii_escape (code_points r))) as ->.
  { simpl. destruct (map _ _); simpl; [by rewrite string_app_nil_r|done]. }
  rewrite string_app_assoc, parse_ascii_escape by done.
  rewrite (IH (String.length r)) by done. cbn [mbind option_bind]. by rewrite E.
Qed.

Section ascii.
Context `{PyPlatform}.

(** Distinct keys, finite numbers, texts in UTF-8. *)
Definition well_formed (j : json) : Prop := json_wf j ∧ texts (λ s, utf8_valid s = true) j.

(** *** The text is printable *)

Lemma char_printable a : 32 ≤ code a < 127 → printable_char a = true.
Proof. intros Ha. unfold printable_char. apply andb_true_iff. rewrite Z.leb_le, Z.ltb_lt. lia. Qed.

Lemma digit_printable a : is_digit a = true → printable_char a = true.
Proof. intros Hd%digit_code. apply char_printable. lia. Qed.

(** A scanner consumes printable characters: what is left of a text says all. *)
Lemma span_digits_printable s d r : span_digits s = (d, r) → printable r = true → printable s = true.
Proof.
  revert d. induction s as [|a s IH]; intros d Hs Hr; [done|]. simpl in Hs.
  destruct (is_digit a) eqn:E; [|by simplify_eq].
  destruct (span_digits s) as [d' t]. simplify_eq. by rewrite printable_cons, digit_printable, (IH d').
Qed.

Lemma scan_int_printable s i r : scan_int s = Some (i, r) → printable r = true → printable s = true.
Proof.
  destruct s as [|a s]; [done|]. intros Hs Hr. unfold scan_int in Hs.
  destruct (Z.eqb_spec (code a) 48) as [Ha|_].
  - simplify_eq. by rewrite printable_cons, char_printable by lia.
  - destruct (is_digit a); [|done]. apply (inj Some) in Hs. by eapply span_digits_printable.
Qed.

Lemma scan_frac_printable s f r : scan_frac s = (f, r) → printable r = true → printable s = true.
Proof.
  destruct s as [|a s]; intros Hs Hr; [done|]. unfold scan_frac in Hs.
  destruct (Z.eqb_spec (code a) 46) as [Ha|_]; [|by simplify_eq].
  destruct (span_digits s) as [d t] eqn:E. destruct d; simplify_eq; [done|].
  rewrite printable_cons, char_printable by lia. by eapply span_digits_printable.
Qed.

Lemma scan_exp_printable s e r : scan_exp s = (e, r) → printable r = true → printable s = true.
Proof.
  destruct s as [|a s]; intros Hs Hr; [done|]. unfold scan_exp in Hs.
  destruct ((code a =? 101) || (code a =? 69))%bool eqn:Ea; [|by simplify_eq].
  assert (printable_char a = true) as Ha.
  { apply char_printable. apply orb_true_iff in Ea as [Ea|Ea]; apply Z.eqb_eq in Ea; lia. }
  rewrite printable_cons, Ha. cbn [andb]. destruct s as [|b s]; [done|].
  destruct ((code b =? 43) || (code b =? 45))%bool eqn:Eb.
  - assert (printable_char b = true) as Hb.
    { apply char_printable. apply orb_true_iff in Eb as [Eb|Eb]; apply Z.eqb_eq in Eb; lia. }
    rewrite printable_cons, Hb. cbn [andb]. destruct (span_digits s) as [d t] eqn:E.
    destruct d; simplify_eq; [by rewrite !printable_cons, Ha, Hb in Hr|]. by eapply span_digits_printable.
  - destruct (span_digits (String b s)) as [d t] eqn:E.
    destruct d; simplify_eq; [by rewrite printable_cons, Ha in Hr|]. by eapply span_digits_printable.
Qed.

Lemma scan_number_printable s j r : scan_number s = Some (j, r) → printable r = true → printable s = true.
Proof.
  unfold scan_number. intros Hs Hr. destruct (scan_sign s) as [neg s1] eqn:Es.
  assert (printable s1 = true → printable s = true) as Hsign.
  { destruct s as [|a s]; simpl in Es; [by simplify_eq|].
    destruct (Z.eqb_spec (code a) 45) as [Ha|_]; simplify_eq; [|done]. intros Hz. by rewrite printable_cons, char_printable by lia. }
  destruct (scan_int s1) as [[i s2]|] eqn:Ei; [|done]. cbn [mbind option_bind] in Hs.
  destruct (scan_frac s2) as [f s3] eqn:Ef. destruct (scan_exp s3) as [e s4] eqn:Ee.
  assert (s4 = r) as ->.
  { destruct f, e; simpl in Hs; try (destruct (float_norm _); simpl in Hs; [|done]); by simplify_eq. }
  eapply Hsign, scan_int_printable, scan_frac_printable, scan_exp_printable; eauto.
Qed.

Lemma printable_concat l : Forall (λ s, printable s = true) l → printable (String.concat "" l) = true.
Proof.
  induction 1 as [|s l Hs Hl IH]; [done|]. destruct l as [|t l]; [done|].
  change (String.concat "" (s :: t :: l)) with (s +:+ String.concat "" (t :: l)).
  by rewrite printable_app, Hs, IH.
Qed.

Lemma printable_join sep l :
  printable sep = true → Forall (λ s, printable s = true) l → printable (join sep l) = true.
Proof.
  intros Hsep. induction 1 as [|s l Hs Hl IH]; [done|]. destruct l as [|t l]; [done|].
  change (join sep (s :: t :: l)) with (s +:+ sep +:+ join sep (t :: l)).
  by rewrite !printable_app, Hs, Hsep, IH.
Qed.

Lemma hex_n_printable n c : printable (hex_n n c) = true.
Proof.
  unfold hex_n. assert (printable "" = true) as Ha by done. revert c Ha. generalize "" as acc.
  induction n as [|n IH]; intros acc c Ha; [done|]. apply IH. rewrite printable_cons, Ha, andb_true_r.
  unfold hex_digit. apply char_printable. pose proof (Z.mod_pos_bound c 16 ltac:(lia)).
  destruct (Z.ltb_spec (c mod 16) 10); rewrite code_byte by lia; lia.
Qed.

Lemma ascii_escape_printable c : printable (ascii_escape c) = true.
Proof.
  unfold ascii_escape, u_escape.
  repeat (match goal with |- context [c =? ?n] => destruct (c =? n) end; [reflexivity|]).
  destruct ((32 <=? c) && (c <? 127))%bool eqn:E.
  - bool_hyps. unfold py_chr. destruct (Z.ltb_spec c 128); [|lia]. unfold byte_chr.
    rewrite printable_cons, char_printable by (rewrite code_byte; lia). done.
  - by destruct (c <? 65536); rewrite !printable_app, !hex_n_printable.
Qed.

Lemma ascii_quote_printable s : printable (ascii_quote s) = true.
Proof.
  unfold ascii_quote. rewrite !printable_app, printable_concat; [done|].
  apply Forall_map, Forall_true. intros. apply ascii_escape_printable.
Qed.

Lemma print_printable comma colon j :
  printable comma = true → printable colon = true → json_wf j → printable (print_with ascii_quote comma colon j) = true.
Proof.
  intros Hcomma Hcolon. induction j as [|[]|z|tok|s|l IH|kvs IH] using json_ind'; intros Hw; try done.
  - simpl. eapply (scan_number_printable _ (JInt z) ""); [|done].
    rewrite <- (string_app_nil_r (str_of_Z z)). by apply scan_number_int.
  - simpl. by eapply scan_number_printable.
  - apply ascii_quote_printable.
  - apply json_ok_arr in Hw. cbn [print_with]. rewrite !printable_app, printable_join; [done..|].
    apply Forall_map. rewrite Forall_forall in *. intros x Hx. by apply IH, Hw.
  - apply json_ok_obj in Hw as [_ Hw]. cbn [print_with]. rewrite !printable_app, printable_join; [done..|].
    apply Forall_map. rewrite Forall_forall in *. intros kv Hkv. simpl.
    by rewrite !printable_app, ascii_quote_printable, Hcolon, IH by (done || by apply Hw).
Qed.

Lemma print_ascii comma colon j :
  printable comma = true → printable colon = true → json_wf j → is_ascii (print_with ascii_quote comma colon j) = true.
Proof. intros. by apply printable_ascii, print_printable. Qed.

(** [json.loads(json.dumps(value))], with either separators. *)
Lemma loads_dumps j : well_formed j → loads (dumps j) = Ok j.
Proof.
  intros [Hw Ht]. eapply (loads_print_with ascii_quote _ "," ":" "" ""); [done| |done..].
  intros s rest. apply parse_ascii_body.
Qed.

Lemma loads_dumps_spaced j : well_formed j → loads (dumps_spaced j) = Ok j.
Proof.
  intros [Hw Ht]. eapply (loads_print_with ascii_quote _ ", " ": " " " " "); [done| |done..].
  intros s rest. apply parse_ascii_body.
Qed.

(** With the keys of every object in order, the value keeps its form. *)
Lemma well_formed_canon j : well_formed j → well_formed (canon j).
Proof.
  intros [Hw Ht]. split; [by apply canonical_wf, canon_canonical|]. clear Hw.
  induction j as [| | | | |l IH|kvs IH] using json_ind'; try done.
  - apply texts_arr. apply texts_arr in Ht. apply Forall_map. rewrite Forall_forall in *. auto.
  - rewrite canon_obj. apply texts_obj. apply texts_obj in Ht. rewrite sort_kvs_perm.
    apply Forall_map. rewrite Forall_forall in *. intros kv Hkv. destruct (Ht kv Hkv). split; [done|]. by apply IH.
Qed.

Lemma jget_canon k kvs : NoDup (keys kvs) → ∃ kvs', canon (JObj kvs) = JObj kvs' ∧ jget k kvs' = canon <$> jget k kvs.
Proof.
  intros Hn. rewrite canon_obj. eexists. split; [done|].
  rewrite jget_sort by (by rewrite keys_canon). apply jget_map.
Qed.

End ascii.
