(* ===== verification/PyNumbers.v ===== *)
(** * Numbers from values ([int(value)], [float(value)])

    The conversions the components share.  Decimal digits beyond ASCII are
    read as no digits; a [float] is the number its [repr] denotes. *)

From Stdlib Require Import Ascii.
From S2P Require Import Prelude PyText Json.

(** The digits of an [int] literal: single underscores may separate them. *)
Fixpoint int_numeral (after_digit : bool) (acc : Z) (s : string) : option Z :=
  match s with
  | "" => if after_digit then Some acc else None
  | String a r =>
      if is_digit a then int_numeral true (10 * acc + (code a - 48)) r
      else if (code a =? 95) && after_digit then int_numeral false acc r else None
  end.

(** [int(text)]; more than 4300 digits are refused. *)
Definition int_of_text (s : string) : option Z :=
  let s := py_strip s in
  let '(neg, s) := match s with
                   | String a r => if code a =? 45 then (true, r) else if code a =? 43 then (false, r) else (false, s)
                   | "" => (false, s)
                   end in
  if (4300 <? length (filter (λ a, is_digit a = true) (String.list_ascii_of_string s)))%nat then None
  else z ← int_numeral false 0 s; Some (if (neg : bool) then - z else z).

Section numbers.
Context `{PyPlatform}.

(** [int(value)] *)
Definition py_int (j : json) : result Z :=
  match j with
  | JInt n => Ok n
  | JBool b => Ok (if b then 1 else 0)
  | JFloat tok => let q := float_val tok in Ok (Z.quot (Qnum q) (Zpos (Qden q)))
  | JStr s => match int_of_text s with Some z => Ok z | None => raise ValueError "invalid literal for int()" end
  | _ => raise TypeError "int() argument"
  end.

(** Beyond the floats: [2 ^ 1024] and what rounds to it. *)
Definition float_limit : Z := 2 ^ 1024 - 2 ^ 970.
(** [float(value)]; [float_of_text] is [float] of a text, [None] when the text
    is no number. *)
Definition py_float (float_of_text : string → option Q) (j : json) : result Q :=
  match j with
  | JInt n => if float_limit <=? Z.abs n then raise OverflowError "int too large to convert to float" else Ok (inject_Z n)
  | JBool b => Ok (if b then 1%Q else 0%Q)
  | JFloat tok => Ok (float_val tok)
  | JStr s => match float_of_text s with Some q => Ok q | None => raise ValueError "could not convert string to float" end
  | _ => raise TypeError "float() argument"
  end.

Lemma int_truthy n : (if py_truthy (JInt n) then JInt n else JInt 0) = JInt n.
Proof.
  cbn. destruct (Qeq_bool (inject_Z n) 0) eqn:E; [|done].
  apply Qeq_bool_eq in E. unfold Qeq in E. cbn in E. by replace n with 0 by lia.
Qed.

End numbers.
