(* ===== verification/WorkItems.v ===== *)
(** * Work items ([work_queue.py], the seed files)

    The catalog of work items: the JSON files, the schema they are validated
    against and the items they become. *)

From Stdlib Require Import Ascii.
From S2P Require Import Prelude PyText AsciiText PyTime Json Scope.

(** [raise WorkQueueError(code)] *)
Definition wq_raise {A} (code : string) : result A := Err (Exn (WorkQueueError code) code).
Definition wq_if (b : bool) (code : string) : result unit := if b then wq_raise code else Ok tt.

(** ** Files

    What a path can be: a symbolic link (to something or, dangling, to nothing),
    a directory or another special file, a regular file whose bytes can be
    read, or one that cannot be read. *)
Inductive Node :=
  | Absent
  | Symlink (target : Node)
  | Special
  | Regular (bytes : string)
  | Unreadable.

(** What a path resolves to; [path.exists()] asks whether that is anything. *)
Fixpoint resolve (path : Node) : Node := match path with Symlink t => resolve t | n => n end.
Definition exists_ (path : Node) : bool := match resolve path with Absent => false | _ => true end.

Definition MAX_ITEM_BYTES : Z := 64 * 1024.
Definition MAX_LEDGER_BYTES : Z := 1024 * 1024.
Definition MAX_TTL_SECONDS : Z := 7 * 24 * 3600.

(** [len(raw)] *)
Definition byte_len (s : string) : Z := Z.of_nat (String.length s).

(** ** Regular expressions

    [re.fullmatch] for patterns made of literal characters and sets, each with
    an optional [+] or [{n}], between the anchors, which hold trivially at the
    ends of a full match.  Any other pattern is refused here. *)
Inductive repeats := Once | OneOrMore | Exactly (n : nat).

Definition meta (c : Z) : bool :=
  existsb (Z.eqb c) (map ch [".";"*";"?";"+";"{";"}";"(";")";"|";"\";"^";"$";"["]%char).

Definition repeats_of (s : list Z) : repeats * list Z :=
  match s with
  | c :: r =>
      if c =? ch "+" then (OneOrMore, r)
      else if c =? ch "{" then
        match r with
        | d :: e :: r' => if e =? ch "}" then (Exactly (Z.to_nat (d - 48)), r') else (Once, s)
        | _ => (Once, s)
        end
      else (Once, s)
  | [] => (Once, s)
  end.

(** A plain hyphen between two characters of a set makes a range. *)
Definition regex_set (stuff : list Z) : token :=
  TSet false (set_items (map (λ c, (c, c =? ch "-")) stuff)).

Fixpoint regex_parse (fuel : nat) (s : list Z) : option (list (token * repeats)) :=
  match fuel, s with
  | _, [] => Some []
  | O, _ => None
  | S fuel, c :: r =>
      if c =? ch "[" then
        '(stuff, r') ← until_bracket r;
        let '(q, r'') := repeats_of r' in
        ts ← regex_parse fuel r''; Some ((regex_set stuff, q) :: ts)
      else if meta c then None
      else let '(q, r') := repeats_of r in
        ts ← regex_parse fuel r'; Some ((TLit c, q) :: ts)
  end.

Fixpoint regex_match (ts : list (token * repeats)) (s : list Z) : bool :=
  match ts with
  | [] => match s with [] => true | _ => false end
  | (t, Once) :: ts => match s with [] => false | c :: r => token_matches t c && regex_match ts r end
  | (t, OneOrMore) :: ts =>
      (fix more s := match s with
        | [] => false
        | c :: r => (token_matches t c && (regex_match ts r || more r))%bool
        end) s
  | (t, Exactly n) :: ts =>
      (forallb (token_matches t) (firstn n s) && bool_decide (length (firstn n s) = n)
       && regex_match ts (skipn n s))%bool
  end.

(** [pattern] without its anchors. *)
Definition unanchored (p : list Z) : list Z :=
  let p := match p with c :: r => if c =? ch "^" then r else p | [] => p end in
  match last p with Some c => if c =? ch "$" then removelast p else p | None => p end.

(** [re.fullmatch(pattern, value) is not None] *)
Definition re_fullmatch (pattern value : string) : result bool :=
  let p := unanchored (code_points pattern) in
  match regex_parse (length p) p with
  | Some ts => Ok (regex_match ts (code_points value))
  | None => raise ValueError "unsupported pattern"
  end.

(** [_TOKEN]: [^[A-Za-z0-9._:-]+$] *)
Definition token_char (a : ascii) : bool :=
  let c := code a in
  ((65 <=? c) && (c <=? 90) || (97 <=? c) && (c <=? 122) || (48 <=? c) && (c <=? 58)
   || (c =? 45) || (c =? 46) || (c =? 95))%bool.
Definition _TOKEN (s : string) : bool :=
  (negb (bool_decide (s = "")) && forallb token_char (String.list_ascii_of_string s))%bool.

(** ** The schema validator *)
Section schema.
Context `{PyPlatform}.

Fixpoint all_ok {A} (f : A → result bool) (l : list A) : result bool :=
  match l with [] => Ok true | x :: r => b ← f x; if (b : bool) then all_ok f r else Ok false end.
Fixpoint any_ok {A} (f : A → result bool) (l : list A) : result bool :=
  match l with [] => Ok false | x :: r => b ← f x; if (b : bool) then Ok true else any_ok f r end.

(** [n < bound] and [bound < n] for a number of the schema. *)
Definition below (n : Z) (bound : json) : result bool :=
  match num_val bound with
  | Some q => Ok (negb (Qle_bool q (inject_Z n)))
  | None => raise TypeError "not supported between instances"
  end.
Definition above (n : Z) (bound : json) : result bool :=
  match num_val bound with
  | Some q => Ok (negb (Qle_bool (inject_Z n) q))
  | None => raise TypeError "not supported between instances"
  end.

(** [k in rules and test(rules[k])] *)
Definition rule (rules : list (string * json)) (k : string) (test : json → result bool) : result bool :=
  match jget k rules with Some v => test v | None => Ok false end.

Definition elems (j : json) : result (list json) :=
  match j with JArr l => Ok l | _ => raise TypeError "not a list" end.
Definition members (j : json) : result (list (string * json)) :=
  match j with JObj l => Ok l | _ => raise AttributeError "no items" end.

Definition match_string (rules : list (string * json)) (value : string) : result bool :=
  short ← rule rules "minLength" (below (py_len value));
  if (short : bool) then Ok false else
  long ← rule rules "maxLength" (above (py_len value));
  if (long : bool) then Ok false else
  bad ← rule rules "pattern" (λ p, match p with
    | JStr p => negb <$> re_fullmatch p value
    | _ => raise TypeError "pattern" end);
  if (bad : bool) then Ok false else
  other ← rule rules "enum" (λ e, l ← elems e; Ok (negb (existsb (py_eq (JStr value)) l)));
  if (other : bool) then Ok false else Ok true.

Definition extra_keys (rules value : list (string * json)) : result bool :=
  match jget_none "additionalProperties" rules with
  | JBool false =>
      props ← members (default (JObj []) (jget "properties" rules));
      Ok (existsb (λ k, negb (jhas k props)) (keys value))
  | _ => Ok false
  end.

Definition missing_key (rules value : list (string * json)) : result bool :=
  required ← elems (default (JArr []) (jget "required" rules));
  any_ok (λ name, match name with JStr k => Ok (negb (jhas k value)) | _ => Ok true end) required.

Fixpoint _matches (fuel : nat) (value rules : json) : result bool :=
  match fuel, rules with
  | O, _ => raise OverflowError "maximum recursion depth exceeded"
  | S n, JObj r =>
      match jget "anyOf" r with
      | Some options => l ← elems options; any_ok (_matches n value) l
      | None =>
          match jget_none "type" r, value with
          | JArr l, _ => any_ok (λ one, _matches n value (JObj (jset "type" one r))) l
          | JStr expected, _ =>
              if decide (expected = "null") then Ok (is_null value)
              else if decide (expected = "string") then
                match value with JStr s => match_string r s | _ => Ok false end
              else if decide (expected = "array") then
                match value with
                | JArr l =>
                    few ← rule r "minItems" (below (Z.of_nat (length l)));
                    if (few : bool) then Ok false else
                    many ← rule r "maxItems" (above (Z.of_nat (length l)));
                    if (many : bool) then Ok false else
                    match jget_none "items" r with
                    | JNull => Ok true
                    | item_rules => all_ok (λ item, _matches n item item_rules) l
                    end
                | _ => Ok false
                end
              else if decide (expected = "object") then
                match value with
                | JObj d =>
                    extra ← extra_keys r d;
                    if (extra : bool) then Ok false else
                    missing ← missing_key r d;
                    if (missing : bool) then Ok false else
                    props ← members (default (JObj []) (jget "properties" r));
                    all_ok (λ kv, match jget kv.1 d with
                      | None => Ok true | Some v => _matches n v kv.2 end) props
                | _ => Ok false
                end
              else Ok false
          | _, _ => Ok false
          end
      end
  | _, _ => raise TypeError "rules are not a dict"
  end.

(** Nested rules are at most as deep as the schema is large. *)
Fixpoint json_size (j : json) : nat :=
  match j with
  | JArr l => S (list_sum (map json_size l))
  | JObj l => S (list_sum (map (λ kv, json_size kv.2) l))
  | _ => 1
  end.
End schema.

(** ** Items *)
Inductive Status := READY | CLAIMED | DONE | BLOCKED.

#[export] Instance Status_eq_dec : EqDecision Status.
Proof. solve_decision. Defined.

Record Lease := MkLease { l_holder : string; l_host : string; l_expires_at : string }.

#[export] Instance Lease_eq_dec : EqDecision Lease.
Proof. solve_decision. Defined.

Record Item := MkItem {
  it_id : string;
  it_title : string;
  it_lane : string;
  it_branch : string;
  it_files_scope : list string;
  it_depends_on : list string;
  it_acceptance : list string;
  it_provider_hints : list string;
  it_status : Status;
  it_lease : option Lease;
  it_result : option string;
  it_released_by : option string;
}.

(** The mutable part of an item. *)
Definition with_state (i : Item) st lease res by_ : Item :=
  MkItem (it_id i) (it_title i) (it_lane i) (it_branch i) (it_files_scope i) (it_depends_on i)
    (it_acceptance i) (it_provider_hints i) st lease res by_.
Definition with_lease (i : Item) st lease : Item :=
  with_state i st lease (it_result i) (it_released_by i).

Definition status_of (s : string) : result Status :=
  if decide (s = "READY") then Ok READY else if decide (s = "CLAIMED") then Ok CLAIMED
  else if decide (s = "DONE") then Ok DONE else if decide (s = "BLOCKED") then Ok BLOCKED
  else raise KeyError "status".
Definition status_text (s : Status) : string :=
  match s with READY => "READY" | CLAIMED => "CLAIMED" | DONE => "DONE" | BLOCKED => "BLOCKED" end.

Section seeds.
Context `{PyPlatform}.

Definition get_str (k : string) (d : list (string * json)) : result string :=
  match jget k d with Some (JStr s) => Ok s | Some _ => raise TypeError k | None => raise KeyError k end.
Definition get_strs (k : string) (d : list (string * json)) : result (list string) :=
  match jget k d with
  | Some (JArr l) => mapM (λ j, match j with JStr s => Ok s | _ => raise TypeError k end) l
  | Some _ => raise TypeError k
  | None => raise KeyError k
  end.
Definition get_lease (d : list (string * json)) : result (option Lease) :=
  match jget "lease" d with
  | Some JNull => Ok None
  | Some (JObj l) =>
      h ← get_str "holder" l; o ← get_str "host" l; e ← get_str "expires_at" l;
      Ok (Some (MkLease h o e))
  | Some _ => raise TypeError "lease"
  | None => raise KeyError "lease"
  end.

(** The document as the record the rest of the code reads, with the two keys
    [_load_seeds] adds. *)
Definition item_of_json (d : list (string * json)) : result Item :=
  id ← get_str "id" d; title ← get_str "title" d; lane ← get_str "lane" d; branch ← get_str "branch" d;
  scope ← get_strs "files_scope" d; deps ← get_strs "depends_on" d;
  acceptance ← get_strs "acceptance" d; hints ← get_strs "provider_hints" d;
  status ← get_str "status" d; st ← status_of status; lease ← get_lease d;
  Ok (MkItem id title lane branch scope deps acceptance hints st lease None None).

Definition repeated (l : list string) : bool := negb (bool_decide (NoDup l)).

Definition _validate (document schema : json) : result Item :=
  match document with
  | JObj d =>
      s ← members schema;
      extra ← extra_keys s d; wq_if extra "INVALID_ITEM";;
      missing ← missing_key s d; wq_if missing "INVALID_ITEM";;
      props ← members (default (JObj []) (jget "properties" s));
      fine ← all_ok (λ kv, match jget kv.1 d with
        | None => Ok true | Some v => _matches (json_size kv.2) v kv.2 end) props;
      wq_if (negb fine) "INVALID_ITEM";;
      item ← item_of_json d;
      wq_if (repeated (it_files_scope item)) "INVALID_ITEM";;
      wq_if (existsb (λ scope, py_in ".." scope || startswith scope "/")%bool (it_files_scope item))
        "INVALID_ITEM";;
      wq_if (repeated (it_depends_on item)) "INVALID_ITEM";;
      Ok item
  | _ => wq_raise "INVALID_ITEM"
  end.

Definition decode_json (raw : string) : result json :=
  if utf8_valid raw then match loads raw with Ok j => Ok j | Err _ => wq_raise "UNREADABLE" end
  else wq_raise "UNREADABLE".

Definition _read_json (path : Node) (cap : Z) : result json :=
  match path with
  | Regular raw => if cap <? byte_len raw then wq_raise "UNREADABLE" else decode_json raw
  | _ => wq_raise "UNREADABLE"
  end.

(** A directory listing: file names with what they are. *)
Definition Dir := option (list (string * Node)).

Definition json_suffix : string := ".json".
Definition has_json_suffix (name : string) : bool :=
  let n := String.length name in
  (5 <=? n)%nat && bool_decide (String.substring (n - 5) 5 name = json_suffix).
Definition stem (name : string) : string := String.substring 0 (String.length name - 5) name.

Fixpoint insert_path (p : string * Node) (l : list (string * Node)) : list (string * Node) :=
  match l with
  | [] => [p]
  | q :: r => if str_leb p.1 q.1 then p :: l else q :: insert_path p r
  end.
(** [sorted(items_dir.glob("*.json"))] *)
Definition glob_json (l : list (string * Node)) : list (string * Node) :=
  foldr insert_path [] (List.filter (λ p, has_json_suffix p.1) l).

Definition load_seed (schema : json) (found : list Item) (p : string * Node) : result (list Item) :=
  document ← _read_json p.2 MAX_ITEM_BYTES;
  item ← _validate document schema;
  wq_if (negb (bool_decide (it_id item = stem p.1))) "ID_MISMATCH";;
  (match it_status item, it_lease item with
   | CLAIMED, None => wq_raise "LEASE_REQUIRED"
   | CLAIMED, Some _ => Ok tt
   | _, Some _ => wq_raise "LEASE_UNEXPECTED"
   | _, None => Ok tt
   end);;
  wq_if (bool_decide (it_id item ∈ map it_id found)) "DUPLICATE_ID";;
  Ok (found ++ [item])%list.

Fixpoint foldM {S A} (f : S → A → result S) (s : S) (l : list A) : result S :=
  match l with [] => Ok s | x :: r => s' ← f s x; foldM f s' r end.

(** [items_dir] is [None] when it is not a directory or is a symbolic link. *)
Definition _load_seeds (items_dir : Dir) (schema_path : Node) : result (list Item) :=
  schema ← _read_json schema_path MAX_ITEM_BYTES;
  match items_dir with
  | None => wq_raise "UNREADABLE"
  | Some l =>
      found ← foldM (load_seed schema) [] (glob_json l);
      wq_if (bool_decide (found = [])) "UNREADABLE";;
      Ok found
  end.
End seeds.

(** ** The repository's schema *)

(** [schemas/work_item.schema.json] *)
Definition str_rules (more : list (string * json)) : json := JObj (("type", JStr "string") :: more).
Definition token_rules : json :=
  str_rules [("minLength", JInt 1); ("maxLength", JInt 64); ("pattern", JStr "^[A-Za-z0-9._:-]+$")].
Definition text_rules : json := str_rules [("minLength", JInt 1); ("maxLength", JInt 200)].
Definition list_rules (more : list (string * json)) (items : json) : json :=
  JObj (("type", JStr "array") :: more ++ [("items", items)])%list.
Definition lease_rules : json :=
  JObj [("anyOf", JArr [
    JObj [("type", JStr "null")];
    JObj [("type", JStr "object"); ("additionalProperties", JBool false);
      ("required", JArr [JStr "holder"; JStr "host"; JStr "expires_at"]);
      ("properties", JObj [("holder", token_rules); ("host", token_rules);
        ("expires_at", str_rules [("pattern",
          JStr "^[0-9]{4}-[0-9]{2}-[0-9]{2}T[0-9]{2}:[0-9]{2}:[0-9]{2}Z$")])])]])].

Definition item_fields : list (string * json) :=
  [("id", token_rules); ("title", text_rules); ("lane", str_rules [("pattern", JStr "^L[0-9]+$")]);
   ("branch", str_rules [("minLength", JInt 1); ("maxLength", JInt 200);
     ("pattern", JStr "^[A-Za-z0-9._/-]+$")]);
   ("files_scope", list_rules [("minItems", JInt 1); ("maxItems", JInt 40)]
     (str_rules [("minLength", JInt 1); ("maxLength", JInt 200); ("pattern", JStr "^[A-Za-z0-9._/*?-]+$")]));
   ("depends_on", list_rules [("maxItems", JInt 40)] token_rules);
   ("acceptance", list_rules [("minItems", JInt 1); ("maxItems", JInt 20)] text_rules);
   ("provider_hints", list_rules [("maxItems", JInt 20)] token_rules);
   ("status", str_rules [("enum", JArr [JStr "READY"; JStr "CLAIMED"; JStr "DONE"; JStr "BLOCKED"])]);
   ("lease", lease_rules)].

Definition work_item_schema : json :=
  JObj [("type", JStr "object"); ("additionalProperties", JBool false);
        ("required", JArr (map (λ kv, JStr kv.1) item_fields)); ("properties", JObj item_fields)].

(** Rules the validator reads without raising. *)
Section rules.
Context `{PyPlatform}.

Definition num_rule (rules : list (string * json)) (k : string) : bool :=
  match jget k rules with None | Some (JInt _) => true | _ => false end.

Definition pattern_ok (p : string) : bool :=
  match regex_parse (length (unanchored (code_points p))) (unanchored (code_points p)) with
  | Some _ => true | None => false end.

Definition string_rules_ok (r : list (string * json)) : bool :=
  (num_rule r "minLength" && num_rule r "maxLength"
   && match jget "pattern" r with None => true | Some (JStr p) => pattern_ok p | _ => false end
   && match jget "enum" r with None | Some (JArr _) => true | _ => false end)%bool.

Fixpoint rules_ok (n : nat) (rules : json) : bool :=
  match n, rules with
  | S n, JObj r =>
      match jget "anyOf" r with
      | Some (JArr l) => forallb (rules_ok n) l
      | Some _ => false
      | None =>
          match jget_none "type" r with
          | JStr "null" => true
          | JStr "string" => string_rules_ok r
          | JStr "array" => (num_rule r "minItems" && num_rule r "maxItems" &&
              match jget_none "items" r with JNull => true | i => rules_ok n i end)%bool
          | JStr "object" =>
              (match jget "required" r with None | Some (JArr _) => true | _ => false end &&
               match jget "properties" r with
               | None => true | Some (JObj l) => forallb (λ kv, rules_ok n kv.2) l | _ => false end)%bool
          | _ => false
          end
      end
  | _, _ => false
  end.

Lemma all_ok_total {A} (f : A → result bool) l :
  (∀ x, In x l → ∃ b, f x = Ok b) → ∃ b, all_ok f l = Ok b.
Proof.
  induction l as [|x l IH]; intros Hf; [by eexists|]. simpl. destruct (Hf x) as [[] ->]; [by left| |].
  - apply IH. auto using in_cons.
  - by eexists.
Qed.

Lemma any_ok_total {A} (f : A → result bool) l :
  (∀ x, In x l → ∃ b, f x = Ok b) → ∃ b, any_ok f l = Ok b.
Proof.
  induction l as [|x l IH]; intros Hf; [by eexists|]. simpl. destruct (Hf x) as [[] ->]; [by left| |].
  - by eexists.
  - apply IH. auto using in_cons.
Qed.

Lemma all_ok_true {A} (f : A → result bool) l : all_ok f l = Ok true → ∀ x, In x l → f x = Ok true.
Proof.
  induction l as [|x l IH]; intros Hf y; [done|]. simpl in *. destruct (f x) as [[]|] eqn:E; try done.
  intros [<-|Hy]; auto.
Qed.

Lemma num_rule_total r k n :
  num_rule r k = true → (∃ b, rule r k (below n) = Ok b) ∧ (∃ b, rule r k (above n) = Ok b).
Proof.
  unfold num_rule, rule. destruct (jget k r) as [[]|]; try done; intros _; split; by eexists.
Qed.

(** A test that refuses, followed by the rest. *)
Lemma guard_total (m : result bool) k :
  (∃ b, m = Ok b) → (∃ c, k = Ok c) → ∃ c, (b ← m; if (b : bool) then Ok false else k) = Ok c.
Proof. intros [[] ->] Hk; [by eexists|done]. Qed.

Lemma match_string_total r s : string_rules_ok r = true → ∃ b, match_string r s = Ok b.
Proof.
  unfold string_rules_ok, match_string. intros [[[H1 H2]%andb_true_iff H3]%andb_true_iff H4]%andb_true_iff.
  apply guard_total; [by apply num_rule_total|].
  apply guard_total; [by apply num_rule_total|].
  apply guard_total.
  { unfold rule. destruct (jget "pattern" r) as [[]|]; try done; [|by eexists].
    unfold pattern_ok, re_fullmatch in *. destruct regex_parse; [by eexists|done]. }
  apply guard_total; [|by eexists].
  unfold rule. destruct (jget "enum" r) as [[]|]; try done; by eexists.
Qed.

Lemma match_object_total n d r :
  (∀ v rules, rules_ok n rules = true → ∃ b, _matches n v rules = Ok b) →
  match jget "required" r with None | Some (JArr _) => true | _ => false end = true →
  match jget "properties" r with
  | None => true | Some (JObj l) => forallb (λ kv, rules_ok n kv.2) l | _ => false end = true →
  ∃ c, (extra ← extra_keys r d;
        if (extra : bool) then Ok false else
        missing ← missing_key r d;
        if (missing : bool) then Ok false else
        props ← members (default (JObj []) (jget "properties" r));
        all_ok (λ kv, match jget kv.1 d with
          | None => Ok true | Some v => _matches n v kv.2 end) props) = Ok c.
Proof.
  intros IH H1 H2.
  assert (∃ props, members (default (JObj []) (jget "properties" r)) = Ok props
    ∧ forallb (λ kv, rules_ok n kv.2) props = true) as (props & Hp & Hf).
  { destruct (jget "properties" r) as [[]|]; try done; by eexists. }
  apply guard_total.
  { unfold extra_keys. rewrite Hp. destruct (jget_none _ r) as [|[]| | | | |]; by eexists. }
  apply guard_total.
  { unfold missing_key. destruct (jget "required" r) as [[]|]; try done; [|by eexists].
    apply any_ok_total. intros [] _; by eexists. }
  rewrite Hp. apply all_ok_total. intros kv Hin. destruct (jget kv.1 d); [|by eexists].
  apply IH. rewrite forallb_forall in Hf. auto.
Qed.

Lemma matches_total n v rules : rules_ok n rules = true → ∃ b, _matches n v rules = Ok b.
Proof.
  revert v rules. induction n as [|n IH]; intros v rules Hr; [done|]. destruct rules as [| | | | | |r]; try done.
  cbn [rules_ok _matches] in *. destruct (jget "anyOf" r) as [j|].
  - destruct j as [| | | | |l|]; try done. apply any_ok_total. rewrite forallb_forall in Hr. auto.
  - destruct (jget_none "type" r) as [| | | |t| |]; try done.
    destruct (decide (t = "null")) as [->|]; [by eexists|].
    destruct (decide (t = "string")) as [->|].
    { destruct v; try by eexists. by apply match_string_total. }
    destruct (decide (t = "array")) as [->|].
    { apply andb_true_iff in Hr as [[H1 H2]%andb_true_iff H3]. destruct v as [| | | | |l|]; try by eexists.
      apply guard_total; [by apply num_rule_total|]. apply guard_total; [by apply num_rule_total|].
      destruct (jget_none "items" r); try (by eexists); apply all_ok_total; intros; by apply IH. }
    destruct (decide (t = "object")) as [->|]; [|by eexists].
    apply andb_true_iff in Hr as [H1 H2]. destruct v; try by eexists. by apply match_object_total.
Qed.
End rules.

(** ** What validation establishes *)

(** [A-Za-z0-9] and the other characters of a set. *)
Definition class (others : list ascii) : list set_item :=
  [SRange 65 90; SRange 97 122; SRange 48 57] ++ map (λ a, SRange (code a) (code a)) others.
Definition in_class (others : list ascii) (s : string) : Prop :=
  code_points s ≠ [] ∧ Forall (λ c, in_set (class others) c = true) (code_points s).

Definition is_token (s : string) : Prop := in_class ["."; "_"; ":"; "-"]%char s ∧ py_len s ≤ 64.
Definition is_scope (s : string) : Prop :=
  in_class ["."; "_"; "/"; "*"; "?"; "-"]%char s ∧ py_len s ≤ 200
  ∧ py_in ".." s = false ∧ startswith s "/" = false.

Record item_shape (i : Item) : Prop := {
  shape_id : is_token (it_id i);
  shape_scope : Forall is_scope (it_files_scope i);
  shape_scope_some : it_files_scope i ≠ [];
  shape_scope_nodup : NoDup (it_files_scope i);
  shape_deps : Forall is_token (it_depends_on i);
  shape_deps_nodup : NoDup (it_depends_on i);
  shape_lease : ∀ l, it_lease i = Some l → is_token (l_holder l) ∧ is_token (l_host l);
  shape_open : it_result i = None ∧ it_released_by i = None;
}.

Section shape.
Context `{PyPlatform}.

Lemma regex_class t s :
  regex_match [(t, OneOrMore)] s = true → s ≠ [] ∧ Forall (λ c, token_matches t c = true) s.
Proof.
  induction s as [|c s IH]; [done|]. intros Hm.
  assert (token_matches t c = true ∧ (s = [] ∨ regex_match [(t, OneOrMore)] s = true)) as [Hc Hs].
  { cbn [regex_match] in *. apply andb_true_iff in Hm as [? [Hm|Hm]%orb_true_iff]; [|by auto].
    destruct s; naive_solver. }
  split; [done|]. constructor; [done|]. destruct Hs as [->|Hs]; [done|]. by apply IH.
Qed.

Lemma fullmatch_class p others s :
  regex_parse (length (unanchored (code_points p))) (unanchored (code_points p))
    = Some [(TSet false (class others), OneOrMore)] →
  re_fullmatch p s = Ok true → in_class others s.
Proof.
  unfold re_fullmatch. intros ->. intros Hm%(inj Ok). by apply regex_class in Hm.
Qed.

Lemma guard_true (m : result bool) k :
  (b ← m; if (b : bool) then Ok false else k) = Ok true → m = Ok false ∧ k = Ok true.
Proof. by destruct m as [[]|]. Qed.

(** An accepted value of a string rule. *)
Lemma string_rules_true n v r :
  jget "anyOf" r = None → jget_none "type" r = JStr "string" → _matches (S n) v (JObj r) = Ok true →
  ∃ s, v = JStr s ∧
    (∀ z, jget "maxLength" r = Some (JInt z) → py_len s ≤ z) ∧
    (∀ p, jget "pattern" r = Some (JStr p) → re_fullmatch p s = Ok true).
Proof.
  intros Ha Ht. cbn [_matches]. rewrite Ha, Ht. simpl. destruct v as [| | | |s| |]; try done.
  unfold match_string. intros [_ [Hl [Hp _]%guard_true]%guard_true]%guard_true. exists s. split_and!; [done| |].
  - intros z Hz. unfold rule, above in Hl. rewrite Hz in Hl. simpl in Hl. simplify_eq.
    apply negb_false_iff, Qle_bool_iff in Hl. unfold Qle in Hl. simpl in Hl. lia.
  - intros p Hz. unfold rule in Hp. rewrite Hz in Hp. destruct (re_fullmatch p s) as [[]|]; naive_solver.
Qed.

(** An accepted value of a list rule. *)
Lemma array_rules_true n v r items :
  jget "anyOf" r = None → jget_none "type" r = JStr "array" → jget_none "items" r = JObj items →
  _matches (S n) v (JObj r) = Ok true →
  ∃ l, v = JArr l ∧ (∀ x, In x l → _matches n x (JObj items) = Ok true)
    ∧ (jget "minItems" r = Some (JInt 1) → l ≠ []).
Proof.
  intros Ha Ht Hi. cbn [_matches]. rewrite Ha, Ht, Hi. simpl. destruct v as [| | | | |l|]; try done.
  intros [Hm [_ Hl]%guard_true]%guard_true. exists l. split_and!; [done|by apply all_ok_true|].
  intros Hz ->. unfold rule in Hm. rewrite Hz in Hm. done.
Qed.

Lemma token_rules_true n v : _matches (S n) v token_rules = Ok true → ∃ s, v = JStr s ∧ is_token s.
Proof.
  intros (s & -> & Hl & Hp)%string_rules_true; [|done..]. exists s. split; [done|]. split.
  - eapply fullmatch_class; [|by apply Hp]. by vm_compute.
  - by apply Hl.
Qed.

Lemma all_strings {P : string → Prop} k d l :
  jget k d = Some (JArr l) → (∀ x, In x l → ∃ s, x = JStr s ∧ P s) →
  ∃ ss, get_strs k d = Ok ss ∧ Forall P ss ∧ length ss = length l.
Proof.
  intros Hk Hl. unfold get_strs. rewrite Hk. clear Hk. induction l as [|x l IH]; [by exists []|].
  destruct (Hl x) as (s & -> & Hs); [by left|]. destruct IH as (ss & Hss & Hp & Hn); [auto using in_cons|].
  exists (s :: ss). simpl. rewrite Hss. simpl. split_and!; [done|by constructor|by f_equal].
Qed.

Lemma list_token_rules_true n k d v more :
  jget k d = Some v → (more = [] ∨ ∃ z, more = [("maxItems", JInt z)]) →
  _matches (S (S n)) v (list_rules more token_rules) = Ok true →
  ∃ ss, get_strs k d = Ok ss ∧ Forall is_token ss.
Proof.
  intros Hk Hm Hv. unfold list_rules, token_rules, str_rules in Hv.
  eapply array_rules_true in Hv as (l & -> & Hl & _); [|by destruct Hm as [->|[z ->]]..].
  destruct (all_strings (P := is_token) k d l Hk) as (ss & ? & ? & _); [|by eauto].
  intros x Hx. by eapply token_rules_true, Hl.
Qed.
End shape.

Section validated.
Context `{PyPlatform}.

Lemma jget_in k v l : jget k l = Some v → In (k, v) l.
Proof.
  induction l as [|[k' v'] l IH]; [done|]. simpl. case_decide; intros; simplify_eq; auto.
Qed.

(** What a pass over the properties says of one field. *)
Lemma field_rule (f : json → json → result bool) d k r v fields :
  all_ok (λ kv, match jget kv.1 d with None => Ok true | Some v => f v kv.2 end) fields = Ok true →
  jget k fields = Some r → jget k d = Some v → f v r = Ok true.
Proof.
  intros Ha Hk%jget_in Hv. apply (all_ok_true _ _ Ha) in Hk. simpl in Hk. by rewrite Hv in Hk.
Qed.

Lemma required_there d k names :
  any_ok (λ name, match name with JStr k => Ok (negb (jhas k d)) | _ => Ok true end)
    (map JStr names) = Ok false →
  k ∈ names → ∃ v, jget k d = Some v.
Proof.
  induction names as [|k' names IH]; simpl; [set_solver|]. unfold jhas.
  destruct (jget k' d) as [v|] eqn:E; simpl; [|done]. intros Hr [->|Hk]%elem_of_cons; eauto.
Qed.

Lemma object_rules_true n v r props :
  jget "anyOf" r = None → jget_none "type" r = JStr "object" → jget "properties" r = Some (JObj props) →
  _matches (S n) v (JObj r) = Ok true →
  ∃ d, v = JObj d ∧ missing_key r d = Ok false ∧
    all_ok (λ kv, match jget kv.1 d with None => Ok true | Some v => _matches n v kv.2 end) props = Ok true.
Proof.
  intros Ha Ht Hp. cbn [_matches]. rewrite Ha, Ht, Hp. simpl. destruct v as [| | | | | |d]; try done.
  intros [_ [Hm Hl]%guard_true]%guard_true. by exists d.
Qed.

Lemma string_field_rule k d v n r :
  jget k d = Some v → jget "anyOf" r = None → jget_none "type" r = JStr "string" →
  _matches (S n) v (JObj r) = Ok true → ∃ s, get_str k d = Ok s ∧ v = JStr s.
Proof.
  intros Hk Ha Ht (s & -> & _)%string_rules_true; [|done..]. exists s. unfold get_str. by rewrite Hk.
Qed.

Lemma any_rules_true n v r a b :
  jget "anyOf" r = Some (JArr [a; b]) → _matches (S n) v (JObj r) = Ok true →
  _matches n v a = Ok true ∨ _matches n v b = Ok true.
Proof.
  intros Ha. cbn [_matches]. rewrite Ha. simpl. destruct (_matches n v a) as [[]|]; [by left| |done].
  simpl. destruct (_matches n v b) as [[]|]; [by right|done..].
Qed.

Lemma null_rules_true n v r :
  jget "anyOf" r = None → jget_none "type" r = JStr "null" → _matches (S n) v (JObj r) = Ok true → v = JNull.
Proof. intros Ha Ht. cbn [_matches]. rewrite Ha, Ht. simpl. by destruct v. Qed.

Lemma lease_field_rule d v n :
  jget "lease" d = Some v → _matches (S (S (S n))) v lease_rules = Ok true →
  ∃ l, get_lease d = Ok l ∧ ∀ x, l = Some x → is_token (l_holder x) ∧ is_token (l_host x).
Proof.
  intros Hk Hv. unfold get_lease. rewrite Hk. unfold lease_rules in Hv.
  eapply any_rules_true in Hv as [Hv|Hv]; [| |done].
  { apply null_rules_true in Hv as ->; [|done..]. by exists None. }
  eapply object_rules_true in Hv as (l & -> & Hm & Hf); [|done..].
  unfold missing_key in Hm. simpl elems in Hm.
  change [JStr "holder"; _; _] with (map JStr ["holder"; "host"; "expires_at"]) in Hm.
  assert (∀ k, k ∈ ["holder"; "host"; "expires_at"] → ∃ w, jget k l = Some w) as Hk'.
  { intros k. by apply required_there. }
  clear Hm. destruct (Hk' "holder") as [h Hh]; [set_solver|]. destruct (Hk' "host") as [o Ho]; [set_solver|].
  destruct (Hk' "expires_at") as [e He]; [set_solver|].
  pose proof (field_rule (_matches (S n)) l "holder" _ _ _ Hf eq_refl Hh) as Rh.
  pose proof (field_rule (_matches (S n)) l "host" _ _ _ Hf eq_refl Ho) as Ro.
  pose proof (field_rule (_matches (S n)) l "expires_at" _ _ _ Hf eq_refl He) as Re.
  apply token_rules_true in Rh as (h' & -> & Rh), Ro as (o' & -> & Ro).
  apply string_rules_true in Re as (e' & -> & _); [|done..].
  exists (Some (MkLease h' o' e')). unfold get_str. rewrite Hh, Ho, He. split; [done|].
  by intros ? [= <-].
Qed.

Lemma scope_rules_true n v :
  _matches (S n) v (str_rules [("minLength", JInt 1); ("maxLength", JInt 200);
    ("pattern", JStr "^[A-Za-z0-9._/*?-]+$")]) = Ok true →
  ∃ s, v = JStr s ∧ in_class ["."; "_"; "/"; "*"; "?"; "-"]%char s ∧ py_len s ≤ 200.
Proof.
  intros (s & -> & Hl & Hp)%string_rules_true; [|done..]. exists s. split_and!; [done| |by apply Hl].
  eapply fullmatch_class; [|by apply Hp]. by vm_compute.
Qed.

Lemma plain_strings_true k d v r more :
  jget k d = Some v → jget "anyOf" r = None → jget_none "type" r = JStr "string" →
  (more = [] ∨ ∃ a b, more = [("minItems", JInt a); ("maxItems", JInt b)] ∨ more = [("maxItems", JInt b)]) →
  ∀ n, _matches (S (S n)) v (list_rules more (JObj r)) = Ok true → ∃ ss, get_strs k d = Ok ss.
Proof.
  intros Hk Ha Ht Hm n Hv. unfold list_rules in Hv.
  eapply array_rules_true in Hv as (l & -> & Hl & _); [|by destruct Hm as [->|(? & ? & [->| ->])]..].
  destruct (all_strings (P := λ _, True) k d l Hk) as (ss & ? & _); [|by eauto].
  intros x Hx. apply Hl, string_rules_true in Hx as (s & -> & _); eauto.
Qed.

Lemma status_rule_true n v :
  _matches (S n) v (str_rules [("enum", JArr [JStr "READY"; JStr "CLAIMED"; JStr "DONE"; JStr "BLOCKED"])])
    = Ok true → ∃ s st, v = JStr s ∧ status_of s = Ok st.
Proof.
  intros Hv. pose proof Hv as (s & -> & _)%string_rules_true; [|done..]. exists s.
  unfold str_rules in Hv. cbn [_matches jget jget_none] in Hv. simpl in Hv.
  unfold match_string, rule in Hv. simpl in Hv. unfold status_of.
  repeat case_decide; first [by exists READY|by exists CLAIMED|by exists DONE|by exists BLOCKED].
Qed.

(** The fields of an accepted document. *)
Lemma accepted_fields d :
  missing_key [("required", JArr (map (λ kv, JStr kv.1) item_fields))] d = Ok false →
  all_ok (λ kv, match jget kv.1 d with
    | None => Ok true | Some v => _matches (json_size kv.2) v kv.2 end) item_fields = Ok true →
  ∀ k r, jget k item_fields = Some r → ∃ v, jget k d = Some v ∧ _matches (json_size r) v r = Ok true.
Proof.
  intros Hm Ha k r Hk. unfold missing_key in Hm. simpl elems in Hm. cbn [mbind result_bind] in Hm.
  destruct (required_there d k (keys item_fields) Hm) as [v Hv].
  { apply jget_in in Hk. unfold keys. apply list_elem_of_In, in_map_iff. by exists (k, r). }
  exists v. split; [done|]. by apply (field_rule (λ v r, _matches (json_size r) v r) d k r v item_fields Ha Hk Hv).
Qed.

Lemma item_of_accepted d :
  (∀ k r, jget k item_fields = Some r → ∃ v, jget k d = Some v ∧ _matches (json_size r) v r = Ok true) →
  ∃ i, item_of_json d = Ok i ∧ is_token (it_id i)
    ∧ Forall (λ s, in_class ["."; "_"; "/"; "*"; "?"; "-"]%char s ∧ py_len s ≤ 200) (it_files_scope i)
    ∧ it_files_scope i ≠ [] ∧ Forall is_token (it_depends_on i)
    ∧ (∀ l, it_lease i = Some l → is_token (l_holder l) ∧ is_token (l_host l))
    ∧ it_result i = None ∧ it_released_by i = None.
Proof.
  intros Hf. unfold item_of_json.
  destruct (Hf "id" _ eq_refl) as (v & Hk & Hv). apply token_rules_true in Hv as (id & -> & Hid).
  assert (get_str "id" d = Ok id) as -> by (unfold get_str; by rewrite Hk).
  cbn [mbind result_bind]. clear Hk.
  destruct (Hf "title" _ eq_refl) as (v & Hk & Hv).
  apply (string_field_rule "title" d) in Hv as (title & -> & _); [|done..]. cbn [mbind result_bind]. clear Hk.
  destruct (Hf "lane" _ eq_refl) as (v' & Hk & Hv).
  apply (string_field_rule "lane" d) in Hv as (lane & -> & _); [|done..]. cbn [mbind result_bind]. clear Hk.
  destruct (Hf "branch" _ eq_refl) as (v'' & Hk & Hv).
  apply (string_field_rule "branch" d) in Hv as (branch & -> & _); [|done..]. cbn [mbind result_bind]. clear Hk.
  destruct (Hf "files_scope" _ eq_refl) as (w & Hk & Hv). unfold list_rules, str_rules in Hv.
  eapply array_rules_true in Hv as (l & -> & Hl & Hne); [|done..].
  destruct (all_strings _ _ l Hk (λ x Hx, scope_rules_true _ x (Hl x Hx))) as (scope & -> & Hs & Hlen).
  cbn [mbind result_bind]. clear Hk.
  destruct (Hf "depends_on" _ eq_refl) as (w' & Hk & Hv).
  destruct (list_token_rules_true _ _ _ _ _ Hk ltac:(by right; exists 40) Hv) as (deps & -> & Hdeps).
  cbn [mbind result_bind]. clear Hk Hv.
  destruct (Hf "acceptance" _ eq_refl) as (u & Hk & Hv).
  destruct (plain_strings_true _ _ _ [("type", JStr "string"); ("minLength", JInt 1); ("maxLength", JInt 200)]
    _ Hk eq_refl eq_refl ltac:(right; exists 1, 20; by left) _ Hv) as (acceptance & ->). cbn [mbind result_bind]. clear Hk Hv.
  destruct (Hf "provider_hints" _ eq_refl) as (u' & Hk & Hv).
  destruct (list_token_rules_true _ _ _ _ _ Hk ltac:(by right; exists 20) Hv) as (hints & -> & _).
  cbn [mbind result_bind]. clear Hk Hv.
  destruct (Hf "status" _ eq_refl) as (u'' & Hk & Hv).
  apply status_rule_true in Hv as (s & st & -> & Hst).
  assert (get_str "status" d = Ok s) as -> by (unfold get_str; by rewrite Hk). cbn [mbind result_bind].
  rewrite Hst. cbn [mbind result_bind]. clear Hk.
  destruct (Hf "lease" _ eq_refl) as (x & Hk & Hv).
  destruct (lease_field_rule _ _ _ Hk Hv) as (lease & -> & Hlease).
  eexists. split; [done|]. cbn. split_and!; try done. intros ->. by apply (Hne eq_refl), nil_length_inv.
Qed.

(** Every document either becomes an item of the expected shape or is refused
    as invalid; nothing else is raised. *)
Theorem schema_types_items document :
  match _validate document work_item_schema with
  | Ok item => item_shape item
  | Err e => e = Exn (WorkQueueError "INVALID_ITEM") "INVALID_ITEM"
  end.
Proof.
  destruct document as [| | | | | |d]; try done. unfold _validate.
  change (members work_item_schema) with (Ok (A := list (string * json)) [("type", JStr "object");
    ("additionalProperties", JBool false); ("required", JArr (map (λ kv, JStr kv.1) item_fields));
    ("properties", JObj item_fields)]). cbn [mbind result_bind].
  change (extra_keys _ d) with (Ok (existsb (λ k, negb (jhas k item_fields)) (keys d))).
  cbn [mbind result_bind]. unfold wq_if at 1. destruct (existsb _ (keys d)); [done|]. cbn [mbind result_bind].
  destruct (missing_key _ d) as [[]|e] eqn:Em; [done| |].
  2: { exfalso. clear -Em. unfold missing_key in Em. simpl elems in Em. cbn [mbind result_bind] in Em.
       match type of Em with any_ok ?f ?l = _ => destruct (any_ok_total f l) as [? Ht] end;
         [intros [] _; by eexists|congruence]. }
  cbn [wq_if mbind result_bind]. change (members (default _ _)) with (Ok item_fields).
  cbn [mbind result_bind]. destruct (all_ok _ item_fields) as [b|e] eqn:Ea.
  2: { exfalso. match type of Ea with all_ok ?f ?l = _ => destruct (all_ok_total f l) as [? Ht] end;
         [|congruence]. intros kv Hin. destruct (jget kv.1 d); [|by eexists]. apply matches_total.
       assert (forallb (λ kv, rules_ok (json_size kv.2) kv.2) item_fields = true) as Hall by (by vm_compute).
       rewrite forallb_forall in Hall. by apply Hall. }
  destruct b; [|done]. cbn [negb wq_if mbind result_bind].
  destruct (item_of_accepted d (accepted_fields d Em Ea))
    as (i & -> & Hid & Hs & Hne & Hd & Hl & Hr & Hb). cbn [mbind result_bind]. clear Em Ea.
  unfold repeated. destruct (bool_decide (NoDup (it_files_scope i))) eqn:En; [|done].
  cbn [negb wq_if mbind result_bind].
  destruct (existsb _ (it_files_scope i)) eqn:Ep; [done|]. cbn [wq_if mbind result_bind].
  destruct (bool_decide (NoDup (it_depends_on i))) eqn:End; [|done]. cbn [negb wq_if mbind result_bind].
  apply bool_decide_eq_true in En, End. split; try done.
  rewrite Forall_forall in *. intros s Hin. destruct (Hs s Hin). split_and!; try done;
    destruct (py_in ".." s || startswith s "/")%bool eqn:E; try (by apply orb_false_iff in E as []);
    exfalso; rewrite <-not_true_iff_false in Ep; apply Ep, existsb_exists; exists s;
    (split; [by apply list_elem_of_In|done]).
Qed.
End validated.
