(* ===== verification/WorkQueue.v ===== *)
(** * The work queue ([work_queue.py])

    Claims, renewals and releases as lines of a ledger over the catalog of
    [WorkItems]: reading the ledger, the state it describes, and the operations
    that append to it. *)

From Stdlib Require Import Ascii.
From S2P Require Import Prelude PyText AsciiText PyTime Scope Json WorkItems.

(** ** One line of the ledger *)

(** [json.dumps(event, sort_keys=True, separators=(",", ":"))] of an event
    whose values are texts, and the line break. *)
Definition Event := list (string * string).
Definition event_json (e : Event) : list (string * json) := map (λ kv, (kv.1, JStr kv.2)) e.
Fixpoint insert_entry (kv : string * string) (l : Event) : Event :=
  match l with
  | [] => [kv]
  | kv' :: r => if str_leb kv.1 kv'.1 then kv :: l else kv' :: insert_entry kv r
  end.
Definition sort_event (e : Event) : Event := foldr insert_entry [] e.
Definition event_text (e : Event) : string :=
  "{" +:+ join "," (map (λ kv, ascii_quote kv.1 +:+ ":" +:+ ascii_quote kv.2) (sort_event e)) +:+ "}".
Definition event_line (e : Event) : string := event_text e +:+ String LF "".

(** ** Reading the ledger *)
Section ledger.
Context `{PyPlatform}.

Definition event_types : list json := map JStr ["CLAIM"; "RENEW"; "RELEASE"].

Definition read_line (line : string) : result (list (string * json)) :=
  event ← decode_json line;
  match event with
  | JObj d => if existsb (py_eq (jget_none "type" d)) event_types then Ok d else wq_raise "UNREADABLE"
  | _ => wq_raise "UNREADABLE"
  end.

Definition parse_ledger (raw : string) : result (list (list (string * json))) :=
  mapM read_line (List.filter (λ line, negb (bytes_blank line)) (splitlines raw)).

Definition _read_ledger (path : Node) : result (list (list (string * json))) :=
  match path with
  | Absent => Ok []
  | Symlink target => if exists_ target then wq_raise "UNREADABLE" else Ok []
  | Special | Unreadable => wq_raise "UNREADABLE"
  | Regular raw => if MAX_LEDGER_BYTES <? byte_len raw then wq_raise "LEDGER_TOO_LARGE" else parse_ledger raw
  end.
End ledger.

Definition _is_failed_result (res : string) : bool :=
  let norm := py_upper (py_strip res) in
  existsb (startswith norm) ["FAIL"; "ABORT"; "BLOCK"; "ERROR"].

Definition _event_token (value : json) : option string :=
  match value with JStr s => if _TOKEN s && (py_len s <=? 64) then Some s else None | _ => None end.

(** A text that [_TIME] matches; [str()] of any other value never does. *)
Definition event_time (value : json) : option string :=
  match value with JStr s => if time_match s then Some s else None | _ => None end.

(** [not result.strip() or len(result) > 200 or any(ch in result for ch in "\n\r")] *)
Definition result_bad (res : string) : bool :=
  (bool_decide (py_strip res = "") || (200 <? py_len res)
   || existsb (λ a, Ascii.eqb a LF || Ascii.eqb a CR)%bool (String.list_ascii_of_string res))%bool.

(** ** The state a ledger describes *)

(** [items.get(id)] and the update of the item found. *)
Definition find_item (id : string) (items : list Item) : option Item :=
  List.find (λ i, bool_decide (it_id i = id)) items.
Definition update_item (id : string) (f : Item → Item) (items : list Item) : list Item :=
  map (λ i, if decide (it_id i = id) then f i else i) items.

Definition closed (i : Item) : bool := bool_decide (it_status i = DONE ∨ it_status i = BLOCKED).

(** The lease of a claimed item. *)
Definition claimed_lease (i : Item) : option Lease :=
  match it_status i with CLAIMED => it_lease i | _ => None end.

(** What one event makes of its item. *)
Definition apply_claim (i : Item) (event : list (string * json)) : result Item :=
  match _event_token (jget_none "holder" event), _event_token (jget_none "host" event) with
  | Some holder, Some host =>
      match event_time (jget_none "expires_at" event) with
      | Some expires => Ok (with_lease i CLAIMED (Some (MkLease holder host expires)))
      | None => wq_raise "UNREADABLE"
      end
  | _, _ => wq_raise "UNREADABLE"
  end.

Definition apply_renew (i : Item) (event : list (string * json)) : result Item :=
  match claimed_lease i with
  | None => Ok i
  | Some lease =>
      if bool_decide (jget_none "holder" event = JStr (l_holder lease)) then
        match event_time (jget_none "expires_at" event) with
        | Some expires =>
            Ok (with_lease i CLAIMED (Some (MkLease (l_holder lease) (l_host lease) expires)))
        | None => wq_raise "UNREADABLE"
        end
      else Ok i
  end.

Definition apply_release (i : Item) (event : list (string * json)) : result Item :=
  match claimed_lease i with
  | None => Ok i
  | Some lease =>
      match jget_none "result" event with
      | JStr res =>
          if result_bad res then wq_raise "UNREADABLE" else
          match _event_token (jget_none "holder" event) with
          | Some holder =>
              if bool_decide (l_holder lease = holder) then
                Ok (with_state i (if _is_failed_result res then BLOCKED else DONE) None
                      (Some (py_strip res)) (Some holder))
              else Ok i
          | None => Ok i
          end
      | _ => wq_raise "UNREADABLE"
      end
  end.

Definition apply_to (i : Item) (event : list (string * json)) : result Item :=
  if closed i then Ok i else
  match jget_none "type" event with
  | JStr kind =>
      if decide (kind = "CLAIM") then apply_claim i event
      else if decide (kind = "RENEW") then apply_renew i event
      else apply_release i event
  | _ => apply_release i event
  end.

Definition _apply (items : list Item) (event : list (string * json)) : result (list Item) :=
  let key := jget_none "item_id" event in
  if negb (json_hashable key) then raise TypeError "unhashable type" else
  match key with
  | JStr id =>
      match find_item id items with
      | None => Ok items
      | Some i => i' ← apply_to i event; Ok (update_item id (λ _, i') items)
      end
  | _ => Ok items
  end.

(** ** Reading the state *)
Definition expiry (lease : Lease) : option Z := parse_stamp (l_expires_at lease).

Definition _held (i : Item) (moment : Z) : bool :=
  match claimed_lease i with
  | Some lease => match expiry lease with Some expires => moment <? expires | None => false end
  | None => false
  end.

Definition _claimable_status (i : Item) (moment : Z) : bool :=
  match it_status i with
  | READY => true
  | CLAIMED => negb (_held i moment)
  | _ => false
  end.

Fixpoint deps_met (deps : list string) (items : list Item) (done_prs draft_prs : list string) : bool :=
  match deps with
  | [] => true
  | dep :: r =>
      if bool_decide (dep ∈ draft_prs) then false
      else match find_item dep items with
           | Some i => if decide (it_status i = DONE) then deps_met r items done_prs draft_prs else false
           | None => if bool_decide (dep ∈ done_prs) then deps_met r items done_prs draft_prs else false
           end
  end.
Definition _deps_met (i : Item) := deps_met (it_depends_on i).

Definition _blocked_by_scope (i : Item) (occupied : list Item) (pr_files : list string) : bool :=
  (existsb (λ other, negb (bool_decide (it_id other = it_id i))
              && scopes_overlap (it_files_scope i) (it_files_scope other)) occupied
   || existsb (λ path, existsb (λ scope, _directory_covers scope path) (it_files_scope i)) pr_files)%bool.

(** A claim that has run out leaves its item ready. *)
Definition expire (moment : Z) (i : Item) : Item :=
  if bool_decide (it_status i = CLAIMED) && negb (_held i moment) then with_lease i READY None else i.

(** ** The queue *)
Record Disk := MkDisk { dk_items : Dir; dk_schema : Node; dk_ledger : Node }.

(** What a call answers. *)
Record ClaimView := MkClaimView {
  cv_item_id : string; cv_holder : string; cv_host : string; cv_expires_at : string; cv_idempotent : bool }.
Record ReleaseView := MkReleaseView {
  rv_item_id : string; rv_status : Status; rv_result : string; rv_idempotent : bool }.

Definition _claim_view (i : Item) (lease : Lease) (idempotent : bool) : ClaimView :=
  MkClaimView (it_id i) (l_holder lease) (l_host lease) (l_expires_at lease) idempotent.

(** [sorted(rows, key=lambda item: item["id"])] *)
Fixpoint insert_item (i : Item) (l : list Item) : list Item :=
  match l with
  | [] => [i]
  | j :: r => if str_leb (it_id i) (it_id j) then i :: l else j :: insert_item i r
  end.
Definition sort_items (l : list Item) : list Item := foldr insert_item [] l.

(** The view of an item that is handed out has no result and no releaser. *)
Definition _public (i : Item) : Item := with_state i (it_status i) (it_lease i) None None.

Section queue.
Context `{PyPlatform}.

(** The items before a moment is looked at. *)
Definition replay (d : Disk) : result (list Item) :=
  seeds ← _load_seeds (dk_items d) (dk_schema d);
  events ← _read_ledger (dk_ledger d);
  foldM _apply seeds events.

Definition _effective (d : Disk) (moment : Z) : result (list Item) :=
  items ← replay d; Ok (map (expire moment) items).

Definition _append (d : Disk) (e : Event) : result Disk :=
  let line := event_line e in
  match dk_ledger d with
  | Symlink _ => wq_raise "UNREADABLE"
  | Special | Unreadable => raise OSError "open"
  | Absent =>
      if MAX_LEDGER_BYTES <? byte_len line then wq_raise "LEDGER_TOO_LARGE"
      else Ok (MkDisk (dk_items d) (dk_schema d) (Regular line))
  | Regular raw =>
      if MAX_LEDGER_BYTES <? byte_len raw + byte_len line then wq_raise "LEDGER_TOO_LARGE"
      else Ok (MkDisk (dk_items d) (dk_schema d) (Regular (raw +:+ line)))
  end.

Definition _require_token (value : json) (code : string) : result string :=
  match _event_token value with Some s => Ok s | None => wq_raise code end.
Definition _require_ttl (value : json) : result Z :=
  match value with
  | JInt z => if (1 <=? z) && (z <=? MAX_TTL_SECONDS) then Ok z else wq_raise "TTL"
  | _ => wq_raise "TTL"
  end.
Definition _require_result (value : json) : result string :=
  match value with JStr s => if result_bad s then wq_raise "RESULT" else Ok (py_strip s) | _ => wq_raise "RESULT" end.

(** [_stamp(moment + timedelta(seconds=ttl))] *)
Definition expires_text (moment ttl : Z) : result string :=
  let t := moment + ttl * MICROS in
  if year_start 10000 <=? t then raise OverflowError "date value out of range" else Ok (stamp t).

Definition list_ready (d : Disk) (open_pr_files done_prs draft_prs : list string) (moment : Z)
  : result (list Item) :=
  items ← _effective d moment;
  let occupied := List.filter (λ i, _held i moment) items in
  let pr_files := map _norm open_pr_files in
  let ready := List.filter (λ i, _claimable_status i moment && _deps_met i items done_prs draft_prs
                                 && negb (_blocked_by_scope i occupied pr_files)) items in
  Ok (sort_items (map _public ready)).

(** The event of a claim. *)
Definition claim_event (id holder host expires : string) (moment : Z) : Event :=
  [("type", "CLAIM"); ("item_id", id); ("holder", holder); ("host", host); ("expires_at", expires);
   ("at", stamp moment)].
Definition renew_event (id holder host expires : string) (moment : Z) : Event :=
  [("type", "RENEW"); ("item_id", id); ("holder", holder); ("host", host); ("expires_at", expires);
   ("at", stamp moment)].
Definition release_event (id holder res : string) (moment : Z) : Event :=
  [("type", "RELEASE"); ("item_id", id); ("holder", holder); ("result", res); ("at", stamp moment)].

Definition claim (d : Disk) (item holder ttl host : json) (moment : Z)
    (done_prs open_pr_files draft_prs : list string) : result (ClaimView * Disk) :=
  item_id ← _require_token item "ITEM";
  holder ← _require_token holder "HOLDER";
  host ← _require_token host "HOST";
  ttl ← _require_ttl ttl;
  let pr_files := map _norm open_pr_files in
  items ← _effective d moment;
  match find_item item_id items with
  | None => wq_raise "UNKNOWN_ITEM"
  | Some current =>
      match (if _held current moment then it_lease current else None) with
      | Some lease =>
          if decide (l_holder lease = holder) then Ok (_claim_view current lease true, d)
          else wq_raise "DUPLICATE_CLAIM"
      | None =>
          if (negb (_claimable_status current moment)
              || negb (_deps_met current items done_prs draft_prs))%bool then wq_raise "NOT_CLAIMABLE" else
          let occupied := List.filter (λ row, _held row moment) items in
          if _blocked_by_scope current occupied pr_files then wq_raise "SCOPE_OVERLAP" else
          expires ← expires_text moment ttl;
          d' ← _append d (claim_event item_id holder host expires moment);
          Ok (_claim_view current (MkLease holder host expires) false, d')
      end
  end.

Definition renew (d : Disk) (item holder ttl : json) (moment : Z) : result (ClaimView * Disk) :=
  item_id ← _require_token item "ITEM";
  holder ← _require_token holder "HOLDER";
  ttl ← _require_ttl ttl;
  items ← _effective d moment;
  match find_item item_id items with
  | None => wq_raise "UNKNOWN_ITEM"
  | Some current =>
      match (if _held current moment then it_lease current else None) with
      | Some lease =>
          if decide (l_holder lease = holder) then
            expires ← expires_text moment ttl;
            d' ← _append d (renew_event item_id holder (l_host lease) expires moment);
            Ok (_claim_view current (MkLease holder (l_host lease) expires) false, d')
          else wq_raise "NOT_HOLDER"
      | None => wq_raise "NOT_HOLDER"
      end
  end.

Definition release (d : Disk) (item holder res : json) (moment : Z) : result (ReleaseView * Disk) :=
  item_id ← _require_token item "ITEM";
  holder ← _require_token holder "HOLDER";
  res ← _require_result res;
  let target_status := if _is_failed_result res then BLOCKED else DONE in
  items ← _effective d moment;
  match find_item item_id items with
  | None => wq_raise "UNKNOWN_ITEM"
  | Some current =>
      if (closed current && bool_decide (it_result current = Some res)
          && bool_decide (it_released_by current = Some holder))%bool
      then Ok (MkReleaseView item_id (it_status current) res true, d)
      else match it_status current with
      | DONE => wq_raise "ALREADY_DONE"
      | BLOCKED => wq_raise "NOT_CLAIMABLE"
      | _ =>
          match (if _held current moment then it_lease current else None) with
          | Some lease =>
              if decide (l_holder lease = holder) then
                d' ← _append d (release_event item_id holder res moment);
                Ok (MkReleaseView item_id target_status res false, d')
              else wq_raise "NOT_HOLDER"
          | None => wq_raise "NOT_HOLDER"
          end
      end
  end.

(** [WorkQueue.items] *)
Definition items_view (d : Disk) (moment : Z) : result (list Item) :=
  rows ← _effective d moment;
  Ok (map _public (sort_items rows)).
End queue.
