(* ===== verification/PullRequests.v ===== *)
(** * Pull requests and the command line ([work_queue.py])

    Classification of pull-request snapshots, their shared files, the prompt of
    a work item and the queue's command line. *)

From Stdlib Require Import Ascii.
From S2P Require Import Prelude PyText AsciiText PyTime Scope Json WorkItems WorkQueue.

Inductive Role := MERGED_DEPENDENCY | DRAFT_BLOCKED | OPEN | CLOSED.
Inductive Gate := GATE_BLOCKED | GATE_CLEAR | GATE_NOT_APPLICABLE.

#[export] Instance Role_eq_dec : EqDecision Role.
Proof. solve_decision. Defined.
#[export] Instance Gate_eq_dec : EqDecision Gate.
Proof. solve_decision. Defined.

Record PrView := MkPrView {
  pr_number : string;
  pr_role : Role;
  pr_merge_again : bool;
  pr_ready : bool;
  pr_files : list string;
}.

Record ConflictView := MkConflict { cf_left : string; cf_right : string; cf_paths : list string }.

Section pull_requests.
Context `{PyPlatform}.

(** [_norm_token(record.get("number"))], a token of at most 64 characters. *)
Definition pr_number_of (record : list (string * json)) : result string :=
  let number := py_str (jget_none "number" record) in
  if (negb (_TOKEN number) || (64 <? py_len number))%bool then wq_raise "PR_NUMBER" else Ok number.

Definition nonempty_text (j : json) : option string :=
  match j with JStr s => if decide (s = "") then None else Some s | _ => None end.

(** [record.get("files", [])], a list of non-empty texts. *)
Definition pr_files_of (record : list (string * json)) : result (list string) :=
  match default (JArr []) (jget "files" record) with
  | JArr l => match mapM nonempty_text l with Some files => Ok files | None => wq_raise "PR_FILES" end
  | _ => wq_raise "PR_FILES"
  end.

Definition read_pr_dependency (record : json) : result PrView :=
  match record with
  | JObj d =>
      match jget "is_draft" d with
      | Some (JBool is_draft) =>
          number ← pr_number_of d;
          let state := jget_none "state" d in
          known ← json_in_strs state ["MERGED"; "OPEN"; "CLOSED"];
          wq_if (negb known) "PR_STATE";;
          files ← pr_files_of d;
          let merged := bool_decide (state = JStr "MERGED") in
          wq_if (merged && is_draft) "DRAFT_MERGED";;
          let role := if (merged : bool) then MERGED_DEPENDENCY
                      else if (is_draft : bool) then DRAFT_BLOCKED
                      else if bool_decide (state = JStr "OPEN") then OPEN else CLOSED in
          Ok (MkPrView number role false false files)
      | _ => wq_raise "DRAFT_FLAG_REQUIRED"
      end
  | _ => wq_raise "DRAFT_FLAG_REQUIRED"
  end.

Definition draft_gate (record : json) : result (PrView * Gate) :=
  view ← read_pr_dependency record;
  Ok (view, match pr_role view with
            | DRAFT_BLOCKED => GATE_BLOCKED
            | OPEN => GATE_CLEAR
            | _ => GATE_NOT_APPLICABLE
            end).

(** ** Shared files *)
Definition bare (path : string) : string := rstrip_slash (_norm path).

(** The order of [(len(bare), norm)]. *)
Definition path_leb (a b : string) : bool :=
  let x := py_len (bare a) in
  let y := py_len (bare b) in
  (x <? y) || (x =? y) && str_leb (_norm a) (_norm b).

Definition shared_hit (left_path right_path : string) : option string :=
  if negb (_directory_covers left_path right_path) && negb (_directory_covers right_path left_path) then None
  else if bool_decide (bare left_path = bare right_path) then Some (bare left_path)
  else if path_leb left_path right_path then Some (left_path +:+ " ~ " +:+ right_path)
  else Some (right_path +:+ " ~ " +:+ left_path).

Fixpoint insert_text (s : string) (l : list string) : list string :=
  match l with
  | [] => [s]
  | t :: r => if decide (s = t) then l else if str_leb s t then s :: l else t :: insert_text s r
  end.
(** [sorted(set(l))] *)
Definition sorted_set (l : list string) : list string := foldr insert_text [] l.

Definition conflict_of (left right : string * list string) : option ConflictView :=
  match flat_map (λ l, omap (shared_hit l) right.2) left.2 with
  | [] => None
  | hits =>
      let '(first, second) := if str_leb left.1 right.1 then (left.1, right.1) else (right.1, left.1) in
      Some (MkConflict first second (sorted_set hits))
  end.

Fixpoint conflicts_of (rows : list (string * list string)) : list ConflictView :=
  match rows with [] => [] | row :: r => (omap (conflict_of row) r ++ conflicts_of r)%list end.

Definition conflict_leb (a b : ConflictView) : bool :=
  if decide (cf_left a = cf_left b) then str_leb (cf_right a) (cf_right b) else str_leb (cf_left a) (cf_left b).
Fixpoint insert_conflict (c : ConflictView) (l : list ConflictView) : list ConflictView :=
  match l with [] => [c] | d :: r => if conflict_leb c d then c :: l else d :: insert_conflict c r end.

Fixpoint pr_rows (seen : list string) (records : list json) : result (list (string * list string)) :=
  match records with
  | [] => Ok []
  | JObj d :: r =>
      number ← pr_number_of d;
      wq_if (bool_decide (number ∈ seen)) "DUPLICATE_PR";;
      files ← pr_files_of d;
      rows ← pr_rows (number :: seen) r;
      Ok ((number, files) :: rows)
  | _ :: _ => wq_raise "PR_RECORD"
  end.

Definition shared_file_conflicts (records : json) : result (list ConflictView) :=
  match records with
  | JArr l => rows ← pr_rows [] l; Ok (foldr insert_conflict [] (conflicts_of rows))
  | _ => wq_raise "PR_RECORD"
  end.

(** ** The command line *)
Definition newline : string := String LF "".
Definition bullets (l : list string) : string := join newline (map (λ s, "- " +:+ s) l).
Definition or_none (s : string) : string := if decide (s = "") then "none" else s.

Definition render_prompt (i : Item) (holder : string) : string :=
  "id: " +:+ it_id i +:+ newline
  +:+ "title: " +:+ it_title i +:+ newline
  +:+ "lane: " +:+ it_lane i +:+ newline
  +:+ "branch: " +:+ it_branch i +:+ newline
  +:+ "holder: " +:+ holder +:+ newline
  +:+ "depends_on: " +:+ or_none (join ", " (it_depends_on i)) +:+ newline
  +:+ "provider_hints: " +:+ or_none (join ", " (it_provider_hints i)) +:+ newline
  +:+ "files_scope:" +:+ newline +:+ bullets (it_files_scope i) +:+ newline
  +:+ "acceptance:" +:+ newline +:+ bullets (it_acceptance i) +:+ newline
  +:+ "---" +:+ newline
  +:+ "Work item " +:+ it_id i +:+ " only. Branch " +:+ it_branch i +:+ "." +:+ newline
  +:+ "Write only paths that match files_scope. Do not edit other files." +:+ newline
  +:+ "Acceptance is the list above. Claim the item before writing, then release it with the result."
  +:+ newline.

(** The parsed arguments of a command. *)
Inductive Command :=
  | CmdNext (holder : string) (open_pr_files done_prs draft_prs : list string)
  | CmdClaim (item holder : string) (ttl : Z) (host : string) (done_prs open_pr_files draft_prs : list string)
  | CmdRenew (item holder : string) (ttl : Z)
  | CmdRelease (item holder res : string).

(** What a command prints; an answer is printed as JSON. *)
Inductive Output :=
  | OutText (text : string)
  | OutClaim (view : ClaimView)
  | OutRelease (view : ReleaseView)
  | OutError (code : string).

Definition main (cmd : Command) (d : Disk) (moment : Z) : result (Z * Output * Disk) :=
  let answered :=
    match cmd with
    | CmdNext holder open_pr_files done_prs draft_prs =>
        ready ← list_ready d open_pr_files done_prs draft_prs moment;
        Ok (OutText (match ready with [] => "NO_READY_ITEM" +:+ newline | i :: _ => render_prompt i holder end), d)
    | CmdClaim item holder ttl host done_prs open_pr_files draft_prs =>
        '(v, d') ← claim d (JStr item) (JStr holder) (JInt ttl) (JStr host) moment done_prs open_pr_files draft_prs;
        Ok (OutClaim v, d')
    | CmdRenew item holder ttl =>
        '(v, d') ← renew d (JStr item) (JStr holder) (JInt ttl) moment; Ok (OutClaim v, d')
    | CmdRelease item holder res =>
        '(v, d') ← release d (JStr item) (JStr holder) (JStr res) moment; Ok (OutRelease v, d')
    end in
  match answered with
  | Ok (out, d') => Ok (0, out, d')
  | Err (Exn (WorkQueueError code) _) => Ok (2, OutError code, d)
  | Err e => Err e
  end.
End pull_requests.
