(* ===== verification/DagResolver.v ===== *)
(** * The dependency resolver ([dag_resolver.py])

    The schedule of a catalog of work items - stages of items that may run in
    parallel, each after everything it depends on - the detection of circular
    dependencies, and the items a ledger of completions makes eligible. *)

From Stdlib Require Import Ascii.
From S2P Require Import Prelude PyText AsciiText Scope Json.

(** ** The catalog *)

(** A dict from item ids to the ids they depend on, in insertion order. *)
Definition Graph := list (string * list string).

Fixpoint set_deps (id : string) (deps : list string) (g : Graph) : Graph :=
  match g with
  | [] => [(id, deps)]
  | (k, v) :: g => if decide (k = id) then (k, deps) :: g else (k, v) :: set_deps id deps g
  end.

(** What one file of the catalog contributes: nothing (an exception, or no
    id), an entry, or an entry whose keys are not texts, which the catalog's
    schema rules out and this model leaves out. *)
Inductive Loaded := Skipped | Entry (id : string) (deps : list string) | NotText.

Definition text_of (j : json) : option string := match j with JStr s => Some s | _ => None end.

(** [list(data.get("depends_on", []))] *)
Definition deps_of (data : list (string * json)) : option (option (list string)) :=
  match jget "depends_on" data with
  | None => Some (Some [])
  | Some (JArr l) => match mapM text_of l with Some deps => Some (Some deps) | None => Some None end
  | Some (JStr s) => Some (Some (chars s))
  | Some (JObj kvs) => Some (Some (keys kvs))
  | Some _ => None
  end.

Definition load_item `{PyPlatform} (content : option string) : Loaded :=
  match content with
  | None => Skipped
  | Some raw =>
      match (if utf8_valid raw then loads raw else raise ValueError "invalid start byte") with
      | Ok (JObj data) =>
          let id := jget_none "id" data in
          if negb (py_truthy id) then Skipped
          else match deps_of data with
          | None => Skipped
          | Some deps =>
              if negb (json_hashable id) then Skipped
              else match id, deps with
              | JStr s, Some l => Entry s l
              | _, _ => NotText
              end
          end
      | _ => Skipped
      end
  end.

(** [_load_items] over the contents of the [*.json] files, sorted by path;
    [None] is a file that cannot be read. *)
Fixpoint load_all `{PyPlatform} (files : list (option string)) (g : Graph) : option Graph :=
  match files with
  | [] => Some g
  | f :: files =>
      match load_item f with
      | Skipped => load_all files g
      | Entry id deps => load_all files (set_deps id deps g)
      | NotText => None
      end
  end.
Definition _load_items `{PyPlatform} (files : list (option string)) : option Graph := load_all files [].

(** ** The schedule *)

(** [sorted(...)] of distinct texts. *)
Definition sorted (l : list string) : list string := merge_sort String.le l.

Definition nodes (g : Graph) : list string := g.*1.

(** The two maps [resolve] works on. *)
Record Degrees := mkDegrees { in_degree : gmap string Z; dependents : gmap string (gset string) }.

Definition start_degrees (g : Graph) : Degrees :=
  mkDegrees (list_to_map (map (λ k, (k, 0)) (nodes g))) (list_to_map (map (λ k, (k, ∅)) (nodes g))).

(** One edge: [in_degree[node] += 1; dependents[d].add(node)]. *)
Definition add_edge (ns : list string) (node d : string) (m : Degrees) : Degrees :=
  if bool_decide (d ∈ ns)
  then mkDegrees (alter (Z.add 1) node (in_degree m)) (alter (union {[node]}) d (dependents m))
  else m.

Definition add_node (ns : list string) (m : Degrees) (entry : string * list string) : Degrees :=
  foldl (λ m d, add_edge ns entry.1 d m) m entry.2.

Definition degrees (g : Graph) : Degrees := foldl (add_node (nodes g)) (start_degrees g) g.

(** [for dep in sorted(dependents[node]): in_degree[dep] -= 1; ...] *)
Definition release_dep (acc : gmap string Z * list string) (dep : string) : gmap string Z * list string :=
  let '(deg, next) := acc in
  let deg := alter (λ z, z - 1) dep deg in
  (deg, if bool_decide (deg !! dep = Some 0) then next ++ [dep] else next).

Definition dependents_of (m : Degrees) (node : string) : list string :=
  sorted (elements (default ∅ (dependents m !! node))).

(** One node of the current stage. *)
Definition visit (m : Degrees) (acc : gmap string Z * list string) (node : string)
  : gmap string Z * list string :=
  foldl release_dep acc (dependents_of m node).

(** [while q: ...]: the stages, and the degrees at the end.  A stage takes at
    least one node, so one unit of fuel per node is enough. *)
Fixpoint stages_from (fuel : nat) (m : Degrees) (deg : gmap string Z) (q : list string)
  : list (list string) * gmap string Z :=
  match fuel, q with
  | O, _ | _, [] => ([], deg)
  | S fuel, _ =>
      let stage := sorted q in
      let '(deg, next) := foldl (visit m) (deg, []) stage in
      let '(rest, deg) := stages_from fuel m deg next in
      (stage :: rest, deg)
  end.

(** [[k for k, deg in in_degree.items() if deg == 0]] *)
Definition ready (g : Graph) (deg : gmap string Z) : list string :=
  List.filter (λ k, bool_decide (deg !! k = Some 0)) (nodes g).

Record DAGResolutionReport := mkReport {
  execution_order : list string;
  stages : list (list string);
  item_dependencies : Graph;
}.

(** The report, or the nodes the CycleDetectedError names. *)
Definition resolve (g : Graph) : DAGResolutionReport + list string :=
  let m := degrees g in
  let '(st, deg) := stages_from (S (length (nodes g))) m (in_degree m) (ready g (in_degree m)) in
  if decide (length (concat st) = length (nodes g)) then inl (mkReport (concat st) st g)
  else inr (List.filter (λ k, match deg !! k with Some z => 0 <? z | None => false end) (nodes g)).

(** ** Readiness *)

Record ReadinessReport := mkReadiness {
  eligible_items : list string;
  blocked_items : list (string * list string);
}.

Definition missing (completed : gset string) (deps : list string) : list string :=
  List.filter (λ d, negb (bool_decide (d ∈ completed))) deps.

Definition evaluate_readiness (g : Graph) (completed : gset string) : ReadinessReport :=
  mkReadiness
    (sorted (map fst (List.filter (λ e, bool_decide (missing completed e.2 = [])) g)))
    (List.filter (λ e, negb (bool_decide (e.2 = []))) (map (λ e, (e.1, missing completed e.2)) g)).

(** [ev.get("status") == "DONE"] and the rest of one ledger line; what is not
    a text never equals a dependency. *)
Definition failed_word (s : string) : bool :=
  existsb (λ p, String.prefix p s) ["FAIL"; "ABORT"; "ERROR"; "REJECT"].

Definition complete_line `{PyPlatform} (completed : gset string) (line : string) : gset string :=
  match loads line with
  | Ok (JObj ev) =>
      match jget_none "item_id" ev with
      | JStr "" => completed
      | JStr id =>
          if py_eq (jget_none "status" ev) (JStr "DONE") then {[id]} ∪ completed
          else if py_eq (jget_none "type" ev) (JStr "RELEASE") then
            let res := jget_none "result" ev in
            let word := py_upper (py_strip (if py_truthy res then py_str res else "")) in
            if (negb (bool_decide (word = "")) && negb (failed_word word))%bool
            then {[id]} ∪ completed else completed ∖ {[id]}
          else if py_eq (jget_none "type" ev) (JStr "CLAIM") then completed ∖ {[id]}
          else completed
      | _ => completed
      end
  | _ => completed
  end.

(** One turn of the loop over the ledger's lines. *)
Definition read_completed `{PyPlatform} (completed : gset string) (line : string) : gset string :=
  if bool_decide (py_strip line = "") then completed else complete_line completed (py_strip line).

(** [_load_completed_from_ledger]; [None] is a missing file, and a file that
    is not UTF-8 raises. *)
Definition _load_completed_from_ledger `{PyPlatform} (ledger : option string) : result (gset string) :=
  match ledger with
  | None => Ok ∅
  | Some raw =>
      if utf8_valid raw then Ok (foldl read_completed ∅ (splitlines raw))
      else raise ValueError "invalid start byte"
  end.

(** ** The maps *)

Lemma nodes_elem g n : n ∈ nodes g ↔ ∃ ds, (n, ds) ∈ g.
Proof.
  unfold nodes. rewrite list_elem_of_fmap. split.
  - intros ([k ds] & -> & Hk). by exists ds.
  - intros [ds Hds]. by exists (n, ds).
Qed.

(** [n] depends on [d], an item of the catalog. *)
Definition depends (g : Graph) (n d : string) : Prop := ∃ ds, (n, ds) ∈ g ∧ d ∈ ds ∧ d ∈ nodes g.

(** The dependencies of one entry that count. *)
Definition counted (ns ds : list string) : list string := filter (λ d, d ∈ ns) ds.

Lemma add_edges_degree ns n ds m k :
  in_degree (foldl (λ m d, add_edge ns n d m) m ds) !! k
  = if decide (k = n) then Z.add (Z.of_nat (length (counted ns ds))) <$> in_degree m !! k
    else in_degree m !! k.
Proof.
  revert m. induction ds as [|d ds IH]; intros m; cbn [foldl counted].
  { case_decide; [|done]. simpl. by destruct (in_degree m !! k). }
  rewrite IH. unfold counted. rewrite filter_cons. unfold add_edge.
  case_bool_decide as Hd; [rewrite (decide_True (P := d ∈ ns)) by done|by rewrite (decide_False (P := d ∈ ns))].
  cbn [in_degree length]. destruct (decide (k = n)) as [->|Hk].
  - rewrite lookup_alter_eq. destruct (in_degree m !! n); simpl; [f_equal; lia|done].
  - by rewrite lookup_alter_ne.
Qed.

Lemma add_edges_dependents ns n ds m d :
  dependents (foldl (λ m d, add_edge ns n d m) m ds) !! d
  = if decide (d ∈ counted ns ds) then union {[n]} <$> dependents m !! d else dependents m !! d.
Proof.
  revert m. induction ds as [|x ds IH]; intros m; cbn [foldl counted].
  { rewrite decide_False; [done|]. apply not_elem_of_nil. }
  rewrite IH. unfold counted. rewrite filter_cons. unfold add_edge. fold (counted ns ds).
  case_bool_decide as Hx; [rewrite (decide_True (P := x ∈ ns)) by done|by rewrite (decide_False (P := x ∈ ns))].
  cbn [dependents]. destruct (decide (d = x)) as [->|Hd].
  - rewrite lookup_alter_eq, (decide_True (P := x ∈ x :: _)) by (by left).
    case_decide; [|done]. destruct (dependents m !! x); simpl; [f_equal; set_solver|done].
  - rewrite lookup_alter_ne by done. repeat case_decide; try done; set_solver.
Qed.

Lemma add_node_degree ns m n ds k :
  in_degree (add_node ns m (n, ds)) !! k
  = if decide (k = n) then Z.add (Z.of_nat (length (counted ns ds))) <$> in_degree m !! k
    else in_degree m !! k.
Proof. apply add_edges_degree. Qed.

Lemma degrees_other ns h m k :
  k ∉ h.*1 → in_degree (foldl (add_node ns) m h) !! k = in_degree m !! k.
Proof.
  revert m. induction h as [|[n ds] h IH]; intros m Hk; [done|]. cbn [foldl fmap list_fmap] in *.
  rewrite IH by set_solver. rewrite add_node_degree, decide_False; [done|]. set_solver.
Qed.

Lemma degrees_entry ns h m n ds :
  NoDup h.*1 → (n, ds) ∈ h →
  in_degree (foldl (add_node ns) m h) !! n
  = Z.add (Z.of_nat (length (counted ns ds))) <$> in_degree m !! n.
Proof.
  revert m. induction h as [|[k es] h IH]; intros m Hnd Hin; [by apply not_elem_of_nil in Hin|].
  cbn [foldl fmap list_fmap] in *. apply NoDup_cons in Hnd as [Hk Hnd].
  apply elem_of_cons in Hin as [[= <- <-]|Hin].
  - rewrite degrees_other by done. by rewrite add_node_degree, decide_True.
  - rewrite IH by done. rewrite add_node_degree, decide_False; [done|].
    intros ->. apply Hk. apply list_elem_of_fmap. by exists (k, ds).
Qed.

Lemma degrees_dependents ns h m d x :
  is_Some (dependents m !! d) →
  is_Some (dependents (foldl (add_node ns) m h) !! d)
  ∧ (x ∈ default ∅ (dependents (foldl (add_node ns) m h) !! d)
     ↔ x ∈ default ∅ (dependents m !! d) ∨ ∃ ds, (x, ds) ∈ h ∧ d ∈ counted ns ds).
Proof.
  revert m. induction h as [|[n ds] h IH]; intros m Hs; cbn [foldl].
  { split; [done|]. split; [by left|]. by intros [|(ds & []%not_elem_of_nil & _)]. }
  assert (dependents (add_node ns m (n, ds)) !! d
    = if decide (d ∈ counted ns ds) then union {[n]} <$> dependents m !! d else dependents m !! d) as E
    by apply add_edges_dependents.
  destruct (IH (add_node ns m (n, ds))) as [Hs' Hx].
  { rewrite E. case_decide; [by apply fmap_is_Some|done]. }
  split; [done|]. rewrite Hx, E. destruct Hs as [S HS]. rewrite HS.
  setoid_rewrite elem_of_cons. case_decide as Hd; simpl.
  - rewrite elem_of_union, elem_of_singleton. naive_solver.
  - naive_solver.
Qed.

Section schedule.
Context (g : Graph) (g_dict : NoDup (nodes g)).
#[local] Abbreviation ns := (nodes g).
#[local] Abbreviation m := (degrees g).

Lemma start_degree n : n ∈ ns → in_degree (start_degrees g) !! n = Some 0.
Proof.
  intros Hn. simpl. apply elem_of_list_to_map.
  - rewrite <- list_fmap_compose. rewrite (list_fmap_ext _ id) by done. by rewrite list_fmap_id.
  - apply list_elem_of_fmap. by exists n.
Qed.

Lemma start_dependents d : d ∈ ns → dependents (start_degrees g) !! d = Some ∅.
Proof.
  intros Hn. simpl. apply elem_of_list_to_map.
  - rewrite <- list_fmap_compose. rewrite (list_fmap_ext _ id) by done. by rewrite list_fmap_id.
  - apply list_elem_of_fmap. by exists d.
Qed.

Lemma degree_of n ds : (n, ds) ∈ g → in_degree m !! n = Some (Z.of_nat (length (counted ns ds))).
Proof.
  intros Hin. unfold degrees. rewrite (degrees_entry _ _ _ _ ds) by done.
  rewrite start_degree by (apply nodes_elem; by exists ds). cbn [fmap option_fmap option_map]. by rewrite Z.add_0_r.
Qed.

Lemma dependents_spec d x : d ∈ ns → x ∈ dependents_of m d ↔ depends g x d.
Proof.
  intros Hd. unfold dependents_of, sorted. rewrite merge_sort_Permutation, elem_of_elements.
  unfold degrees. destruct (degrees_dependents (nodes g) g (start_degrees g) d x) as [_ ->].
  { by rewrite start_dependents. }
  rewrite start_dependents by done. unfold depends, counted. setoid_rewrite list_elem_of_filter.
  simpl. set_solver.
Qed.

Lemma dependents_nodup d : NoDup (dependents_of m d).
Proof. unfold dependents_of, sorted. rewrite merge_sort_Permutation. apply NoDup_elements. Qed.

(** ** The loop *)

(** The dependencies of an entry among the nodes [P] taken so far, and what is
    left of its degree: a dependency listed twice is never paid off. *)
Definition paid (P ds : list string) : gset string := list_to_set (filter (λ d, d ∈ P) (counted ns ds)).
Definition unpaid (P ds : list string) : Z := Z.of_nat (length (counted ns ds)) - Z.of_nat (size (paid P ds)).

Lemma size_set_le (l : list string) : (size (list_to_set l : gset string) ≤ length l)%nat.
Proof.
  induction l as [|x l IH]; cbn [list_to_set length]; [by rewrite size_empty|].
  rewrite size_union_alt, size_singleton.
  assert (size (list_to_set l ∖ {[x]} : gset string) ≤ size (list_to_set l : gset string))%nat;
    [apply subseteq_size; set_solver|lia].
Qed.

Lemma unpaid_nonneg P ds : 0 ≤ unpaid P ds.
Proof.
  unfold unpaid, paid. pose proof (size_set_le (filter (λ d, d ∈ P) (counted ns ds))).
  pose proof (length_filter (λ d, d ∈ P) (counted ns ds)). lia.
Qed.

Lemma unpaid_snoc P x ds :
  x ∉ P → unpaid (P ++ [x]) ds = unpaid P ds - (if decide (x ∈ counted ns ds) then 1 else 0).
Proof.
  intros Hx. unfold unpaid.
  assert (paid (P ++ [x]) ds = paid P ds ∪ (if decide (x ∈ counted ns ds) then {[x]} else ∅)) as ->.
  { apply set_eq. intros y. unfold paid. rewrite elem_of_union, !elem_of_list_to_set, !list_elem_of_filter.
    rewrite elem_of_app, list_elem_of_singleton.
    destruct (decide (x ∈ counted ns ds)); rewrite ?elem_of_singleton, ?elem_of_empty; naive_solver. }
  destruct (decide _); [|rewrite union_empty_r_L; lia].
  rewrite size_union; [rewrite size_singleton; lia|]. intros y Hy ->%elem_of_singleton.
  by apply elem_of_list_to_set, list_elem_of_filter in Hy as [? _].
Qed.

Lemma release_fold l deg next :
  NoDup l → (∀ k, k ∈ l → is_Some (deg !! k)) →
  let '(deg', next') := foldl release_dep (deg, next) l in
  (∀ k, deg' !! k = if decide (k ∈ l) then (λ z, z - 1) <$> deg !! k else deg !! k)
  ∧ next' = next ++ filter (λ k, deg !! k = Some 1) l.
Proof.
  intros Hnd. revert deg next. induction Hnd as [|x l Hx Hnd IH]; intros deg next Hk.
  { split; [done|]. by rewrite filter_nil, app_nil_r. }
  cbn [foldl release_dep]. set (deg1 := alter (λ z, z - 1) x deg).
  specialize (IH deg1 (if bool_decide (deg1 !! x = Some 0) then next ++ [x] else next)).
  destruct (foldl release_dep _ l) as [deg' next']. destruct IH as [Hd Hn].
  { intros k Hin. unfold deg1. apply lookup_alter_is_Some, Hk. by right. }
  split.
  - intros k. rewrite Hd. unfold deg1. rewrite lookup_alter.
    destruct (Hk x ltac:(by left)) as [z Hz]. repeat case_decide; subst; try done; set_solver.
  - rewrite Hn, filter_cons. destruct (Hk x ltac:(by left)) as [z Hz].
    assert (filter (λ k, deg1 !! k = Some 1) l = filter (λ k, deg !! k = Some 1) l) as ->.
    { apply filter_ext_in. intros y Hy. unfold deg1. rewrite lookup_alter_ne; [done|]. by intros ->. }
    assert (deg1 !! x = Some (z - 1)) as -> by (unfold deg1; by rewrite lookup_alter_eq, Hz).
    rewrite Hz. destruct (decide (z = 1)) as [->|Hne].
    + by rewrite decide_True, bool_decide_true, <- app_assoc by done.
    + by rewrite decide_False, bool_decide_false by (intros [=]; lia).
Qed.

(** [P] are the nodes taken, [cur] the rest of the stage, [next] the nodes for
    the stage after it. *)
Record Kahn (deg : gmap string Z) (P cur next : list string) : Prop := {
  kn_degree : ∀ n ds, (n, ds) ∈ g → deg !! n = Some (unpaid P ds);
  kn_nodup : NoDup (P ++ cur ++ next);
  kn_taken : ∀ n ds, (n, ds) ∈ g → n ∈ P ++ cur ++ next ↔ unpaid P ds = 0;
  kn_nodes : ∀ n, n ∈ P ++ cur ++ next → n ∈ ns;
}.

Lemma depends_counted n d ds : (n, ds) ∈ g → depends g n d ↔ d ∈ counted ns ds.
Proof.
  intros Hin. unfold counted. rewrite list_elem_of_filter. split; [|intros []; by exists ds].
  intros (ds' & Hin' & Hd & Hn). assert (ds' = ds) as ->; [|done].
  unfold nodes in g_dict. clear -g_dict Hin Hin'. induction g as [|[k es] h IH]; [by apply not_elem_of_nil in Hin|].
  cbn [fmap list_fmap fst] in g_dict. apply NoDup_cons in g_dict as [Hk Hnd].
  assert (∀ es', (k, es') ∈ h → False) as Hno.
  { intros es' Hes. apply Hk, list_elem_of_fmap. by exists (k, es'). }
  apply elem_of_cons in Hin as [Hin|Hin], Hin' as [Hin'|Hin']; simplify_eq; try done.
  - by apply Hno in Hin'.
  - by apply Hno in Hin.
  - by apply IH.
Qed.

Lemma visit_step deg P x cur next :
  Kahn deg P (x :: cur) next →
  ∃ new, let acc := visit m (deg, next) x in
  acc.2 = next ++ new ∧ Kahn acc.1 (P ++ [x]) cur (next ++ new) ∧ ∀ n, n ∈ new → depends g n x.
Proof.
  intros [Hdeg Hnd Htk Hsub].
  assert (x ∉ P) as Hx by (apply NoDup_app in Hnd as (_ & Hd & _); intros Hin; apply (Hd x Hin); by left).
  assert (x ∈ ns) as Hxn by (apply Hsub; set_solver).
  unfold visit. pose proof (release_fold (dependents_of m x) deg next (dependents_nodup x)) as Hf.
  destruct (foldl release_dep _ _) as [deg' next']. destruct Hf as [Hd ->].
  { intros k Hk. apply dependents_spec in Hk as (ds & Hk & _); [|done]. by eexists; eapply Hdeg. }
  remember (filter (λ k, deg !! k = Some 1) (dependents_of m x)) as new eqn:Enew.
  exists new. cbv zeta. cbn [fst snd].
  assert (∀ n ds, (n, ds) ∈ g → n ∈ new ↔ unpaid P ds = 1 ∧ x ∈ counted ns ds) as Hnew.
  { intros n ds Hin. rewrite Enew, list_elem_of_filter, dependents_spec, (depends_counted n x ds), (Hdeg n ds) by done.
    split; intros [H1 H2]; split; congruence. }
  assert (∀ n ds, (n, ds) ∈ g → n ∈ (P ++ [x]) ++ cur ++ next ++ new ↔ unpaid (P ++ [x]) ds = 0) as Htk'.
  { intros n ds Hin. rewrite unpaid_snoc by done. pose proof (unpaid_nonneg (P ++ [x]) ds) as Hge.
    rewrite unpaid_snoc in Hge by done. 
    assert (n ∈ (P ++ [x]) ++ cur ++ next ++ new ↔ n ∈ P ++ (x :: cur) ++ next ∨ n ∈ new) as -> by set_solver.
    rewrite (Hnew n ds Hin), (Htk n ds Hin).
    destruct (decide (x ∈ counted ns ds)) as [Hc|Hc]; split.
    - intros [|[]]; lia.
    - intros. right. split; [lia|done].
    - intros [|[]]; [lia|done].
    - intros. left. lia. }
  assert (NoDup new ∧ ∀ n, n ∈ new → n ∉ P ++ (x :: cur) ++ next) as [Hndn Hdis].
  { split; [rewrite Enew; by apply NoDup_filter, dependents_nodup|]. intros n Hn Hold.
    pose proof (Hsub n Hold) as [ds Hin]%nodes_elem. apply (Hnew n ds Hin) in Hn as [H1 _].
    apply (Htk n ds Hin) in Hold. lia. }
  split_and!; [done| |].
  - split; [| |done|].
    + intros n ds Hin. rewrite Hd, unpaid_snoc, (Hdeg n ds Hin) by done.
      pose proof (depends_counted n x ds Hin). pose proof (dependents_spec x n Hxn).
      repeat case_decide; simpl; try (f_equal; lia); tauto.
    + assert ((P ++ [x]) ++ cur ++ next ++ new = (P ++ (x :: cur) ++ next) ++ new) as ->
        by (by rewrite <- !app_assoc).
      apply NoDup_app. split_and!; [done| |done]. intros n Hn Hin. by apply (Hdis n).
    + intros n Hn. assert (n ∈ P ++ (x :: cur) ++ next ∨ n ∈ new) as [Hold|Hin] by set_solver; [by apply Hsub|].
      rewrite Enew in Hin. apply list_elem_of_filter in Hin as [_ Hin].
      apply dependents_spec in Hin as (ds & Hin & _); [|done]. apply nodes_elem. by exists ds.
  - intros n Hn. rewrite Enew in Hn. apply list_elem_of_filter in Hn as [_ Hin]. by apply dependents_spec in Hin.
Qed.


Lemma visit_stage deg P cur next :
  Kahn deg P cur next →
  ∃ new, let acc := foldl (visit m) (deg, next) cur in
  acc.2 = next ++ new ∧ Kahn acc.1 (P ++ cur) [] (next ++ new)
  ∧ ∀ n, n ∈ new → ∃ x, x ∈ cur ∧ depends g n x.
Proof.
  revert deg P next. induction cur as [|x cur IH]; intros deg P next HK.
  { exists []. cbn [foldl fst snd]. rewrite !app_nil_r. split_and!; [done..|]. by intros n []%not_elem_of_nil. }
  destruct (visit_step _ _ _ _ _ HK) as (new1 & E & HK1 & Hdep1). cbv zeta in E, HK1.
  cbn [foldl]. destruct (visit m (deg, next) x) as [deg1 next1]. cbn [fst snd] in *. subst next1.
  destruct (IH _ _ _ HK1) as (new2 & E & HK2 & Hdep2). exists (new1 ++ new2). cbv zeta in *.
  rewrite app_assoc. split_and!; [done| |].
  - by rewrite <- app_assoc in HK2.
  - intros n [Hn|Hn]%elem_of_app; [exists x; split; [by left|by apply Hdep1]|].
    destruct (Hdep2 n Hn) as (y & Hy & ?). exists y. split; [by right|done].
Qed.

Lemma kahn_sorted deg P q : Kahn deg P [] q → Kahn deg P (sorted q) [].
Proof.
  assert (P ++ [] ++ q ≡ₚ P ++ sorted q ++ []) as Hp.
  { unfold sorted. by rewrite app_nil_r, merge_sort_Permutation. }
  intros [Hdeg Hnd Htk Hsub]. split; [done|by rewrite <- Hp| |].
  - intros n ds Hin. rewrite <- (Htk n ds Hin). by rewrite Hp.
  - intros n. rewrite <- Hp. apply Hsub.
Qed.

Lemma unpaid_zero P ds : unpaid P ds = 0 → ∀ d, d ∈ counted ns ds → d ∈ P.
Proof.
  unfold unpaid, paid. intros Hz d Hd. destruct (decide (d ∈ P)) as [|Hn]; [done|].
  pose proof (length_filter_lt (λ d, d ∈ P) (counted ns ds) d Hd Hn).
  pose proof (size_set_le (filter (λ d, d ∈ P) (counted ns ds))). lia.
Qed.

Lemma unpaid_all P ds : NoDup (counted ns ds) → (∀ d, d ∈ counted ns ds → d ∈ P) → unpaid P ds = 0.
Proof.
  intros Hnd Hall. unfold unpaid, paid. rewrite filter_all by (by apply Forall_forall).
  rewrite size_list_to_set by done. lia.
Qed.

Lemma kahn_taken deg P cur next n d :
  Kahn deg P cur next → n ∈ P ++ cur ++ next → depends g n d → d ∈ P.
Proof.
  intros [Hdeg Hnd Htk Hsub] Hn (ds & Hin & Hd & Hns).
  apply (unpaid_zero P ds); [by apply (Htk n)|]. apply list_elem_of_filter. by split.
Qed.

Lemma kahn_length deg P cur next : Kahn deg P cur next → (length P ≤ length ns)%nat.
Proof.
  intros [_ [HP _]%NoDup_app _ Hsub]. apply submseteq_length, NoDup_submseteq; [done|].
  intros n Hn. apply Hsub. apply elem_of_app. by left.
Qed.

(** What the stages promise: [P] are the nodes taken before them. *)
Record Staged (P : list string) (st : list (list string)) : Prop := {
  sg_after : ∀ i s n d, st !! i = Some s → n ∈ s → depends g n d → d ∈ P ++ concat (take i st);
  sg_early : ∀ i s n, st !! S i = Some s → n ∈ s → ∃ s' x, st !! i = Some s' ∧ x ∈ s' ∧ depends g n x;
  sg_sorted : ∀ s, s ∈ st → s ≠ [] ∧ s = sorted s;
}.

Lemma sorted_idem l : sorted (sorted l) = sorted l.
Proof.
  unfold sorted. apply (StronglySorted_unique String.le).
  - apply StronglySorted_merge_sort; apply _.
  - apply StronglySorted_merge_sort; apply _.
  - apply merge_sort_Permutation.
Qed.

Lemma staged_cons P q st :
  q ≠ [] → (∀ n d, n ∈ q → depends g n d → d ∈ P) → Staged (P ++ sorted q) st →
  (∀ s n, st !! 0%nat = Some s → n ∈ s → ∃ x, x ∈ sorted q ∧ depends g n x) →
  Staged P (sorted q :: st).
Proof.
  intros Hne Hq [Ha He Hs] H0. split.
  - intros [|i] s n d Hi Hn Hd; simpl in Hi; [simplify_eq|].
    + apply elem_of_app. left. apply (Hq n d); [|done]. unfold sorted in Hn. by rewrite merge_sort_Permutation in Hn.
    + cbn [take concat]. rewrite app_assoc. by eapply Ha.
  - intros [|i] s n Hi Hn; simpl in Hi.
    + destruct (H0 s n Hi Hn) as (x & Hx & Hd). exists (sorted q), x. by split_and!.
    + destruct (He i s n Hi Hn) as (s' & x & Hs' & Hx & Hd). exists s', x. by split_and!.
  - intros s [->|Hin]%elem_of_cons; [|by apply Hs]. split; [|by rewrite sorted_idem].
    intros E. apply Hne. apply Permutation_nil_r. rewrite <- E. unfold sorted. by rewrite merge_sort_Permutation.
Qed.

Lemma stages_spec fuel deg P q :
  Kahn deg P [] q → (length ns < fuel + length P)%nat →
  let '(st, deg') := stages_from fuel m deg q in
  Kahn deg' (P ++ concat st) [] [] ∧ Staged P st
  ∧ ∀ s n, st !! 0%nat = Some s → n ∈ s → n ∈ q.
Proof.
  revert deg P q. induction fuel as [|fuel IH]; intros deg P q HK Hf.
  { pose proof (kahn_length _ _ _ _ HK). lia. }
  destruct q as [|x0 q0] eqn:Eq; [|rewrite <- Eq in *].
  { cbn [stages_from concat]. rewrite app_nil_r. split_and!; [done| |by intros ? ? [=]].
    split; [by intros i s n d [=]|by intros i s n [=]|by intros s []%not_elem_of_nil]. }
  assert (stages_from (S fuel) m deg q = let stage := sorted q in
    let '(deg, next) := foldl (visit m) (deg, []) stage in
    let '(rest, deg) := stages_from fuel m deg next in (stage :: rest, deg)) as ->.
  { by rewrite Eq. }
  cbv zeta. pose proof (kahn_sorted _ _ _ HK) as HKs.
  destruct (visit_stage _ _ _ _ HKs) as (new & E & HK1 & Hdep). cbv zeta in E, HK1.
  destruct (foldl (visit m) (deg, []) (sorted q)) as [deg1 next1]. cbn [fst snd app] in *. subst next1.
  assert (q ≠ []) as Hne by (by rewrite Eq).
  assert (length (sorted q) ≠ 0%nat) as Hl.
  { unfold sorted. rewrite merge_sort_Permutation. by rewrite Eq. }
  specialize (IH deg1 (P ++ sorted q) new HK1 ltac:(rewrite length_app; lia)).
  destruct (stages_from fuel m deg1 new) as [rest deg2]. destruct IH as (HK2 & Hst & H0).
  cbn [concat]. rewrite app_assoc. split_and!; [done| |].
  - apply staged_cons; [done| |done|].
    + intros n d Hn. apply (kahn_taken _ _ _ _ n d HK). set_solver.
    + intros s n Hs Hn. by apply Hdep, (H0 s).
  - intros s n [= <-] Hn. unfold sorted in Hn. by rewrite merge_sort_Permutation in Hn.
Qed.

Lemma kahn_start : Kahn (in_degree m) [] [] (ready g (in_degree m)).
Proof.
  assert (∀ ds, unpaid [] ds = Z.of_nat (length (counted ns ds))) as Hu.
  { intros ds. unfold unpaid, paid. rewrite filter_none; [cbn [list_to_set]; rewrite size_empty; lia|].
    apply Forall_forall. intros d _. apply not_elem_of_nil. }
  unfold ready. rewrite filter_bool. split; cbn [app].
  - intros n ds Hin. by rewrite Hu, (degree_of n ds).
  - by apply NoDup_filter.
  - intros n ds Hin. rewrite list_elem_of_filter, Hu, (degree_of n ds Hin).
    split; [by intros [[=] _]|]. intros ->. split; [done|]. apply nodes_elem. by exists ds.
  - by intros n [_ Hn]%list_elem_of_filter.
Qed.

(** The outcome of [resolve], in terms of the loop's. *)
Lemma resolve_spec :
  ∃ st deg, Kahn deg (concat st) [] [] ∧ Staged [] st
  ∧ (resolve g = inl (mkReport (concat st) st g) ∧ concat st ≡ₚ nodes g
     ∨ resolve g = inr (filter (λ k, k ∉ concat st) (nodes g)) ∧ ¬ nodes g ⊆ concat st).
Proof.
  pose proof (stages_spec (S (length ns)) _ _ _ kahn_start ltac:(simpl; lia)) as Hs. unfold resolve.
  destruct (stages_from _ _ _ _) as [st deg]. destruct Hs as (HK & Hst & _). cbn [app] in HK.
  exists st, deg. split_and!; [done..|].
  assert (NoDup (concat st) ∧ ∀ n, n ∈ concat st → n ∈ ns) as [Hnd Hsub].
  { destruct HK as [_ Hnd _ Hsub]. rewrite !app_nil_r in *. done. }
  destruct (decide _) as [Hl|Hl]; [left|right]; (split; [|]).
  - done.
  - apply submseteq_length_Permutation; [by apply NoDup_submseteq|lia].
  - f_equal. rewrite <- filter_bool. apply List.filter_ext_in. intros k [ds Hin]%list_elem_of_In%nodes_elem.
    pose proof (kn_taken _ _ _ _ HK k ds Hin) as Ht. rewrite !app_nil_r in Ht.
    rewrite (kn_degree _ _ _ _ HK k ds Hin). pose proof (unpaid_nonneg (concat st) ds).
    destruct (0 <? _) eqn:E; case_bool_decide as Hk; bool_hyps; [done|..|done]; [apply Ht in Hk; lia|].
    exfalso. apply Hk, Ht. lia.
  - intros Hin. apply Hl. apply Permutation_length, (anti_symm submseteq); by apply NoDup_submseteq.
Qed.

End schedule.

(** ** What a schedule promises *)

Lemma concat_take {A} (st : list (list A)) i n :
  n ∈ concat (take i st) → ∃ j s, (j < i)%nat ∧ st !! j = Some s ∧ n ∈ s.
Proof.
  revert i. induction st as [|s st IH]; intros i Hn; [by rewrite take_nil in Hn; apply not_elem_of_nil in Hn|].
  destruct i as [|i]; [by apply not_elem_of_nil in Hn|]. cbn [take concat] in Hn.
  apply elem_of_app in Hn as [Hn|Hn]; [by exists 0%nat, s; split_and!; [lia| |]|].
  destruct (IH i Hn) as (j & s' & Hj & Hs & Hin). exists (S j), s'. by split_and!; [lia| |].
Qed.

(** [n] runs in stage [i]. *)
Definition in_stage (rep : DAGResolutionReport) (i : nat) (n : string) : Prop :=
  ∃ s, stages rep !! i = Some s ∧ n ∈ s.

(** C8: a schedule is right and as early as possible: when [resolve] answers,
    the execution order is the stages one after the other and holds every item
    of the catalog exactly once; whatever an item depends on within the
    catalog runs in an earlier stage; an item of a later stage depends on one
    of the stage just before it, so none could run earlier; and each stage is
    sorted and not empty. *)
Theorem schedules_respect_dependencies g rep :
  NoDup (nodes g) → resolve g = inl rep →
  execution_order rep = concat (stages rep) ∧ execution_order rep ≡ₚ nodes g
  ∧ (∀ i n d, in_stage rep i n → depends g n d → ∃ j, (j < i)%nat ∧ in_stage rep j d)
  ∧ (∀ i n, in_stage rep (S i) n → ∃ d, depends g n d ∧ in_stage rep i d)
  ∧ ∀ s, s ∈ stages rep → s ≠ [] ∧ s = sorted s.
Proof.
  intros Hg Hr. destruct (resolve_spec g Hg) as (st & deg & HK & [Ha He Hs] & [[E Hp]|[E _]]);
    rewrite E in Hr; [|done].
  injection Hr as <-. unfold in_stage. cbn [stages execution_order]. split_and!; [done|done| | |done].
  - intros i n d (s & Hi & Hn) Hd. pose proof (Ha i s n d Hi Hn Hd) as Hin. cbn [app] in Hin.
    apply concat_take in Hin as (j & s' & ? & ? & ?). by exists j; split; [|exists s'].
  - intros i n (s & Hi & Hn). destruct (He i s n Hi Hn) as (s' & x & ? & ? & ?).
    exists x. split; [done|]. by exists s'.
Qed.

Definition acyclic (g : Graph) : Prop := ∀ n, ¬ tc (depends g) n n.

Lemma depends_node g n d : depends g n d → n ∈ nodes g ∧ d ∈ nodes g.
Proof. intros (ds & Hin & _ & Hd). split; [|done]. apply nodes_elem. by exists ds. Qed.

Lemma acyclic_descend g (P : string → Prop) n :
  acyclic g → (∀ n, P n → ∃ d, depends g n d ∧ P d) → ¬ P n.
Proof.
  intros Hac Hp. assert (sn (depends g) n) as Hsn.
  { apply tc_finite_sn; [exact Hac|]. exists (nodes g). intros d Hd.
    induction Hd as [x y Hd|x y z _ _ IH]; [by apply depends_node in Hd as []|done]. }
  induction Hsn as [x _ IH]. intros Hx. destruct (Hp x Hx) as (d & Hd & Hpd). by apply (IH d Hd).
Qed.

(** C38: cycles are found, and nothing but cycles: on a catalog in which no item
    lists a dependency twice, [resolve] answers exactly when no item depends
    on itself through others, and otherwise the items it names are not none
    and each depends on another of them. *)
Theorem resolve_fails_exactly_on_cycles g :
  NoDup (nodes g) → (∀ n ds, (n, ds) ∈ g → NoDup ds) →
  ((∃ rep, resolve g = inl rep) ↔ acyclic g)
  ∧ ∀ named, resolve g = inr named →
      named ≠ [] ∧ ∀ n, n ∈ named → ∃ d, d ∈ named ∧ depends g n d.
Proof.
  intros Hg Hds. destruct (resolve_spec g Hg) as (st & deg & HK & [Ha He Hs] & Hout).
  assert (∀ n, n ∈ filter (λ k, k ∉ concat st) (nodes g) →
    ∃ d, d ∈ filter (λ k, k ∉ concat st) (nodes g) ∧ depends g n d) as Hnext.
  { intros n [Hn [ds Hin]%nodes_elem]%list_elem_of_filter.
    destruct (decide (Forall (λ d, d ∈ concat st) (counted (nodes g) ds))) as [Hall|Hsome].
    - exfalso. apply Hn. pose proof (kn_taken _ _ _ _ _ HK n ds Hin) as Ht. rewrite !app_nil_r in Ht.
      apply Ht, unpaid_all; [by apply NoDup_filter, (Hds n)|by apply Forall_forall].
    - apply not_Forall_Exists in Hsome; [|apply _]. apply Exists_exists in Hsome as (d & Hd & Hno).
      apply (depends_counted g Hg n d ds Hin) in Hd as Hdep. exists d. split; [|done].
      apply list_elem_of_filter. split; [done|]. by apply (depends_node _ _ _ Hdep). }
  destruct Hout as [[E Hp]|[E Hne]]; rewrite E; (split; [|]).
  - split; [|by eexists]. intros _ n Hcyc.
    assert (∀ i a b, tc (depends g) a b → a ∈ concat (take i st) → ∃ j, (j < i)%nat ∧ b ∈ concat (take j st)) as Hdown.
    { intros i a b Hab. revert i. induction Hab as [a b Hab|a b c Hab _ IH]; intros i (j & s & Hj & Hsj & Hin)%concat_take.
      - exists j. split; [done|]. apply (Ha j s a b Hsj Hin Hab).
      - destruct (IH j (Ha j s a b Hsj Hin Hab)) as (k & ? & ?). exists k. split; [lia|done]. }
    assert (∀ i, n ∉ concat (take i st)) as Hno.
    { intros i. induction (lt_wf i) as [i _ IH]. intros Hin.
      destruct (Hdown i n n Hcyc Hin) as (j & Hj & Hin'). by apply (IH j). }
    apply (Hno (length st)). rewrite firstn_all, Hp.
    assert (∃ d, depends g n d) as [d Hd] by (inversion Hcyc; eauto). by apply (depends_node _ _ _ Hd).
  - by intros named [=].
  - split; [by intros [rep [=]]|]. intros Hac. exfalso. apply Hne. intros n Hn.
    destruct (decide (n ∈ concat st)) as [|Hout]; [done|]. exfalso.
    apply (acyclic_descend g (λ k, k ∈ filter (λ k, k ∉ concat st) (nodes g)) n Hac).
    + intros k Hk. destruct (Hnext k Hk) as (d & ? & ?). by exists d.
    + by apply list_elem_of_filter.
  - intros named [= <-]. split; [|done]. intros En. apply Hne. intros n Hn.
    destruct (decide (n ∈ concat st)) as [|Hout]; [done|]. exfalso.
    assert (n ∈ filter (λ k, k ∉ concat st) (nodes g)) as Hin by (by apply list_elem_of_filter).
    rewrite En in Hin. by apply not_elem_of_nil in Hin.
Qed.
