(* ===== verification/QueueLedger.v ===== *)
(** * The queue's ledger, written and read

    A line the queue appends is read back as the event it was written from,
    behind the events that were there; what that event makes of the items. *)

From Stdlib Require Import Ascii.
From S2P Require Import Prelude PyText AsciiText PyTime Scope Json WorkItems WorkQueue.

(** ** Texts *)
Lemma ascii_escape_plain a : printable_char a = true → ascii_escape (code a) = escape_char a.
Proof. intros Ha. by destruct a as [[] [] [] [] [] [] [] []]. Qed.

Lemma concat_escape s :
  printable s = true → String.concat "" (map ascii_escape (codes s)) = escape s.
Proof.
  intros Hs. assert (∀ l, String.concat "" l = foldr String.append "" l) as Hc.
  { induction l as [|x [|y l] IH]; [done|simpl; by rewrite string_app_nil_r|].
    change (String.concat "" (x :: y :: l)) with (x +:+ "" +:+ String.concat "" (y :: l)). by rewrite IH. }
  rewrite Hc. unfold codes. induction s as [|a s IH]; [done|].
  rewrite printable_cons in Hs. apply andb_true_iff in Hs as [Ha Hs]. simpl.
  by rewrite ascii_escape_plain, IH.
Qed.

Lemma ascii_quote_plain s : printable s = true → ascii_quote s = quote s.
Proof.
  intros Hs. unfold ascii_quote, quote.
  by rewrite code_points_ascii, concat_escape by auto using printable_ascii.
Qed.

Lemma quote_printable s : printable s = true → printable (quote s) = true.
Proof.
  intros Hs. unfold quote. rewrite !printable_app. simpl.
  assert (printable (escape s) = true) as ->; [|done]. induction s as [|a s IH]; [done|].
  rewrite printable_cons in Hs. apply andb_true_iff in Hs as [Ha Hs]. simpl.
  rewrite printable_app, IH, andb_true_r by done. clear -Ha. by destruct a as [[] [] [] [] [] [] [] []].
Qed.

Lemma token_printable s : _TOKEN s = true → printable s = true.
Proof.
  unfold _TOKEN, printable. intros [_ Hs]%andb_true_iff. rewrite forallb_forall in *. intros a Ha.
  apply Hs in Ha. unfold token_char in Ha. unfold printable_char. apply andb_true_iff.
  rewrite Z.leb_le, Z.ltb_lt. repeat (apply orb_true_iff in Ha as [Ha|Ha]); bool_hyps; lia.
Qed.

Lemma result_bad_strip s : printable s = true → result_bad s = false → result_bad (py_strip s) = false.
Proof.
  intros Hs. unfold result_bad. rewrite py_strip_idem by done.
  intros [[-> Hl]%orb_false_iff _]%orb_false_iff. apply orb_false_iff. split.
  - destruct (py_strip_part s) as (j & k & E); [by apply printable_ascii|].
    apply (f_equal py_len) in E. rewrite !py_len_app in E. pose proof (py_len_nonneg j).
    pose proof (py_len_nonneg k). simpl. rewrite Z.ltb_ge in *. lia.
  - apply not_true_iff_false. intros (a & Ha & Hb)%existsb_exists.
    apply py_strip_printable in Hs. unfold printable in Hs. rewrite forallb_forall in Hs.
    destruct (printable_char_lf a (Hs _ Ha)) as [E1 E2]. by rewrite E1, E2 in Hb.
Qed.

(** ** Events *)
Definition printable_event (e : Event) : Prop :=
  Forall (λ kv, printable kv.1 = true ∧ printable kv.2 = true) e.

Lemma insert_entry_printable kv l :
  printable kv.1 = true ∧ printable kv.2 = true → printable_event l → printable_event (insert_entry kv l).
Proof.
  intros Hk Hl. induction Hl as [|kv' l Hk' Hl IH]; simpl; [by constructor|].
  case_match; constructor; try done. by constructor.
Qed.

Lemma sort_event_printable e : printable_event e → printable_event (sort_event e).
Proof. induction 1; [constructor|by apply insert_entry_printable]. Qed.

Lemma sort_event_json e : event_json (sort_event e) = sort_kvs (event_json e).
Proof.
  induction e as [|kv e IH]; [done|]. simpl. unfold sort_kvs in *. simpl. rewrite <-IH.
  clear IH. induction (sort_event e) as [|kv' l IH]; [done|]. simpl. case_match; [done|]. simpl. by rewrite <-IH.
Qed.

Lemma event_text_print e :
  printable_event e → event_text e = canonical_json (JObj (event_json e)).
Proof.
  intros He. unfold event_text, canonical_json. unfold print. cbn [canon print_with]. do 2 f_equal.
  assert (map (λ kv, (kv.1, canon kv.2)) (event_json e) = event_json e) as ->.
  { unfold event_json. rewrite map_map. done. }
  rewrite <-sort_event_json. unfold event_json. rewrite map_map. f_equal. apply map_ext_in.
  intros kv Hin. apply sort_event_printable in He. unfold printable_event in He. rewrite Forall_forall in He.
  destruct (He kv) as [H1 H2]; [by apply list_elem_of_In|]. by rewrite !ascii_quote_plain.
Qed.

Lemma event_text_printable e : printable_event e → printable (event_text e) = true.
Proof.
  intros He%sort_event_printable. unfold event_text. rewrite !printable_app. simpl. rewrite andb_true_r.
  induction He as [|kv l [H1 H2] He IH]; [done|].
  assert (printable (ascii_quote kv.1 +:+ ":" +:+ ascii_quote kv.2) = true) as Hkv.
  { rewrite !printable_app, !ascii_quote_plain, !quote_printable by done. done. }
  destruct l as [|kv' l]; [done|].
  change (printable ((ascii_quote kv.1 +:+ ":" +:+ ascii_quote kv.2) +:+ "," +:+
    join "," (map (λ kv, ascii_quote kv.1 +:+ ":" +:+ ascii_quote kv.2) (kv' :: l))) = true).
  rewrite printable_app, Hkv, printable_app, IH. done.
Qed.

Lemma event_not_blank e : bytes_blank (event_text e) = false.
Proof. done. Qed.

Section ledger.
Context `{PyPlatform}.

Lemma decode_event e :
  printable_event e → NoDup (map fst e) →
  decode_json (event_text e) = Ok (JObj (sort_kvs (event_json e))).
Proof.
  intros He Hn. unfold decode_json.
  rewrite ascii_utf8 by (by apply printable_ascii, event_text_printable).
  rewrite event_text_print by done. rewrite loads_canonical_json.
  - cbn [canon]. unfold event_json. by rewrite map_map.
  - apply json_ok_obj. split.
    + unfold keys, event_json. by rewrite map_map.
    + apply Forall_forall. intros kv Hin. unfold event_json in Hin.
      apply list_elem_of_In, in_map_iff in Hin as (? & <- & _). done.
Qed.

(** The events the queue writes. *)
Inductive written : Event → Prop :=
  | written_claim id holder host expires moment :
      written (claim_event id holder host expires moment)
  | written_renew id holder host expires moment :
      written (renew_event id holder host expires moment)
  | written_release id holder res moment : written (release_event id holder res moment).

Lemma written_nodup e : written e → NoDup (map fst e).
Proof. destruct 1; apply (bool_decide_unpack _); vm_compute; exact I. Qed.

Lemma read_line_written e :
  written e → printable_event e → read_line (event_text e) = Ok (sort_kvs (event_json e)).
Proof.
  intros Hw He. unfold read_line. rewrite decode_event by auto using written_nodup. simpl.
  by destruct Hw.
Qed.

Lemma mapM_app {A B} (f : A → result B) l k :
  mapM f (l ++ k) = (x ← mapM f l; y ← mapM f k; Ok (x ++ y)%list).
Proof.
  induction l as [|a l IH]; simpl; [by destruct (mapM f k)|]. destruct (f a); [simpl|done].
  rewrite IH. destruct (mapM f l); [simpl|done]. by destruct (mapM f k).
Qed.

Lemma parse_ledger_append raw e :
  complete raw → written e → printable_event e →
  parse_ledger (raw +:+ event_line e)
  = (events ← parse_ledger raw; Ok (events ++ [sort_kvs (event_json e)])%list).
Proof.
  intros Hr Hw He. unfold parse_ledger, event_line.
  rewrite splitlines_append by auto using event_text_printable. rewrite List.filter_app.
  cbn [List.filter]. rewrite event_not_blank. simpl negb. cbv iota. rewrite mapM_app.
  f_equal. cbn [mapM]. rewrite read_line_written by done. done.
Qed.
End ledger.
