(* ===== verification/QueueSafety.v ===== *)
(** * What the queue guarantees

    An abstract protocol of the work queue on its items, the refinement of the
    operations to it, and the safety of every run: leases are exclusive and
    only their holders touch them. *)

From Stdlib Require Import Ascii.
From S2P Require Import Prelude PyText AsciiText PyTime Scope Json JsonAscii WorkItems WorkQueue QueueLedger.

(** ** The protocol

    One step of [who] at [moment]: nothing, or one item claimed, renewed or
    released. *)
Inductive step (who : string) (moment : Z) (items : list Item) : list Item → Prop :=
  | step_none : step who moment items items
  | step_claim i host expires :
      i ∈ items → _held i moment = false → closed i = false →
      (∀ j, j ∈ items → it_id j ≠ it_id i → _held j moment = true →
         scopes_overlap (it_files_scope i) (it_files_scope j) = false) →
      step who moment items
        (update_item (it_id i) (λ _, with_lease i CLAIMED (Some (MkLease who host expires))) items)
  | step_renew i lease expires :
      i ∈ items → _held i moment = true → it_lease i = Some lease → l_holder lease = who →
      step who moment items
        (update_item (it_id i) (λ _, with_lease i CLAIMED (Some (MkLease who (l_host lease) expires))) items)
  | step_release i lease status res :
      i ∈ items → _held i moment = true → it_lease i = Some lease → l_holder lease = who →
      status = DONE ∨ status = BLOCKED →
      step who moment items
        (update_item (it_id i) (λ _, with_state i status None (Some res) (Some who)) items).

(** No two live leases overlap. *)
Definition exclusive (moment : Z) (items : list Item) : Prop :=
  ∀ i j, i ∈ items → j ∈ items → it_id i ≠ it_id j → _held i moment = true → _held j moment = true →
    scopes_overlap (it_files_scope i) (it_files_scope j) = false.

Definition unique_ids (items : list Item) : Prop := NoDup (map it_id items).

Lemma unique_id items i j : unique_ids items → i ∈ items → j ∈ items → it_id i = it_id j → i = j.
Proof.
  unfold unique_ids. induction items as [|x l IH]; [set_solver|]. simpl.
  intros [Hx Hl]%NoDup_cons [->|Hi]%elem_of_cons [->|Hj]%elem_of_cons He; auto; exfalso; apply Hx.
  - rewrite He. by apply list_elem_of_fmap_2.
  - rewrite <-He. by apply list_elem_of_fmap_2.
Qed.

Lemma update_item_ids id f items : (∀ i, it_id (f i) = id) → map it_id (update_item id f items) = map it_id items.
Proof.
  intros Hf. unfold update_item. rewrite map_map. apply map_ext. intros i.
  case_decide as E; [by rewrite Hf|done].
Qed.

Lemma in_update id f items j :
  j ∈ update_item id f items ↔
  (∃ i, i ∈ items ∧ it_id i = id ∧ j = f i) ∨ (j ∈ items ∧ it_id j ≠ id).
Proof.
  unfold update_item. rewrite list_elem_of_fmap. split.
  - intros (i & -> & Hi). case_decide; naive_solver.
  - intros [(i & Hi & E & ->)|[Hj E]]; eexists; (split; [|done]); by case_decide.
Qed.

Lemma step_unique_ids who moment items items' :
  step who moment items items' → unique_ids items → unique_ids items'.
Proof. intros Hs Hu. unfold unique_ids. destruct Hs; rewrite ?update_item_ids; done. Qed.

Lemma not_claimed_not_held i moment : it_status i ≠ CLAIMED → _held i moment = false.
Proof. unfold _held, claimed_lease. by destruct (it_status i). Qed.

(** A lease runs out and does not come back. *)
Lemma held_earlier i moment moment' :
  moment ≤ moment' → _held i moment' = true → _held i moment = true.
Proof.
  intros Hm. unfold _held. destruct (claimed_lease i) as [l|]; [|done]. destruct (expiry l); [|done].
  rewrite !Z.ltb_lt. lia.
Qed.

Lemma exclusive_later moment moment' items :
  moment ≤ moment' → exclusive moment items → exclusive moment' items.
Proof. intros Hm He i j Hi Hj Hn H1 H2. apply He; eauto using held_earlier. Qed.

Lemma exclusive_update moment items i f :
  exclusive moment items → i ∈ items → it_files_scope f = it_files_scope i → it_id f = it_id i →
  (_held f moment = true → ∀ j, j ∈ items → it_id j ≠ it_id i → _held j moment = true →
     scopes_overlap (it_files_scope i) (it_files_scope j) = false) →
  exclusive moment (update_item (it_id i) (λ _, f) items).
Proof.
  intros He Hi Hs Hid Hf a b Ha Hb Hn H1 H2. apply in_update in Ha, Hb.
  destruct Ha as [(a' & Ha & Ea & ->)|[Ha Na]], Hb as [(b' & Hb & Eb & ->)|[Hb Nb]]; [done| | |].
  - rewrite Hs. by apply Hf.
  - rewrite Hs, scopes_overlap_sym. by apply Hf.
  - by apply He.
Qed.

Lemma step_exclusive who moment items items' :
  step who moment items items' → exclusive moment items → exclusive moment items'.
Proof.
  intros Hs He. destruct Hs as [|i ? ? Hi Hn Hc Hd|i l ? Hi Hh Hl|i l st ? Hi Hh Hl Hw Hst]; [done|..];
    apply exclusive_update; try done.
  - intros _ j Hj Hne Hheld. by apply He.
  - rewrite not_claimed_not_held; [done|]. by destruct Hst as [-> | ->].
Qed.

(** What a step leaves alone. *)
Lemma step_spares who moment items items' i :
  step who moment items items' → unique_ids items → i ∈ items →
  closed i = true ∨ (_held i moment = true ∧ ∃ l, it_lease i = Some l ∧ l_holder l ≠ who) →
  i ∈ items'.
Proof.
  intros Hs Hu Hi Hp. destruct Hs as [|k ? ? Hk Hn Hc Hd|k l ? Hk Hh Hl Hw|k l st ? Hk Hh Hl Hw Hst]; [done|..];
    apply in_update; right; (split; [done|]); intros E; pose proof (unique_id _ _ _ Hu Hi Hk E); subst k.
  - destruct Hp as [|[]]; congruence.
  - destruct Hp as [Hp|(_ & l' & ? & ?)]; [|congruence]. unfold _held, claimed_lease, closed in *.
    apply bool_decide_eq_true in Hp. by destruct Hp as [E'|E']; rewrite E' in Hh.
  - destruct Hp as [Hp|(_ & l' & ? & ?)]; [|congruence]. unfold _held, claimed_lease, closed in *.
    apply bool_decide_eq_true in Hp. by destruct Hp as [E'|E']; rewrite E' in Hh.
Qed.

(** ** Reading the disk after an append *)
Section disk.
Context `{PyPlatform}.

Definition ledger_complete (d : Disk) : Prop :=
  match dk_ledger d with Regular raw => complete raw | _ => True end.

Lemma foldM_app {S A} (f : S → A → result S) s l k :
  foldM f s (l ++ k) = (s' ← foldM f s l; foldM f s' k).
Proof.
  revert s. induction l as [|a l IH]; intros s; simpl; [done|]. destruct (f s a); simpl; [apply IH|done].
Qed.

Lemma append_replay d e d' :
  ledger_complete d → written e → printable_event e → _append d e = Ok d' →
  replay d' = (items ← replay d; _apply items (sort_kvs (event_json e))) ∧ ledger_complete d'.
Proof.
  intros Hc Hw He Ha. unfold _append, replay, ledger_complete in *.
  assert (∀ raw seeds, complete raw → byte_len (raw +:+ event_line e) <= MAX_LEDGER_BYTES →
    (events ← _read_ledger (Regular (raw +:+ event_line e)); foldM _apply seeds events)
    = (items ← (events ← parse_ledger raw; foldM _apply seeds events);
       _apply items (sort_kvs (event_json e)))) as Hr.
  { intros raw seeds Hraw Hb. unfold _read_ledger. rewrite (proj2 (Z.ltb_ge _ _)) by done.
    rewrite parse_ledger_append by done. destruct (parse_ledger raw) as [evs|]; [simpl|done].
    rewrite foldM_app. destruct (foldM _apply seeds evs); [simpl|done]. by destruct (_apply _ _). }
  assert (∀ a b, byte_len (a +:+ b) = byte_len a + byte_len b) as Hlen.
  { intros a b. unfold byte_len. rewrite string_length_app. lia. }
  destruct (dk_ledger d) as [|b| |raw|] eqn:El; try done.
  - destruct (MAX_LEDGER_BYTES <? _) eqn:E; [done|]. apply Z.ltb_ge in E. inv_ok. cbn [dk_items dk_schema dk_ledger].
    split; [|apply (complete_append "")]. destruct (_load_seeds _ _) as [seeds|]; [|done].
    exact (Hr "" seeds (or_introl eq_refl) E).
  - destruct (MAX_LEDGER_BYTES <? _) eqn:E; [done|]. apply Z.ltb_ge in E. inv_ok. cbn [dk_items dk_schema dk_ledger].
    split; [|apply complete_append]. destruct (_load_seeds _ _) as [seeds|]; [|done].
    rewrite <-Hlen in E. assert (_read_ledger (Regular raw) = parse_ledger raw) as ->.
    { cbn [_read_ledger]. rewrite (proj2 (Z.ltb_ge _ _)); [done|]. rewrite Hlen in E. unfold byte_len in *. lia. }
    exact (Hr raw seeds Hc E).
Qed.

(** *** Unique ids on the disk *)
Lemma load_seeds_unique dir schema items : _load_seeds dir schema = Ok items → unique_ids items.
Proof.
  unfold _load_seeds. intros Hl. inv_ok. destruct dir as [l|]; [|done]. inv_ok.
  assert (∀ l found items, unique_ids found → foldM (load_seed a) found l = Ok items → unique_ids items) as Hf.
  { clear. induction l as [|p l IH]; intros found items Hu Hf; simpl in Hf; [by inv_ok|].
    apply bind_Ok in Hf as (found' & Hs & Hf). apply (IH found'); [|done].
    unfold load_seed in Hs. inv_ok.
    unfold unique_ids. rewrite map_app. apply NoDup_app. simpl. split_and!; [done| |apply NoDup_singleton].
    intros x Hx ->%list_elem_of_singleton.
    match goal with Hb : wq_if (bool_decide (_ ∈ map it_id found)) _ = _ |- _ =>
      by rewrite bool_decide_eq_true_2 in Hb end. }
  eapply Hf; [|eassumption]. constructor.
Qed.
End disk.

(** ** Items found, expired and changed *)
Lemma find_item_spec id items i : find_item id items = Some i → i ∈ items ∧ it_id i = id.
Proof.
  unfold find_item. intros [Hi He]%List.find_some. split; [by apply list_elem_of_In|].
  by apply bool_decide_eq_true in He.
Qed.

Lemma expire_id moment i : it_id (expire moment i) = it_id i.
Proof. unfold expire. by case_match. Qed.

Lemma expire_scope moment i : it_files_scope (expire moment i) = it_files_scope i.
Proof. unfold expire. by case_match. Qed.

Lemma expire_held moment i : _held i moment = true → expire moment i = i.
Proof. unfold expire. intros ->. by rewrite andb_false_r. Qed.

Lemma held_expire moment i : _held (expire moment i) moment = _held i moment.
Proof.
  unfold expire. destruct (_held i moment) eqn:E; [by rewrite andb_false_r|].
  case_match; [|done]. by apply not_claimed_not_held.
Qed.

Lemma find_expired id moment items :
  find_item id (map (expire moment) items) = expire moment <$> find_item id items.
Proof.
  unfold find_item. induction items as [|i items IH]; [done|]. simpl. rewrite expire_id.
  by case_match.
Qed.

Lemma held_lease i moment : _held i moment = true → it_status i = CLAIMED ∧ ∃ l, it_lease i = Some l.
Proof.
  unfold _held, claimed_lease. destruct (it_status i); try done. destruct (it_lease i) as [l|]; [|done].
  intros _. split; [done|by exists l].
Qed.

Lemma claimable_open i moment :
  _claimable_status (expire moment i) moment = true → closed i = false.
Proof.
  unfold _claimable_status, expire, closed. intros Hc. apply bool_decide_eq_false. intros Hs.
  rewrite bool_decide_eq_false_2 in Hc by (destruct Hs; congruence). simpl in Hc.
  by destruct Hs as [E|E]; rewrite E in Hc.
Qed.

Lemma held_open i moment : _held i moment = true → closed i = false.
Proof. intros [Hs _]%held_lease. apply bool_decide_eq_false. destruct 1; congruence. Qed.

Lemma free_of_scope i items moment files :
  _blocked_by_scope (expire moment i) (List.filter (λ row, _held row moment) (map (expire moment) items)) files
    = false →
  ∀ j, j ∈ items → it_id j ≠ it_id i → _held j moment = true →
    scopes_overlap (it_files_scope i) (it_files_scope j) = false.
Proof.
  unfold _blocked_by_scope. intros [Hb _]%orb_false_iff j Hj Hn Hh. apply not_true_iff_false. intros Ho.
  rewrite <-not_true_iff_false in Hb. apply Hb, existsb_exists. exists j. split.
  - apply List.filter_In. split; [|done]. apply in_map_iff. exists j. split; [by apply expire_held|].
    by apply list_elem_of_In.
  - rewrite expire_id, expire_scope, bool_decide_eq_false_2 by done. done.
Qed.

Lemma apply_to_id i event i' : apply_to i event = Ok i' → it_id i' = it_id i.
Proof.
  unfold apply_to, apply_claim, apply_renew, apply_release. intros Ha.
  repeat (case_match; try done); by inv_ok.
Qed.

Lemma apply_ids items event items' : _apply items event = Ok items' → map it_id items' = map it_id items.
Proof.
  unfold _apply. intros Ha. repeat (case_match; try done); try by inv_ok. inv_ok.
  rename select (find_item _ _ = Some _) into Hf. apply find_item_spec in Hf as [_ Hf].
  apply update_item_ids. intros _. by erewrite apply_to_id.
Qed.

Lemma time_match_printable s : time_match s = true → printable s = true.
Proof.
  unfold time_match, time_fields, printable. intros Hm.
  repeat (case_match; try done). cbn [forallb] in *. bool_hyps.
  repeat match goal with H : Ascii.eqb ?a _ = true |- _ => apply Ascii.eqb_eq in H; subst a end.
  repeat match goal with H : is_digit ?x = true |- _ => rewrite (digit_printable x H); clear H end. done.
Qed.

(** ** What the written events do *)
Section effects.
Context `{PyPlatform}.

Variables (items : list Item) (i : Item).

Lemma apply_claim_event holder host expires moment :
  find_item (it_id i) items = Some i → closed i = false →
  _event_token (JStr holder) = Some holder → _event_token (JStr host) = Some host →
  time_match expires = true →
  _apply items (sort_kvs (event_json (claim_event (it_id i) holder host expires moment)))
  = Ok (update_item (it_id i) (λ _, with_lease i CLAIMED (Some (MkLease holder host expires))) items).
Proof.
  intros Hf Hc Hh Ho Ht. unfold _apply. change (jget_none "item_id" _) with (JStr (it_id i)).
  cbn [json_hashable negb]. rewrite Hf. unfold apply_to. rewrite Hc.
  change (jget_none "type" _) with (JStr "CLAIM"). unfold apply_claim.
  change (jget_none "holder" _) with (JStr holder). change (jget_none "host" _) with (JStr host).
  change (jget_none "expires_at" _) with (JStr expires). rewrite Hh, Ho. simpl. by rewrite Ht.
Qed.

Lemma apply_renew_event holder host expires moment lease :
  find_item (it_id i) items = Some i → it_status i = CLAIMED → it_lease i = Some lease →
  l_holder lease = holder → time_match expires = true →
  _apply items (sort_kvs (event_json (renew_event (it_id i) holder host expires moment)))
  = Ok (update_item (it_id i) (λ _, with_lease i CLAIMED (Some (MkLease holder (l_host lease) expires))) items).
Proof.
  intros Hf Hs Hl Hh Ht. unfold _apply. change (jget_none "item_id" _) with (JStr (it_id i)).
  cbn [json_hashable negb]. rewrite Hf. unfold apply_to, closed. rewrite Hs. simpl bool_decide.
  change (jget_none "type" _) with (JStr "RENEW"). unfold apply_renew, claimed_lease. rewrite Hs, Hl.
  change (jget_none "holder" _) with (JStr holder). change (jget_none "expires_at" _) with (JStr expires).
  rewrite bool_decide_eq_true_2 by congruence. simpl. by rewrite Ht, Hh.
Qed.

Lemma apply_release_event holder res moment lease :
  find_item (it_id i) items = Some i → it_status i = CLAIMED → it_lease i = Some lease →
  l_holder lease = holder → _event_token (JStr holder) = Some holder → result_bad res = false →
  _apply items (sort_kvs (event_json (release_event (it_id i) holder res moment)))
  = Ok (update_item (it_id i) (λ _, with_state i (if _is_failed_result res then BLOCKED else DONE) None
          (Some (py_strip res)) (Some holder)) items).
Proof.
  intros Hf Hs Hl Hh Ht Hb. unfold _apply. change (jget_none "item_id" _) with (JStr (it_id i)).
  cbn [json_hashable negb]. rewrite Hf. unfold apply_to, closed. rewrite Hs. simpl bool_decide.
  change (jget_none "type" _) with (JStr "RELEASE"). unfold apply_release, claimed_lease. rewrite Hs, Hl.
  change (jget_none "holder" _) with (JStr holder). change (jget_none "result" _) with (JStr res).
  cbv beta iota. rewrite Hb. cbv iota. rewrite Ht. rewrite bool_decide_eq_true_2 by congruence. done.
Qed.
End effects.
