(* ===== verification/QueueSpec.v ===== *)
(** * The operations of the queue implement its protocol

    Each operation is one step of the protocol of [QueueSafety] on the items
    that the ledger describes; runs of operations inherit its safety. *)

From S2P Require Import Prelude PyText AsciiText PyTime Scope Json WorkItems WorkQueue QueueLedger QueueSafety.

(** The calls of the command line and of the module's functions. *)
Inductive Op :=
  | OClaim (item holder ttl host : json) (done_prs open_pr_files draft_prs : list string)
  | ORenew (item holder ttl : json)
  | ORelease (item holder res : json).

Definition actor (op : Op) : string :=
  match op with
  | OClaim _ (JStr s) _ _ _ _ _ | ORenew _ (JStr s) _ | ORelease _ (JStr s) _ => s
  | _ => ""
  end.

(** The clock shows a year that [strftime] pads, and the text of a release is
    printable ASCII. *)
Definition op_fine (moment : Z) (op : Op) : Prop :=
  year_start 1000 ≤ moment < year_start 10000 ∧
  match op with ORelease _ _ (JStr res) => printable res = true | _ => True end.

Section spec.
Context `{PyPlatform}.

(** The disk after a call, whatever it answers or raises. *)
Definition perform (d : Disk) (moment : Z) (op : Op) : Disk :=
  match op with
  | OClaim item holder ttl host done_prs open_pr_files draft_prs =>
      match claim d item holder ttl host moment done_prs open_pr_files draft_prs with
      | Ok (_, d') => d' | Err _ => d end
  | ORenew item holder ttl => match renew d item holder ttl moment with Ok (_, d') => d' | Err _ => d end
  | ORelease item holder res => match release d item holder res moment with Ok (_, d') => d' | Err _ => d end
  end.

Fixpoint perform_all (d : Disk) (ops : list (Z * Op)) : Disk :=
  match ops with [] => d | (moment, op) :: ops => perform_all (perform d moment op) ops end.

Lemma require_token_spec value code s :
  _require_token value code = Ok s → value = JStr s ∧ _event_token (JStr s) = Some s ∧ printable s = true.
Proof.
  unfold _require_token. destruct value as [| | | |x| |]; try done.
  destruct (_event_token (JStr x)) as [y|] eqn:E; [|done]. intros [= <-]. pose proof E as Ex.
  unfold _event_token in Ex. destruct (_ && _)%bool eqn:Eb in Ex; [|done]. simplify_eq. bool_hyps.
  by auto using token_printable.
Qed.

Lemma expires_text_spec moment ttl expires :
  year_start 1000 ≤ moment → 1 ≤ ttl → expires_text moment ttl = Ok expires →
  time_match expires = true ∧ printable expires = true
  ∧ parse_stamp expires = Some ((moment + ttl * MICROS) / MICROS * MICROS).
Proof.
  intros Hm Ht. unfold expires_text. case_match; [done|]. intros [= <-]. bool_hyps.
  assert (year_start 1000 ≤ moment + ttl * MICROS < year_start 10000) as Hr by (unfold MICROS in *; lia).
  split_and!; auto using time_match_printable, time_match_stamp, parse_stamp_stamp.
Qed.

Lemma require_ttl_spec value ttl : _require_ttl value = Ok ttl → 1 ≤ ttl ≤ MAX_TTL_SECONDS.
Proof. unfold _require_ttl. destruct value; try done. case_match; [|done]. intros [= <-]. bool_hyps. lia. Qed.

(** *** Hosts are printable

    A renewal writes the host of the lease again, which for a lease of the
    catalog is whatever the seed file says. *)
Definition hosts_printable (items : list Item) : Prop :=
  ∀ i l, i ∈ items → it_lease i = Some l → printable (l_host l) = true.

Definition catalog_printable (d : Disk) : Prop :=
  ∀ seeds, _load_seeds (dk_items d) (dk_schema d) = Ok seeds → hosts_printable seeds.

Lemma event_token_printable value s : _event_token value = Some s → printable s = true.
Proof.
  unfold _event_token. destruct value as [| | | |x| |]; try done. destruct (_ && _)%bool eqn:E; [|done].
  intros [= <-]. bool_hyps. by apply token_printable.
Qed.

Lemma apply_hosts items event items' :
  _apply items event = Ok items' → hosts_printable items → hosts_printable items'.
Proof.
  unfold _apply. intros Ha Hp. destruct (negb _); [done|]. destruct (jget_none "item_id" event); try by inv_ok.
  destruct (find_item s items) as [i|] eqn:Hf; [|by inv_ok]. inv_ok.
  apply find_item_spec in Hf as [Hi <-].
  assert (∀ l, it_lease a = Some l → printable (l_host l) = true) as Hl.
  { rename select (apply_to _ _ = Ok _) into Hat. unfold apply_to in Hat.
    assert (∀ l, it_lease i = Some l → printable (l_host l) = true) as Hold by eauto.
    destruct (closed i); [by inv_ok|].
    assert (∀ l, claimed_lease i = Some l → printable (l_host l) = true) as Hcl.
    { intros l. unfold claimed_lease. destruct (it_status i); [done|auto|done..]. }
    assert (∀ c, apply_release i event = Ok c → ∀ l, it_lease c = Some l → printable (l_host l) = true) as Hrel.
    { intros c. unfold apply_release. intros Hc. repeat (case_match; try done); by inv_ok. }
    destruct (jget_none "type" event); try by eapply Hrel. case_decide.
    - unfold apply_claim in Hat. destruct (_event_token (jget_none "holder" event)); [|done].
      destruct (_event_token (jget_none "host" event)) eqn:Eh; [|done]. case_match; [|done].
      apply event_token_printable in Eh. inv_ok. simpl. by intros ? [= <-].
    - case_decide; [|by eapply Hrel]. unfold apply_renew in Hat.
      destruct (claimed_lease i) as [l|]; [|by inv_ok]. case_match; [|by inv_ok]. case_match; [|done].
      inv_ok. simpl. intros ? [= <-]. simpl. by apply Hcl. }
  intros j l [(k & _ & _ & ->)|[Hj _]]%in_update; [apply Hl|by apply Hp].
Qed.

Lemma replay_hosts d items : catalog_printable d → replay d = Ok items → hosts_printable items.
Proof.
  intros Hc. unfold replay. intros Hr. apply bind_Ok in Hr as (seeds & Hs & Hr).
  apply bind_Ok in Hr as (events & _ & Hr). specialize (Hc _ Hs). clear Hs. revert seeds Hc Hr.
  induction events as [|e events IH]; intros seeds Hc Hr; simpl in Hr; [by inv_ok|].
  apply bind_Ok in Hr as (seeds' & He & Hr). eauto using apply_hosts.
Qed.

Lemma replay_unique d items : replay d = Ok items → unique_ids items.
Proof.
  unfold replay. intros Hr. apply bind_Ok in Hr as (seeds & Hs & Hr).
  apply bind_Ok in Hr as (events & _ & Hr). apply load_seeds_unique in Hs. revert seeds Hs Hr.
  induction events as [|e events IH]; intros seeds Hs Hr; simpl in Hr; [by inv_ok|].
  apply bind_Ok in Hr as (seeds' & He & Hr). apply (IH seeds'); [|done].
  unfold unique_ids. by rewrite (apply_ids _ _ _ He).
Qed.

Lemma effective_replay d moment items : replay d = Ok items → _effective d moment = Ok (map (expire moment) items).
Proof. unfold _effective. by intros ->. Qed.

Ltac printable_event :=
  repeat (apply Forall_cons; split); try apply Forall_nil; split; simpl;
  auto using time_match_printable, time_match_stamp.

(** *** Granted calls

    The line a granted call writes, and what it does to the items. *)
Inductive logged (who : string) (moment : Z) (items : list Item) : Event → list Item → Prop :=
  | logged_claim i host t expires :
      i ∈ items → _held i moment = false → closed i = false →
      (∀ j, j ∈ items → it_id j ≠ it_id i → _held j moment = true →
         scopes_overlap (it_files_scope i) (it_files_scope j) = false) →
      _event_token (JStr (it_id i)) = Some (it_id i) → _event_token (JStr host) = Some host →
      1 ≤ t ≤ MAX_TTL_SECONDS → parse_stamp expires = Some ((moment + t * MICROS) / MICROS * MICROS) →
      logged who moment items (claim_event (it_id i) who host expires moment)
        (update_item (it_id i) (λ _, with_lease i CLAIMED (Some (MkLease who host expires))) items)
  | logged_renew i lease t expires :
      i ∈ items → _held i moment = true → it_lease i = Some lease → l_holder lease = who →
      _event_token (JStr (it_id i)) = Some (it_id i) →
      1 ≤ t ≤ MAX_TTL_SECONDS → parse_stamp expires = Some ((moment + t * MICROS) / MICROS * MICROS) →
      logged who moment items (renew_event (it_id i) who (l_host lease) expires moment)
        (update_item (it_id i) (λ _, with_lease i CLAIMED (Some (MkLease who (l_host lease) expires))) items)
  | logged_release i lease res :
      i ∈ items → _held i moment = true → it_lease i = Some lease → l_holder lease = who →
      _event_token (JStr (it_id i)) = Some (it_id i) →
      result_bad res = false → py_strip res = res →
      logged who moment items (release_event (it_id i) who res moment)
        (update_item (it_id i) (λ _, with_state i (if _is_failed_result res then BLOCKED else DONE) None
           (Some res) (Some who)) items).

Lemma logged_step who moment items e items' : logged who moment items e items' → step who moment items items'.
Proof.
  destruct 1; [by apply step_claim|by apply (step_renew _ _ _ _ lease)|apply (step_release _ _ _ _ lease)]; try done.
  case_match; auto.
Qed.

Record grants (who : string) (moment : Z) (items : list Item) (e : Event) (items' : list Item) (d d' : Disk) : Prop := {
  grants_token : _event_token (JStr who) = Some who;
  grants_logged : logged who moment items e items';
  grants_printable : printable_event e;
  grants_append : _append d e = Ok d';
  grants_replay : replay d' = Ok items';
  grants_complete : ledger_complete d';
}.

(** What an accepted claim leaves on the disk. *)
Lemma claim_spec d item holder ttl host moment done_prs open_pr_files draft_prs items v d' :
  ledger_complete d → year_start 1000 ≤ moment < year_start 10000 → replay d = Ok items →
  claim d item holder ttl host moment done_prs open_pr_files draft_prs = Ok (v, d') →
  (d' = d ∧ cv_idempotent v = true) ∨ ∃ i who on t expires,
    item = JStr (it_id i) ∧ holder = JStr who ∧ host = JStr on ∧ ttl = JInt t ∧
    parse_stamp expires = Some ((moment + t * MICROS) / MICROS * MICROS) ∧
    v = MkClaimView (it_id i) who on expires false ∧
    grants who moment items (claim_event (it_id i) who on expires moment) (update_item (it_id i)
      (λ _, with_lease i CLAIMED (Some (MkLease who on expires))) items) d d' ∧
    find_item (it_id i) items = Some i.
Proof.
  intros Hc Hm Hr Hop. unfold claim in Hop.
  apply bind_Ok in Hop as (id & (-> & Tid & Pid)%require_token_spec & Hop).
  apply bind_Ok in Hop as (who & (-> & Twho & Pwho)%require_token_spec & Hop).
  apply bind_Ok in Hop as (on & (-> & Ton & Pon)%require_token_spec & Hop).
  apply bind_Ok in Hop as (t & Ht & Hop). rewrite (effective_replay _ _ _ Hr) in Hop.
  cbn [mbind result_bind] in Hop. rewrite find_expired in Hop.
  destruct (find_item id items) as [i|] eqn:Hf; [|done]. simpl in Hop. rewrite held_expire in Hop.
  pose proof (find_item_spec _ _ _ Hf) as [Hi <-].
  destruct (_held i moment) eqn:Hh.
  { left. rewrite expire_held in Hop by done. destruct (held_lease _ _ Hh) as [_ [l Hl]].
    rewrite Hl in Hop. case_decide; [by inv_ok|done]. }
  right. destruct (_ || _)%bool eqn:Hcl in Hop; [done|]. apply orb_false_iff in Hcl as [Hcl _].
  apply negb_false_iff, claimable_open in Hcl.
  destruct (_blocked_by_scope _ _ _) eqn:Hb; [done|]. pose proof (free_of_scope _ _ _ _ Hb) as Hfree.
  apply bind_Ok in Hop as (expires & He & Hop). apply bind_Ok in Hop as (d'' & Ha & Hop). inv_ok.
  pose proof (require_ttl_spec _ _ Ht). destruct (expires_text_spec moment t expires) as (H1 & H2 & H3); [lia..|done|].
  assert (printable_event (claim_event (it_id i) who on expires moment)) as Hpe by printable_event.
  destruct (append_replay _ _ _ Hc (written_claim _ _ _ _ _) Hpe Ha) as [Ha' Hc'].
  rewrite Hr in Ha'. cbn [mbind result_bind] in Ha'. rewrite apply_claim_event in Ha' by done.
  destruct ttl as [| |t'| | | |]; try done. assert (t' = t) as ->.
  { unfold _require_ttl in Ht. case_match; [|done]. by inv_ok. }
  exists i, who, on, t, expires. split_and!; try done.
  - unfold _claim_view. simpl. by rewrite expire_id.
  - split; try done. by apply (logged_claim _ _ _ _ _ t).
Qed.

Lemma renew_spec d item holder ttl moment items v d' :
  ledger_complete d → hosts_printable items → year_start 1000 ≤ moment < year_start 10000 →
  replay d = Ok items → renew d item holder ttl moment = Ok (v, d') →
  ∃ id who host expires items', item = JStr id ∧ holder = JStr who
    ∧ grants who moment items (renew_event id who host expires moment) items' d d'.
Proof.
  intros Hc Hp Hm Hr Hop. unfold renew in Hop.
  apply bind_Ok in Hop as (id & (-> & Tid & Pid)%require_token_spec & Hop).
  apply bind_Ok in Hop as (who & (-> & Twho & Pwho)%require_token_spec & Hop).
  apply bind_Ok in Hop as (t & Ht & Hop). rewrite (effective_replay _ _ _ Hr) in Hop.
  cbn [mbind result_bind] in Hop. rewrite find_expired in Hop.
  destruct (find_item id items) as [i|] eqn:Hf; [|done]. simpl in Hop. rewrite held_expire in Hop.
  pose proof (find_item_spec _ _ _ Hf) as [Hi <-].
  destruct (_held i moment) eqn:Hh; [|done]. rewrite expire_held in Hop by done.
  destruct (held_lease _ _ Hh) as [Hs [l Hl]]. rewrite Hl in Hop. case_decide as Ew; [|done].
  apply bind_Ok in Hop as (expires & He & Hop). apply bind_Ok in Hop as (d'' & Ha & Hop). inv_ok.
  pose proof (require_ttl_spec _ _ Ht). destruct (expires_text_spec moment t expires) as (H1 & H2 & H3); [lia..|done|].
  pose proof (Hp _ _ Hi Hl).
  assert (printable_event (renew_event (it_id i) (l_holder l) (l_host l) expires moment)) as Hpe
    by printable_event.
  destruct (append_replay _ _ _ Hc (written_renew _ _ _ _ _) Hpe Ha) as [Ha' Hc'].
  rewrite Hr in Ha'. cbn [mbind result_bind] in Ha'.
  rewrite (apply_renew_event _ _ _ _ _ _ l) in Ha' by done.
  eexists (it_id i), (l_holder l), _, _, _. do 2 (split; [done|]).
  split; try done. by apply (logged_renew _ _ _ _ _ t).
Qed.

Lemma release_spec d item holder res moment items v d' :
  ledger_complete d → year_start 1000 ≤ moment < year_start 10000 →
  match res with JStr r => printable r = true | _ => True end → replay d = Ok items →
  release d item holder res moment = Ok (v, d') →
  d' = d ∨ ∃ id who r items', item = JStr id ∧ holder = JStr who ∧ res = JStr r
    ∧ grants who moment items (release_event id who (py_strip r) moment) items' d d'.
Proof.
  intros Hc Hm Hres Hr Hop. unfold release in Hop.
  apply bind_Ok in Hop as (id & (-> & Tid & Pid)%require_token_spec & Hop).
  apply bind_Ok in Hop as (who & (-> & Twho & Pwho)%require_token_spec & Hop).
  apply bind_Ok in Hop as (r & Hrr & Hop).
  destruct res as [| | | |r'| |]; try done. simpl in Hrr. destruct (result_bad r') eqn:Hb; [done|].
  apply (inj Ok) in Hrr as <-. pose proof (py_strip_idem _ Hres) as Hid.
  rewrite (effective_replay _ _ _ Hr) in Hop.
  cbn [mbind result_bind] in Hop. rewrite find_expired in Hop.
  destruct (find_item id items) as [i|] eqn:Hf; [|done]. simpl in Hop.
  pose proof (find_item_spec _ _ _ Hf) as [Hi <-].
  destruct (_ && _ && _)%bool in Hop; [left; by inv_ok|right]. rewrite held_expire in Hop.
  destruct (_held i moment) eqn:Hh; [|by repeat case_match]. rewrite expire_held in Hop by done.
  destruct (held_lease _ _ Hh) as [Hs [l Hl]]. rewrite Hs, Hl in Hop. case_decide as Ew; [|done].
  apply bind_Ok in Hop as (d'' & Ha & Hop). inv_ok.
  assert (printable_event (release_event (it_id i) (l_holder l) (py_strip r') moment)) as Hpe
    by (printable_event; by apply py_strip_printable).
  destruct (append_replay _ _ _ Hc (written_release _ _ _ _) Hpe Ha) as [Ha' Hc'].
  rewrite Hr in Ha'. cbn [mbind result_bind] in Ha'.
  rewrite (apply_release_event _ _ _ _ _ l) in Ha' by auto using result_bad_strip. rewrite Hid in Ha'.
  eexists (it_id i), (l_holder l), r', _. do 3 (split; [done|]). split; try done.
  apply (logged_release _ _ _ _ l); auto using result_bad_strip.
Qed.

Lemma find_update id i i' items :
  find_item id items = Some i → it_id i' = id → find_item id (update_item id (λ _, i') items) = Some i'.
Proof.
  unfold find_item, update_item. intros Hf Hi. induction items as [|x items IH]; [done|]. simpl in *.
  case_decide as E; simpl.
  - by rewrite bool_decide_eq_true_2.
  - rewrite bool_decide_eq_false_2 in * by done. auto.
Qed.

(** *** The protocol step of a call *)
Lemma append_catalog d e d' : _append d e = Ok d' → dk_items d' = dk_items d ∧ dk_schema d' = dk_schema d.
Proof. unfold _append. intros Ha. repeat (case_match; try done); by inv_ok. Qed.

Lemma perform_catalog d moment op :
  dk_items (perform d moment op) = dk_items d ∧ dk_schema (perform d moment op) = dk_schema d.
Proof.
  destruct op; simpl.
  - destruct (claim _ _ _ _ _ _ _ _ _) as [[v d']|] eqn:E; [|done]. unfold claim in E. inv_ok.
    repeat (case_match; try done); inv_ok; eauto using append_catalog.
  - destruct (renew _ _ _ _ _) as [[v d']|] eqn:E; [|done]. unfold renew in E. inv_ok.
    repeat (case_match; try done); inv_ok; eauto using append_catalog.
  - destruct (release _ _ _ _ _) as [[v d']|] eqn:E; [|done]. unfold release in E. inv_ok.
    repeat (case_match; try done); inv_ok; eauto using append_catalog.
Qed.

Lemma append_file d e d' : _append d e = Ok d' → ∃ raw, dk_ledger d' = Regular raw.
Proof. unfold _append. intros Ha. repeat (case_match; try done); inv_ok; by eexists. Qed.

(** A ledger that is a file, or not there yet, stays one. *)
Lemma perform_ledger d moment op :
  dk_ledger d = Absent ∨ (∃ raw, dk_ledger d = Regular raw) →
  dk_ledger (perform d moment op) = Absent ∨ ∃ raw, dk_ledger (perform d moment op) = Regular raw.
Proof.
  intros Hd. destruct op; simpl.
  - destruct (claim _ _ _ _ _ _ _ _ _) as [[v d']|] eqn:E; [|done]. unfold claim in E. inv_ok.
    repeat (case_match; try done); inv_ok; eauto using append_file.
  - destruct (renew _ _ _ _ _) as [[v d']|] eqn:E; [|done]. unfold renew in E. inv_ok.
    repeat (case_match; try done); inv_ok; eauto using append_file.
  - destruct (release _ _ _ _ _) as [[v d']|] eqn:E; [|done]. unfold release in E. inv_ok.
    repeat (case_match; try done); inv_ok; eauto using append_file.
Qed.

Lemma perform_printable d moment op : catalog_printable d → catalog_printable (perform d moment op).
Proof. unfold catalog_printable. by destruct (perform_catalog d moment op) as [-> ->]. Qed.

(** The line a granted call writes. *)
Definition writes (op : Op) (moment : Z) (e : Event) : Prop :=
  match op with
  | OClaim (JStr id) _ _ _ _ _ _ => ∃ host expires, e = claim_event id (actor op) host expires moment
  | ORenew (JStr id) _ _ => ∃ host expires, e = renew_event id (actor op) host expires moment
  | ORelease (JStr id) _ (JStr r) => e = release_event id (actor op) (py_strip r) moment
  | _ => False
  end.

(** A call changes nothing, or writes one line. *)
Lemma perform_logged d moment op items :
  ledger_complete d → catalog_printable d → op_fine moment op → replay d = Ok items →
  perform d moment op = d
  ∨ ∃ e items', writes op moment e ∧ grants (actor op) moment items e items' d (perform d moment op).
Proof.
  intros Hc Hp [Hm Hop] Hr. destruct op as [item holder ttl host dn op dr|item holder ttl|item holder res]; simpl.
  - destruct (claim _ _ _ _ _ _ _ _ _) as [[v d']|] eqn:E; [|by left].
    destruct (claim_spec _ _ _ _ _ _ _ _ _ _ _ _ Hc Hm Hr E)
      as [[-> _]|(i & who & on & t & x & -> & -> & -> & -> & _ & _ & Hg & _)]; [by left|by right; eauto 10].
  - destruct (renew _ _ _ _ _) as [[v d']|] eqn:E; [|by left]. right.
    destruct (renew_spec _ _ _ _ _ _ _ _ Hc (replay_hosts _ _ Hp Hr) Hm Hr E)
      as (id & who & host & x & its & -> & -> & Hg). eauto 10.
  - destruct (release _ _ _ _ _) as [[v d']|] eqn:E; [|by left].
    destruct (release_spec _ _ _ _ _ _ _ _ Hc Hm Hop Hr E)
      as [->|(id & who & r & its & -> & -> & -> & Hg)]; [by left|by right; eauto 10].
Qed.

Lemma perform_step d moment op items :
  ledger_complete d → catalog_printable d → op_fine moment op → replay d = Ok items →
  ∃ items', replay (perform d moment op) = Ok items' ∧ step (actor op) moment items items'
    ∧ ledger_complete (perform d moment op).
Proof.
  intros Hc Hp Hop Hr. destruct (perform_logged _ _ _ _ Hc Hp Hop Hr) as [->|(e & its & _ & [])].
  - exists items. split_and!; try done. constructor.
  - exists its. split_and!; try done. by apply (logged_step _ _ _ e).
Qed.

(** *** Runs *)

(** A clock that does not go back, with calls the ledger can carry. *)
Fixpoint run_fine (start : Z) (ops : list (Z * Op)) : Prop :=
  match ops with
  | [] => True
  | (moment, op) :: ops => start ≤ moment ∧ op_fine moment op ∧ run_fine moment ops
  end.

Definition end_clock (start : Z) (ops : list (Z * Op)) : Z := foldl (λ _ o, o.1) start ops.

Lemma end_clock_le start ops : run_fine start ops → start ≤ end_clock start ops.
Proof.
  unfold end_clock. revert start. induction ops as [|[m op] ops IH]; intros start; simpl; [lia|].
  intros (H1 & _ & H2). specialize (IH m H2). lia.
Qed.

(** An induction over runs: a property of clock and items that steps keep and
    that survives the passing of time. *)
Lemma run_induction (P : Z → list Item → Prop) d start ops items :
  (∀ m m' its, m ≤ m' → m' ≤ end_clock start ops → P m its → P m' its) →
  (∀ m op its its', (m, op) ∈ ops → m ≤ end_clock start ops → step (actor op) m its its' →
     unique_ids its → P m its → P m its') →
  ledger_complete d → catalog_printable d → run_fine start ops → replay d = Ok items → P start items →
  ∃ items', replay (perform_all d ops) = Ok items' ∧ P (end_clock start ops) items'.
Proof.
  revert d start items. induction ops as [|[m op] ops IH]; intros d start items Ht Hs Hc Hp Hf Hr HP.
  { by exists items. }
  destruct Hf as (Hm & Hop & Hf). cbn [perform_all].
  change (end_clock start ((m, op) :: ops)) with (end_clock m ops) in *.
  pose proof (end_clock_le _ _ Hf) as Hle.
  destruct (perform_step _ _ _ _ Hc Hp Hop Hr) as (items1 & Hr1 & Hst & Hc1).
  apply (IH _ m items1); auto using perform_printable.
  - intros m' op' its its' Hin. apply Hs. by right.
  - apply (Hs m op items); [by left|done..| |].
    + by apply (replay_unique d).
    + by apply (Ht start).
Qed.

(** C35: A call of the queue is one step of its protocol: whatever it answers or
    raises, the ledger afterwards can be read, and the items it describes
    changed by at most one claim of an item nobody held and whose files no live
    lease touched, or one renewal or release by the holder of a live lease. *)
Theorem calls_implement_protocol d moment op items :
  ledger_complete d → catalog_printable d → op_fine moment op → replay d = Ok items →
  ∃ items', replay (perform d moment op) = Ok items' ∧ step (actor op) moment items items'
    ∧ ledger_complete (perform d moment op).
Proof. apply perform_step. Qed.

(** C7: Leases are exclusive in every run: if the live leases overlapped
    nowhere at the start, then after any sequence of calls, by anybody, under a
    clock that does not go back, no two live leases have overlapping scopes. *)
Theorem leases_stay_exclusive d start ops items :
  ledger_complete d → catalog_printable d → run_fine start ops → replay d = Ok items →
  exclusive start items →
  ∃ items', replay (perform_all d ops) = Ok items' ∧ exclusive (end_clock start ops) items'.
Proof.
  intros Hc Hp Hf Hr He. apply (run_induction exclusive d start ops items); try done.
  - intros m m' its Hm _. by apply exclusive_later.
  - intros m op its its' _ _ Hs _. by apply (step_exclusive (actor op)).
Qed.

(** A live lease belongs to its holder and a closed item is final: calls by
    others leave the item exactly as it is, as long as the lease is live at
    the last of them. *)
Theorem live_leases_are_respected d start ops items i :
  ledger_complete d → catalog_printable d → run_fine start ops → replay d = Ok items → i ∈ items →
  (closed i = true ∨
   _held i (end_clock start ops) = true ∧
   ∃ l, it_lease i = Some l ∧ Forall (λ o, actor o.2 ≠ l_holder l) ops) →
  ∃ items', replay (perform_all d ops) = Ok items' ∧ i ∈ items'.
Proof.
  intros Hc Hp Hf Hr Hi Hk. destruct (run_induction (λ _ its, i ∈ its) d start ops items) as (its & ? & ?);
    eauto. intros m op its its' Hin Hm Hs Hu Hi'. apply (step_spares _ _ _ _ _ Hs); try done.
  destruct Hk as [|(Hh & l & Hl & Ha)]; [by left|right]. split; [by eapply held_earlier|].
  exists l. split; [done|]. rewrite Forall_forall in Ha. specialize (Ha _ Hin). simpl in Ha. congruence.
Qed.

(** A granted claim takes effect: reading the ledger back, the item is the
    caller's until the second its lease runs out, no longer, and every other
    item is as it was. *)
Theorem claim_takes_effect d item holder ttl host moment done_prs open_pr_files draft_prs items v d' :
  ledger_complete d → year_start 1000 ≤ moment < year_start 10000 → replay d = Ok items →
  claim d item holder ttl host moment done_prs open_pr_files draft_prs = Ok (v, d') →
  cv_idempotent v = false →
  ∃ i t items', JInt t = ttl ∧ JStr (it_id i) = item ∧ i ∈ items ∧ replay d' = Ok items' ∧
    (∀ j, j ∈ items' → it_id j ≠ it_id i → j ∈ items) ∧
    ∃ i', find_item (it_id i) items' = Some i' ∧ JStr (cv_holder v) = holder ∧
      it_lease i' = Some (MkLease (cv_holder v) (cv_host v) (cv_expires_at v)) ∧
      (∀ now, _held i' now = (now <? (moment + t * MICROS) / MICROS * MICROS)).
Proof.
  intros Hc Hm Hr Hop Hv. destruct (claim_spec _ _ _ _ _ _ _ _ _ _ _ _ Hc Hm Hr Hop)
    as [[-> ?]|(i & who & on & t & x & -> & -> & -> & -> & Hx & -> & [_ _ _ _ Hr' _] & Hf)];
    [congruence|].
  pose proof (find_item_spec _ _ _ Hf) as [Hi _].
  eexists i, t, _. split_and!; [done..|exact Hr'| |].
  { intros j [(k & _ & _ & ->)|[Hj _]]%in_update Hn; [by destruct Hn|done]. }
  eexists. split_and!; [eapply find_update; [exact Hf|done]|done..|].
  intros now. unfold _held, claimed_lease, expiry. simpl. by rewrite Hx.
Qed.
End spec.
