(* ===== verification/QueueAudit.v ===== *)
(** * The ledger auditor ([work_queue_audit.py])

    An independent check of a work-queue ledger: it replays the lines with its
    own state per item and lists what it finds wrong. *)

From Stdlib Require Import Ascii.
From S2P Require Import Prelude PyText AsciiText PyTime Scope Json WorkItems WorkQueue.

(** ** Dictionaries in insertion order *)
Section assoc.
Context {V : Type}.

Fixpoint lookup_key (k : string) (l : list (string * V)) : option V :=
  match l with [] => None | (k', v) :: r => if decide (k = k') then Some v else lookup_key k r end.
Fixpoint set_key (k : string) (v : V) (l : list (string * V)) : list (string * V) :=
  match l with
  | [] => [(k, v)]
  | (k', v') :: r => if decide (k = k') then (k, v) :: r else (k', v') :: set_key k v r
  end.
End assoc.

(** The message of a violation is left out. *)
Record AuditViolation := MkViolation { va_line : option Z; va_code : string }.

(** The status of an item; its lease is set and cleared with it. *)
Inductive AuditStatus := AUnclaimed | AClaimed (lease : Lease) | ADone | ABlocked.

Record AuditState := MkAuditState {
  as_status : AuditStatus;
  as_result : option string;
  as_released_by : option string;
  as_history : list (list (string * json));
}.

Definition fresh_state : AuditState := MkAuditState AUnclaimed None None [].
Definition with_status (s : AuditState) (st : AuditStatus) : AuditState :=
  MkAuditState st (as_result s) (as_released_by s) (as_history s).

Record AuditReport := MkReport {
  ar_valid : bool; ar_total_lines : Z; ar_events_count : Z; ar_items_count : Z;
  ar_active_leases_count : Z; ar_completed_count : Z;
  ar_violations : list AuditViolation; ar_items : list (string * AuditState);
}.

(** The variables of the loop over the lines. *)
Record Audit := MkAudit {
  au_violations : list AuditViolation;
  au_items : list (string * AuditState);
  au_prev : option Z;
  au_events : Z;
  au_lines : Z;
}.

Definition Scopes := list (string * list string).

Section audit.
Context `{PyPlatform}.

(** *** The catalog *)
Definition is_json_file (p : string * Node) : bool :=
  (has_json_suffix p.1 && (5 <? String.length p.1)%nat)%bool.

Definition catalog_entry (scopes : Scopes) (p : string * Node) : Scopes :=
  if is_json_file p then
    match resolve p.2 with
    | Regular raw =>
        match decode_json raw with
        | Ok (JObj data) =>
            match jget "id" data, jget "files_scope" data with
            | Some id, Some (JArr l) => set_key (py_str id) (map py_str l) scopes
            | _, _ => scopes
            end
        | _ => scopes
        end
    | _ => scopes
    end
  else scopes.

(** [items_dir] is [None] where there is no such directory. *)
Definition load_catalog_scopes (items_dir : Dir) : Scopes :=
  match items_dir with None => [] | Some l => foldl catalog_entry [] l end.

(** *** One event *)
Definition parse_time (value : json) : option Z :=
  match value with JStr s => parse_stamp s | _ => None end.

(** [event.get("created_at") or event.get("at")] *)
Definition created_at_raw (event : list (string * json)) : json :=
  let c := jget_none "created_at" event in if py_truthy c then c else jget_none "at" event.

Definition claim_status (s : AuditState) (created expires : Z) (lease : Lease) : AuditState * list string :=
  match as_status s with
  | ADone => (s, ["ALREADY_DONE"])
  | AClaimed curr =>
      match expiry curr with
      | Some curr_expires =>
          if created <=? curr_expires then
            if (bool_decide (l_holder curr = l_holder lease)
                && bool_decide (l_expires_at curr = l_expires_at lease))%bool
            then (s, []) else (s, ["DUPLICATE_CLAIM"])
          else (with_status s (AClaimed lease), [])
      | None => (with_status s (AClaimed lease), [])
      end
  | _ => (with_status s (AClaimed lease), [])
  end.

Definition scope_conflicts (scopes : Scopes) (items : list (string * AuditState)) (item_id : string)
    (created : Z) : list string :=
  match lookup_key item_id scopes with
  | None => []
  | Some scope =>
      flat_map (λ other : string * AuditState,
        if decide (other.1 = item_id) then [] else
        match as_status other.2 with
        | AClaimed lease =>
            match expiry lease, lookup_key other.1 scopes with
            | Some exp, Some other_scope =>
                if (created <=? exp) && scopes_overlap scope other_scope
                then ["CONCURRENT_SCOPE_CONFLICT"] else []
            | _, _ => []
            end
        | _ => []
        end) items
  end.

Definition in_past (created expires : Z) : list string :=
  if expires <=? created then ["EXPIRES_IN_PAST"] else [].

Definition audit_claim (scopes : Scopes) (items : list (string * AuditState)) (s : AuditState)
    (item_id holder : string) (created : Z) (event : list (string * json)) : AuditState * list string :=
  match _event_token (jget_none "host" event) with
  | None => (s, ["INVALID_HOST"])
  | Some host =>
      match jget_none "expires_at" event with
      | JStr raw =>
          match parse_stamp raw with
          | None => (s, ["INVALID_TIMESTAMP"])
          | Some expires =>
              let ttl := if MAX_TTL_SECONDS * MICROS <? expires - created then ["TTL_OUT_OF_BOUNDS"] else [] in
              let '(s', v) := claim_status s created expires (MkLease holder host raw) in
              (s', in_past created expires ++ ttl ++ v ++ scope_conflicts scopes items item_id created)%list
          end
      | _ => (s, ["INVALID_TIMESTAMP"])
      end
  end.

Definition audit_renew (s : AuditState) (holder : string) (created : Z) (event : list (string * json))
  : AuditState * list string :=
  match jget_none "expires_at" event with
  | JStr raw =>
      match parse_stamp raw with
      | None => (s, ["INVALID_TIMESTAMP"])
      | Some expires =>
          let '(s', v) :=
            match as_status s with
            | ADone => (s, ["ALREADY_DONE"])
            | AClaimed curr =>
                if decide (l_holder curr = holder) then
                  match expiry curr with
                  | Some curr_exp =>
                      if curr_exp <? created then (s, ["LEASE_EXPIRED"])
                      else (with_status s (AClaimed (MkLease (l_holder curr) (l_host curr) raw)), [])
                  | None => (with_status s (AClaimed (MkLease (l_holder curr) (l_host curr) raw)), [])
                  end
                else (s, ["NOT_HOLDER"])
            | _ => (s, ["NOT_CLAIMED"])
            end in
          (s', in_past created expires ++ v)%list
      end
  | _ => (s, ["INVALID_TIMESTAMP"])
  end.

Definition audit_release (s : AuditState) (holder : string) (event : list (string * json))
  : AuditState * list string :=
  match jget_none "result" event with
  | JStr res =>
      if result_bad res then (s, ["INVALID_RESULT"]) else
      match as_status s with
      | ADone | ABlocked =>
          if (bool_decide (as_released_by s = Some holder) && bool_decide (as_result s = Some (py_strip res)))%bool
          then (s, []) else (s, ["CONFLICTING_RELEASE"])
      | AClaimed curr =>
          if decide (l_holder curr = holder) then
            (MkAuditState (if _is_failed_result res then ABlocked else ADone) (Some (py_strip res))
               (Some holder) (as_history s), [])
          else (s, ["NOT_HOLDER"])
      | AUnclaimed => (s, ["NOT_CLAIMED"])
      end
  | _ => (s, ["INVALID_RESULT"])
  end.

Definition violations_at (line : Z) (codes : list string) : list AuditViolation :=
  map (MkViolation (Some line)) codes.
Definition report_line (a : Audit) (codes : list string) : Audit :=
  MkAudit (au_violations a ++ violations_at (au_lines a) codes) (au_items a) (au_prev a) (au_events a) (au_lines a).

(** [state["history"].append(event)] *)
Definition noted (s : AuditState) (event : list (string * json)) : AuditState :=
  MkAuditState (as_status s) (as_result s) (as_released_by s) (as_history s ++ [event]).

Definition audit_kind (scopes : Scopes) (items : list (string * AuditState)) (s : AuditState)
    (kind item_id holder : string) (created : Z) (event : list (string * json)) : AuditState * list string :=
  if decide (kind = "CLAIM") then audit_claim scopes items s item_id holder created event
  else if decide (kind = "RENEW") then audit_renew s holder created event
  else audit_release s holder event.

(** The loop body after the envelope of the event was found in order. *)
Definition audit_item (scopes : Scopes) (a : Audit) (kind item_id holder : string) (created : Z)
    (event : list (string * json)) : Audit :=
  let travel := match au_prev a with
                | Some prev => if created <? prev then ["TIME_TRAVEL"] else []
                | None => [] end in
  let s := noted (default fresh_state (lookup_key item_id (au_items a))) event in
  let items := set_key item_id s (au_items a) in
  let '(s', codes) := audit_kind scopes items s kind item_id holder created event in
  MkAudit (au_violations a ++ violations_at (au_lines a) (travel ++ codes))
    (set_key item_id s' items) (Some created) (au_events a) (au_lines a).

Definition audit_event (scopes : Scopes) (a : Audit) (event : list (string * json)) : Audit :=
  let a := MkAudit (au_violations a) (au_items a) (au_prev a) (au_events a + 1) (au_lines a) in
  match jget_none "type" event with
  | JStr kind =>
      if negb (bool_decide (kind ∈ ["CLAIM"; "RENEW"; "RELEASE"])) then report_line a ["UNKNOWN_EVENT_TYPE"] else
      match _event_token (jget_none "item_id" event) with
      | None => report_line a ["INVALID_ITEM_ID"]
      | Some item_id =>
          match _event_token (jget_none "holder" event) with
          | None => report_line a ["INVALID_HOLDER"]
          | Some holder =>
              match parse_time (created_at_raw event) with
              | None => report_line a ["INVALID_TIMESTAMP"]
              | Some created => audit_item scopes a kind item_id holder created event
              end
          end
      end
  | _ => report_line a ["UNKNOWN_EVENT_TYPE"]
  end.

(** *** One line *)
Definition audit_line (scopes : Scopes) (a : Audit) (line : string) : Audit :=
  let a := MkAudit (au_violations a) (au_items a) (au_prev a) (au_events a) (au_lines a + 1) in
  if bytes_blank line then a
  else if negb (utf8_valid line) then report_line a ["UTF8_DECODE_ERROR"]
  else match loads line with
  | Err _ => report_line a ["JSON_SYNTAX_ERROR"]
  | Ok (JObj event) => audit_event scopes a event
  | Ok _ => report_line a ["MALFORMED_EVENT"]
  end.

Definition audit_start : Audit := MkAudit [] [] None 0 0.
Definition audit_lines (scopes : Scopes) (raw : string) : Audit :=
  foldl (audit_line scopes) audit_start (splitlines raw).

(** *** The report *)
Definition lease_over (last : option Z) (s : AuditState) : bool :=
  match as_status s with
  | AClaimed lease => match expiry lease, last with Some exp, Some l => exp <=? l | _, _ => false end
  | _ => false
  end.
Definition is_active (last : option Z) (s : AuditState) : bool :=
  match as_status s with AClaimed _ => negb (lease_over last s) | _ => false end.
Definition is_done (s : AuditState) : bool := match as_status s with ADone => true | _ => false end.

Definition count {A} (f : A → bool) (l : list A) : Z := Z.of_nat (length (List.filter f l)).

Definition report (a : Audit) : AuditReport :=
  MkReport (bool_decide (length (au_violations a) = 0%nat)) (au_lines a) (au_events a)
    (Z.of_nat (length (au_items a)))
    (count (λ kv, is_active (au_prev a) kv.2) (au_items a)) (count (λ kv, is_done kv.2) (au_items a))
    (au_violations a) (au_items a).

Definition refused (code : string) : AuditReport := MkReport false 0 0 0 0 0 [MkViolation None code] [].

Definition audit (ledger : Node) (items_dir : Dir) : AuditReport :=
  if negb (exists_ ledger) then MkReport true 0 0 0 0 0 [] [] else
  match ledger with
  | Symlink _ => refused "SYMLINK_DISALLOWED"
  | Absent | Special => refused "NOT_A_FILE"
  | Unreadable => refused "UNREADABLE"
  | Regular raw =>
      if MAX_LEDGER_BYTES <? byte_len raw then refused "LEDGER_TOO_LARGE"
      else report (audit_lines (load_catalog_scopes items_dir) raw)
  end.
End audit.
