(* ===== verification/QueueAuditSpec.v ===== *)
(** * The auditor accepts what the queue writes

    The auditor's states follow the items of the queue through every granted
    call; a takeover in the very second a lease ends is the exception. *)

From Stdlib Require Import Ascii.
From S2P Require Import Prelude PyText AsciiText PyTime Scope Json WorkItems WorkQueue QueueLedger QueueSafety QueueSpec QueueAudit.

(** ** Dictionaries *)
Section assoc.
Context {V : Type}.
Implicit Types (l : list (string * V)).

Lemma lookup_set_eq k v l : lookup_key k (set_key k v l) = Some v.
Proof. induction l as [|[k' v'] l IH]; simpl; repeat case_decide; simpl; repeat case_decide; congruence. Qed.

Lemma lookup_set_ne k k' v l : k ≠ k' → lookup_key k (set_key k' v l) = lookup_key k l.
Proof.
  intros Hn. induction l as [|[j w] l IH]; simpl; repeat case_decide; simpl; repeat case_decide; congruence.
Qed.

Lemma elem_set_key k v l x : x ∈ set_key k v l → x = (k, v) ∨ x ∈ l ∧ (x.1 ≠ k ∨ ¬ NoDup (map fst l)).
Proof.
  induction l as [|[j w] l IH]; simpl; [set_solver|]. case_decide as E; subst.
  - intros [->|Hx]%elem_of_cons; [by left|]. right. split; [by right|].
    destruct (decide (x.1 = j)) as [E|]; [|by left]. right. simpl. rewrite NoDup_cons. intros [Hn _].
    apply Hn. rewrite <-E. by apply list_elem_of_fmap_2.
  - intros [->|Hx]%elem_of_cons; [right; split; [by left|left; simpl; congruence]|].
    destruct (IH Hx) as [|[Hl [Hn|Hn]]]; [by left|right..]; (split; [by right|]); [by left|right].
    simpl. rewrite NoDup_cons. tauto.
Qed.

Lemma set_key_keys k v l : (map fst (set_key k v l) = map fst l) ∨
  (k ∉ map fst l) ∧ map fst (set_key k v l) = (map fst l ++ [k])%list.
Proof.
  induction l as [|[j w] l IH]; simpl; [right; set_solver|]. case_decide; subst; [by left|].
  destruct IH as [E|[Hn E]]; simpl; rewrite E; [by left|right]. split; [set_solver|done].
Qed.

Lemma set_key_nodup k v l : NoDup (map fst l) → NoDup (map fst (set_key k v l)).
Proof.
  intros Hl. destruct (set_key_keys k v l) as [->|[Hk ->]]; [done|].
  apply NoDup_app. split_and!; [done| |apply NoDup_singleton]. by intros x Hx ->%list_elem_of_singleton.
Qed.

Lemma lookup_elem k v l : NoDup (map fst l) → (k, v) ∈ l → lookup_key k l = Some v.
Proof.
  induction l as [|[j w] l IH]; simpl; [set_solver|]. intros [Hn Hl]%NoDup_cons [E|Hx]%elem_of_cons.
  - simplify_eq. by rewrite decide_True.
  - rewrite decide_False; [by apply IH|]. intros ->. apply Hn. by apply (list_elem_of_fmap_2 fst l (j, v)).
Qed.

Lemma lookup_in k v l : lookup_key k l = Some v → (k, v) ∈ l.
Proof.
  induction l as [|[j w] l IH]; simpl; [done|]. case_decide; intros; simplify_eq; [by left|right; auto].
Qed.
End assoc.

(** ** Seconds *)
Definition second (moment : Z) : Z := moment / MICROS * MICROS.

Lemma parse_stamp_second s e : parse_stamp s = Some e → second e = e.
Proof.
  unfold parse_stamp, second, MICROS. destruct (time_fields s) as [[[[[[y m] d] hh] mm] ss]|]; [|done].
  case_match; [|done]. intros [= <-]. by rewrite Z.div_mul.
Qed.

Lemma second_le moment : second moment ≤ moment < second moment + MICROS.
Proof. unfold second, MICROS. Z.to_euclidean_division_equations; lia. Qed.

Lemma second_mono a b : a ≤ b → second a ≤ second b.
Proof. unfold second, MICROS. intros. Z.to_euclidean_division_equations; lia. Qed.

Lemma second_add moment t : second (moment + t * MICROS) = second moment + t * MICROS.
Proof. unfold second. rewrite Z.div_add by done. lia. Qed.

(** The auditor counts a lease in seconds; off the boundary second both agree. *)
Lemma live_second moment e : second e = e → e ≠ second moment → (moment <? e) = (second moment <=? e).
Proof.
  intros He Hn. pose proof (second_le moment). apply eq_iff_eq_true. rewrite Z.ltb_lt, Z.leb_le.
  split; intros; [lia|]. assert (second moment + MICROS ≤ e); [|lia].
  unfold second, MICROS in *. Z.to_euclidean_division_equations; lia.
Qed.

(** ** The auditor's view of the items *)
Definition tracks (i : Item) (s : option AuditState) : Prop :=
  match it_status i with
  | READY => s = None
  | CLAIMED => ∃ st l, s = Some st ∧ it_lease i = Some l ∧ as_status st = AClaimed l
  | DONE => s = None ∨ ∃ st, s = Some st ∧ as_status st = ADone
  | BLOCKED => s = None ∨ ∃ st, s = Some st ∧ as_status st = ABlocked
  end.

Record agrees (scopes : Scopes) (a : Audit) (items : list Item) (now : Z) : Prop := {
  agrees_clean : au_violations a = [];
  agrees_clock : ∀ p, au_prev a = Some p → p ≤ now;
  agrees_keys : NoDup (map fst (au_items a));
  agrees_known : ∀ k s, (k, s) ∈ au_items a → ∃ i, i ∈ items ∧ it_id i = k;
  agrees_tracks : ∀ i, i ∈ items → tracks i (lookup_key (it_id i) (au_items a));
  agrees_scopes : ∀ i sc, i ∈ items → lookup_key (it_id i) scopes = Some sc → sc = it_files_scope i;
}.

(** No lease ends in the second of the moment. *)
Definition off_boundaryb (moment : Z) (items : list Item) : bool :=
  forallb (λ i, match claimed_lease i with
    | Some l => negb (bool_decide (expiry l = Some (second moment)))
    | None => true end) items.
Definition off_boundary (moment : Z) (items : list Item) : Prop :=
  ∀ i l, i ∈ items → claimed_lease i = Some l → expiry l ≠ Some (second moment).

Lemma off_boundary_spec moment items : off_boundaryb moment items = true → off_boundary moment items.
Proof.
  unfold off_boundaryb, off_boundary. rewrite forallb_forall. intros Hf i l Hi%list_elem_of_In Hl.
  specialize (Hf _ Hi). rewrite Hl in Hf. by apply negb_true_iff, bool_decide_eq_false in Hf.
Qed.

Section audit.
Context `{PyPlatform}.

Lemma loads_event e :
  printable_event e → NoDup (map fst e) → loads (event_text e) = Ok (JObj (sort_kvs (event_json e))).
Proof.
  intros He Hn. pose proof (decode_event e He Hn) as Hd. unfold decode_json in Hd.
  case_match; [|done]. destruct (loads (event_text e)); [|done]. by inv_ok.
Qed.

Lemma audit_written scopes a e :
  written e → printable_event e →
  audit_line scopes a (event_text e)
  = audit_event scopes (MkAudit (au_violations a) (au_items a) (au_prev a) (au_events a) (au_lines a + 1))
      (sort_kvs (event_json e)).
Proof.
  intros Hw He. unfold audit_line. rewrite event_not_blank.
  rewrite ascii_utf8 by (by apply printable_ascii, event_text_printable). simpl negb. cbv iota.
  by rewrite loads_event by auto using written_nodup.
Qed.

Lemma audit_lines_append scopes raw e :
  complete raw → written e → printable_event e →
  audit_lines scopes (raw +:+ event_line e) = audit_line scopes (audit_lines scopes raw) (event_text e).
Proof.
  intros Hr Hw He. unfold audit_lines, event_line.
  rewrite splitlines_append, foldl_app by auto using event_text_printable. done.
Qed.

(** A state changed for one item keeps the auditor in agreement. *)
Lemma agrees_update scopes a items now now' i i' s s' line events :
  agrees scopes a items now → unique_ids items → i ∈ items → it_id i' = it_id i →
  it_files_scope i' = it_files_scope i → now ≤ now' →
  tracks i' (Some s') →
  agrees scopes (MkAudit [] (set_key (it_id i) s' (set_key (it_id i) s (au_items a))) (Some now') events line)
    (update_item (it_id i) (λ _, i') items) now'.
Proof.
  intros [Hv Hc Hk Hn Ht Hs] Hu Hi Hid Hsc Hnow Htr. split; simpl.
  - done.
  - by intros p [= <-].
  - by apply set_key_nodup, set_key_nodup.
  - intros k x Hx. apply elem_set_key in Hx as [[= -> ->]|[Hx _]].
    { exists i'. split; [|done]. apply in_update. left. eauto. }
    apply elem_set_key in Hx as [[= -> ->]|[Hx _]].
    { exists i'. split; [|done]. apply in_update. left. eauto. }
    destruct (Hn _ _ Hx) as (j & Hj & <-). destruct (decide (it_id j = it_id i)) as [E|].
    + exists i'. split; [|congruence]. apply in_update. left. eauto.
    + exists j. split; [|done]. apply in_update. by right.
  - intros j [(k & Hk' & E & ->)|[Hj Hne]]%in_update.
    + rewrite Hid, lookup_set_eq. done.
    + rewrite !lookup_set_ne by done. by apply Ht.
  - intros j sc [(k & Hk' & E & ->)|[Hj Hne]]%in_update Hl.
    + rewrite Hid in Hl. rewrite Hsc. by apply Hs.
    + by apply Hs.
Qed.

Lemma no_travel scopes a items now created :
  agrees scopes a items now → now ≤ created →
  match au_prev a with Some prev => if created <? prev then ["TIME_TRAVEL"] else [] | None => [] end = [].
Proof.
  intros [_ Hc _ _ _ _] Hn. destruct (au_prev a) as [p|]; [|done]. specialize (Hc p eq_refl).
  by rewrite (proj2 (Z.ltb_ge _ _)) by lia.
Qed.

(** No live lease of the auditor overlaps a claim the queue grants. *)
Lemma no_conflicts scopes a items now moment i s :
  agrees scopes a items now → off_boundary moment items → i ∈ items →
  (∀ j, j ∈ items → it_id j ≠ it_id i → _held j moment = true →
     scopes_overlap (it_files_scope i) (it_files_scope j) = false) →
  scope_conflicts scopes (set_key (it_id i) s (au_items a)) (it_id i) (second moment) = [].
Proof.
  intros [_ _ Hk Hn Ht Hs] Hb Hi Hfree. unfold scope_conflicts.
  destruct (lookup_key (it_id i) scopes) as [sc|] eqn:Esc; [|done]. apply (Hs _ _ Hi) in Esc as ->.
  assert (∀ (A B : Type) (f : A → list B) l, (∀ x, x ∈ l → f x = []) → flat_map f l = []) as Hflat.
  { intros A B f l. induction l as [|x l IH]; intros Hf; [done|]. simpl. rewrite Hf by (by left).
    apply IH. intros. apply Hf. by right. }
  apply Hflat. intros [k st] Hx. simpl. case_decide as Hkk; [done|].
  apply elem_set_key in Hx as [[= ? ?]|[Hx _]]; [congruence|].
  destruct (Hn _ _ Hx) as (j & Hj & <-). apply lookup_elem in Hx; [|done].
  pose proof (Ht _ Hj) as Htr. rewrite Hx in Htr. unfold tracks in Htr.
  destruct (as_status st) as [|l| |] eqn:Est; try done.
  destruct (it_status j) eqn:Ej; [done| |by destruct Htr as [|(? & [= <-] & ?)]; congruence..].
  destruct Htr as (st' & l' & [= <-] & Hl & Est'). rewrite Est in Est'. simplify_eq.
  destruct (expiry l') as [e|] eqn:Ee; [|done]. destruct (lookup_key (it_id j) scopes) as [sc|] eqn:Esc; [|done].
  apply (Hs _ _ Hj) in Esc as ->. destruct (second moment <=? e) eqn:El; [|done]. simpl.
  rewrite Hfree; [done..|]. unfold _held, claimed_lease. rewrite Ej, Hl, Ee.
  rewrite live_second; [done|by eapply parse_stamp_second|]. intros ->.
  apply (Hb j l'); [done| |done]. unfold claimed_lease. by rewrite Ej.
Qed.

(** What the auditor makes of a takeover. *)
Lemma claim_accepted i s moment expires lease :
  tracks i s → _held i moment = false → closed i = false →
  (∀ l, claimed_lease i = Some l → expiry l ≠ Some (second moment)) →
  ∀ st, as_status st = as_status (default fresh_state s) →
  claim_status st (second moment) expires lease = (with_status st (AClaimed lease), []).
Proof.
  intros Ht Hh Hc Hb st Hst. unfold tracks in Ht. unfold claim_status. rewrite Hst.
  destruct (it_status i) eqn:Es.
  - by rewrite Ht.
  - destruct Ht as (st' & l & -> & Hl & Est). simpl. rewrite Est.
    destruct (expiry l) as [e|] eqn:Ee; [|done].
    unfold _held, claimed_lease in *. rewrite Es, Hl in *. rewrite Ee in Hh.
    rewrite live_second in Hh; [by rewrite Hh|by eapply parse_stamp_second|].
    intros ->. by apply (Hb l).
  - unfold closed in Hc. apply bool_decide_eq_false in Hc. exfalso. auto.
  - unfold closed in Hc. apply bool_decide_eq_false in Hc. exfalso. auto.
Qed.

(** A live lease of the queue is live for the auditor. *)
Lemma held_tracked i s moment lease :
  tracks i s → _held i moment = true → it_lease i = Some lease →
  ∃ st e, s = Some st ∧ as_status st = AClaimed lease ∧ expiry lease = Some e ∧ second moment ≤ e.
Proof.
  intros Ht Hh Hl. pose proof (held_lease _ _ Hh) as [Hs _]. unfold tracks, _held, claimed_lease in *.
  rewrite Hs in *. destruct Ht as (st & l & -> & Hl' & Est). rewrite Hl in *. simplify_eq.
  destruct (expiry l) as [e|]; [|done]. apply Z.ltb_lt in Hh. exists st, e. split_and!; try done.
  pose proof (second_le moment). lia.
Qed.

Lemma logged_written who moment items e items' : logged who moment items e items' → written e.
Proof. destruct 1; constructor. Qed.

(** The envelope of a written line is in order. *)
Lemma audit_envelope scopes a e kind id who moment :
  year_start 1000 ≤ moment < year_start 10000 →
  jget_none "type" (sort_kvs (event_json e)) = JStr kind → kind ∈ ["CLAIM"; "RENEW"; "RELEASE"] →
  jget_none "item_id" (sort_kvs (event_json e)) = JStr id → _event_token (JStr id) = Some id →
  jget_none "holder" (sort_kvs (event_json e)) = JStr who → _event_token (JStr who) = Some who →
  created_at_raw (sort_kvs (event_json e)) = JStr (stamp moment) →
  audit_event scopes a (sort_kvs (event_json e))
  = audit_item scopes (MkAudit (au_violations a) (au_items a) (au_prev a) (au_events a + 1) (au_lines a))
      kind id who (second moment) (sort_kvs (event_json e)).
Proof.
  intros Hm Hk Hin Hid Tid Hwho Twho Hat. unfold audit_event. rewrite Hk, bool_decide_eq_true_2 by done.
  cbn [negb]. rewrite Hid, Tid, Hwho, Twho, Hat. unfold parse_time. by rewrite parse_stamp_stamp.
Qed.

(** A line without complaint keeps the agreement. *)
Lemma agrees_item scopes a items now moment i i' s' kind who event :
  agrees scopes a items now → now ≤ second moment → unique_ids items → i ∈ items →
  it_id i' = it_id i → it_files_scope i' = it_files_scope i → tracks i' (Some s') →
  (let s := noted (default fresh_state (lookup_key (it_id i) (au_items a))) event in
   audit_kind scopes (set_key (it_id i) s (au_items a)) s kind (it_id i) who (second moment) event = (s', [])) →
  agrees scopes
    (audit_item scopes (MkAudit (au_violations a) (au_items a) (au_prev a) (au_events a + 1) (au_lines a + 1))
       kind (it_id i) who (second moment) event)
    (update_item (it_id i) (λ _, i') items) (second moment).
Proof.
  intros Ha Hnow Hu Hi Hid Hsc Htr Hk. cbv zeta in Hk. unfold audit_item.
  cbn [au_violations au_items au_prev au_events au_lines]. cbv zeta. rewrite Hk.
  rewrite (agrees_clean _ _ _ _ Ha), (no_travel _ _ _ _ _ Ha Hnow). by eapply agrees_update.
Qed.

Lemma not_in_past created t : 1 ≤ t → in_past created (created + t * MICROS) = [].
Proof. intros. unfold in_past. by rewrite (proj2 (Z.leb_gt _ _)) by (unfold MICROS; lia). Qed.

Lemma audit_logged scopes a items now who moment e items' :
  agrees scopes a items now → now ≤ second moment → year_start 1000 ≤ moment < year_start 10000 →
  off_boundary moment items → unique_ids items → _event_token (JStr who) = Some who →
  logged who moment items e items' → printable_event e →
  agrees scopes (audit_line scopes a (event_text e)) items' (second moment).
Proof.
  intros Ha Hnow Hm Hb Hu Twho Hl He.
  rewrite audit_written by eauto using logged_written.
  destruct Hl as [i host t expires Hi Hh Hc Hfree Tid Thost Ht Hx
                 |i lease t expires Hi Hh Hl Hw Tid Ht Hx
                 |i lease res Hi Hh Hl Hw Tid Hres Hstrip];
    pose proof (agrees_tracks _ _ _ _ Ha _ Hi) as Htr.
  - rewrite (audit_envelope _ _ _ "CLAIM" (it_id i) who moment) by (done || set_solver).
    eapply agrees_item; try done.
    2: { unfold audit_kind. rewrite decide_True by done. unfold audit_claim.
         change (jget_none "host" _) with (JStr host). change (jget_none "expires_at" _) with (JStr expires).
         cbv beta iota. rewrite Thost, Hx. fold (second (moment + t * MICROS)). rewrite second_add.
         rewrite (claim_accepted i _ moment _ _ Htr Hh Hc (λ l, Hb i l Hi)) by done.
         rewrite not_in_past by lia. rewrite (no_conflicts _ _ _ _ _ _ _ Ha Hb Hi Hfree).
         rewrite (proj2 (Z.ltb_ge _ _)) by (unfold MICROS in *; lia). done. }
    unfold tracks. simpl. by eexists _, _.
  - rewrite (audit_envelope _ _ _ "RENEW" (it_id i) who moment) by (done || set_solver).
    destruct (held_tracked _ _ _ _ Htr Hh Hl) as (st & x & Est & Ast & Ex & Hx').
    eapply agrees_item; try done.
    2: { rewrite Est. unfold audit_kind. rewrite decide_False, decide_True by done. unfold audit_renew.
         change (jget_none "expires_at" _) with (JStr expires). cbv beta iota. rewrite Hx.
         fold (second (moment + t * MICROS)). rewrite second_add. simpl.
         rewrite Ast, decide_True, Ex by done. rewrite (proj2 (Z.ltb_ge _ _)) by lia.
         rewrite not_in_past by lia. done. }
    unfold tracks. simpl. rewrite Hw. by eexists _, _.
  - rewrite (audit_envelope _ _ _ "RELEASE" (it_id i) who moment) by (done || set_solver).
    destruct (held_tracked _ _ _ _ Htr Hh Hl) as (st & x & Est & Ast & Ex & Hx').
    eapply agrees_item; try done.
    2: { rewrite Est. unfold audit_kind. rewrite !decide_False by done. unfold audit_release.
         change (jget_none "result" _) with (JStr res). cbv beta iota. rewrite Hres. simpl.
         rewrite Ast, decide_True by done. done. }
    unfold tracks. simpl. destruct (_is_failed_result res); simpl; right; by eexists.
Qed.

(** *** The auditor's catalog is the queue's *)
Lemma glob_json_in p l : p ∈ l → has_json_suffix p.1 = true → p ∈ glob_json l.
Proof.
  intros Hp Hs. unfold glob_json.
  assert (p ∈ List.filter (λ p, has_json_suffix p.1) l) as Hf.
  { apply list_elem_of_In, List.filter_In. by split; [apply list_elem_of_In|]. }
  assert (∀ q m, insert_path q m ≡ₚ q :: m) as Hi.
  { intros q m. induction m as [|r m IH]; simpl; [done|]. case_match; [done|]. rewrite IH. constructor. }
  revert Hf. generalize (List.filter (λ p, has_json_suffix p.1) l). intros m Hm.
  induction m as [|q m IH]; [done|]. simpl. rewrite Hi. apply elem_of_cons in Hm as [->|Hm]; [by left|right; auto].
Qed.

Lemma validated_item document schema item :
  _validate document schema = Ok item → ∃ d, document = JObj d ∧ item_of_json d = Ok item.
Proof.
  unfold _validate. destruct document as [| | | | | |d]; try done. intros Hv. exists d. split; [done|].
  apply bind_Ok in Hv as (s & _ & Hv). inv_ok. done.
Qed.

Lemma load_seed_spec schema found p found' :
  load_seed schema found p = Ok found' →
  ∃ raw d item, p.2 = Regular raw ∧ decode_json raw = Ok (JObj d) ∧ item_of_json d = Ok item
    ∧ found' = (found ++ [item])%list.
Proof.
  unfold load_seed. intros Hl. apply bind_Ok in Hl as (document & Hr & Hl).
  apply bind_Ok in Hl as (item & Hv & Hl). apply validated_item in Hv as (d & -> & Hi).
  unfold _read_json in Hr. destruct p.2 as [| | |raw|]; try done. destruct (MAX_ITEM_BYTES <? _) in Hr; [done|].
  exists raw, d, item. split_and!; try done. inv_ok. done.
Qed.

Lemma seeds_of_files schema l found items :
  foldM (load_seed schema) found l = Ok items →
  (∀ i, i ∈ found → i ∈ items) ∧ ∀ p, p ∈ l → ∃ raw d item,
    p.2 = Regular raw ∧ decode_json raw = Ok (JObj d) ∧ item_of_json d = Ok item ∧ item ∈ items.
Proof.
  revert found. induction l as [|q l IH]; intros found Hf; simpl in Hf.
  { inv_ok. split; [done|]. by intros p Hp%elem_of_nil. }
  apply bind_Ok in Hf as (found' & Hq & Hf). destruct (IH _ Hf) as [H1 H2].
  apply load_seed_spec in Hq as (raw & d & item & Hr & Hd & Hi & ->). split.
  - intros i Hin. apply H1, elem_of_app. by left.
  - intros p [->|Hp]%elem_of_cons; [|by apply H2]. exists raw, d, item. split_and!; try done.
    apply H1, elem_of_app. right. by left.
Qed.

Lemma item_of_json_catalog d item :
  item_of_json d = Ok item →
  jget "id" d = Some (JStr (it_id item)) ∧
  ∃ l, jget "files_scope" d = Some (JArr l) ∧ map py_str l = it_files_scope item.
Proof.
  unfold item_of_json. intros Hi. apply bind_Ok in Hi as (id & Hid & Hi).
  do 3 apply bind_Ok in Hi as (? & _ & Hi). apply bind_Ok in Hi as (scope & Hs & Hi). inv_ok. simpl. split.
  - unfold get_str in Hid. repeat (case_match; try done). by inv_ok.
  - unfold get_strs in Hs. destruct (jget "files_scope" d) as [[| | | | |l|]|]; try done. exists l. split; [done|].
    clear -Hs. revert scope Hs. induction l as [|x l IH]; intros scope Hs; simpl in Hs; [by inv_ok|].
    apply bind_Ok in Hs as (s & Hx & Hs). apply bind_Ok in Hs as (ss & Hl & Hs). inv_ok.
    simpl. rewrite (IH _ Hl). destruct x; try done. by inv_ok.
Qed.

Lemma catalog_agrees dir schema seeds i sc :
  _load_seeds dir schema = Ok seeds → i ∈ seeds →
  lookup_key (it_id i) (load_catalog_scopes dir) = Some sc → sc = it_files_scope i.
Proof.
  intros Hl Hi Hs. pose proof (load_seeds_unique _ _ _ Hl) as Hu. unfold _load_seeds in Hl.
  apply bind_Ok in Hl as (sch & _ & Hl). destruct dir as [l|]; [|done].
  apply bind_Ok in Hl as (found & Hf & Hl). apply bind_Ok in Hl as ([] & _ & Hl). inv_ok.
  apply seeds_of_files in Hf as [_ Hf]. simpl in Hs.
  assert (∀ m scopes, (∀ p, p ∈ m → p ∈ l) →
    (∀ k sc, lookup_key k scopes = Some sc → ∃ j, j ∈ seeds ∧ it_id j = k ∧ sc = it_files_scope j) →
    ∀ k sc, lookup_key k (foldl catalog_entry scopes m) = Some sc →
      ∃ j, j ∈ seeds ∧ it_id j = k ∧ sc = it_files_scope j) as Hfold.
  { induction m as [|p m IH]; intros scopes Hm Hk k sc' Hlk; simpl in Hlk; [by apply Hk|].
    eapply IH; [intros; apply Hm; by right| |done]. clear Hlk k sc'. intros k sc' Hlk.
    unfold catalog_entry in Hlk. destruct (is_json_file p) eqn:Ej; [|by apply Hk].
    unfold is_json_file in Ej. apply andb_true_iff in Ej as [Ej _].
    destruct (Hf p) as (raw & d & item & Hr & Hd & Hi' & Hin); [apply glob_json_in; [apply Hm; by left|done]|].
    rewrite Hr in Hlk. simpl in Hlk. rewrite Hd in Hlk.
    destruct (item_of_json_catalog _ _ Hi') as (Hid & ss & Hsc & Hss). rewrite Hid, Hsc, Hss in Hlk.
    simpl in Hlk. destruct (decide (k = it_id item)) as [->|].
    - rewrite lookup_set_eq in Hlk. simplify_eq. by exists item.
    - rewrite lookup_set_ne in Hlk by done. by apply Hk. }
  destruct (Hfold l [] ltac:(done) ltac:(done) _ _ Hs) as (j & Hj & Hid & ->).
  by rewrite (unique_id _ _ _ Hu Hj Hi Hid).
Qed.

(** *** Runs *)
Definition ledger_raw (d : Disk) : string := match dk_ledger d with Regular raw => raw | _ => "" end.

Fixpoint run_off_boundary (d : Disk) (ops : list (Z * Op)) : bool :=
  match ops with
  | [] => true
  | (moment, op) :: ops =>
      (match replay d with Ok items => off_boundaryb moment items | Err _ => true end
       && run_off_boundary (perform d moment op) ops)%bool
  end.

Lemma agrees_later scopes a items now now' : agrees scopes a items now → now ≤ now' → agrees scopes a items now'.
Proof.
  intros Ha Hn. destruct Ha as [H1 H2 H3 H4 H5 H6]. split; try done. intros p Hp. specialize (H2 p Hp). lia.
Qed.

Lemma append_ledger d e d' :
  _append d e = Ok d' → dk_ledger d' = Regular (ledger_raw d +:+ event_line e)
    ∧ byte_len (ledger_raw d') ≤ MAX_LEDGER_BYTES.
Proof.
  unfold _append, ledger_raw. intros Ha. destruct (dk_ledger d) as [|t| |raw|]; try done.
  - destruct (MAX_LEDGER_BYTES <? _) eqn:E; [done|]. apply Z.ltb_ge in E. by inv_ok.
  - destruct (MAX_LEDGER_BYTES <? _) eqn:E; [done|]. apply Z.ltb_ge in E. inv_ok. simpl. split; [done|].
    unfold byte_len in *. rewrite string_length_app. lia.
Qed.

Lemma run_agrees scopes d start ops items :
  ledger_complete d → catalog_printable d → run_fine start ops → replay d = Ok items →
  run_off_boundary d ops = true → byte_len (ledger_raw d) ≤ MAX_LEDGER_BYTES →
  agrees scopes (audit_lines scopes (ledger_raw d)) items (second start) →
  au_violations (audit_lines scopes (ledger_raw (perform_all d ops))) = []
  ∧ byte_len (ledger_raw (perform_all d ops)) ≤ MAX_LEDGER_BYTES.
Proof.
  revert d start items. induction ops as [|[m op] ops IH]; intros d start items Hc Hp Hf Hr Hb Hlen Ha.
  { split; [by eapply agrees_clean|done]. }
  destruct Hf as (Hm & Hop & Hf). cbn [perform_all run_off_boundary] in *. rewrite Hr in Hb.
  apply andb_true_iff in Hb as [Hb Hbs]. apply off_boundary_spec in Hb.
  pose proof (second_mono _ _ Hm) as Hsm.
  destruct (perform_logged _ _ _ _ Hc Hp Hop Hr) as [E|(e & its & _ & [])].
  - rewrite E in *. eapply IH; [done..|]. by apply (agrees_later _ _ _ (second start)).
  - pose proof (append_ledger _ _ _ grants_append) as [Hl Hlen'].
    eapply IH; [done|by apply perform_printable|done..|].
    unfold ledger_raw at 1. rewrite Hl, audit_lines_append; [| |by eapply logged_written|done].
    + destruct Hop. by eapply audit_logged; eauto using replay_unique.
    + unfold ledger_raw, ledger_complete in *. destruct (dk_ledger d); try (by left). done.
Qed.

(** C36: The auditor and the queue agree: a ledger written by the queue from an
    empty one, over a catalog without claims, passes the audit, for every
    sequence of calls under a clock that does not go back and hits no lease's
    last second. *)
Theorem written_ledgers_pass_audit d start ops items :
  dk_ledger d = Absent → catalog_printable d → run_fine start ops → replay d = Ok items →
  Forall (λ i, it_status i ≠ CLAIMED) items → run_off_boundary d ops = true →
  ar_valid (audit (dk_ledger (perform_all d ops)) (dk_items d)) = true.
Proof.
  intros Hd Hp Hf Hr Hn Hb.
  assert (agrees (load_catalog_scopes (dk_items d)) (audit_lines (load_catalog_scopes (dk_items d)) (ledger_raw d))
    items (second start)) as Ha.
  { unfold ledger_raw. rewrite Hd. split; try done.
    - constructor.
    - by intros k s Hx%elem_of_nil.
    - intros i Hi. rewrite Forall_forall in Hn. specialize (Hn _ Hi). unfold tracks. simpl.
      destruct (it_status i); by auto.
    - intros i sc Hi Hs. unfold replay in Hr. apply bind_Ok in Hr as (seeds & Hl & Hr). rewrite Hd in Hr.
      simpl in Hr. inv_ok. by eapply catalog_agrees. }
  destruct (run_agrees (load_catalog_scopes (dk_items d)) d start ops items) as [Hv Hlen]; try done.
  - unfold ledger_complete. by rewrite Hd.
  - unfold ledger_raw. by rewrite Hd.
  - unfold audit. destruct (exists_ _) eqn:Ee; [|done]. simpl negb. cbv iota.
    assert (dk_ledger (perform_all d ops) = Absent ∨ ∃ raw, dk_ledger (perform_all d ops) = Regular raw)
      as [E|[raw E]].
    { clear -Hd. assert (dk_ledger d = Absent ∨ ∃ raw, dk_ledger d = Regular raw) as Hl by auto. clear Hd.
      revert d Hl. induction ops as [|[m op] ops IH]; intros d Hl; [done|]. apply IH. apply perform_ledger, Hl. }
    + by rewrite E in Ee.
    + unfold ledger_raw in *. rewrite E in *. rewrite (proj2 (Z.ltb_ge _ _)) by done.
      unfold report. simpl. by rewrite Hv.
Qed.
End audit.
