(* ===== verification/Readiness.v ===== *)
(** * The resolver and the queue read one ledger

    What [dag_resolver.py] takes for completed in a ledger that
    [work_queue.py] wrote. *)

From Stdlib Require Import Ascii.
From S2P Require Import Prelude PyText AsciiText PyTime Scope Json WorkItems WorkQueue QueueLedger QueueSafety QueueSpec QueueAudit QueueAuditSpec DagResolver.

Section readiness.
Context `{PyPlatform}.

(** ** One line *)

Lemma event_text_strip e : printable_event e → py_strip (event_text e) = event_text e.
Proof.
  intros He. pose proof (event_text_printable e He) as Hp. unfold event_text in *.
  rewrite !printable_app in Hp. bool_hyps. by apply py_strip_braces.
Qed.

Definition completed_in (raw : string) : gset string := foldl read_completed ∅ (splitlines raw).

Lemma completed_append raw e :
  complete raw → printable_event e →
  completed_in (raw +:+ event_line e) = complete_line (completed_in raw) (event_text e).
Proof.
  intros Hr He. unfold completed_in, event_line.
  rewrite splitlines_append by auto using event_text_printable. rewrite foldl_app. cbn [foldl].
  unfold read_completed at 1. by rewrite event_text_strip.
Qed.

(** The class of a result's first word, by either program. *)
Definition same_class (res : string) : Prop :=
  failed_word (py_upper (py_strip res)) = _is_failed_result res.

Lemma complete_claim C id who host expires moment :
  printable_event (claim_event id who host expires moment) → id ≠ "" →
  complete_line C (event_text (claim_event id who host expires moment)) = C ∖ {[id]}.
Proof.
  intros He Hid. unfold complete_line.
  rewrite loads_event by (done || apply written_nodup; constructor).
  change (jget_none "item_id" _) with (JStr id). destruct id as [|a id]; [done|]. done.
Qed.

Lemma complete_renew C id who host expires moment :
  printable_event (renew_event id who host expires moment) →
  complete_line C (event_text (renew_event id who host expires moment)) = C.
Proof.
  intros He. unfold complete_line.
  rewrite loads_event by (done || apply written_nodup; constructor).
  change (jget_none "item_id" _) with (JStr id). by destruct id.
Qed.

Lemma py_upper_nonempty s : s ≠ "" → py_upper s ≠ "".
Proof. destruct s as [|a s]; [done|]. intros _. cbn [py_upper]. repeat case_match; done. Qed.

Lemma complete_release C id who res moment :
  printable_event (release_event id who res moment) → id ≠ "" → res ≠ "" → py_strip res = res → same_class res →
  complete_line C (event_text (release_event id who res moment))
  = if _is_failed_result res then C ∖ {[id]} else {[id]} ∪ C.
Proof.
  intros He Hid Hne Hst Hc. unfold complete_line.
  rewrite loads_event by (done || apply written_nodup; constructor).
  change (jget_none "item_id" _) with (JStr id). destruct id as [|a id]; [done|].
  change (jget_none "status" _) with JNull. change (jget_none "type" _) with (JStr "RELEASE").
  change (jget_none "result" _) with (JStr res). cbv zeta.
  change (py_eq JNull (JStr "DONE")) with false. change (py_eq (JStr "RELEASE") (JStr "RELEASE")) with true.
  cbv iota. change (py_str (JStr res)) with res.
  replace (py_truthy (JStr res)) with true by (simpl; by rewrite bool_decide_false).
  rewrite <- Hc, Hst. rewrite bool_decide_false by (by apply py_upper_nonempty).
  by destruct (failed_word _).
Qed.

(** ** Whole ledgers *)

(** [C] are the items the queue calls done. *)
Definition done_items (items : list Item) (C : gset string) : Prop :=
  ∀ id, id ∈ C ↔ ∃ i, i ∈ items ∧ it_id i = id ∧ it_status i = DONE.

Lemma done_update items C i i' :
  unique_ids items → i ∈ items → it_id i' = it_id i → done_items items C →
  done_items (update_item (it_id i) (λ _, i') items)
    (if decide (it_status i' = DONE) then {[it_id i]} ∪ C else C ∖ {[it_id i]}).
Proof.
  intros Hu Hi Hid HC id. specialize (HC id).
  assert ((∃ k, k ∈ update_item (it_id i) (λ _, i') items ∧ it_id k = id ∧ it_status k = DONE)
    ↔ if decide (id = it_id i) then it_status i' = DONE else id ∈ C) as ->.
  { setoid_rewrite in_update. case_decide as E.
    - split.
      + intros (k & [(x & _ & _ & ->)|[_ Hn]] & Ek & Hs); [done|]. by rewrite E in Ek.
      + intros Hs. exists i'. split_and!; [left; by exists i|congruence|done].
    - rewrite HC. split.
      + intros (k & [(x & _ & _ & ->)|[Hk _]] & Ek & Hs); [|by exists k]. exfalso. apply E. congruence.
      + intros (k & Hk & Ek & Hs). exists k. split_and!; [right; split; [done|congruence]|done..]. }
  case_decide as E; case_decide as E'.
  - subst. set_solver.
  - set_solver.
  - subst. split; [set_solver|done].
  - set_solver.
Qed.

Lemma done_same items C i : i ∈ items → unique_ids items → it_status i ≠ DONE → done_items items C → it_id i ∉ C.
Proof.
  intros Hi Hu Hs HC (k & Hk & Ek & Hd)%HC. by rewrite (unique_id _ _ _ Hu Hk Hi Ek) in Hd.
Qed.

(** [C] are the items the queue calls done, but those of [D], that were done
    in the catalog. *)
Definition done_beside (D : gset string) (items : list Item) (C : gset string) : Prop :=
  done_items items (C ∪ D) ∧ C ## D.

Lemma beside_update D items C i i' :
  unique_ids items → i ∈ items → it_status i ≠ DONE → it_id i' = it_id i → done_beside D items C →
  done_beside D (update_item (it_id i) (λ _, i') items)
    (if decide (it_status i' = DONE) then {[it_id i]} ∪ C else C ∖ {[it_id i]}).
Proof.
  intros Hu Hi Hs Hid [HC HD]. pose proof (done_same _ _ _ Hi Hu Hs HC) as Hn.
  pose proof (done_update _ _ _ _ Hu Hi Hid HC) as Hd. unfold done_beside. case_decide.
  - split; [|set_solver]. by rewrite <- (assoc_L (∪)).
  - split; [|set_solver]. by replace (C ∖ {[it_id i]} ∪ D) with ((C ∪ D) ∖ {[it_id i]}) by set_solver.
Qed.

(** The releases of a run: both programs class their texts alike. *)
Definition classed_alike (op : Op) : Prop :=
  match op with ORelease _ _ (JStr r) => same_class (py_strip r) | _ => True end.

Lemma token_nonempty s : _event_token (JStr s) = Some s → s ≠ "".
Proof. intros Ht ->. by vm_compute in Ht. Qed.

Lemma result_nonempty res : result_bad res = false → py_strip res = res → res ≠ "".
Proof.
  unfold result_bad. intros Hb Hs ->. rewrite Hs in Hb. by rewrite bool_decide_true in Hb.
Qed.

Lemma held_claimed i moment : _held i moment = true → it_status i ≠ DONE.
Proof. intros [Hst _]%held_lease. by rewrite Hst. Qed.

Lemma logged_completed D who moment items e items' op C :
  classed_alike op → writes op moment e → logged who moment items e items' → printable_event e →
  unique_ids items → done_beside D items C → done_beside D items' (complete_line C (event_text e)).
Proof.
  intros Hop Hw Hl He Hu HC. destruct Hl as
    [i host t expires Hi Hh Hcl Hfree Htok Hhost Ht Hp|i lease t expires Hi Hh Hlease Hwho Htok Ht Hp
    |i lease res Hi Hh Hlease Hwho Htok Hb Hs].
  - rewrite complete_claim by eauto using token_nonempty.
    assert (it_status i ≠ DONE) as Hst.
    { intros E. unfold closed in Hcl. apply bool_decide_eq_false in Hcl. by apply Hcl; left. }
    pose proof (beside_update D items C i (with_lease i CLAIMED (Some (MkLease who host expires))) Hu Hi Hst eq_refl HC) as Hd.
    by rewrite decide_False in Hd by done.
  - rewrite complete_renew by done. pose proof (held_claimed _ _ Hh) as Hst.
    pose proof (beside_update D items C i (with_lease i CLAIMED (Some (MkLease who (l_host lease) expires))) Hu Hi Hst eq_refl HC) as Hd.
    rewrite decide_False in Hd by done. destruct HC as [HC _]. pose proof (done_same _ _ _ Hi Hu Hst HC).
    by replace (C ∖ {[it_id i]}) with C in Hd by set_solver.
  - assert (same_class res) as Hsame.
    { unfold writes in Hw. destruct op as [[]|[]|[| | | |id| |] holder [| | | |r| |]]; try done; try (by destruct Hw as (? & ? & [=])).
      simpl in Hw, Hop. injection Hw as _ _ E. by rewrite E. }
    rewrite complete_release by eauto using token_nonempty, result_nonempty.
    pose proof (beside_update D items C i (with_state i (if _is_failed_result res then BLOCKED else DONE) None
      (Some res) (Some who)) Hu Hi (held_claimed _ _ Hh) eq_refl HC) as Hd.
    cbn [it_status with_state] in Hd. destruct (_is_failed_result res).
    + by rewrite decide_False in Hd by done.
    + by rewrite decide_True in Hd by done.
Qed.

(** The ledger file as the resolver finds it. *)
Definition ledger_text (d : Disk) : option string :=
  match dk_ledger d with Regular raw => Some raw | _ => None end.

(** The ledger is a text file or not there, and its completed items are the
    done ones. *)
Definition in_agreement (D : gset string) (d : Disk) (items : list Item) : Prop :=
  (dk_ledger d = Absent ∨ ∃ raw, dk_ledger d = Regular raw) ∧ is_ascii (ledger_raw d) = true
  ∧ done_beside D items (completed_in (ledger_raw d)).

Lemma perform_in_agreement D d moment op items :
  ledger_complete d → catalog_printable d → op_fine moment op → replay d = Ok items →
  classed_alike op → in_agreement D d items →
  ∃ items', replay (perform d moment op) = Ok items' ∧ ledger_complete (perform d moment op)
    ∧ in_agreement D (perform d moment op) items'.
Proof.
  intros Hc Hp Hop Hr Hal (Hfile & Hasc & HC). pose proof (perform_ledger d moment op Hfile) as Hfile'.
  destruct (perform_logged _ _ _ _ Hc Hp Hop Hr) as [E|(e & its & Hw & [Htok Hl He Ha Hr' Hc'])].
  { exists items. by rewrite E in *. }
  exists its. split_and!; [done..|]. apply append_ledger in Ha as [Hdk _].
  assert (ledger_raw (perform d moment op) = ledger_raw d +:+ event_line e) as Eraw
    by (unfold ledger_raw at 1; by rewrite Hdk).
  split_and!; [done| |]; rewrite Eraw.
  - unfold event_line. rewrite !is_ascii_app, Hasc.
    by rewrite (printable_ascii (event_text e)) by (by apply event_text_printable).
  - rewrite completed_append; [|by unfold ledger_raw, ledger_complete, complete in *; destruct (dk_ledger d); auto|done].
    eapply logged_completed; eauto using replay_unique.
Qed.

Lemma run_in_agreement D d start ops items :
  ledger_complete d → catalog_printable d → run_fine start ops → replay d = Ok items →
  Forall (λ o, classed_alike o.2) ops → in_agreement D d items →
  ∃ items', replay (perform_all d ops) = Ok items' ∧ in_agreement D (perform_all d ops) items'.
Proof.
  intros Hc Hp Hf Hr Hal. revert d start items Hc Hp Hf Hr.
  induction Hal as [|[m op] ops Hop Hal IH]; intros d start items Hc Hp Hf Hr Ha; [by exists items|].
  destruct Hf as (_ & Hfine & Hf). cbn [perform_all].
  destruct (perform_in_agreement D _ _ _ _ Hc Hp Hfine Hr Hop Ha) as (its & Hr' & Hc' & Ha').
  eapply IH; eauto using perform_printable.
Qed.

Lemma deps_met_done deps items C :
  unique_ids items → done_items items C →
  deps_met deps items [] [] = true ↔ missing C deps = [].
Proof.
  intros Hu HC. unfold missing. induction deps as [|dep deps IH]; [done|]. cbn [deps_met List.filter].
  rewrite (bool_decide_false (dep ∈ [])) by apply not_elem_of_nil.
  assert (dep ∈ C ↔ ∃ i, find_item dep items = Some i ∧ it_status i = DONE) as Hdep.
  { rewrite (HC dep). split.
    - intros (i & Hi & Hid & Hs). unfold find_item. destruct (List.find _ items) as [j|] eqn:Ef.
      + pose proof (find_item_spec _ _ _ Ef) as [Hj Ej]. exists j. split; [done|].
        by rewrite (unique_id _ _ _ Hu Hj Hi ltac:(congruence)).
      + apply list_elem_of_In in Hi. pose proof (List.find_none _ _ Ef i Hi) as Hn.
        simpl in Hn. by rewrite bool_decide_true in Hn.
    - intros (i & Hf & Hs). apply find_item_spec in Hf as [Hi Hid]. by exists i. }
  destruct (find_item dep items) as [i|].
  - case_decide as Es.
    + rewrite bool_decide_true by (apply Hdep; eauto). exact IH.
    + rewrite bool_decide_false by (intros (j & [= <-] & ?)%Hdep; done). split; done.
  - rewrite (bool_decide_false (dep ∈ C)) by (intros (j & [=] & _)%Hdep). split; done.
Qed.

(** Done in the catalog. *)
Definition done_in (items : list Item) (id : string) : Prop := ∃ i, i ∈ items ∧ it_id i = id ∧ it_status i = DONE.

Lemma missing_beside D C deps : missing C deps = [] ↔ missing (C ∪ D) deps = [] ∧ Forall (λ dep, dep ∈ D → dep ∈ C) deps.
Proof.
  unfold missing. induction deps as [|dep deps IH]; [done|]. cbn [List.filter].
  destruct (decide (dep ∈ C)); destruct (decide (dep ∈ D));
    repeat (rewrite bool_decide_true by set_solver); repeat (rewrite bool_decide_false by set_solver);
    cbn; rewrite ?Forall_cons, ?IH; naive_solver.
Qed.

(** C28: the resolver and the queue agree about one ledger: after any sequence of
    queue calls from an empty ledger, in which every release text is a failure
    for both programs or for neither, the resolver reads the ledger without an
    exception, takes for completed exactly the items the queue calls DONE and
    did not find DONE in the catalog, and finds an entry of any dependency
    graph eligible exactly when the queue finds its dependencies met and none
    of them was done in the catalog. *)
Theorem readiness_follows_the_queue d start ops items :
  dk_ledger d = Absent → catalog_printable d → run_fine start ops → replay d = Ok items →
  Forall (λ o, classed_alike o.2) ops →
  ∃ items' C, replay (perform_all d ops) = Ok items'
    ∧ _load_completed_from_ledger (ledger_text (perform_all d ops)) = Ok C
    ∧ (∀ id, id ∈ C ↔ done_in items' id ∧ ¬ done_in items id)
    ∧ ∀ g id, id ∈ eligible_items (evaluate_readiness g C)
        ↔ ∃ deps, (id, deps) ∈ g ∧ deps_met deps items' [] [] = true ∧ Forall (λ dep, ¬ done_in items dep) deps.
Proof.
  intros Hd Hp Hf Hr Hal.
  set (D := list_to_set (map it_id (filter (λ i, it_status i = DONE) items)) : gset string).
  assert (∀ id, id ∈ D ↔ done_in items id) as HD.
  { intros id. unfold D, done_in. rewrite elem_of_list_to_set, list_elem_of_fmap.
    setoid_rewrite list_elem_of_filter. naive_solver. }
  destruct (run_in_agreement D d start ops items) as (items' & Hr' & Hfile & Hasc & HC & Hdis); try done.
  - unfold ledger_complete. by rewrite Hd.
  - split; [by left|]. unfold ledger_raw. rewrite Hd. split; [done|]. split; [|set_solver].
    intros id. rewrite <- (HD id). unfold completed_in. set_solver.
  - exists items', (completed_in (ledger_raw (perform_all d ops))). split_and!; [done| | |].
    + unfold ledger_text, ledger_raw in *. destruct Hfile as [E|[raw E]]; rewrite E in *; [done|].
      simpl. by rewrite ascii_utf8.
    + intros id. rewrite <- HD. specialize (HC id). fold (done_in items' id) in HC. rewrite <- HC. set_solver.
    + intros g id. unfold evaluate_readiness, sorted. cbn [eligible_items].
      rewrite merge_sort_Permutation, list_elem_of_fmap, (filter_bool (λ e, missing (completed_in _) e.2 = [])).
      setoid_rewrite list_elem_of_filter. setoid_rewrite (missing_beside D).
      setoid_rewrite <- (deps_met_done _ _ _ (replay_unique _ _ Hr') HC).
      assert (∀ deps, Forall (λ dep, dep ∈ D → dep ∈ completed_in (ledger_raw (perform_all d ops))) deps
                      ↔ Forall (λ dep, ¬ done_in items dep) deps) as HF.
      { intros deps. apply Forall_proper; [|done]. intros dep. rewrite <- HD. set_solver. }
      setoid_rewrite HF. split.
      * intros ([k deps] & -> & [Hm Hn] & Hk). by exists deps.
      * intros (deps & Hk & Hm & Hn). by exists (id, deps).
Qed.

End readiness.
