(* ===== verification/Sha256.v ===== *)
(** * SHA-256

    [hashlib.sha256(data).hexdigest()] (FIPS 180-4), executable, so that the
    hash chain and the projection fingerprint compute.  Nothing is assumed of
    it: a theorem that would need collision resistance exhibits the collision
    instead. *)

From Stdlib Require Import Ascii.
From S2P Require Import Prelude PyText.

Definition word (z : Z) : Z := z mod 4294967296.
Definition rotr (n x : Z) : Z := Z.lor (Z.shiftr x n) (word (Z.shiftl x (32 - n))).

Definition round_constants : list Z :=
  [1116352408; 1899447441; 3049323471; 3921009573; 961987163; 1508970993;
   2453635748; 2870763221; 3624381080; 310598401; 607225278; 1426881987;
   1925078388; 2162078206; 2614888103; 3248222580; 3835390401; 4022224774;
   264347078; 604807628; 770255983; 1249150122; 1555081692; 1996064986;
   2554220882; 2821834349; 2952996808; 3210313671; 3336571891; 3584528711;
   113926993; 338241895; 666307205; 773529912; 1294757372; 1396182291;
   1695183700; 1986661051; 2177026350; 2456956037; 2730485921; 2820302411;
   3259730800; 3345764771; 3516065817; 3600352804; 4094571909; 275423344;
   430227734; 506948616; 659060556; 883997877; 958139571; 1322822218;
   1537002063; 1747873779; 1955562222; 2024104815; 2227730452; 2361852424;
   2428436474; 2756734187; 3204031479; 3329325298].

Definition initial_hash : list Z :=
  [1779033703; 3144134277; 1013904242; 2773480762; 1359893119; 2600822924;
   528734635; 1541459225].

Definition big_endian (width : nat) (z : Z) : list Z :=
  (fix go (w : nat) (z : Z) (acc : list Z) := match w with
   | O => acc
   | S w => go w (z / 256) (z mod 256 :: acc)
   end) width z [].

(** The message, a byte 128, zeros, and the bit length in eight bytes. *)
Definition pad (bytes : list Z) : list Z :=
  let n := Z.of_nat (length bytes) in
  (bytes ++ 128 :: replicate (Z.to_nat ((55 - n) mod 64)) 0 ++ big_endian 8 (8 * n))%list.

Fixpoint words_of (bytes : list Z) : list Z :=
  match bytes with
  | a :: b :: c :: d :: r => (((a * 256 + b) * 256 + c) * 256 + d) :: words_of r
  | _ => []
  end.

(** The message schedule, newest word first. *)
Fixpoint schedule (n : nat) (rev_w : list Z) : list Z :=
  match n with
  | O => rev_w
  | S n =>
      let w i := nth (i - 1)%nat rev_w 0 in
      let s0 := Z.lxor (Z.lxor (rotr 7 (w 15%nat)) (rotr 18 (w 15%nat))) (Z.shiftr (w 15%nat) 3) in
      let s1 := Z.lxor (Z.lxor (rotr 17 (w 2%nat)) (rotr 19 (w 2%nat))) (Z.shiftr (w 2%nat) 10) in
      schedule n (word (w 16%nat + s0 + w 7%nat + s1) :: rev_w)
  end.

Definition round (st : list Z) (kw : Z * Z) : list Z :=
  match st with
  | [a; b; c; d; e; f; g; h] =>
      let s1 := Z.lxor (Z.lxor (rotr 6 e) (rotr 11 e)) (rotr 25 e) in
      let ch := Z.lxor (Z.land e f) (Z.land (4294967295 - e) g) in
      let t1 := word (h + s1 + ch + kw.1 + kw.2) in
      let s0 := Z.lxor (Z.lxor (rotr 2 a) (rotr 13 a)) (rotr 22 a) in
      let maj := Z.lxor (Z.lxor (Z.land a b) (Z.land a c)) (Z.land b c) in
      [word (t1 + s0 + maj); a; b; c; word (d + t1); e; f; g]
  | _ => st
  end.

Definition compress (st : list Z) (block : list Z) : list Z :=
  let w := rev (schedule 48 (rev block)) in
  zip_with (λ x y, word (x + y)) st (foldl round st (zip round_constants w)).

(** One compression per block of sixteen words; the fuel is the word count. *)
Fixpoint hash_blocks (fuel : nat) (st : list Z) (ws : list Z) : list Z :=
  match fuel, ws with
  | S fuel, _ :: _ => hash_blocks fuel (compress st (take 16 ws)) (drop 16 ws)
  | _, _ => st
  end.

Definition hex_of_bytes (l : list Z) : string :=
  foldr (λ b acc, String (hex_digit (b / 16)) (String (hex_digit (b mod 16)) acc)) "" l.

Definition sha256_hex (data : list ascii) : string :=
  let ws := words_of (pad (map code data)) in
  hex_of_bytes (mjoin (map (big_endian 4) (hash_blocks (length ws) initial_hash ws))).

Example sha256_abc :
  sha256_hex (String.list_ascii_of_string "abc")
  = "ba7816bf8f01cfea414140de5dae2223b00361a396177a9cb410ff61f20015ad".
Proof. vm_compute. reflexivity. Qed.

Example sha256_two_blocks :
  sha256_hex (String.list_ascii_of_string "abcdbcdecdefdefgefghfghighijhijkijkljklmklmnlmnomnopnopq")
  = "248d6a61d20638b8e5c026930c3e6039a33ce45964ff2167f6ecedd419db06c1".
Proof. vm_compute. reflexivity. Qed.
