(* ===== verification/DeltaPatcher.v ===== *)
(** * Incremental artifact patches ([delta_patcher.py])

    A patch describes a target file by copies of parts of a base file and by
    inserted bytes.  The files are those of [Files], by their resolved paths;
    directories are not modelled. *)

From Stdlib Require Import Ascii.
From S2P Require Import Prelude PyText AsciiText Json Sha256 PyBytes.

(** ** Base 64

    [base64.b64encode] and [base64.b64decode] without [validate], as
    [binascii] does it: characters that are none of the alphabet are skipped,
    and what follows a complete group with padding is not read. *)

Definition b64_char (v : Z) : ascii :=
  ascii_of_N (Z.to_N (if v <? 26 then 65 + v else if v <? 52 then 71 + v else if v <? 62 then v - 4
                      else if v =? 62 then 43 else 47)).

Definition b64_value (a : ascii) : option Z :=
  let c := code a in
  if (65 <=? c) && (c <=? 90) then Some (c - 65)
  else if (97 <=? c) && (c <=? 122) then Some (c - 71)
  else if (48 <=? c) && (c <=? 57) then Some (c + 4)
  else if c =? 43 then Some 62
  else if c =? 47 then Some 63
  else None.

Definition pad_char : ascii := "=".

Fixpoint b64_encode (l : list ascii) : list ascii :=
  match l with
  | [] => []
  | [x] => [b64_char (code x / 4); b64_char (code x mod 4 * 16); pad_char; pad_char]
  | [x; y] =>
      [b64_char (code x / 4); b64_char (code x mod 4 * 16 + code y / 16); b64_char (code y mod 16 * 4); pad_char]
  | x :: y :: z :: l =>
      b64_char (code x / 4) :: b64_char (code x mod 4 * 16 + code y / 16)
        :: b64_char (code y mod 16 * 4 + code z / 64) :: b64_char (code z mod 64) :: b64_encode l
  end.

(** The place in a group of four, the bits left over, and the padding seen. *)
Fixpoint b64_scan (quad left pads : Z) (l : list ascii) : result (list ascii) :=
  match l with
  | [] => if quad =? 0 then Ok [] else raise ValueError "Incorrect padding"
  | a :: l =>
      if Ascii.eqb a pad_char then
        if quad <? 2 then b64_scan quad left pads l
        else if 4 <=? quad + (pads + 1) then Ok [] else b64_scan quad left (pads + 1) l
      else
        match b64_value a with
        | None => b64_scan quad left pads l
        | Some v =>
            let byte z := ascii_of_N (Z.to_N z) in
            if quad =? 0 then b64_scan 1 v 0 l
            else if quad =? 1 then cons (byte (left * 4 + v / 16)) <$> b64_scan 2 (v mod 16) 0 l
            else if quad =? 2 then cons (byte (left * 16 + v / 4)) <$> b64_scan 3 (v mod 4) 0 l
            else cons (byte (left * 64 + v)) <$> b64_scan 0 0 0 l
        end
  end.

Definition b64decode (j : json) : result (list ascii) :=
  match j with
  | JStr s =>
      if is_ascii s then b64_scan 0 0 0 (String.list_ascii_of_string s)
      else raise ValueError "string argument should contain only ASCII characters"
  | _ => raise TypeError "argument should be a bytes-like object or ASCII string"
  end.

(** ** Patches *)

Record DeltaPatch := mkPatch {
  dp_base_sha256 : string;
  dp_base_size : Z;
  dp_target_sha256 : string;
  dp_target_size : Z;
  dp_chunk_size : Z;
  dp_operations : list json;
}.

Definition to_dict (p : DeltaPatch) : json := JObj [
  ("base_sha256", JStr (dp_base_sha256 p)); ("base_size", JInt (dp_base_size p));
  ("target_sha256", JStr (dp_target_sha256 p)); ("target_size", JInt (dp_target_size p));
  ("chunk_size", JInt (dp_chunk_size p)); ("operations", JArr (dp_operations p))].

Section patches.

(** [int] of a value; the source relies on integers being left as they are. *)
Context `{PyPlatform} (py_int : json → result Z).

(** [value[key]] *)
Definition item (k : string) (j : json) : result json :=
  match j with
  | JObj kvs => of_option (Exn KeyError k) (jget k kvs)
  | _ => raise TypeError "indices must be integers"
  end.

(** [list(value)] *)
Definition py_list (j : json) : result (list json) :=
  match j with
  | JArr l => Ok l
  | JObj kvs => Ok (map (λ kv, JStr kv.1) kvs)
  | JStr s => Ok (map JStr (chars s))
  | _ => raise TypeError "object is not iterable"
  end.

Definition from_dict (data : json) : result DeltaPatch :=
  base_sha256 ← item "base_sha256" data;
  base_size ← item "base_size" data ≫= py_int;
  target_sha256 ← item "target_sha256" data;
  target_size ← item "target_size" data ≫= py_int;
  chunk_size ← py_int (match data with JObj kvs => default (JInt 64) (jget "chunk_size" kvs) | _ => JNull end);
  operations ← item "operations" data ≫= py_list;
  mret (mkPatch (py_str base_sha256) base_size (py_str target_sha256) target_size chunk_size operations).

(** ** Making a patch *)

Definition copy_op (offset length : Z) : json :=
  JObj [("type", JStr "COPY"); ("offset", JInt offset); ("length", JInt length)].
Definition insert_op (data : list ascii) : json :=
  JObj [("type", JStr "INSERT"); ("data_b64", JStr (String.string_of_list_ascii (b64_encode data)))].

(** The attribute [chunk_size] the constructor sets. *)
Definition clamp_chunk (chunk_size : Z) : Z := Z.max 8 chunk_size.

Section create.
Context (chunk_size : Z) (base target : list ascii).

(** [range(0, base_size - chunk_size + 1, step)] *)
Definition chunk_offsets : list Z :=
  let step := Z.max 1 (chunk_size / 2) in
  let stop := blen base - chunk_size + 1 in
  map (λ k, Z.of_nat k * step) (seq 0 (Z.to_nat ((stop + step - 1) / step))).

Definition chunk_index : gmap (list ascii) Z :=
  if chunk_size <=? blen base then
    foldl (λ index i,
      let chunk := slice i (i + chunk_size) base in
      match index !! chunk with Some _ => index | None => <[chunk := i]> index end) ∅ chunk_offsets
  else ∅.

(** How far two texts agree. *)
Fixpoint agree (a b : list ascii) : Z :=
  match a, b with
  | x :: a, y :: b => if Ascii.eqb x y then 1 + agree a b else 0
  | _, _ => 0
  end.

Definition flush_insert (pending : list ascii) (operations : list json) : list json :=
  match pending with [] => operations | _ => operations ++ [insert_op pending] end.

(** The loop over the target, with fuel; [None] when it was not enough. *)
Fixpoint scan (fuel : nat) (index : gmap (list ascii) Z) (pos : Z) (pending : list ascii) (operations : list json)
    : option (list json) :=
  if blen target <=? pos then Some (flush_insert pending operations)
  else
    match fuel with
    | O => None
    | S fuel =>
        let block := slice pos (pos + chunk_size) target in
        match (if blen block =? chunk_size then index !! block else None) with
        | Some base_offset =>
            let match_len := chunk_size + agree (drop (Z.to_nat (pos + chunk_size)) target)
                                                (drop (Z.to_nat (base_offset + chunk_size)) base) in
            scan fuel index (pos + match_len) []
              (flush_insert pending operations ++ [copy_op base_offset match_len])
        | None => scan fuel index (pos + 1) (pending ++ slice pos (pos + 1) target) operations
        end
    end.

Definition operations_for : option (list json) :=
  if bool_decide (base = target) then
    Some (if 0 <? blen base then [copy_op 0 (blen base)] else [])
  else scan (length target) chunk_index 0 [] [].

End create.

Notation Files := (gmap string (list ascii)).

Definition read_file (path missing : string) (fs : Files) : result (list ascii) :=
  of_option (Exn FileNotFoundError missing) (fs !! path).

(** [create_patch] of a patcher with the given [chunk_size]; [None] when the
    loop has not ended after as many turns as the target has bytes. *)
Definition create_patch (chunk_size : Z) (base_file target_file : string) (fs : Files) : option (result DeltaPatch) :=
  match (base ← read_file base_file "Base file not found" fs;
         target ← read_file target_file "Target file not found" fs; mret (base, target)) with
  | Err e => Some (Err e)
  | Ok (base, target) =>
      operations ← operations_for chunk_size base target;
      Some (Ok (mkPatch (sha256_hex base) (blen base) (sha256_hex target) (blen target) chunk_size operations))
  end.

(** ** Applying a patch *)

Definition apply_op (base : list ascii) (op : json) : result (list ascii) :=
  kind ← match op with
         | JObj kvs => Ok (jget_none "type" kvs)
         | _ => raise AttributeError "get"
         end;
  match kind with
  | JStr "COPY" =>
      offset ← item "offset" op ≫= py_int;
      length ← item "length" op ≫= py_int;
      mret (slice offset (offset + length) base)
  | JStr "INSERT" => item "data_b64" op ≫= b64decode
  | _ => raise InvalidPatchError "Unsupported patch operation"
  end.

(** What is written to the temporary file, and how the loop ends. *)
Fixpoint write_ops (base : list ascii) (ops : list json) (written : list ascii) : result unit * list ascii :=
  match ops with
  | [] => (Ok tt, written)
  | op :: ops =>
      match apply_op base op with
      | Ok data => write_ops base ops (written ++ data)
      | Err e => (Err e, written)
      end
  end.

(** [apply_patch], where [mkstemp] makes the file [temp_path]. *)
Definition apply_patch (temp_path base_file : string) (patch : DeltaPatch) (target_file : string) (fs : Files)
    : result string * Files :=
  match read_file base_file "Base file not found" fs with
  | Err e => (Err e, fs)
  | Ok base =>
      if negb (bool_decide (sha256_hex base = dp_base_sha256 patch))
      then (raise BaseFileMismatchError "Base file mismatch", fs)
      else
        let '(r, written) := write_ops base (dp_operations patch) [] in
        let fs := <[temp_path := written]> fs in
        let failed e := (Err e, delete temp_path fs) in
        match r with
        | Err e => failed e
        | Ok _ =>
            if negb (bool_decide (sha256_hex written = dp_target_sha256 patch))
            then failed (Exn TargetCorruptError "Reconstructed target mismatch")
            else (Ok target_file, <[target_file := written]> (delete temp_path fs))
        end
  end.

(** ** Base 64 is read back *)

Lemma b64_digit v : 0 ≤ v < 64 → b64_value (b64_char v) = Some v ∧ Ascii.eqb (b64_char v) pad_char = false.
Proof.
  intros Hv. assert (v ∈ map Z.of_nat (seq 0 64)) as Hin.
  { apply list_elem_of_In, in_map_iff. exists (Z.to_nat v). rewrite in_seq. lia. }
  clear Hv. revert v Hin. apply Forall_forall. by repeat constructor.
Qed.

Lemma byte_of a z : z = code a → ascii_of_N (Z.to_N z) = a.
Proof. intros ->. unfold code. by rewrite N2Z.id, ascii_N_embedding. Qed.

Lemma code_range a : 0 ≤ code a < 256.
Proof. unfold code. pose proof (N_ascii_bounded a). lia. Qed.

Lemma scan_digit quad left pads v l :
  0 ≤ v < 64 → b64_scan quad left pads (b64_char v :: l) =
    let byte z := ascii_of_N (Z.to_N z) in
    if quad =? 0 then b64_scan 1 v 0 l
    else if quad =? 1 then cons (byte (left * 4 + v / 16)) <$> b64_scan 2 (v mod 16) 0 l
    else if quad =? 2 then cons (byte (left * 16 + v / 4)) <$> b64_scan 3 (v mod 4) 0 l
    else cons (byte (left * 64 + v)) <$> b64_scan 0 0 0 l.
Proof. intros Hv. cbn [b64_scan]. by destruct (b64_digit v Hv) as [-> ->]. Qed.

Ltac digits := Z.to_euclidean_division_equations; lia.

(** Induction on groups of three. *)
Lemma groups_ind (P : list ascii → Prop) :
  P [] → (∀ x, P [x]) → (∀ x y, P [x; y]) → (∀ x y z l, P l → P (x :: y :: z :: l)) → ∀ l, P l.
Proof.
  intros H0 H1 H2 H3. assert (∀ n l, (length l ≤ n)%nat → P l) as Hn; [|intros l; by apply (Hn (length l))].
  induction n as [|n IH]; intros [|x [|y [|z l]]] Hl; auto; simpl in Hl; [lia..|]. apply H3, IH. lia.
Qed.

Lemma b64_round l : b64_scan 0 0 0 (b64_encode l) = Ok l.
Proof.
  induction l as [|x|x y|x y z l IH] using groups_ind; [done|..]; pose proof (code_range x);
    try pose proof (code_range y); try pose proof (code_range z); cbn [b64_encode].
  - rewrite !scan_digit by digits. simpl. by rewrite (byte_of x) by digits.
  - rewrite !scan_digit by digits. simpl. by rewrite (byte_of x), (byte_of y) by digits.
  - rewrite !scan_digit by digits. simpl. rewrite IH. simpl.
    by rewrite (byte_of x), (byte_of y), (byte_of z) by digits.
Qed.

Lemma b64_ascii l : is_ascii (String.string_of_list_ascii (b64_encode l)) = true.
Proof.
  assert (∀ v, 0 ≤ v < 64 → code (b64_char v) <? 128 = true) as Hd.
  { intros v Hv. destruct (b64_digit v Hv) as [Hb _]. unfold b64_value in Hb.
    repeat case_match; simplify_eq; bool_hyps; lia. }
  unfold is_ascii. rewrite String.list_ascii_of_string_of_list_ascii.
  induction l as [|x|x y|x y z l IH] using groups_ind; [done|..]; pose proof (code_range x);
    try pose proof (code_range y); try pose proof (code_range z); cbn [b64_encode forallb];
    rewrite !Hd by digits; [done|done|]. by rewrite IH.
Qed.

Lemma b64decode_encode l : b64decode (JStr (String.string_of_list_ascii (b64_encode l))) = Ok l.
Proof. unfold b64decode. rewrite b64_ascii, String.list_ascii_of_string_of_list_ascii. apply b64_round. Qed.

(** ** A patch rebuilds its target *)

Context (int_kept : ∀ n, py_int (JInt n) = Ok n).

Definition builds (base : list ascii) (ops : list json) (data : list ascii) : Prop :=
  ∀ written, write_ops base ops written = (Ok tt, written ++ data).

Lemma builds_nil base : builds base [] [].
Proof. intros w. by rewrite app_nil_r. Qed.

Lemma write_ops_app base ops1 ops2 w :
  write_ops base (ops1 ++ ops2) w =
  match write_ops base ops1 w with (Ok _, w) => write_ops base ops2 w | x => x end.
Proof. revert w. induction ops1 as [|op ops IH]; intros w; simpl; [done|]. destruct (apply_op base op); [apply IH|done]. Qed.

Lemma builds_app base ops1 ops2 d1 d2 :
  builds base ops1 d1 → builds base ops2 d2 → builds base (ops1 ++ ops2) (d1 ++ d2).
Proof. intros H1 H2 w. by rewrite write_ops_app, H1, H2, app_assoc. Qed.

Lemma builds_copy base offset length : builds base [copy_op offset length] (slice offset (offset + length) base).
Proof. intros w. simpl. unfold apply_op, item. simpl. by rewrite !int_kept. Qed.

Lemma builds_insert base data : builds base [insert_op data] data.
Proof.
  intros w. change (match b64decode (JStr (String.string_of_list_ascii (b64_encode data))) with
                    | Ok d => (Ok tt, w ++ d) | Err e => (Err e, w) end = (Ok tt, w ++ data)).
  by rewrite b64decode_encode.
Qed.

Lemma builds_flush base ops d pending : builds base ops d → builds base (flush_insert pending ops) (d ++ pending).
Proof.
  intros Hb. destruct pending as [|a l]; [by rewrite app_nil_r|]. apply builds_app; [done|apply builds_insert].
Qed.

Lemma agree_spec a b : 0 ≤ agree a b ≤ blen a ∧ agree a b ≤ blen b ∧ take (Z.to_nat (agree a b)) a = take (Z.to_nat (agree a b)) b.
Proof.
  unfold blen. revert b. induction a as [|x a IH]; intros [|y b]; simpl; try (split_and!; done || lia).
  destruct (Ascii.eqb_spec x y) as [->|]; [|split_and!; done || lia]. destruct (IH b) as (? & ? & E).
  rewrite Z2Nat.inj_add by lia. change (Z.to_nat 1) with 1%nat. simpl. split_and!; [lia..|]. by rewrite E.
Qed.

Section scanning.
Context (chunk_size : Z) (base target : list ascii) (Hchunk : 0 < chunk_size).

Definition indexed (index : gmap (list ascii) Z) : Prop :=
  ∀ chunk o, index !! chunk = Some o → 0 ≤ o ∧ o + chunk_size ≤ blen base ∧ slice o (o + chunk_size) base = chunk.

Lemma offsets_in_range : Forall (λ o, 0 ≤ o ∧ o + chunk_size ≤ blen base) (chunk_offsets chunk_size base).
Proof.
  apply Forall_map, Forall_forall. intros k Hk%list_elem_of_In%in_seq. set (step := Z.max 1 _) in *. assert (0 < step) by lia.
  split; [lia|]. assert (Z.of_nat k < (blen base - chunk_size + 1 + step - 1) / step) as Hlt by lia.
  assert ((Z.of_nat k + 1) * step ≤ blen base - chunk_size + 1 + step - 1); [|lia].
  transitivity ((blen base - chunk_size + 1 + step - 1) / step * step); [nia|]. rewrite Z.mul_comm. by apply Z.mul_div_le.
Qed.

Lemma chunk_index_ok : indexed (chunk_index chunk_size base).
Proof.
  unfold chunk_index. case_match; [|by intros ?? ?%lookup_empty_Some].
  assert (indexed ∅) as Hi by (by intros ?? ?%lookup_empty_Some). revert Hi. generalize (∅ : gmap (list ascii) Z).
  pose proof offsets_in_range as Ho. induction Ho as [|o l Ho _ IH]; intros index Hi; [done|]. simpl. apply IH.
  case_match; [done|]. intros chunk o' [[<- <-]|[_ Hl]]%lookup_insert_Some; [|by apply Hi]. by destruct Ho.
Qed.

(** A block found in the base, and what follows it in both. *)
Lemma match_copies pos o :
  0 ≤ pos → pos + chunk_size ≤ blen target → 0 ≤ o → o + chunk_size ≤ blen base →
  slice o (o + chunk_size) base = slice pos (pos + chunk_size) target →
  let n := chunk_size + agree (drop (Z.to_nat (pos + chunk_size)) target) (drop (Z.to_nat (o + chunk_size)) base) in
  chunk_size ≤ n ∧ pos + n ≤ blen target ∧ slice o (o + n) base = slice pos (pos + n) target.
Proof.
  intros Hpos Hpt Ho Hob E n.
  destruct (agree_spec (drop (Z.to_nat (pos + chunk_size)) target) (drop (Z.to_nat (o + chunk_size)) base)) as ([Ha Hat] & _ & Eq).
  assert (∀ x (l : list ascii), 0 ≤ x → slice x (x + n) l =
    slice x (x + chunk_size) l ++ take (Z.to_nat (n - chunk_size)) (drop (Z.to_nat (x + chunk_size)) l)) as Hsplit.
  { intros x l Hx. rewrite !slice_take by lia. rewrite Z2Nat.inj_add, <- drop_drop by lia.
    rewrite <- (take_drop (Z.to_nat chunk_size) (drop (Z.to_nat x) l)) at 1.
    replace (x + chunk_size - x) with chunk_size by lia.
    assert (Z.to_nat (x + n - x) = (Z.to_nat chunk_size + Z.to_nat (n - chunk_size))%nat) as -> by lia.
    by rewrite take_drop, <- take_take_drop. }
  unfold blen in Hat. rewrite length_drop in Hat. unfold blen in *. split; [lia|]. split; [lia|].
  rewrite !Hsplit, E by done. f_equal. unfold n. by rewrite Z.add_simpl_l.
Qed.

Lemma scan_builds fuel index pos pending ops d :
  indexed index → 0 ≤ pos ≤ blen target → blen target - pos ≤ Z.of_nat fuel →
  builds base ops d → d ++ pending = slice 0 pos target →
  ∃ ops', scan chunk_size base target fuel index pos pending ops = Some ops' ∧ builds base ops' target.
Proof.
  intros Hi. revert pos pending ops d. induction fuel as [|fuel IH]; intros pos pending ops d Hpos Hfuel Hb Hd; simpl.
  all: destruct (Z.leb_spec (blen target) pos) as [Hend|Hmore]; [|try (exfalso; lia)].
  1, 2: eexists; split; [done|]; assert (target = d ++ pending) as E
    by (rewrite Hd; assert (pos = blen target) as -> by lia; rewrite slice_take, Z.sub_0_r by lia;
        unfold blen; by rewrite Nat2Z.id, firstn_all); rewrite E; by apply builds_flush.
  assert (∀ n, 0 ≤ n → slice 0 (pos + n) target = slice 0 pos target ++ slice pos (pos + n) target) as Hsplit.
  { intros n Hn. rewrite !slice_take by lia. rewrite !Z.sub_0_r, drop_0.
    replace (Z.to_nat (pos + n)) with (Z.to_nat pos + Z.to_nat (pos + n - pos))%nat by lia. by rewrite take_take_drop. }
  destruct (if blen (slice pos (pos + chunk_size) target) =? chunk_size then _ else None) as [o|] eqn:El.
  - destruct (Z.eqb_spec (blen (slice pos (pos + chunk_size) target)) chunk_size) as [Hlen|]; [|done].
    destruct (Hi _ _ El) as (Ho & Hob & E).
    assert (pos + chunk_size ≤ blen target) as Hfit.
    { rewrite slice_take in Hlen by lia. unfold blen in *. rewrite length_take, length_drop in Hlen. lia. }
    destruct (match_copies pos o) as (Hn & Hpn & Ecopy); [lia..|done|]. set (n := chunk_size + _) in *.
    eapply IH; [lia|lia|apply builds_app; [by apply builds_flush|apply builds_copy]|].
    rewrite app_nil_r, Hd, Hsplit, Ecopy by lia. done.
  - eapply IH; [lia|lia|done|]. rewrite app_assoc, Hd. by rewrite <- Hsplit by lia.
Qed.

Lemma operations_build :
  ∃ ops, operations_for chunk_size base target = Some ops ∧ builds base ops target.
Proof.
  unfold operations_for. case_bool_decide as E.
  - subst. eexists. split; [done|]. destruct (Z.ltb_spec 0 (blen target)).
    + pose proof (builds_copy target 0 (blen target)) as Hc. rewrite slice_take in Hc by lia.
      unfold blen in Hc. by rewrite Z.sub_0_r, Z.add_0_l, Nat2Z.id, firstn_all in Hc.
    + assert (target = []) as -> by (apply length_zero_iff_nil; unfold blen in *; lia). apply builds_nil.
  - eapply (scan_builds _ _ _ _ _ []); [apply chunk_index_ok|unfold blen; lia..|apply builds_nil|by rewrite slice_take by lia].
Qed.

End scanning.

(** C26: a patch made of two files, sent as its dict, rebuilds the target file
    byte by byte from any file with the base's contents, and changes nothing
    else; making it takes at most one turn per byte of the target. *)
Theorem patches_round_trip chunk_size base_file target_file fs base target :
  0 < chunk_size → fs !! base_file = Some base → fs !! target_file = Some target →
  ∃ p, create_patch chunk_size base_file target_file fs = Some (Ok p) ∧ from_dict (to_dict p) = Ok p ∧
    ∀ fs' temp base' target', fs' !! base' = Some base → fs' !! temp = None →
      apply_patch temp base' p target' fs' = (Ok target', <[target' := target]> fs').
Proof.
  intros Hchunk Hb Ht. destruct (operations_build chunk_size base target Hchunk) as (ops & Hops & Hbuilds).
  eexists. split; [|split].
  - unfold create_patch, read_file. rewrite Hb, Ht. cbn [of_option mbind result_bind mret result_ret]. by rewrite Hops.
  - unfold from_dict, to_dict, item. simpl. by rewrite !int_kept.
  - intros fs' temp base' target' Hb' Htemp. unfold apply_patch, read_file. rewrite Hb'.
    cbn [of_option dp_base_sha256 dp_operations dp_target_sha256]. rewrite bool_decide_true, Hbuilds, app_nil_l by done.
    cbn [negb]. rewrite bool_decide_true by done. cbn [negb]. by rewrite delete_insert_id.
Qed.

(** A patch, whoever made it, is applied only to the base it names, and
    gives only the target it names: [apply_patch] either raises, and then no
    file changed, or the base file has the patch's base hash, the target file
    now has bytes with the patch's target hash, and no other file changed. *)
Theorem applied_patches_are_verified temp base_file p target_file fs :
  fs !! temp = None →
  match apply_patch temp base_file p target_file fs with
  | (Err _, fs') => fs' = fs
  | (Ok path, fs') => path = target_file ∧ ∃ base data,
      fs !! base_file = Some base ∧ sha256_hex base = dp_base_sha256 p ∧
      sha256_hex data = dp_target_sha256 p ∧ fs' = <[target_file := data]> fs
  end.
Proof.
  intros Htemp. unfold apply_patch, read_file. destruct (fs !! base_file) as [base|] eqn:Hb; [|done].
  cbn [of_option]. case_bool_decide; [|done]. cbn [negb]. destruct (write_ops base (dp_operations p) []) as [[u|e] data].
  - case_bool_decide; cbn [negb].
    + split; [done|]. exists base, data. by rewrite delete_insert_id.
    + by rewrite delete_insert_id.
  - by rewrite delete_insert_id.
Qed.

(** The command line sets [chunk_size] past the constructor's bound: with 0
    the loop does not end when the files begin differently. *)
Lemma zero_chunks_never_end fuel ops :
  scan 0 ["a"%char] ["b"%char] fuel (chunk_index 0 ["a"%char]) 0 [] ops = None.
Proof.
  revert ops. induction fuel as [|fuel IH]; intros ops; [done|]. exact (IH (ops ++ [copy_op 0 0])).
Qed.

End patches.
