(* ===== verification/LedgerCompactor.v ===== *)
(** * Snapshots of a ledger ([ledger_compactor.py])

    The ledger is folded into one record per item; a snapshot of the records
    with a checksum lets a later start read only the lines behind it.  A
    snapshot file is the value [json.loads] reads from it.  [now] is the time,
    as text, at which a line is read. *)

From Stdlib Require Import Ascii.
From S2P Require Import Prelude PyText AsciiText Utf8 Json JsonAscii PyNumbers Sha256.

Record CompactStateRecord := mkRec {
  cr_item_id : string;
  cr_status : json;
  cr_last_holder : json;
  cr_expires_at : json;
  cr_event_count : Z;
  cr_last_updated : json;
}.

(** The dict of records by item: keys are equal as Python compares them. *)
Abbreviation Records := (list (json * CompactStateRecord)).

Record LedgerSnapshot := mkSnapshot {
  sn_snapshot_id : string;
  sn_created_at : string;
  sn_total_events_compacted : Z;
  sn_records : Records;
  sn_checksum_sha256 : string;
}.

(** A snapshot file, when it exists: a JSON value, or a text that is none. *)
Inductive SnapshotFile := Document (j : json) | Unreadable.

(** What [verify_equivalence] reports. *)
Inductive Diff :=
  | EventTotals (compacted ledger : Z)
  | MissingFromSnapshot (k : json)
  | MissingFromLedger (k : json)
  | StatusMismatch (k : json)
  | HolderMismatch (k : json)
  | EventCountMismatch (k : json).

Section compactor.
Context `{PyPlatform}.

(** ** Records *)

Fixpoint lookup_rec (k : json) (st : Records) : option CompactStateRecord :=
  match st with
  | [] => None
  | (k', r) :: st => if py_eq k k' then Some r else lookup_rec k st
  end.

Fixpoint set_rec (k : json) (r : CompactStateRecord) (st : Records) : Records :=
  match st with
  | [] => [(k, r)]
  | (k', r') :: st => if py_eq k k' then (k', r) :: st else (k', r') :: set_rec k r st
  end.

Definition to_dict (r : CompactStateRecord) : json :=
  JObj [("item_id", JStr (cr_item_id r)); ("status", cr_status r); ("last_holder", cr_last_holder r);
        ("expires_at", cr_expires_at r); ("event_count", JInt (cr_event_count r)); ("last_updated", cr_last_updated r)].

(** [data.get(k, d)] *)
Definition get_or (k : string) (d : json) (kvs : list (string * json)) : json := default d (jget k kvs).

Definition as_dict (j : json) : result (list (string * json)) :=
  match j with JObj kvs => Ok kvs | _ => raise AttributeError "object has no such attribute" end.

Definition from_dict (data : json) : result CompactStateRecord :=
  kvs ← as_dict data;
  count ← py_int (get_or "event_count" (JInt 0) kvs);
  mret (mkRec (py_str (get_or "item_id" (JStr "") kvs)) (JStr (py_str (get_or "status" (JStr "") kvs)))
          (jget_none "last_holder" kvs) (jget_none "expires_at" kvs) count (jget_none "last_updated" kvs)).

(** ** Sorted keys *)

Definition is_str (j : json) : bool := match j with JStr _ => true | _ => false end.

Definition key_rank (j : json) : Z := match j with JStr _ => 1 | _ => match num_val j with Some _ => 0 | None => 2 end end.
Definition key_le (a b : json) : Prop :=
  match a, b with
  | JStr s, JStr t => String.le s t
  | _, _ => match num_val a, num_val b with Some x, Some y => Qle_bool x y = true | _, _ => key_rank a ≤ key_rank b end
  end.
#[export] Instance key_le_dec : RelDecision key_le.
Proof. intros a b. unfold key_le. destruct a, b; simpl; apply _. Defined.

Definition by_key {A} (key : A → json) (a b : A) : Prop := key_le (key a) (key b).
#[export] Instance by_key_dec {A} (key : A → json) : RelDecision (by_key key).
Proof. intros a b. unfold by_key. apply _. Defined.

(** [sorted] of keys: texts and numbers have no order between them. *)
Definition comparable_keys (keys : list json) : bool := (forallb is_str keys || negb (existsb is_str keys))%bool.
Definition sorted_by {A} (key : A → json) (l : list A) : result (list A) :=
  if comparable_keys (map key l) then Ok (merge_sort (by_key key) l)
  else raise TypeError "'<' not supported".

(** A key of a dict as JSON text. *)
Definition key_text (k : json) : string :=
  match k with JStr s => s | JBool true => "true" | JBool false => "false" | _ => py_str k end.

Definition records_json (st : Records) : json := JObj (map (λ kr, (key_text kr.1, to_dict kr.2)) st).

(** What the checksum is taken of; [sort_keys] sorts every dict. *)
Definition canonical_text (sorted : Records) (total_events : Z) : string :=
  dumps (JObj [("records", JObj (map (λ kr, (key_text kr.1, canon (to_dict kr.2))) sorted));
               ("total_events", JInt total_events)]).

Definition _canonical_records_hash (st : Records) (total_events : Z) : result string :=
  sorted ← sorted_by fst st;
  mret (sha256_hex (String.list_ascii_of_string (canonical_text sorted total_events))).

Definition snapshot_json (s : LedgerSnapshot) : result json :=
  sorted ← sorted_by fst (sn_records s);
  mret (JObj [("snapshot_id", JStr (sn_snapshot_id s)); ("created_at", JStr (sn_created_at s));
              ("total_events_compacted", JInt (sn_total_events_compacted s));
              ("checksum_sha256", JStr (sn_checksum_sha256 s)); ("records", records_json sorted)]).

Definition snapshot_of_json (data : json) : result LedgerSnapshot :=
  kvs ← as_dict data;
  raw_records ← as_dict (get_or "records" (JObj []) kvs);
  records ← mapM (λ kv, r ← from_dict kv.2; Ok (JStr kv.1, r)) raw_records;
  total ← py_int (get_or "total_events_compacted" (JInt 0) kvs);
  mret (mkSnapshot (py_str (get_or "snapshot_id" (JStr "") kvs)) (py_str (get_or "created_at" (JStr "") kvs))
          total records (py_str (get_or "checksum_sha256" (JStr "") kvs))).

(** ** Reading the ledger *)

(** [a or b] *)
Definition py_or (a b : json) : json := if py_truthy a then a else b.

Definition apply_event_to_record (now : string) (current : option CompactStateRecord) (event : list (string * json))
    : result CompactStateRecord :=
  event_type ← match get_or "event_type" (JStr "") event with
               | JStr s => Ok (py_upper s)
               | _ => raise AttributeError "upper"
               end;
  let item_id := py_str (get_or "item_id" (JStr "") event) in
  let holder := jget_none "holder" event in
  let timestamp := py_or (jget_none "timestamp" event) (JStr now) in
  let count := match current with Some c => cr_event_count c | None => 0 end + 1 in
  mret (if (bool_decide (event_type = "CLAIM") || bool_decide (event_type = "RENEW"))%bool then
          mkRec item_id (JStr "CLAIMED") holder (jget_none "expires_at" event) count timestamp
        else if decide (event_type = "RELEASE") then
          mkRec item_id (get_or "result" (JStr "DONE") event) holder JNull count timestamp
        else
          mkRec item_id (match current with Some c => cr_status c | None => JStr "UNKNOWN" end)
            (py_or holder (match current with Some c => cr_last_holder c | None => JNull end))
            (match current with Some c => cr_expires_at c | None => JNull end) count timestamp).

Definition read_event (now : string) (st : Records) (line : string) : result Records :=
  let line := py_strip line in
  if decide (line = "") then Ok st
  else
    match loads line with
    | Err _ => Ok st
    | Ok ev =>
        ev ← as_dict ev;
        let item_id := jget_none "item_id" ev in
        if negb (py_truthy item_id) then Ok st
        else if negb (json_hashable item_id) then raise TypeError "unhashable type"
        else
          r ← apply_event_to_record now (lookup_rec item_id st) ev;
          mret (set_rec item_id r st)
    end.

(** The lines from number [idx] on. *)
Fixpoint read_lines (now : Z → string) (start_line idx : Z) (st : Records) (lines : list string) : result Records :=
  match lines with
  | [] => Ok st
  | line :: lines =>
      st ← (if idx <? start_line then Ok st else read_event (now idx) st line);
      read_lines now start_line (idx + 1) st lines
  end.

(** The file, when it exists, is read as UTF-8. *)
Definition rebuild_ledger_state (now : Z → string) (ledger : option string) (start_line : Z) (initial_state : Records)
    : result (Records * Z) :=
  match ledger with
  | None => Ok (initial_state, 0)
  | Some raw =>
      if negb (utf8_valid raw) then raise UnicodeDecodeError "invalid start byte"
      else
        st ← read_lines now start_line 0 initial_state (splitlines raw);
        mret (st, Z.of_nat (length (splitlines raw)))
  end.

(** ** Snapshots *)

(** The snapshot and the file it is written to. *)
Definition create_snapshot (now : Z → string) (snapshot_id created_at : string) (ledger : option string)
    : result (LedgerSnapshot * SnapshotFile) :=
  '(state, total_events) ← rebuild_ledger_state now ledger 0 [];
  checksum ← _canonical_records_hash state total_events;
  let snapshot := mkSnapshot snapshot_id created_at total_events state checksum in
  j ← snapshot_json snapshot;
  mret (snapshot, Document j).

Definition load_snapshot (file : option SnapshotFile) : result LedgerSnapshot :=
  match file with
  | None => raise FileNotFoundError "Snapshot file not found"
  | Some Unreadable => raise ValueError "Expecting value"
  | Some (Document data) =>
      snapshot ← snapshot_of_json data;
      expected ← _canonical_records_hash (sn_records snapshot) (sn_total_events_compacted snapshot);
      if decide (sn_checksum_sha256 snapshot = expected) then mret snapshot else raise ValueError "Checksum mismatch"
  end.

(** The keys of both dicts, each once. *)
Definition all_keys (a b : Records) : list json :=
  map fst a ++ filter (λ k, lookup_rec k a = None) (map fst b).

Definition diff_if (b : bool) (d : Diff) : list Diff := if b then [d] else [].

Definition compare_records (k : json) (a b : option CompactStateRecord) : list Diff :=
  match a, b with
  | None, _ => [MissingFromSnapshot k]
  | _, None => [MissingFromLedger k]
  | Some s, Some f =>
      diff_if (negb (py_eq (cr_status s) (cr_status f))) (StatusMismatch k)
      ++ diff_if (negb (py_eq (cr_last_holder s) (cr_last_holder f))) (HolderMismatch k)
      ++ diff_if (negb (cr_event_count s =? cr_event_count f)) (EventCountMismatch k)
  end.

Definition verify_equivalence (now : Z → string) (ledger : option string) (file : option SnapshotFile)
    : result (bool * list Diff) :=
  snapshot ← load_snapshot file;
  '(full_state, total_events) ← rebuild_ledger_state now ledger 0 [];
  keys ← sorted_by id (all_keys (sn_records snapshot) full_state);
  let diffs :=
    diff_if (negb (sn_total_events_compacted snapshot =? total_events)) (EventTotals (sn_total_events_compacted snapshot) total_events)
    ++ concat (map (λ k, compare_records k (lookup_rec k (sn_records snapshot)) (lookup_rec k full_state)) keys) in
  mret (bool_decide (length diffs = 0%nat), diffs).

Definition replay_with_delta (now : Z → string) (file : option SnapshotFile) (ledger : option string) : result Records :=
  snapshot ← load_snapshot file;
  '(updated_state, _) ← rebuild_ledger_state now ledger (sn_total_events_compacted snapshot) (sn_records snapshot);
  mret updated_state.

End compactor.
