(* ===== verification/CompactorSpec.v ===== *)
(** * What snapshots keep

    Records under Python's equality of keys, the round trip of a snapshot
    file, and the theorems on replay, verification and checksums. *)

From Stdlib Require Import Ascii.
From S2P Require Import Prelude PyText AsciiText Utf8 Json JsonAscii PyNumbers Sha256 PyTime Scope WorkItems WorkQueue QueueLedger Readiness LedgerCompactor.

Section compactor.
Context `{PyPlatform}.

(** ** Keys *)

Lemma py_eq_sym a b : json_hashable a = true → py_eq a b = py_eq b a.
Proof.
  assert (∀ x y, Qeq_bool x y = Qeq_bool y x) as Hq.
  { intros x y. apply eq_true_iff_eq. rewrite !Qeq_bool_iff. by split; intros ->. }
  destruct a, b; simpl; intros; try done; rewrite ?Hq; try done. apply bool_decide_ext. naive_solver.
Qed.

Lemma py_eq_same a b c : json_hashable a = true → py_eq a b = true → py_eq a c = py_eq b c.
Proof.
  assert (∀ x y z, Qeq_bool x y = true → Qeq_bool x z = Qeq_bool y z) as Hq.
  { intros x y z E%Qeq_bool_iff. apply eq_true_iff_eq. by rewrite !Qeq_bool_iff, E. }
  intros Ha Hab. destruct a; try done; destruct b; try done; simpl in Hab;
    try (by destruct c; simpl; try done; apply Hq).
  apply bool_decide_eq_true in Hab as ->. done.
Qed.

Lemma py_eq_atom a : json_hashable a = true → py_eq a a = true.
Proof. destruct a as [|[]| | | | |]; simpl; try done; intros _; [apply Qeq_bool_refl..|by apply bool_decide_eq_true]. Qed.

Lemma py_eq_hashable a b : json_hashable a = true → py_eq a b = true → json_hashable b = true.
Proof. intros Ha Hab. by destruct a, b. Qed.

Lemma lookup_set k k' r st :
  json_hashable k = true → json_hashable k' = true →
  lookup_rec k (set_rec k' r st) = if py_eq k k' then Some r else lookup_rec k st.
Proof.
  intros Hk Hk'. induction st as [|[k0 r0] st IH]; simpl; [done|].
  destruct (py_eq k' k0) eqn:E0; simpl.
  - destruct (py_eq k k') eqn:E; [by rewrite (py_eq_same k k' k0), E0|]. destruct (py_eq k k0) eqn:E1; [|done].
    rewrite (py_eq_same k k0 k'), <- py_eq_sym, E0 in E by done. done.
  - destruct (py_eq k k0) eqn:E1; [|exact IH].
    destruct (py_eq k k') eqn:E; [|done]. by rewrite (py_eq_same k k' k0), E0 in E1.
Qed.

Lemma keys_set k r st : ∃ new, map fst (set_rec k r st) = (map fst st ++ new)%list ∧
  (new = [] ∨ new = [k] ∧ Forall (λ k', py_eq k k' = false) (map fst st)).
Proof.
  induction st as [|[k0 r0] st (new & E & Hn)]; simpl; [exists [k]; auto|].
  destruct (py_eq k k0) eqn:E0; simpl; [exists []; rewrite app_nil_r; auto|].
  exists new. rewrite E. split; [done|]. destruct Hn as [?|[? ?]]; [by left|right; auto].
Qed.

(** The keys of a dict. *)
Definition dict_keys (ks : list json) : Prop := NoDup ks ∧ Forall (λ k, json_hashable k = true) ks.

Lemma set_keys k r st : json_hashable k = true → dict_keys (map fst st) → dict_keys (map fst (set_rec k r st)).
Proof.
  intros Hk [Hnd Hh]. destruct (keys_set k r st) as (new & -> & [->|[-> Hf]]); [by rewrite app_nil_r|].
  split; [|by apply Forall_app; auto]. apply NoDup_app. split_and!; [done| |apply NoDup_singleton].
  intros x Hx ->%list_elem_of_singleton. rewrite Forall_forall in Hf. apply Hf in Hx. by rewrite py_eq_atom in Hx.
Qed.

(** ** Equal up to the times *)

(** What a record holds, the time of its last event apart. *)
Definition core (r : CompactStateRecord) :=
  (cr_item_id r, cr_status r, cr_last_holder r, cr_expires_at r, cr_event_count r).

Definition same (st st' : Records) : Prop :=
  ∀ k, json_hashable k = true → core <$> lookup_rec k st = core <$> lookup_rec k st'.

(** The same result, or the same exception. *)
Definition same_result {A} (R : A → A → Prop) (x y : result A) : Prop :=
  match x, y with Ok a, Ok b => R a b | Err e, Err e' => e = e' | _, _ => False end.

Lemma same_bind {A B} (R : A → A → Prop) (S : B → B → Prop) x y (f g : A → result B) :
  same_result R x y → (∀ a b, R a b → same_result S (f a) (g b)) → same_result S (x ≫= f) (y ≫= g).
Proof. destruct x, y; simpl; intros Hxy Hfg; try done. by apply Hfg. Qed.

#[local] Instance same_equivalence : Equivalence same.
Proof.
  split; [by intros st k|by intros st st' Hs k Hk; rewrite Hs|].
  intros a b c Hab Hbc k Hk. by rewrite Hab, Hbc.
Qed.

Lemma apply_event_core now now' cur cur' ev :
  core <$> cur = core <$> cur' →
  same_result (λ r r', core r = core r') (apply_event_to_record now cur ev) (apply_event_to_record now' cur' ev).
Proof.
  intros Hc. unfold apply_event_to_record.
  eapply (same_bind eq); [by destruct (get_or _ _ _)|]. intros kind ? <-. simpl.
  destruct cur as [[]|], cur' as [[]|]; simplify_eq/=; try done; by repeat case_match.
Qed.

Lemma read_event_same now now' st st' line :
  same st st' → same_result same (read_event now st line) (read_event now' st' line).
Proof.
  intros Hs. unfold read_event. case_decide; [done|]. destruct (loads _) as [ev|]; [|done].
  eapply (same_bind eq); [by destruct ev|]. intros kvs ? <-.
  destruct (py_truthy _); [|done]. destruct (json_hashable _) eqn:Hh; [|done]. cbn [negb].
  eapply same_bind; [by apply apply_event_core, Hs|]. intros r r' Hr k Hk. rewrite !lookup_set by done.
  destruct (py_eq _ _); [simpl; by f_equal|by apply Hs].
Qed.

Lemma read_lines_same now now' start start' idx idx' st st' lines :
  (start ≤ idx) → (start' ≤ idx') → same st st' →
  same_result same (read_lines now start idx st lines) (read_lines now' start' idx' st' lines).
Proof.
  revert idx idx' st st'. induction lines as [|line lines IH]; intros idx idx' st st' H1 H2 Hs; [done|]. cbn [read_lines].
  rewrite (proj2 (Z.ltb_ge idx start)), (proj2 (Z.ltb_ge idx' start')) by done.
  eapply same_bind; [by apply read_event_same|]. intros a b Hab. apply IH; (lia || done).
Qed.

(** The same records, times and all. *)
Definition equal (st st' : Records) : Prop := ∀ k, json_hashable k = true → lookup_rec k st = lookup_rec k st'.

Lemma read_event_equal now st st' line :
  equal st st' → same_result equal (read_event now st line) (read_event now st' line).
Proof.
  intros Hs. unfold read_event. case_decide; [done|]. destruct (loads _) as [ev|]; [|done].
  eapply (same_bind eq); [by destruct ev|]. intros kvs ? <-.
  destruct (py_truthy _); [|done]. destruct (json_hashable _) eqn:Hh; [|done]. cbn [negb].
  rewrite (Hs _ Hh). eapply (same_bind eq); [by destruct (apply_event_to_record _ _ _)|]. intros r ? <- k Hk.
  rewrite !lookup_set by done. destruct (py_eq _ _); [done|by apply Hs].
Qed.

(** Only the times of the lines that are read matter. *)
Lemma read_lines_equal now now' start start' idx st st' lines :
  start ≤ idx → start' ≤ idx → (∀ i, idx ≤ i < idx + Z.of_nat (length lines) → now i = now' i) → equal st st' →
  same_result equal (read_lines now start idx st lines) (read_lines now' start' idx st' lines).
Proof.
  revert idx st st'. induction lines as [|line lines IH]; intros idx st st' H1 H2 Hn Hs; [done|]. cbn [read_lines].
  rewrite (proj2 (Z.ltb_ge idx start)), (proj2 (Z.ltb_ge idx start')) by done.
  rewrite <- Hn by (cbn [length]; lia).
  eapply same_bind; [by apply read_event_equal|]. intros a b Hab. apply IH; [lia|lia| |done].
  intros i Hi. apply Hn. cbn [length]. lia.
Qed.

Lemma read_lines_app now start idx st l k :
  read_lines now start idx st (l ++ k) = (st' ← read_lines now start idx st l; read_lines now start (idx + Z.of_nat (length l)) st' k).
Proof.
  revert idx st. induction l as [|line l IH]; intros idx st; simpl; [by rewrite Z.add_0_r|].
  destruct (if idx <? start then Ok st else read_event (now idx) st line) as [st'|e]; simpl; [|done].
  rewrite IH. by replace (idx + 1 + Z.of_nat (length l)) with (idx + Z.of_nat (S (length l))) by lia.
Qed.

Lemma read_lines_skip now start idx st l :
  idx + Z.of_nat (length l) ≤ start → read_lines now start idx st l = Ok st.
Proof.
  revert idx. induction l as [|line l IH]; intros idx Hl; simpl in *; [done|].
  rewrite (proj2 (Z.ltb_lt idx start)) by lia. simpl. apply IH. lia.
Qed.

(** ** The snapshot file *)

#[local] Instance key_le_total : Total key_le.
Proof.
  intros a b. unfold key_le.
  destruct a, b; simpl; rewrite ?Qle_bool_iff;
    try match goal with |- String.le ?s ?t ∨ _ => apply (total String.le) end;
    try match goal with |- context [(?x <= ?y)%Q] => destruct (Qlt_le_dec x y); [left; by apply Qlt_le_weak|by right] end; lia.
Qed.

#[local] Instance key_le_trans : Transitive key_le.
Proof.
  intros a b c. unfold key_le.
  destruct a, b, c; simpl; rewrite ?Qle_bool_iff; try lia;
    try (by intros; etrans); intros; try (by eapply Qle_trans); lia.
Qed.

#[local] Instance by_key_total {A} (key : A → json) : Total (by_key key).
Proof. intros a b. apply (total key_le). Qed.
#[local] Instance by_key_trans {A} (key : A → json) : Transitive (by_key key).
Proof. intros a b c. apply (transitivity (R := key_le)). Qed.

(** Items and states are texts, as in a ledger of the queue. *)
Definition textual (st : Records) : Prop := Forall (λ kr, is_str kr.1 = true ∧ is_str (cr_status kr.2) = true) st.

#[local] Instance textual_perm : Proper ((≡ₚ) ==> iff) textual.
Proof. intros st st' Hp. unfold textual. by rewrite Hp. Qed.

Definition by_item (st : Records) : Records := merge_sort (by_key fst) st.

Lemma by_item_perm st : by_item st ≡ₚ st.
Proof. apply merge_sort_Permutation. Qed.

Lemma comparable_textual ks : Forall (λ k, is_str k = true) ks → comparable_keys ks = true.
Proof. intros Hk. unfold comparable_keys. apply orb_true_iff. left. rewrite forallb_forall. intros k Hin%list_elem_of_In. by rewrite Forall_forall in Hk; apply Hk. Qed.

Lemma sorted_textual st : textual st → sorted_by fst st = Ok (by_item st).
Proof.
  intros Ht. unfold sorted_by. rewrite comparable_textual; [done|]. apply Forall_fmap.
  eapply Forall_impl; [exact Ht|]. by intros ? [? _].
Qed.

Lemma by_item_unique st st' : textual st → NoDup (map fst st) → st ≡ₚ st' → by_item st' = by_item st.
Proof.
  intros Ht Hnd Hp. symmetry. apply (Sorted_unique_strong (by_key fst)).
  - intros [k r] [k' r'] Hk Hk' H1 H2. rewrite by_item_perm in Hk, Hk'. rewrite <- Hp in Hk'.
    unfold textual in Ht. rewrite Forall_forall in Ht. pose proof (Ht _ Hk) as [Hs _]. pose proof (Ht _ Hk') as [Hs' _].
    unfold by_key, key_le in H1, H2. simpl in *. destruct k, k'; try done.
    assert (s = s0) as -> by (by apply (anti_symm String.le)). f_equal.
    apply list_elem_of_lookup in Hk as [i Hi], Hk' as [j Hj].
    assert (map fst st !! i = Some (JStr s0) ∧ map fst st !! j = Some (JStr s0)) as [Ei Ej].
    { change (map fst st) with (fst <$> st). by rewrite !list_lookup_fmap, Hi, Hj. }
    rewrite (NoDup_lookup _ i j _ Hnd Ei Ej) in Hi. congruence.
  - apply Sorted_merge_sort, _.
  - apply Sorted_merge_sort, _.
  - by rewrite !by_item_perm.
Qed.

Lemma lookup_perm st st' k :
  textual st → NoDup (map fst st) → st ≡ₚ st' → lookup_rec k st = lookup_rec k st'.
Proof.
  intros Ht Hnd Hp. induction Hp as [|[k0 r0] st st' Hp IH|[k1 r1] [k2 r2] st|st1 st2 st3 Hp1 IH1 Hp2 IH2]; simpl in *.
  - done.
  - apply Forall_cons in Ht as [_ Ht]. apply NoDup_cons in Hnd as [_ Hnd]. destruct (py_eq k k0); [done|]. by apply IH.
  - destruct (py_eq k k1) eqn:E1, (py_eq k k2) eqn:E2; try done.
    apply Forall_cons in Ht as [[H1 _] [[H2 _] _]%Forall_cons]. simpl in H1, H2.
    destruct k1 as [| | | |s1| |], k2 as [| | | |s2| |]; try done. destruct k; try done. simpl in E1, E2.
    apply bool_decide_eq_true in E1 as ->, E2 as ->. apply NoDup_cons in Hnd as [Hnd _]. set_solver.
  - rewrite IH1 by done. apply IH2; [by rewrite <- Hp1|].
    change (map fst st2) with (fst <$> st2). by rewrite <- Hp1.
Qed.

Lemma from_to_dict r : is_str (cr_status r) = true → from_dict (to_dict r) = Ok r.
Proof. destruct r as [? []]; done. Qed.

Lemma records_round st :
  textual st → mapM (λ kv, r ← from_dict kv.2; Ok (JStr kv.1, r)) (map (λ kr, (key_text kr.1, to_dict kr.2)) st) = Ok st.
Proof.
  induction 1 as [|[k r] st [Hk Hs] Ht IH]; [done|]. cbn [map mapM fst snd] in *. rewrite from_to_dict by done.
  cbn [mbind result_bind]. rewrite IH. by destruct k.
Qed.

Lemma hash_by_item st n :
  textual st → NoDup (map fst st) → _canonical_records_hash (by_item st) n = _canonical_records_hash st n.
Proof.
  intros Ht Hnd. unfold _canonical_records_hash. rewrite !sorted_textual; [|done|by rewrite by_item_perm].
  cbn [mbind result_bind]. rewrite (by_item_unique st (by_item st)); [done|done|done|]. symmetry. apply by_item_perm.
Qed.

Lemma read_snapshot sid at_ n cs rs :
  snapshot_of_json (JObj [("snapshot_id", JStr sid); ("created_at", JStr at_); ("total_events_compacted", JInt n);
                          ("checksum_sha256", JStr cs); ("records", JObj rs)])
  = (records ← mapM (λ kv, r ← from_dict kv.2; Ok (JStr kv.1, r)) rs; Ok (mkSnapshot sid at_ n records cs)).
Proof. reflexivity. Qed.

(** What [create_snapshot] writes is what [load_snapshot] reads, the records
    in the order of their items. *)
Lemma snapshot_round now sid at_ ledger snap file :
  create_snapshot now sid at_ ledger = Ok (snap, file) → textual (sn_records snap) → NoDup (map fst (sn_records snap)) →
  load_snapshot (Some file) =
    Ok (mkSnapshot sid at_ (sn_total_events_compacted snap) (by_item (sn_records snap)) (sn_checksum_sha256 snap)) ∧
  rebuild_ledger_state now ledger 0 [] = Ok (sn_records snap, sn_total_events_compacted snap).
Proof.
  unfold create_snapshot. destruct (rebuild_ledger_state _ _ _ _) as [[st n]|]; simpl; [|done].
  destruct (_canonical_records_hash st n) as [cs|] eqn:Ec; simpl; [|done]. unfold snapshot_json. simpl.
  destruct (sorted_by fst st) as [sorted|] eqn:Es; simpl; [|done]. intros [= <- <-] Ht Hnd. simpl in *. split; [|done].
  rewrite sorted_textual in Es by done. injection Es as <-.
  pose proof (records_round (by_item st) ltac:(by rewrite by_item_perm)) as Hround.
  unfold load_snapshot, records_json. rewrite read_snapshot. cbn in Hround. rewrite Hround. cbn.
  rewrite hash_by_item, Ec by done. cbn. by rewrite decide_True.
Qed.

Lemma read_lines_keys now start idx st lines st' :
  dict_keys (map fst st) → read_lines now start idx st lines = Ok st' → dict_keys (map fst st').
Proof.
  revert idx st. induction lines as [|line lines IH]; intros idx st Hnd Hr; simpl in Hr; [by simplify_eq|].
  destruct (if idx <? start then Ok st else read_event (now idx) st line) as [st1|] eqn:E; simpl in Hr; [|done].
  eapply IH; [|exact Hr]. destruct (idx <? start); [by simplify_eq|]. unfold read_event in E.
  case_decide; [by simplify_eq|]. destruct (loads _) as [ev|]; [|by simplify_eq]. destruct ev; try done. simpl in E.
  destruct (py_truthy _); simpl in E; [|by simplify_eq]. destruct (json_hashable _) eqn:Hh; simpl in E; [|done].
  destruct (apply_event_to_record _ _ _); simpl in E; [|done]. injection E as <-. by apply set_keys.
Qed.

(** ** The theorems *)

Lemma ends_complete raw : complete raw → raw = "" ∨ ends_with LF raw = true.
Proof. done. Qed.

Lemma splitlines_complete raw suffix : complete raw → splitlines (raw +:+ suffix) = (splitlines raw ++ splitlines suffix)%list.
Proof.
  intros Hr. unfold splitlines. eapply (split_lines_app (S (String.length raw))); [lia|].
  destruct Hr; auto.
Qed.

Lemma rebuild_keys now raw st n : rebuild_ledger_state now raw 0 [] = Ok (st, n) → dict_keys (map fst st).
Proof.
  unfold rebuild_ledger_state. intros Hr. destruct raw as [raw|]; [|injection Hr as <- _; by repeat constructor].
  destruct (negb (utf8_valid raw)); [done|].
  destruct (read_lines now 0 0 [] (splitlines raw)) as [st'|] eqn:E; [|done]. injection Hr as <- _.
  eapply read_lines_keys; [|exact E]. by repeat constructor.
Qed.

Lemma created_records now sid at_ ledger snap file :
  create_snapshot now sid at_ ledger = Ok (snap, file) → NoDup (map fst (sn_records snap)).
Proof.
  unfold create_snapshot. intros Hc. destruct (rebuild_ledger_state now ledger 0 []) as [[st n]|] eqn:E; [|done].
  apply rebuild_keys in E as [Hnd _]. cbn in Hc.
  destruct (_canonical_records_hash st n); [|done]. cbn in Hc. unfold snapshot_json in Hc. cbn in Hc.
  destruct (sorted_by fst st); [|done]. by injection Hc as <- _.
Qed.

(** C24: A snapshot stands for the lines it was made of.  A snapshot is made of
    a ledger whose items and results are texts and whose last line is complete;
    later, whatever was appended, the replay of the snapshot and of the lines
    behind it gives, item by item, the very records of a replay of the whole
    ledger in which every line is read at the time it was read here - or the
    same exception.  Read at other times, whole replays differ in nothing but
    the time of an item's last event. *)
Theorem delta_replay_is_full_replay now now1 sid at_ raw suffix snap file :
  complete raw → create_snapshot now sid at_ (Some raw) = Ok (snap, file) → textual (sn_records snap) →
  let delta := replay_with_delta now1 (Some file) (Some (raw +:+ suffix)) in
  let whole now := fst <$> rebuild_ledger_state now (Some (raw +:+ suffix)) 0 [] in
  same_result equal delta (whole (λ i, if i <? sn_total_events_compacted snap then now i else now1 i)) ∧
  ∀ now2, same_result same delta (whole now2).
Proof.
  intros Hr Hc Ht. pose proof (created_records _ _ _ _ _ _ Hc) as Hnd.
  destruct (snapshot_round _ _ _ _ _ _ Hc Ht Hnd) as [Hl Hb]. cbv zeta.
  unfold replay_with_delta. rewrite Hl. cbn [mbind result_bind].
  unfold rebuild_ledger_state in *. destruct (utf8_valid raw); [|done]. cbn [negb] in Hb.
  destruct (negb (utf8_valid (raw +:+ suffix))); [by split|].
  rewrite splitlines_complete, read_lines_app by done. cbn [sn_total_events_compacted sn_records].
  destruct (read_lines now 0 0 [] (splitlines raw)) as [st|] eqn:E; [|done]. injection Hb as E1 E2.
  rewrite <- E2, read_lines_skip by lia. cbn [mbind result_bind].
  assert (equal (by_item (sn_records snap)) st) as Heq.
  { intros k Hk. rewrite E1. apply lookup_perm; [by rewrite by_item_perm| |apply by_item_perm].
    change (NoDup (fst <$> by_item (sn_records snap))). by rewrite by_item_perm. }
  set (n := Z.of_nat (length (splitlines raw))). split.
  - rewrite read_lines_app. fold n.
    pose proof (read_lines_equal now (λ i, if i <? n then now i else now1 i) 0 0 0 [] [] (splitlines raw)
      ltac:(done) ltac:(done) ltac:(intros i Hi; cbv beta; by rewrite (proj2 (Z.ltb_lt i n)) by lia) ltac:(done)) as Hs.
    rewrite E in Hs. destruct (read_lines (λ i, _) 0 0 [] (splitlines raw)) as [st2|]; [|done]. cbn [mbind result_bind].
    pose proof (read_lines_equal now1 (λ i, if i <? n then now i else now1 i) n 0 (0 + n) (by_item (sn_records snap)) st2
      (splitlines suffix) ltac:(lia) ltac:(lia)
      ltac:(intros i Hi; cbv beta; by rewrite (proj2 (Z.ltb_ge i n)) by lia) ltac:(intros k Hk; rewrite (Heq k Hk); exact (Hs k Hk))) as Hend.
    destruct (read_lines now1 n _ _ _), (read_lines (λ i, _) 0 (0 + n) st2 _); done.
  - intros now2. rewrite read_lines_app. fold n.
    pose proof (read_lines_same now now2 0 0 0 0 [] [] (splitlines raw) ltac:(done) ltac:(done) (reflexivity _)) as Hs.
    rewrite E in Hs. destruct (read_lines now2 0 0 [] (splitlines raw)) as [st2|]; [|done]. cbn [mbind result_bind].
    assert (same (by_item (sn_records snap)) st2) as Hs2.
    { intros k Hk. by rewrite <- (Hs k Hk), (Heq k Hk). }
    pose proof (read_lines_same now1 now2 n 0 (0 + n) (0 + n) _ _ (splitlines suffix) ltac:(lia) ltac:(lia) Hs2) as Hend.
    destruct (read_lines now1 n (0 + n) _ _), (read_lines now2 0 (0 + n) _ _); done.
Qed.

(** The same records, read at another time. *)
Lemma rebuild_again now now1 raw st n :
  rebuild_ledger_state now (Some raw) 0 [] = Ok (st, n) →
  ∃ st1, rebuild_ledger_state now1 (Some raw) 0 [] = Ok (st1, n) ∧ same st st1 ∧ n = Z.of_nat (length (splitlines raw)).
Proof.
  unfold rebuild_ledger_state. destruct (utf8_valid raw); [|done]. cbn [negb].
  pose proof (read_lines_same now now1 0 0 0 0 [] [] (splitlines raw) ltac:(done) ltac:(done) (reflexivity _)) as Hs.
  destruct (read_lines now _ _ _ _) as [st'|], (read_lines now1 _ _ _ _) as [st1|]; cbn; try done. intros [= -> <-]. eauto.
Qed.

Lemma lookup_key k r st : NoDup (map fst st) → textual st → (k, r) ∈ st → lookup_rec k st = Some r.
Proof.
  intros Hnd Ht Hin. induction st as [|[k0 r0] st IH]; [by apply elem_of_nil in Hin|]. simpl in *.
  apply Forall_cons in Ht as [[Hk _] Ht]. apply NoDup_cons in Hnd as [Hn Hnd].
  apply elem_of_cons in Hin as [[= -> ->]|Hin]; [by rewrite py_eq_atom by (by destruct k0)|].
  destruct (py_eq k k0) eqn:E; [|by apply IH]. exfalso. apply Hn.
  assert (is_str k = true) as Hs by (unfold textual in Ht; rewrite Forall_forall in Ht; by apply (Ht (k, r))).
  destruct k, k0; try done. simpl in E. apply bool_decide_eq_true in E as ->. by apply (list_elem_of_fmap_2 fst) in Hin.
Qed.

Lemma lookup_rec_in k r st : lookup_rec k st = Some r → ∃ k', (k', r) ∈ st ∧ py_eq k k' = true.
Proof.
  induction st as [|[k0 r0] st IH]; simpl; [done|]. destruct (py_eq k k0) eqn:E.
  - intros [= ->]. exists k0. split; [by left|done].
  - intros (k' & ? & ?)%IH. exists k'. split; [by right|done].
Qed.

Lemma same_core_no_diff k (a b : option CompactStateRecord) :
  is_Some a → core <$> a = core <$> b → (∀ r, a = Some r → is_str (cr_status r) = true ∧ json_wf (cr_last_holder r)) →
  compare_records k a b = [].
Proof.
  intros [r ->] Hc Hr. destruct b as [r'|]; [|done]. destruct (Hr r eq_refl) as [Hs Hh].
  simpl in Hc. injection Hc as _ Es Eh _ En. unfold compare_records. rewrite <- Es, <- Eh, <- En, Z.eqb_refl, (py_eq_refl (cr_last_holder r)) by done.
  by rewrite py_eq_atom by (by destruct (cr_status r)).
Qed.

Lemma lookup_some k st : k ∈ map fst st → json_hashable k = true → is_Some (lookup_rec k st).
Proof.
  intros Hin Hk. induction st as [|[k0 r0] st IH]; [by apply elem_of_nil in Hin|]. simpl in *.
  destruct (py_eq k k0) eqn:E; [eauto|]. apply elem_of_cons in Hin as [->|Hin]; [by rewrite py_eq_atom in E|auto].
Qed.

Lemma sorted_keys st : textual st → sorted_by id (map fst st) = Ok (merge_sort (by_key id) (map fst st)).
Proof.
  intros Ht. unfold sorted_by. rewrite comparable_textual; [done|]. rewrite map_id. apply Forall_fmap.
  eapply Forall_impl; [exact Ht|]. by intros ? [? _].
Qed.

(** Verification accepts a snapshot of the very ledger and no other length.
    A snapshot of a ledger of texts verifies against that ledger, with no
    difference, whenever it is asked; once a line was appended it does not. *)
Theorem fresh_snapshots_verify now now1 sid at_ raw snap file :
  complete raw → create_snapshot now sid at_ (Some raw) = Ok (snap, file) → textual (sn_records snap) →
  Forall (λ kr, json_wf (cr_last_holder kr.2)) (sn_records snap) →
  verify_equivalence now1 (Some raw) (Some file) = Ok (true, []) ∧
  ∀ suffix r, splitlines suffix ≠ [] → verify_equivalence now1 (Some (raw +:+ suffix)) (Some file) = Ok r → r.1 = false.
Proof.
  intros Hr Hc Ht Hw. pose proof (created_records _ _ _ _ _ _ Hc) as Hnd.
  destruct (snapshot_round _ _ _ _ _ _ Hc Ht Hnd) as [Hl Hb]. set (st := sn_records snap) in *.
  destruct (rebuild_again _ now1 _ _ _ Hb) as (st1 & Hb1 & Hs & Hn).
  assert (NoDup (map fst (by_item st))) as Hnd'.
  { change (NoDup (fst <$> by_item st)). by rewrite by_item_perm. }
  assert (same (by_item st) st1) as Hs1.
  { intros k Hk. rewrite <- (Hs k Hk). f_equal. apply lookup_perm; [by rewrite by_item_perm|done|apply by_item_perm]. }
  unfold verify_equivalence. rewrite Hl. cbn [mbind result_bind sn_records sn_total_events_compacted]. split.
  - rewrite Hb1. cbn [mbind result_bind].
    assert (all_keys (by_item st) st1 = map fst (by_item st)) as ->.
    { unfold all_keys. replace (filter _ (map fst st1)) with (@nil json); [by rewrite app_nil_r|]. symmetry.
      apply filter_none, Forall_forall. intros k Hin. destruct (rebuild_keys _ _ _ _ Hb1) as [_ Hh].
      rewrite Forall_forall in Hh. specialize (Hh k Hin). specialize (Hs1 k Hh).
      destruct (lookup_some k st1 Hin Hh) as [r Er]. rewrite Er in Hs1. intros En. by rewrite En in Hs1. }
    rewrite sorted_keys by (by rewrite by_item_perm). cbn [mbind result_bind].
    replace (concat _) with (@nil Diff); [by rewrite Hn, Z.eqb_refl|]. symmetry.
    apply concat_nil_Forall, Forall_fmap, Forall_forall. intros k Hin. rewrite merge_sort_Permutation in Hin.
    assert (is_str k = true) as Hk.
    { apply list_elem_of_In, in_map_iff in Hin as ([k' r] & <- & Hin%list_elem_of_In). rewrite by_item_perm in Hin.
      unfold textual in Ht. rewrite Forall_forall in Ht. by apply (Ht _ Hin). }
    apply same_core_no_diff; [by apply lookup_some; [|destruct k]|by apply Hs1; destruct k|].
    intros r (k' & Hr' & _)%lookup_rec_in. rewrite by_item_perm in Hr'. unfold textual in Ht. rewrite Forall_forall in Ht, Hw.
    split; [by apply (Ht _ Hr')|by apply (Hw _ Hr')].
  - intros suffix r Hne. unfold rebuild_ledger_state. destruct (negb _); [done|]. rewrite splitlines_complete by done.
    destruct (read_lines _ _ _ _ _); [|done]. cbn [mbind result_bind mret result_ret].
    destruct (sorted_by id (all_keys (by_item st) a)); cbn [mbind result_bind mret result_ret]; [|done]. intros [= <-]. rewrite Hn.
    destruct (splitlines suffix) as [|x l]; [done|]. cbn [length].
    rewrite (proj2 (Z.eqb_neq _ _)) by (rewrite length_app; cbn; lia). cbn [fst]. by apply bool_decide_eq_false_2.
Qed.

(** ** The ledger the queue writes *)

(** The text of a ledger with these events. *)
Definition ledger_text (es : list Event) : string := String.concat "" (map event_line es).

(** The item of an event. *)
Definition event_item (e : Event) : string := match e with _ :: (_, item) :: _ => item | _ => "" end.
Definition events_of (item : string) (es : list Event) : list Event := filter (λ e, event_item e = item) es.

Lemma ledger_text_snoc es e : ledger_text (es ++ [e]) = ledger_text es +:+ event_line e.
Proof.
  unfold ledger_text. rewrite map_app. cbn [map]. induction (map event_line es) as [|x l IH]; [done|].
  cbn [app]. destruct l as [|y l]; [done|].
  change (x +:+ "" +:+ String.concat "" ((y :: l) ++ [event_line e]) = (x +:+ "" +:+ String.concat "" (y :: l)) +:+ event_line e).
  rewrite IH. by rewrite !string_app_assoc.
Qed.

Lemma ledger_text_lines es :
  Forall printable_event es →
  complete (ledger_text es) ∧ splitlines (ledger_text es) = map event_text es ∧ is_ascii (ledger_text es) = true.
Proof.
  induction es as [|e es IH] using rev_ind; intros Hp; [by split; [left|]|].
  apply Forall_app in Hp as [Hp [He _]%Forall_cons]. destruct (IH Hp) as (Hc & Hl & Ha). rewrite ledger_text_snoc. unfold event_line.
  split_and!; [apply complete_append|by rewrite splitlines_append, Hl, map_app by auto using event_text_printable|].
  rewrite !is_ascii_app, Ha, printable_ascii by (by apply event_text_printable). done.
Qed.

Lemma written_fields e : written e →
  let d := event_json e in
  jget "event_type" d = None ∧ jget "timestamp" d = None ∧ jget "item_id" d = Some (JStr (event_item e)).
Proof. by destruct 1. Qed.

Lemma read_written now st e :
  written e → printable_event e →
  read_event now st (event_text e) =
    if decide (event_item e = "") then Ok st
    else let cur := lookup_rec (JStr (event_item e)) st in
         let holder := jget_none "holder" (event_json e) in
         Ok (set_rec (JStr (event_item e))
           (mkRec (event_item e) (match cur with Some c => cr_status c | None => JStr "UNKNOWN" end)
              (py_or holder (match cur with Some c => cr_last_holder c | None => JNull end))
              (match cur with Some c => cr_expires_at c | None => JNull end)
              (match cur with Some c => cr_event_count c | None => 0 end + 1) (JStr now)) st).
Proof.
  intros Hw Hp. pose proof (written_nodup e Hw) as Hnd.
  assert (NoDup (keys (event_json e))) as Hk by (unfold keys, event_json; by rewrite map_map).
  destruct (written_fields e Hw) as (Ht & Hts & Hi). unfold read_event.
  rewrite event_text_strip, decide_False by (done || by intros E; pose proof (event_not_blank e) as Hb; rewrite E in Hb).
  pose proof (decode_event e Hp Hnd) as Hd. unfold decode_json in Hd.
  rewrite ascii_utf8 in Hd by (by apply printable_ascii, event_text_printable). cbn in Hd.
  destruct (loads (event_text e)) as [j|]; [|done]. assert (j = JObj (sort_kvs (event_json e))) as -> by (by destruct j; simplify_eq).
  cbn [as_dict mbind result_bind].
  assert (∀ k, jget k (sort_kvs (event_json e)) = jget k (event_json e)) as Hget by (intros k; by apply jget_sort).
  unfold apply_event_to_record, get_or, jget_none. rewrite !Hget, Ht, Hts, Hi. cbn.
  destruct (decide (event_item e = "")) as [->|Hne]; [done|]. rewrite bool_decide_eq_false_2 by done. cbn. done.
Qed.

(** C39: What a snapshot makes of the queue's own ledger.  The work queue names
    the kind of an event [type], the compactor reads [event_type]: of any
    ledger the queue writes, claimed, renewed and released items alike become
    records of status UNKNOWN without an expiry, that only count the events. *)
Theorem queue_ledgers_compact_to_unknown now es :
  Forall written es → Forall printable_event es →
  ∃ st, rebuild_ledger_state now (Some (ledger_text es)) 0 [] = Ok (st, Z.of_nat (length es)) ∧
    ∀ item, item ≠ "" →
      match lookup_rec (JStr item) st with
      | Some r => cr_status r = JStr "UNKNOWN" ∧ cr_expires_at r = JNull ∧ cr_event_count r = Z.of_nat (length (events_of item es))
      | None => events_of item es = []
      end.
Proof.
  intros Hw Hp. unfold rebuild_ledger_state. destruct (ledger_text_lines es Hp) as (_ & -> & Ha). rewrite (ascii_utf8 _ Ha). cbn [negb].
  rewrite length_map. clear Ha. induction es as [|e es IH] using rev_ind; [by exists []|].
  apply Forall_app in Hw as [Hw [Hwe _]%Forall_cons], Hp as [Hp [Hpe _]%Forall_cons].
  destruct (IH Hw Hp) as (st & E & Hst). rewrite map_app, read_lines_app.
  destruct (read_lines now 0 0 [] (map event_text es)) as [st0|]; [|done]. injection E as ->. cbn [map read_lines mbind result_bind].
  rewrite (proj2 (Z.ltb_ge _ 0)) by lia. rewrite read_written by done.
  assert (∀ item, events_of item (es ++ [e]) = events_of item es ++ if decide (event_item e = item) then [e] else [])%list as Hof.
  { intros item. unfold events_of. rewrite filter_app, filter_cons. by case_decide. }
  destruct (decide (event_item e = "")) as [He|He]; cbn [mbind result_bind].
  - exists st. split; [done|]. intros item Hi. rewrite Hof, decide_False, app_nil_r by congruence. by apply Hst.
  - eexists. split; [done|]. intros item Hi. rewrite lookup_set by done. cbn [py_eq]. rewrite Hof.
    case_bool_decide as Hb.
    + subst item. rewrite decide_True by done. cbn. rewrite length_app. specialize (Hst _ He).
      destruct (lookup_rec _ st) as [r|]; [destruct Hst as (-> & -> & ->)|rewrite Hst]; cbn; split_and!; (done || lia).
    + rewrite decide_False, app_nil_r by congruence. by apply Hst.
Qed.

End compactor.
