(* ===== verification/LockManager.v ===== *)
(** * The lock manager ([lock_manager.py])

    Locks kept in one file per resource, with a fencing token that a new
    holder finds increased.  Times are exact; the mutex around an operation
    makes it one step. *)

From Stdlib Require Import Ascii.
From S2P Require Import Prelude PyText AsciiText Sha256.

Record LockState := mkLock {
  lk_resource_id : string;
  lk_holder : string;
  lk_fencing_token : Z;
  lk_expires_at : Q;
  lk_released : bool;
}.

(** A lock file: what [from_dict] reads from its text, or a text it cannot read. *)
Inductive LockFile := Saved (s : LockState) | Corrupt.

(** The storage directory. *)
Abbreviation Storage := (gmap string LockFile).

(** [str.isalnum] of a character beyond ASCII. *)
Class UnicodeAlnum := { wide_alnum : string → bool }.

Section names.
Context `{UnicodeAlnum}.

Definition alnum (c : string) : bool :=
  match c with
  | String a "" => (is_digit a || (65 <=? code a) && (code a <=? 90) || (97 <=? code a) && (code a <=? 122))%bool
  | _ => wide_alnum c
  end.

Definition safe_char (c : string) : bool := (alnum c || bool_decide (c = "-") || bool_decide (c = "_"))%bool.

(** [_lock_file], the name without [.lock.json]. *)
Definition _lock_file (resource_id : string) : string :=
  let safe_id := String.concat "" (map (λ c, if safe_char c then c else "_") (chars resource_id)) in
  if decide (safe_id = resource_id) then safe_id
  else safe_id +:+ "__" +:+ String.substring 0 12 (sha256_hex (String.list_ascii_of_string resource_id)).

(** ** Operations *)

Definition _load_state (st : Storage) (resource_id : string) : option LockState :=
  match st !! _lock_file resource_id with
  | Some (Saved s) => if decide (lk_resource_id s = resource_id) then Some s else None
  | _ => None
  end.

Definition _save_state (st : Storage) (s : LockState) : Storage :=
  <[_lock_file (lk_resource_id s) := Saved s]> st.

(** A handle; [lh_released] is set by its own [release]. *)
Record LockHandle := mkHandle {
  lh_resource_id : string;
  lh_holder : string;
  lh_fencing_token : Z;
  lh_expires_at : Q;
  lh_released : bool;
}.

(** [t > now] *)
Definition after (t now : Q) : bool := negb (Qle_bool t now).

Definition active (s : LockState) (now : Q) : bool := (negb (lk_released s) && after (lk_expires_at s) now)%bool.

Definition set_expires (s : LockState) (t : Q) : LockState :=
  mkLock (lk_resource_id s) (lk_holder s) (lk_fencing_token s) t (lk_released s).

Definition acquire (st : Storage) (resource_id holder : string) (ttl now : Q) : option LockHandle * Storage :=
  let state := _load_state st resource_id in
  let fresh :=
    let token := match state with Some s => lk_fencing_token s | None => 0 end + 1 in
    (Some (mkHandle resource_id holder token (now + ttl) false),
     _save_state st (mkLock resource_id holder token (now + ttl) false)) in
  match state with
  | Some s =>
      if active s now then
        if decide (lk_holder s = holder) then
          (Some (mkHandle resource_id holder (lk_fencing_token s) (now + ttl) false),
           _save_state st (set_expires s (now + ttl)))
        else (None, st)
      else fresh
  | None => fresh
  end.

(** The state is the handle's. *)
Definition owned (s : LockState) (h : LockHandle) : bool :=
  (bool_decide (lk_holder s = lh_holder h) && bool_decide (lk_fencing_token s = lh_fencing_token h))%bool.

Definition renew (st : Storage) (h : LockHandle) (ttl now : Q) : bool * LockHandle * Storage :=
  match _load_state st (lh_resource_id h) with
  | Some s =>
      if (active s now && owned s h)%bool then
        (true, mkHandle (lh_resource_id h) (lh_holder h) (lh_fencing_token h) (now + ttl) (lh_released h),
         _save_state st (set_expires s (now + ttl)))
      else (false, h, st)
  | None => (false, h, st)
  end.

Definition release (st : Storage) (h : LockHandle) : bool * LockHandle * Storage :=
  match _load_state st (lh_resource_id h) with
  | Some s =>
      if (negb (lk_released s) && owned s h)%bool then
        (true, mkHandle (lh_resource_id h) (lh_holder h) (lh_fencing_token h) (lh_expires_at h) true,
         _save_state st (mkLock (lk_resource_id s) (lk_holder s) (lk_fencing_token s) (lk_expires_at s) true))
      else (false, h, st)
  | None => (false, h, st)
  end.

Definition validate_token (st : Storage) (resource_id : string) (token : Z) (now : Q) : bool :=
  match _load_state st resource_id with
  | Some s =>
      (negb (lk_released s) && negb (after now (lk_expires_at s)) && bool_decide (lk_fencing_token s = token))%bool
  | None => false
  end.

(** [LockHandle.is_active] *)
Definition is_active (st : Storage) (h : LockHandle) (now : Q) : bool :=
  (negb (lh_released h) && validate_token st (lh_resource_id h) (lh_fencing_token h) now)%bool.

(** [guard_write]: the action runs, or StaleFencingTokenError is raised. *)
Definition guard_write {A} (st : Storage) (resource_id : string) (token : Z) (now : Q) (action : result A)
  : result A :=
  if validate_token st resource_id token now then action
  else raise StaleFencingTokenError "Stale fencing token".

(** ** Runs *)

Inductive LockOp :=
  | LAcquire (resource_id holder : string) (ttl : Q)
  | LRenew (h : LockHandle) (ttl : Q)
  | LRelease (h : LockHandle).

Definition op_resource (op : LockOp) : string :=
  match op with LAcquire r _ _ => r | LRenew h _ | LRelease h => lh_resource_id h end.

(** The storage after an operation, and the handle it grants. *)
Definition perform (st : Storage) (now : Q) (op : LockOp) : option LockHandle * Storage :=
  match op with
  | LAcquire r holder ttl => acquire st r holder ttl now
  | LRenew h ttl => (None, (renew st h ttl now).2)
  | LRelease h => (None, (release st h).2)
  end.

(** All handles granted, oldest first. *)
Fixpoint run (st : Storage) (ops : list (Q * LockOp)) : list LockHandle * Storage :=
  match ops with
  | [] => ([], st)
  | (now, op) :: ops =>
      let '(granted, st) := perform st now op in
      let '(rest, st) := run st ops in
      (match granted with Some h => h :: rest | None => rest end, st)
  end.

(** ** One resource *)
Section resource.
Variable r : string.

(** Operations on the resource, or on one with another file. *)
Definition apart (op : LockOp) : Prop := op_resource op = r ∨ _lock_file (op_resource op) ≠ _lock_file r.

(** Who holds the newest token. *)
Definition position (st : Storage) : Z * option string :=
  match _load_state st r with Some s => (lk_fencing_token s, Some (lk_holder s)) | None => (0, None) end.
Definition handle_position (h : LockHandle) : Z * option string := (lh_fencing_token h, Some (lh_holder h)).

(** The token went up, or it is the same holder's. *)
Definition later (p q : Z * option string) : Prop := p.1 < q.1 ∨ p = q.

#[local] Instance later_preorder : PreOrder later.
Proof.
  split; [by right|]. intros p q k [Hpq| ->] [Hqk| <-]; unfold later in *; auto. left. lia.
Qed.

Lemma load_saved st s : lk_resource_id s = r → _load_state (_save_state st s) r = Some s.
Proof. intros <-. unfold _load_state, _save_state. by rewrite lookup_insert_eq, decide_True. Qed.

Lemma load_other st s : _lock_file (lk_resource_id s) ≠ _lock_file r → _load_state (_save_state st s) r = _load_state st r.
Proof. intros Hn. unfold _load_state, _save_state. by rewrite lookup_insert_ne. Qed.

Lemma load_resource st k s : _load_state st k = Some s → lk_resource_id s = k.
Proof. unfold _load_state. intros Hl. by case_hyp Hl; simplify_eq. Qed.

(** What an operation may do to the file of the resource. *)
Definition touches (st : Storage) (granted : option LockHandle) (st' : Storage) : Prop :=
  _load_state st' r = _load_state st r ∧ granted = None
  ∨ ∃ s', _load_state st' r = Some s' ∧ later (position st) (lk_fencing_token s', Some (lk_holder s'))
          ∧ ∀ h, granted = Some h → handle_position h = (lk_fencing_token s', Some (lk_holder s')).

Lemma saved_touches st s' h :
  lk_resource_id s' = r → later (position st) (lk_fencing_token s', Some (lk_holder s')) →
  (∀ x, h = Some x → handle_position x = (lk_fencing_token s', Some (lk_holder s'))) →
  touches st h (_save_state st s').
Proof. intros Hr Hl Hh. right. exists s'. by rewrite load_saved. Qed.

Lemma perform_touches st now op :
  op_resource op = r → touches st (perform st now op).1 (perform st now op).2.
Proof.
  intros Hr. assert (∀ s, _load_state st r = Some s → position st = (lk_fencing_token s, Some (lk_holder s))) as Hp.
  { intros s Hs. unfold position. by rewrite Hs. }
  destruct op as [k holder ttl|h ttl|h]; simpl in Hr; cbn [perform fst snd].
  - unfold acquire. rewrite Hr. destruct (_load_state st r) as [s|] eqn:El.
    + pose proof (load_resource _ _ _ El) as Ek. specialize (Hp s eq_refl). destruct (active s now).
      * case_decide as Eh; [|by left]. apply saved_touches; [done|by rewrite Hp; right|]. intros x [= <-].
        unfold handle_position. simpl. by rewrite Eh.
      * apply saved_touches; [done|rewrite Hp; left; simpl; lia|]. by intros x [= <-].
    + apply saved_touches; [done| |by intros x [= <-]]. left. unfold position. rewrite El. simpl. lia.
  - unfold renew. rewrite Hr. destruct (_load_state st r) as [s|] eqn:El; [|by left].
    destruct (_ && _)%bool; [|by left]. apply saved_touches; [exact (load_resource _ _ _ El)|by rewrite (Hp s); [right|]|done].
  - unfold release. rewrite Hr. destruct (_load_state st r) as [s|] eqn:El; [|by left].
    destruct (_ && _)%bool; [|by left]. apply saved_touches; [exact (load_resource _ _ _ El)|by rewrite (Hp s); [right|]|done].
Qed.

(** An operation writes at most the file of its own resource. *)
Lemma perform_file st now op k :
  _lock_file (op_resource op) ≠ k → (perform st now op).2 !! k = st !! k.
Proof.
  intros Hn. destruct op as [x holder ttl|h ttl|h]; simpl in Hn; cbn [perform snd].
  - unfold acquire. destruct (_load_state st x) as [s|] eqn:El; [|by apply lookup_insert_ne].
    pose proof (load_resource _ _ _ El) as Ek. destruct (active s now); [|by apply lookup_insert_ne].
    case_decide; [|done]. apply lookup_insert_ne. simpl. by rewrite Ek.
  - unfold renew. destruct (_load_state st _) as [s|] eqn:El; [|done].
    destruct (_ && _)%bool; [|done]. apply lookup_insert_ne. simpl. by rewrite (load_resource _ _ _ El).
  - unfold release. destruct (_load_state st _) as [s|] eqn:El; [|done].
    destruct (_ && _)%bool; [|done]. apply lookup_insert_ne. simpl. by rewrite (load_resource _ _ _ El).
Qed.

Lemma perform_granted st now op h : (perform st now op).1 = Some h → lh_resource_id h = op_resource op.
Proof.
  destruct op as [k holder ttl| |]; [|done..]. cbn [perform op_resource]. unfold acquire.
  destruct (_load_state st k) as [s|]; [destruct (active s now); [case_decide|]|]; by intros [= <-].
Qed.

Lemma touches_later st h st' : touches st h st' → later (position st) (position st').
Proof.
  intros [[E _]|(s' & E & Hl & _)]; unfold position at 2; rewrite E; [|done].
  change (later (position st) (position st)). by right.
Qed.

Definition granted_here (hs : list LockHandle) : list LockHandle := filter (λ h, lh_resource_id h = r) hs.

(** Along a run the positions of the grants climb from the first state to the last. *)
Lemma run_climbs st ops :
  Forall (λ o, apart o.2) ops →
  let '(hs, st') := run st ops in
  StronglySorted later (map handle_position (granted_here hs))
  ∧ Forall (λ h, later (position st) (handle_position h)) (granted_here hs)
  ∧ Forall (λ h, later (handle_position h) (position st')) (granted_here hs)
  ∧ later (position st) (position st').
Proof.
  intros Hops. revert st. induction Hops as [|[now op] ops Hop Hops IH]; intros st.
  { split_and!; try constructor; done. }
  cbn [run]. specialize (IH (perform st now op).2).
  pose proof (perform_granted st now op) as Hgr.
  assert (later (position st) (position (perform st now op).2)
    ∧ (∀ h, (perform st now op).1 = Some h → lh_resource_id h = r → handle_position h = position (perform st now op).2))
    as [Hstep Hpos].
  { destruct (decide (op_resource op = r)) as [Er|Er].
    - pose proof (perform_touches st now op Er) as Ht. split; [by eapply touches_later|]. intros h Hh _.
      destruct Ht as [[_ Hn]|(s' & E & _ & Hg)]; [congruence|]. unfold position. rewrite E. by apply Hg.
    - destruct Hop as [|Hf]; [done|]. split.
      + unfold position, _load_state. rewrite perform_file by done. by right.
      + intros h Hh Hr. apply Hgr in Hh. congruence. }
  destruct (perform st now op) as [granted st1]. cbn [fst snd] in *.
  destruct (run st1 ops) as [rest st2]. destruct IH as (Hs & Hlo & Hhi & Hall).
  assert (∀ h, later (position st1) (handle_position h) → later (position st) (handle_position h)) as Hmono.
  { intros h. by apply transitivity. }
  assert (Forall (λ h, later (position st) (handle_position h)) (granted_here rest)) as Hlo'.
  { eapply Forall_impl; [exact Hlo|]. auto. }
  destruct granted as [h|]; [|split_and!; try done; by etrans].
  unfold granted_here in *. rewrite filter_cons. case_decide as Eh; [|split_and!; try done; by etrans].
  specialize (Hpos h eq_refl Eh). split_and!.
  - constructor; [done|]. apply Forall_map. eapply Forall_impl; [exact Hlo|]. intros x. by rewrite <- Hpos.
  - constructor; [by rewrite Hpos|done].
  - constructor; [by rewrite Hpos|done].
  - by etrans.
Qed.

Lemma validate_position st token now :
  validate_token st r token now = true → ∃ holder, position st = (token, Some holder).
Proof.
  unfold validate_token, position. destruct (_load_state st r) as [s|]; [|done]. intros Hv. bool_hyps.
  subst. by eexists.
Qed.

(** C20: fencing tokens fence: along any run of operations by anybody, under any
    clock, in which no operation is on another resource that shares the lock
    file, the tokens granted for a resource never go down (a holder's claim of
    its own live lock keeps the token) and two grants of one token are to one
    holder; and at the end no token below another that was granted validates, so a write
    guarded by it is refused. *)
Theorem fencing_tokens_fence st ops :
  Forall (λ o, apart o.2) ops →
  let '(hs, st') := run st ops in
  StronglySorted (λ a b, lh_fencing_token a ≤ lh_fencing_token b
      ∧ (lh_fencing_token a = lh_fencing_token b → lh_holder a = lh_holder b)) (granted_here hs)
  ∧ ∀ h h' now, h ∈ granted_here hs → h' ∈ granted_here hs → lh_fencing_token h < lh_fencing_token h' →
      validate_token st' r (lh_fencing_token h) now = false
      ∧ ∀ A (action : result A), guard_write st' r (lh_fencing_token h) now action
          = raise StaleFencingTokenError "Stale fencing token".
Proof.
  intros Hops. pose proof (run_climbs st ops Hops) as Hc. destruct (run st ops) as [hs st'].
  destruct Hc as (Hs & _ & Hhi & _). split.
  - induction (granted_here hs) as [|h l IH]; [constructor|]. apply StronglySorted_inv in Hs as [Hs Hall].
    apply Forall_cons in Hhi as [_ Hhi]. constructor; [by apply IH|]. apply (Forall_map handle_position) in Hall.
    eapply Forall_impl; [exact Hall|]. intros x [Hlt|[= E1 E2]]; simpl in *; (split; [lia|]); [lia|done].
  - intros h h' now Hh Hh' Hlt. rewrite Forall_forall in Hhi.
    assert (validate_token st' r (lh_fencing_token h) now = false) as Hv.
    { apply not_true_iff_false. intros (holder & Hp)%validate_position. specialize (Hhi h' Hh').
      rewrite Hp in Hhi. destruct Hhi as [Hx|[= Hx _]]; simpl in *; lia. }
    split; [done|]. intros A action. unfold guard_write. by rewrite Hv.
Qed.

(** The operation is not made in the name of the lock's holder. *)
Definition foreign_to (s : LockState) (op : LockOp) : Prop :=
  match op with
  | LAcquire k holder _ => k = r → holder ≠ lk_holder s
  | LRenew h _ | LRelease h => lh_resource_id h = r → owned s h = false
  end.

Lemma foreign_refused st s now op :
  _load_state st r = Some s → active s now = true → apart op → foreign_to s op →
  _load_state (perform st now op).2 r = Some s ∧ ∀ h, (perform st now op).1 = Some h → lh_resource_id h ≠ r.
Proof.
  intros Hs Ha Hap Hf. destruct (decide (op_resource op = r)) as [Er|Er].
  - destruct op as [k holder ttl|h ttl|h]; simpl in Er, Hf; cbn [perform fst snd].
    + unfold acquire. rewrite Er, Hs, Ha, decide_False by (intros E; by apply (Hf Er)). done.
    + unfold renew. by rewrite Er, Hs, (Hf Er), andb_false_r.
    + unfold release. by rewrite Er, Hs, (Hf Er), andb_false_r.
  - destruct Hap as [|Hfile]; [done|]. split.
    + unfold _load_state. by rewrite perform_file.
    + intros h Hh. apply perform_granted in Hh. congruence.
Qed.

(** An active lock excludes everybody else: while its lease has not run out
    and its holder does nothing, no sequence of operations by others - claims,
    renewals and releases with handles true or forged - changes the lock, and
    none of their claims to it is granted. *)
Theorem active_locks_exclude_others st s ops :
  _load_state st r = Some s → lk_released s = false →
  Forall (λ o, apart o.2 ∧ foreign_to s o.2 ∧ after (lk_expires_at s) o.1 = true) ops →
  let '(hs, st') := run st ops in _load_state st' r = Some s ∧ granted_here hs = [].
Proof.
  intros Hs Hrel Hops. revert st Hs. induction Hops as [|[now op] ops (Hap & Hf & Hexp) Hops IH]; intros st Hs; [done|].
  cbn [run fst snd] in *. assert (active s now = true) as Hact by (unfold active; by rewrite Hrel, Hexp).
  destruct (foreign_refused st s now op Hs Hact Hap Hf) as [Hs' Hg].
  destruct (perform st now op) as [granted st1]. cbn [fst snd] in *. specialize (IH st1 Hs').
  destruct (run st1 ops) as [rest st2]. destruct IH as [IH1 IH2]. split; [done|].
  destruct granted as [h|]; [|done]. unfold granted_here in *. rewrite filter_cons, decide_False by auto. done.
Qed.

(** A lock that nobody holds is there for the taking: where the resource has
    no lock, a released or an expired one, a claim is granted with the next
    token, which validates from then on for the time asked for. *)
Theorem free_locks_are_granted st holder ttl now :
  match _load_state st r with Some s => active s now = false | None => True end →
  let '(h, st') := acquire st r holder ttl now in
  ∃ token, h = Some (mkHandle r holder token (now + ttl) false) ∧ token = (position st).1 + 1
    ∧ ∀ t, validate_token st' r token t = negb (after t (now + ttl)).
Proof.
  intros Hf. unfold acquire, position. destruct (_load_state st r) as [s|]; [rewrite Hf|];
    (eexists; split_and!; [done|done|]; intros t; unfold validate_token; rewrite load_saved by done;
     cbn [lk_released lk_expires_at lk_fencing_token negb andb fst];
     by rewrite bool_decide_true, andb_true_r).
Qed.

End resource.

End names.
