(* ===== verification/FencingToken.v ===== *)
(** * The fencing token manager ([fencing_token.py])

    Leases with generations in one state file: a write commits only with the
    newest generation.  A manager keeps a copy of the file in memory, made when
    it is built and written back by every change. *)

From Stdlib Require Import Ascii.
From S2P Require Import Prelude PyText.

Record FencingTokenRecord := mkRecord {
  ft_resource_id : string;
  ft_holder : string;
  ft_generation : Z;
  ft_acquired_at : Q;
  ft_expires_at : Q;
  ft_highest_committed : Z;
}.

Abbreviation Resources := (gmap string FencingTokenRecord).

(** The state file: not there, unreadable, or what [from_dict] reads from it. *)
Inductive StateFile := Missing | Broken | Written (resources : Resources).

(** [FencingTokenManager._load] *)
Definition _load (file : StateFile) : Resources :=
  match file with Written m => m | Missing | Broken => ∅ end.

(** A manager's memory and the file it saves to. *)
Record Manager := mkManager { mg_resources : Resources; mg_file : StateFile }.

Definition open_manager (file : StateFile) : Manager := mkManager (_load file) file.

Definition _save (m : Resources) : Manager := mkManager m (Written m).

(** [not isinstance(s, str) or not s.strip() or "\x00" in s], of a text. *)
Definition unusable (s : string) : bool :=
  (py_blank s || existsb (λ a, Ascii.eqb a "000"%char) (String.list_ascii_of_string s))%bool.

Definition acquire (m : Manager) (resource_id holder : string) (ttl now : Q)
  : result FencingTokenRecord * Manager :=
  if unusable resource_id then (raise FencingError "resource_id must be a non-empty string without NUL", m)
  else if unusable holder then (raise FencingError "holder must be a non-empty string without NUL", m)
  else
    let existing := mg_resources m !! resource_id in
    let conflict := match existing with
      | Some e => (negb (Qle_bool (ft_expires_at e) now) && negb (bool_decide (ft_holder e = holder)))%bool
      | None => false
      end in
    if conflict then (raise LeaseConflictError "Resource is currently leased", m)
    else
      let record := mkRecord resource_id holder
        (match existing with Some e => ft_generation e + 1 | None => 1 end) now (now + ttl)
        (match existing with Some e => ft_highest_committed e | None => 0 end) in
      (Ok record, _save (<[resource_id := record]> (mg_resources m))).

Definition stale {A} : result A := raise StaleFencingTokenError "Stale fencing token rejected".

Definition set_committed (e : FencingTokenRecord) (g : Z) : FencingTokenRecord :=
  mkRecord (ft_resource_id e) (ft_holder e) (ft_generation e) (ft_acquired_at e) (ft_expires_at e) g.

Definition validate_and_commit (m : Manager) (resource_id : string) (generation : Z) (holder : option string)
    (now : Q) : result bool * Manager :=
  match mg_resources m !! resource_id with
  | None => (stale, m)
  | Some e =>
      if match holder with Some h => negb (bool_decide (ft_holder e = h)) | None => false end then (stale, m)
      else if ((generation <? ft_highest_committed e) || negb (generation =? ft_generation e))%bool then (stale, m)
      else if Qle_bool (ft_expires_at e) now then (stale, m)
      else (Ok true, _save (<[resource_id := set_committed e (Z.max (ft_highest_committed e) generation)]>
                              (mg_resources m)))
  end.

Definition set_expired (e : FencingTokenRecord) : FencingTokenRecord :=
  mkRecord (ft_resource_id e) (ft_holder e) (ft_generation e) (ft_acquired_at e) 0 (ft_highest_committed e).

Definition release (m : Manager) (resource_id holder : string) (generation : option Z) : bool * Manager :=
  match mg_resources m !! resource_id with
  | Some e =>
      if bool_decide (ft_holder e = holder) then
        if match generation with Some g => negb (ft_generation e =? g) | None => false end then (false, m)
        else (true, _save (<[resource_id := set_expired e]> (mg_resources m)))
      else (false, m)
  | None => (false, m)
  end.

Definition inspect (m : Manager) (resource_id : string) : option FencingTokenRecord :=
  mg_resources m !! resource_id.

(** ** Runs of one manager *)

Inductive FenceOp :=
  | FAcquire (resource_id holder : string) (ttl : Q)
  | FCommit (resource_id : string) (generation : Z) (holder : option string)
  | FRelease (resource_id holder : string) (generation : option Z)
  | FRestart.

(** What happened, for one resource: a generation was granted, or committed. *)
Inductive Fact := Granted (resource_id holder : string) (generation : Z)
                | Committed (resource_id : string) (generation : Z).

Definition perform (m : Manager) (now : Q) (op : FenceOp) : list Fact * Manager :=
  match op with
  | FAcquire r h ttl =>
      match acquire m r h ttl now with
      | (Ok rec, m) => ([Granted r h (ft_generation rec)], m)
      | (Err _, m) => ([], m)
      end
  | FCommit r g h =>
      match validate_and_commit m r g h now with
      | (Ok _, m) => ([Committed r g], m)
      | (Err _, m) => ([], m)
      end
  | FRelease r h g => ([], (release m r h g).2)
  | FRestart => ([], open_manager (mg_file m))
  end.

Fixpoint run (m : Manager) (ops : list (Q * FenceOp)) : list Fact * Manager :=
  match ops with
  | [] => ([], m)
  | (now, op) :: ops =>
      let '(facts, m) := perform m now op in
      let '(rest, m) := run m ops in
      (facts ++ rest, m)
  end.

(** The memory is what the file holds, and nothing was committed that was not granted. *)
Definition in_order (m : Manager) : Prop :=
  _load (mg_file m) = mg_resources m
  ∧ map_Forall (λ _ e, 0 ≤ ft_highest_committed e ≤ ft_generation e) (mg_resources m).

Section resource.
Variable r : string.

Definition newest (m : Manager) : Z := match mg_resources m !! r with Some e => ft_generation e | None => 0 end.

Definition of_resource (f : Fact) : option (bool * Z) :=
  match f with
  | Granted k _ g => if decide (k = r) then Some (true, g) else None
  | Committed k g => if decide (k = r) then Some (false, g) else None
  end.

(** Facts about the resource from a newest generation on: a grant is the next
    one, a commit the newest. *)
Fixpoint fenced (g : Z) (facts : list (bool * Z)) : Prop :=
  match facts with
  | [] => True
  | (true, g') :: facts => g' = g + 1 ∧ fenced g' facts
  | (false, g') :: facts => g' = g ∧ fenced g facts
  end.

Lemma saved_order m k e :
  in_order m → 0 ≤ ft_highest_committed e ≤ ft_generation e → in_order (_save (<[k := e]> (mg_resources m))).
Proof. intros [_ Hf] He. split; [done|]. by apply map_Forall_insert_2. Qed.

Lemma newest_insert m k e :
  newest (_save (<[k := e]> (mg_resources m))) = if decide (k = r) then ft_generation e else newest m.
Proof.
  unfold newest, _save. cbn [mg_resources]. case_decide as E.
  - by rewrite E, lookup_insert_eq.
  - by rewrite lookup_insert_ne.
Qed.

Lemma perform_fenced m now op :
  in_order m →
  let '(facts, m') := perform m now op in
  in_order m' ∧ ∀ rest, fenced (newest m') rest → fenced (newest m) (omap of_resource facts ++ rest).
Proof.
  intros Hm. pose proof (proj2 Hm) as Hf. destruct op as [k h ttl|k g h|k h g|]; cbn [perform].
  - unfold acquire. destruct (unusable k); [by split|]. destruct (unusable h); [by split|].
    destruct (mg_resources m !! k) as [e|] eqn:Ek.
    + pose proof (Hf k e Ek) as He; cbv beta in He. destruct (_ && _)%bool; [by split|]. cbn [ft_generation].
      split; [apply saved_order; [done|simpl; lia]|]. intros rest. rewrite newest_insert. cbn [omap list_omap of_resource].
      case_decide as E; [|done]. simpl. unfold newest. rewrite <- E, Ek. by split.
    + cbn [ft_generation]. split; [apply saved_order; [done|simpl; lia]|]. intros rest.
      rewrite newest_insert. cbn [omap list_omap of_resource]. case_decide as E; [|done]. simpl.
      unfold newest. rewrite <- E, Ek. by split.
  - unfold validate_and_commit. destruct (mg_resources m !! k) as [e|] eqn:Ek; [|by split].
    pose proof (Hf k e Ek) as He; cbv beta in He. destruct (match h with Some _ => _ | None => _ end); [by split|].
    destruct (_ || _)%bool eqn:Eg; [by split|]. destruct (Qle_bool _ _); [by split|]. bool_hyps.
    split; [apply saved_order; [done|simpl; lia]|]. intros rest. rewrite newest_insert.
    cbn [omap list_omap of_resource]. case_decide as E; [|done]. simpl. unfold newest. rewrite <- E, Ek. by split.
  - unfold release. destruct (mg_resources m !! k) as [e|] eqn:Ek; [|by split].
    pose proof (Hf k e Ek) as He; cbv beta in He. destruct (bool_decide _); [|by split]. destruct (match g with Some _ => _ | None => _ end); [by split|].
    split; [by apply saved_order|]. intros rest. cbn [snd]. rewrite newest_insert. case_decide as E; [|done].
    simpl. unfold newest. by rewrite <- E, Ek.
  - destruct Hm as [El Hm]. unfold open_manager. rewrite El. split; [by split|done].
Qed.

(** A stale worker cannot commit: along any run of one manager - by any
    workers, under any clock, with restarts from the state file anywhere -
    generations are granted one after the other, and only the newest granted
    generation is ever committed, so after a new grant no earlier token
    commits. *)
Theorem only_the_newest_generation_commits m ops :
  in_order m → let '(facts, m') := run m ops in fenced (newest m) (omap of_resource facts) ∧ in_order m'.
Proof.
  revert m. induction ops as [|[now op] ops IH]; intros m Hm; [done|]. cbn [run].
  pose proof (perform_fenced m now op Hm) as Hp. destruct (perform m now op) as [facts m1].
  destruct Hp as [Hm1 Hp]. specialize (IH m1 Hm1). destruct (run m1 ops) as [rest m2].
  destruct IH as [IH Hm2]. split; [|done]. rewrite omap_app. by apply Hp.
Qed.

End resource.

(** Two managers over one file: each keeps its own copy, both are granted the
    first generation, and both commit with it. *)
Example two_managers_commit_one_generation :
  let a := open_manager Missing in
  let b := open_manager Missing in
  let '(ra, a) := acquire a "disk" "ann" 30 0 in
  let '(rb, b) := acquire b "disk" "bob" 30 1 in
  (is_ok ra && is_ok rb && is_ok (validate_and_commit a "disk" 1 (Some "ann") 2).1
   && is_ok (validate_and_commit b "disk" 1 (Some "bob") 2).1)%bool = true.
Proof. vm_compute. reflexivity. Qed.
