(* ===== verification/RingBuffer.v ===== *)
(** * The shared memory ring buffer ([shared_memory_ring.py])

    A segment is a list of bytes that several processes read and write.  An
    operation is a program over it: the copy of a slice is a load or a store
    per byte, a call of [struct] on the header is one instruction of the
    program and several steps of its process ([access_step]), and steps of
    other processes may fall between any two bytes. *)

From S2P Require Import Prelude PyBytes.

(** ** Programs over a segment

    [Size] is the length of the segment, [Peek] and [Poke] read and write one
    byte of a slice, [Unpack] reads the header, [Pack] writes a field. *)

Inductive prog (A : Type) :=
  | Done (r : result A)
  | Size (k : Z → prog A)
  | Peek (i : Z) (k : Z → prog A)
  | Poke (i b : Z) (p : prog A)
  | Unpack (k : bytes → prog A)
  | Pack (at_ : Z) (bs : bytes) (p : prog A).
Arguments Done {A} r.
Arguments Size {A} k.
Arguments Peek {A} i k.
Arguments Poke {A} i b p.
Arguments Unpack {A} k.
Arguments Pack {A} at_ bs p.

Fixpoint prog_bind {A B} (f : A → prog B) (p : prog A) : prog B :=
  match p with
  | Done (Ok a) => f a
  | Done (Err e) => Done (Err e)
  | Size k => Size (λ n, prog_bind f (k n))
  | Peek i k => Peek i (λ b, prog_bind f (k b))
  | Poke i b p => Poke i b (prog_bind f p)
  | Unpack k => Unpack (λ bs, prog_bind f (k bs))
  | Pack at_ bs p => Pack at_ bs (prog_bind f p)
  end.
#[export] Instance prog_mbind : MBind prog := λ A B f p, prog_bind f p.
#[export] Instance prog_mret : MRet prog := λ A a, Done (Ok a).

Definition fails {A} (cls : exn_class) (msg : string) : prog A := Done (raise cls msg).

(** [bytes(buf[lo:hi])], byte after byte. *)
Fixpoint peeks (n : nat) (i : Z) : prog bytes :=
  match n with
  | O => mret []
  | S n => Peek i (λ b, bs ← peeks n (i + 1); mret (b :: bs))
  end.
Definition copy_out (lo hi : Z) : prog bytes :=
  Size (λ n, let a := slice_index n lo in peeks (Z.to_nat (slice_index n hi - a)) a).

(** [buf[lo:hi] = bs], which cannot change the length. *)
Fixpoint pokes (i : Z) (bs : bytes) : prog unit :=
  match bs with
  | [] => mret tt
  | b :: bs => Poke i b (pokes (i + 1) bs)
  end.
Definition copy_in (lo hi : Z) (bs : bytes) : prog unit :=
  Size (λ n,
    let a := slice_index n lo in
    if blen bs =? Z.max 0 (slice_index n hi - a) then pokes a bs
    else fails ValueError "memoryview assignment: lvalue and rvalue have different structures").

(** [buf] with [bs] written at an offset. *)
Definition over (lo : Z) (bs buf : bytes) : bytes := list_inserts (Z.to_nat lo) bs buf.

Definition byte_at (i : Z) (buf : bytes) : Z := default 0 (buf !! Z.to_nat i).

(** ** The header *)

Definition _MAGIC : bytes := [67; 83; 82; 66].
Definition _VERSION : Z := 1.
Definition _HEADER_RAW_SIZE : Z := 26.
Definition _HEADER_SIZE : Z := 32.

(** A field of [n] bytes at an offset, as [struct] reads and writes it. *)
Definition field (at_ : Z) (n : nat) (buf : bytes) : Z := be_value (slice at_ (at_ + Z.of_nat n) buf).

Definition pack (n : nat) (v : Z) : result bytes :=
  if ((0 <=? v) && (v <? 256 ^ Z.of_nat n))%bool then Ok (be_bytes n v)
  else raise StructError "argument out of range".

(** The field is zeroed before its value is looked at. *)
Definition pack_into (at_ : Z) (n : nat) (v : Z) : prog unit :=
  Size (λ size,
    if size <? at_ + Z.of_nat n then fails StructError "pack_into requires a larger buffer"
    else match pack n v with
         | Ok bs => Pack at_ bs (mret tt)
         | Err e => Pack at_ (replicate n 0) (Done (Err e))
         end).

(** [%], on a divisor that is no negative number. *)
Definition py_mod (a b : Z) : result Z :=
  if b =? 0 then raise ZeroDivisionError "integer modulo by zero" else Ok (a mod b).

Definition unpack_from : prog bytes :=
  Size (λ size,
    if size <? _HEADER_RAW_SIZE then fails StructError "unpack_from requires a larger buffer"
    else Unpack mret).

Definition _read_header : prog (Z * Z * Z * Z) :=
  bs ← unpack_from;
  mret (field 6 4 bs, field 10 4 bs, field 14 4 bs, field 18 8 bs).

Definition _init_header (capacity : Z) : prog unit :=
  bs ← Done (pack 4 capacity);
  copy_in 0 _HEADER_RAW_SIZE (_MAGIC ++ be_bytes 2 _VERSION ++ bs ++ be_bytes 4 0 ++ be_bytes 4 0 ++ be_bytes 8 0);;
  copy_in _HEADER_RAW_SIZE _HEADER_SIZE (replicate (Z.to_nat (_HEADER_SIZE - _HEADER_RAW_SIZE)) 0).

Definition _validate_header (buf : bytes) : result unit :=
  raise_if (blen buf <? _HEADER_SIZE) (Exn CorruptRingBufferError "Shared memory segment too small for ring header");;
  raise_if (negb (bool_decide (slice 0 4 buf = _MAGIC))) (Exn CorruptRingBufferError "Invalid magic");;
  raise_if (negb (field 4 2 buf =? _VERSION)) (Exn CorruptRingBufferError "Unsupported version").

Definition _update_head (head seq : Z) : prog unit := pack_into 10 4 head;; pack_into 18 8 seq.
Definition _update_tail (tail : Z) : prog unit := pack_into 14 4 tail.

(** A program that runs alone. *)
Fixpoint exec {A} (p : prog A) (buf : bytes) : result A * bytes :=
  match p with
  | Done r => (r, buf)
  | Size k => exec (k (blen buf)) buf
  | Peek i k => exec (k (byte_at i buf)) buf
  | Poke i b p => exec p (over i [b] buf)
  | Unpack k => exec (k (slice 0 _HEADER_RAW_SIZE buf)) buf
  | Pack at_ bs p => exec p (over at_ bs buf)
  end.

(** The segment [create] makes, of the size the system gives it: zeros, then
    the header. *)
Definition create (size : Z → Z) (capacity : Z) : result bytes :=
  let total_size := _HEADER_SIZE + capacity in
  raise_if (total_size <=? 0) (Exn ValueError "'size' must be a positive number different from zero");;
  match exec (_init_header capacity) (replicate (Z.to_nat (size total_size)) 0) with
  | (Ok _, buf) => Ok buf
  | (Err e, _) => Err e
  end.

(** ** Properties of a ring *)

Definition available_read_bytes : prog Z :=
  '(capacity, head, tail, _) ← _read_header;
  mret (if tail <=? head then head - tail else capacity - (tail - head)).

Definition available_write_bytes : prog Z :=
  '(capacity, _, _, _) ← _read_header;
  used ← available_read_bytes;
  mret (Z.max 0 (capacity - 1 - used)).

(** ** Writing and reading *)

Definition write_frame (capacity head : Z) (frame : bytes) : prog unit :=
  let total_frame_size := blen frame in
  if head + total_frame_size <=? capacity then
    copy_in (_HEADER_SIZE + head) (_HEADER_SIZE + head + total_frame_size) frame
  else
    let part1_len := capacity - head in
    let part2_len := total_frame_size - part1_len in
    copy_in (_HEADER_SIZE + head) (_HEADER_SIZE + head + part1_len) (slice 0 part1_len frame);;
    copy_in _HEADER_SIZE (_HEADER_SIZE + part2_len) (slice part1_len total_frame_size frame).

Definition too_large : exn := Exn MessageTooLargeError "Message size exceeds maximum capacity".
Definition buffer_full : exn := Exn BufferFullError "Buffer full".

Definition write (data : bytes) : prog Z :=
  let total_frame_size := 4 + blen data in
  '(capacity, head, tail, seq) ← _read_header;
  if capacity - 1 <? total_frame_size then Done (Err too_large)
  else
    available ← available_write_bytes;
    if available <? total_frame_size then _ ← available_write_bytes; Done (Err buffer_full)
    else
      prefix ← Done (pack 4 (blen data));
      write_frame capacity head (prefix ++ data);;
      new_head ← Done (py_mod (head + total_frame_size) capacity);
      let new_seq := seq + 1 in
      _update_head new_head new_seq;;
      mret new_seq.

Definition _read_bytes_circular (offset length capacity : Z) : prog bytes :=
  if offset + length <=? capacity then
    copy_out (_HEADER_SIZE + offset) (_HEADER_SIZE + offset + length)
  else
    let part1_len := capacity - offset in
    let part2_len := length - part1_len in
    p1 ← copy_out (_HEADER_SIZE + offset) (_HEADER_SIZE + offset + part1_len);
    p2 ← copy_out _HEADER_SIZE (_HEADER_SIZE + part2_len);
    mret (p1 ++ p2).

Definition read : prog (option bytes) :=
  '(capacity, head, tail, _) ← _read_header;
  if head =? tail then mret None
  else
    len_bytes ← _read_bytes_circular tail 4 capacity;
    Done (raise_if (negb (blen len_bytes =? 4)) (Exn StructError "unpack requires a buffer of 4 bytes"));;
    let msg_len := be_value len_bytes in
    msg_offset ← Done (py_mod (tail + 4) capacity);
    payload ← _read_bytes_circular msg_offset msg_len capacity;
    new_tail ← Done (py_mod (tail + 4 + msg_len) capacity);
    _update_tail new_tail;;
    mret (Some payload).

Definition read_or_raise : prog bytes :=
  msg ← read;
  match msg with
  | Some m => mret m
  | None => fails BufferEmptyError "Ring buffer is empty"
  end.

(** ** Steps of a process

    [struct] works byte by byte: [unpack_from] reads the header from its first
    byte to its last, [pack_into] zeroes the field and then writes it, its last
    byte first.  A process may be between two bytes of a call. *)

Inductive access (A : Type) :=
  | At (p : prog A)
  | Unpacking (seen : bytes) (k : bytes → prog A)
  | Packing (todo : list (Z * Z)) (p : prog A).
Arguments At {A} p.
Arguments Unpacking {A} seen k.
Arguments Packing {A} todo p.

(** Each byte with its place. *)
Definition placed (at_ : Z) (bs : bytes) : list (Z * Z) := imap (λ j b, (at_ + Z.of_nat j, b)) bs.
Definition pack_bytes (at_ : Z) (bs : bytes) : list (Z * Z) :=
  placed at_ (replicate (length bs) 0) ++ reverse (placed at_ bs).

Definition access_step {A} (a : access A) (buf : bytes) : access A * bytes :=
  match a with
  | At (Done r) => (At (Done r), buf)
  | At (Size k) => (At (k (blen buf)), buf)
  | At (Peek i k) => (At (k (byte_at i buf)), buf)
  | At (Poke i b p) => (At p, over i [b] buf)
  | At (Unpack k) => (Unpacking [] k, buf)
  | At (Pack at_ bs p) => (Packing (pack_bytes at_ bs) p, buf)
  | Unpacking seen k =>
      if blen seen <? _HEADER_RAW_SIZE then (Unpacking (seen ++ [byte_at (blen seen) buf]) k, buf)
      else (At (k seen), buf)
  | Packing ((i, b) :: todo) p => (Packing todo p, over i [b] buf)
  | Packing [] p => (At p, buf)
  end.

(** How a process runs a program: how it starts, whether it ended, and what a
    step does.  In [access] a call of [struct] takes a step per byte; in [prog]
    it is one step. *)
Class Machine (M : Type → Type) := {
  boot {A} : prog A → M A;
  outcome {A} : M A → option (result A);
  advance {A} : M A → bytes → M A * bytes;
}.

#[export] Instance access_machine : Machine access := {|
  boot _ p := At p;
  outcome _ a := match a with At (Done r) => Some r | _ => None end;
  advance _ := access_step;
|}.

Definition prog_step {A} (p : prog A) (buf : bytes) : prog A * bytes :=
  match p with
  | Done r => (Done r, buf)
  | Size k => (k (blen buf), buf)
  | Peek i k => (k (byte_at i buf), buf)
  | Poke i b p => (p, over i [b] buf)
  | Unpack k => (k (slice 0 _HEADER_RAW_SIZE buf), buf)
  | Pack at_ bs p => (p, over at_ bs buf)
  end.

#[export] Instance prog_machine : Machine prog := {|
  boot _ p := p;
  outcome _ p := match p with Done r => Some r | _ => None end;
  advance _ := prog_step;
|}.

(** ** Processes

    A process calls one operation after the other on its handle; a step of it
    starts an operation, is a step of the operation, or ends it. *)

Record Process (M : Type → Type) (Op Res : Type) := mkProcess {
  pr_now : option (Op * M Res);
  pr_todo : list Op;
  pr_done : list (Op * result Res);
}.
Arguments mkProcess {M Op Res} now todo done : rename.
Arguments pr_now {M Op Res} p : rename.
Arguments pr_todo {M Op Res} p : rename.
Arguments pr_done {M Op Res} p : rename.

Definition process_step {M} `{Machine M} {Op Res} (call : Op → prog Res) (p : Process M Op Res) (buf : bytes) : Process M Op Res * bytes :=
  match pr_now p with
  | None =>
      match pr_todo p with
      | [] => (p, buf)
      | op :: todo => (mkProcess (Some (op, boot (call op))) todo (pr_done p), buf)
      end
  | Some (op, m) =>
      match outcome m with
      | Some r => (mkProcess None (pr_todo p) (pr_done p ++ [(op, r)]), buf)
      | None => let '(m, buf) := advance m buf in (mkProcess (Some (op, m)) (pr_todo p) (pr_done p), buf)
      end
  end.

(** A writer and a reader of one segment. *)
Record Pair (M : Type → Type) := mkPair {
  pa_buf : bytes;
  pa_writer : Process M bytes Z;
  pa_reader : Process M unit (option bytes);
}.
Arguments mkPair {M} buf writer reader : rename.
Arguments pa_buf {M} p : rename.
Arguments pa_writer {M} p : rename.
Arguments pa_reader {M} p : rename.

Definition pair_step {M} `{Machine M} (s : Pair M) (writes : bool) : Pair M :=
  if writes then
    let '(w, buf) := process_step write (pa_writer s) (pa_buf s) in mkPair buf w (pa_reader s)
  else
    let '(r, buf) := process_step (λ _, read) (pa_reader s) (pa_buf s) in mkPair buf (pa_writer s) r.

(** The writer is to write [data], the reader to read [n] times; a schedule
    says whose step is next. *)
Definition pair_start {M} (buf : bytes) (data : list bytes) (n : nat) : Pair M :=
  mkPair buf (mkProcess None data []) (mkProcess None (replicate n tt) []).
Definition pair_run {M} `{Machine M} : Pair M → list bool → Pair M := foldl pair_step.

(** The schedules in which no process reads the header while the other one
    writes a field of it: whatever else of the two overlaps, no read is torn. *)
Definition unpacking {Op Res} (p : Process access Op Res) : bool :=
  match pr_now p with Some (_, Unpacking _ _) => true | _ => false end.
Definition packing {Op Res} (p : Process access Op Res) : bool :=
  match pr_now p with Some (_, Packing _ _) => true | _ => false end.
Definition torn (s : Pair access) : bool :=
  (unpacking (pa_writer s) && packing (pa_reader s)) || (packing (pa_writer s) && unpacking (pa_reader s)).
Fixpoint untorn (s : Pair access) (schedule : list bool) : bool :=
  negb (torn s) && match schedule with [] => true | w :: schedule => untorn (pair_step s w) schedule end.
