(* ===== verification/RingQueue.v ===== *)
(** * A ring is a queue

    What a ring promises to one writer and one reader that use it at the same
    time: every write and read takes effect at one moment between its start and
    its end, as the operation of a bounded queue.  The proof is a rely and
    guarantee argument over the loads and stores of [RingBuffer]. *)

From S2P Require Import Prelude PyBytes RingBuffer.

(** ** The bounded queue

    Its messages, each with four bytes of overhead, take at most one byte less
    than the capacity; a message taken in gets the next number. *)

Definition frame (d : bytes) : bytes := be_bytes 4 (blen d) ++ d.
Definition frames (q : list bytes) : bytes := concat (map frame q).
Definition used (q : list bytes) : Z := blen (frames q).

Definition queue : Type := list bytes * Z.

Definition queue_put (c : Z) (st : queue) (d : bytes) : result Z * queue :=
  let '(q, n) := st in
  if c - 1 <? 4 + blen d then (Err too_large, st)
  else if c - 1 - used q <? 4 + blen d then (Err buffer_full, st)
  else (Ok (n + 1), (q ++ [d], n + 1)).

Definition queue_get (st : queue) : result (option bytes) * queue :=
  match st with
  | ([], n) => (Ok None, st)
  | (d :: q, n) => (Ok (Some d), (q, n))
  end.

(** The operations in the order they take effect, with their results. *)
Inductive event := Put (d : bytes) (r : result Z) | Got (r : result (option bytes)).

Inductive legal (c : Z) : queue → list event → queue → Prop :=
  | legal_nil st : legal c st [] st
  | legal_put st d r st1 log st2 :
      queue_put c st d = (r, st1) → legal c st1 log st2 → legal c st (Put d r :: log) st2
  | legal_get st r st1 log st2 :
      queue_get st = (r, st1) → legal c st1 log st2 → legal c st (Got r :: log) st2.

Definition puts (log : list event) : list (bytes * result Z) :=
  omap (λ e, match e with Put d r => Some (d, r) | Got _ => None end) log.
Definition gots (log : list event) : list (unit * result (option bytes)) :=
  omap (λ e, match e with Put _ _ => None | Got r => Some (tt, r) end) log.

(** The messages that were taken in, and those that were handed out. *)
Definition accepted (l : list (bytes * result Z)) : list bytes :=
  omap (λ x, match x.2 with Ok _ => Some x.1 | Err _ => None end) l.
Definition handed_out (l : list (unit * result (option bytes))) : list bytes :=
  omap (λ x, match x.2 with Ok (Some d) => Some d | _ => None end) l.

Lemma used_app q q' : used (q ++ q') = used q + used q'.
Proof. unfold used, frames, blen. rewrite map_app, concat_app, length_app. lia. Qed.

Lemma frames_cons d q : frames (d :: q) = frame d ++ frames q.
Proof. done. Qed.

Lemma blen_frame d : blen (frame d) = 4 + blen d.
Proof. unfold frame, blen. rewrite length_app, length_be_bytes. lia. Qed.

Lemma used_cons d q : used (d :: q) = 4 + blen d + used q.
Proof. rewrite <- blen_frame. unfold used, frames, blen. simpl. rewrite length_app. lia. Qed.

Lemma used_nonneg q : 0 ≤ used q.
Proof. unfold used, blen. lia. Qed.

Lemma used_nil q : used q = 0 → q = [].
Proof. destruct q as [|d q]; [done|]. rewrite used_cons. pose proof (used_nonneg q). unfold blen in *. lia. Qed.

Lemma legal_app c st l1 l2 st2 :
  legal c st (l1 ++ l2) st2 ↔ ∃ st1, legal c st l1 st1 ∧ legal c st1 l2 st2.
Proof.
  revert st. induction l1 as [|e l1 IH]; intros st; simpl; split.
  - intros. by exists st; eauto using legal.
  - by intros (st1 & Hn & ?); inversion Hn; subst.
  - inversion 1; subst; rename select (legal _ _ (_ ++ _) _) into Hl;
      apply IH in Hl as (? & ? & ?); eauto using legal.
  - intros (st1 & Hn & ?). inversion Hn; subst; econstructor; [done|apply IH; eauto|done|apply IH; eauto].
Qed.

Lemma legal_det c st log st1 st2 : legal c st log st1 → legal c st log st2 → st1 = st2.
Proof.
  intros H. revert st2. induction H as [|st d r st1 log st' E _ IH|st r st1 log st' E _ IH]; intros st2 H2;
    inversion H2 as [|? ? ? st3 ? ? E3|? ? st3 ? ? E3]; subst; [done|..];
    apply IH; rewrite E in E3; by injection E3 as ->.
Qed.

Lemma legal_gets c st log st' :
  legal c st log st' → puts log = [] → st'.2 = st.2 ∧ used st'.1 ≤ used st.1.
Proof.
  induction 1 as [|st d r st1 log st2|st r st1 log st2 Hg _ IH]; [done|done|].
  intros Hp. destruct (IH Hp) as [-> Hu]. destruct st as [[|d q] n]; simplify_eq/=; [done|].
  split; [done|]. rewrite used_cons. unfold blen in *. lia.
Qed.

Lemma legal_puts c st log st' :
  legal c st log st' → gots log = [] → ∃ q, st'.1 = st.1 ++ q.
Proof.
  induction 1 as [st|st d r st1 log st2 Hp _ IH|]; [exists []; by rewrite app_nil_r| |done].
  intros Hg. destruct (IH Hg) as [q ->]. destruct st as [l n]. simpl in Hp.
  repeat case_match; simplify_eq/=; eauto. rewrite <- app_assoc. eauto.
Qed.

Lemma puts_app l1 l2 : puts (l1 ++ l2) = puts l1 ++ puts l2.
Proof. apply omap_app. Qed.
Lemma gots_app l1 l2 : gots (l1 ++ l2) = gots l1 ++ gots l2.
Proof. apply omap_app. Qed.

(** A queue hands out what it took in, in order. *)
Lemma legal_fifo c st log st' :
  legal c st log st' → st.1 ++ accepted (puts log) = handed_out (gots log) ++ st'.1 ∧
                       st'.2 = st.2 + blen (accepted (puts log)).
Proof.
  induction 1 as [st|[q n] d r st1 log st2 Hp _ IH|[q n] r st1 log st2 Hg _ IH].
  - simpl. rewrite app_nil_r. split; [done|]. unfold blen. simpl. lia.
  - simpl in Hp. repeat case_match; simplify_eq/=; try done. destruct IH as [IH ->]. split.
    + rewrite <- IH, <- app_assoc. done.
    + unfold blen. simpl. lia.
  - destruct q as [|d q]; simplify_eq/=; [done|]. destruct IH as [IH ->]. split; [|done]. by rewrite <- IH.
Qed.

Lemma length_accepted l : (length (accepted l) ≤ length l)%nat.
Proof. unfold accepted. induction l as [|[d [n|e]] l IH]; cbn; lia. Qed.

(** ** Bytes of the segment *)

Lemma slice_index_in n i : 0 ≤ i ≤ n → slice_index n i = i.
Proof. intros. unfold slice_index. rewrite (proj2 (Z.ltb_ge i 0)) by lia. lia. Qed.

Lemma blen_over lo bs buf : blen (over lo bs buf) = blen buf.
Proof. unfold blen, over. by rewrite length_inserts. Qed.

Lemma over_cons lo b bs buf : 0 ≤ lo → over lo (b :: bs) buf = over (lo + 1) bs (over lo [b] buf).
Proof.
  intros. unfold over. change (b :: bs) with ([b] ++ bs). rewrite list_inserts_app_l.
  by replace (Z.to_nat (lo + 1)) with (length [b] + Z.to_nat lo)%nat by (simpl; lia).
Qed.

Lemma lookup_over_in lo bs buf i :
  0 ≤ lo → lo + blen bs ≤ blen buf → 0 ≤ i < blen bs → over lo bs buf !! Z.to_nat (lo + i) = bs !! Z.to_nat i.
Proof.
  intros. unfold over, blen in *. rewrite list_lookup_inserts by lia. f_equal. lia.
Qed.

Lemma lookup_over_out lo bs buf i :
  0 ≤ lo → 0 ≤ i → i < lo ∨ lo + blen bs ≤ i → over lo bs buf !! Z.to_nat i = buf !! Z.to_nat i.
Proof.
  intros ? ? [?|?]; unfold over, blen in *; [apply list_lookup_inserts_lt|apply list_lookup_inserts_ge]; lia.
Qed.

Lemma field_same at_ n buf buf' :
  0 ≤ at_ → at_ + Z.of_nat n ≤ blen buf → blen buf' = blen buf →
  (∀ i, at_ ≤ i < at_ + Z.of_nat n → buf' !! Z.to_nat i = buf !! Z.to_nat i) →
  field at_ n buf' = field at_ n buf.
Proof.
  intros Hat Hn Hl Hi. unfold field. f_equal. apply slice_eq; [done| |lia|].
  - rewrite length_slice; lia.
  - intros i. rewrite length_slice by lia. intros. rewrite lookup_slice by lia. apply Hi. lia.
Qed.

Lemma field_over at_ n v buf :
  0 ≤ at_ → at_ + Z.of_nat n ≤ blen buf → 0 ≤ v < 256 ^ Z.of_nat n → field at_ n (over at_ (be_bytes n v) buf) = v.
Proof.
  intros Hat Hn Hv. unfold field.
  assert (blen (be_bytes n v) = Z.of_nat n) as Hb by (unfold blen; by rewrite length_be_bytes).
  rewrite (slice_eq _ _ _ (be_bytes n v)); [by apply be_value_bytes|done|lia|by rewrite blen_over|].
  intros i Hi. apply lookup_over_in; lia.
Qed.

(** The place of a byte of the circle. *)
Definition place (c x : Z) : nat := Z.to_nat (_HEADER_SIZE + x mod c).

Lemma mod_apart c x y : 0 < c → x < y < x + c → x mod c ≠ y mod c.
Proof.
  intros Hc Hxy E. assert ((y - x) mod c = 0) as E0 by (rewrite Zminus_mod, <- E, Z.sub_diag; apply Z.mod_0_l; lia).
  rewrite Z.mod_small in E0; lia.
Qed.

(** ** What a segment holds

    The bytes from the tail on, around the circle, are the frames of the
    queue's messages; the head is where they end. *)
Record holds (c : Z) (buf : bytes) (q : list bytes) (t : Z) : Prop := {
  hd_len : _HEADER_SIZE + c ≤ blen buf;
  hd_capacity : field 6 4 buf = c;
  hd_tail : field 14 4 buf = t;
  hd_range : 0 ≤ t ≤ Z.max 0 (c - 1);
  hd_head : field 10 4 buf = (t + used q) mod c;
  hd_fits : used q ≤ Z.max 0 (c - 1);
  hd_bytes : ∀ i, 0 ≤ i < used q → buf !! place c (t + i) = frames q !! Z.to_nat i;
}.

(** A shared state: the segment, and the operations that took effect. *)
Definition shared : Type := bytes * list event.

Section ring.

Context (c : Z) (Hcap : 0 ≤ c < 2 ^ 32).

Definition known (s : shared) (q : list bytes) (n t : Z) : Prop :=
  legal c ([], 0) s.2 (q, n) ∧ holds c s.1 q t.
Definition sound (s : shared) : Prop := ∃ q n t, known s q n t.

(** What a reader may do to the state, as the writer sees it, and what a
    writer may do, as the reader sees it. *)
Record reader_may (s s' : shared) : Prop := {
  rm_sound : sound s → sound s';
  rm_len : blen s'.1 = blen s.1;
  rm_bytes : ∀ i, 0 ≤ i → i < 14 ∨ 18 ≤ i → s'.1 !! Z.to_nat i = s.1 !! Z.to_nat i;
  rm_log : ∃ ext, s'.2 = s.2 ++ ext ∧ puts ext = [];
}.

Record writer_may (s s' : shared) : Prop := {
  wm_sound : sound s → sound s';
  wm_len : blen s'.1 = blen s.1;
  wm_bytes : ∀ i, 14 ≤ i < 18 → s'.1 !! Z.to_nat i = s.1 !! Z.to_nat i;
  wm_log : ∃ ext, s'.2 = s.2 ++ ext ∧ gots ext = [];
}.

#[export] Instance reader_may_preorder : PreOrder reader_may.
Proof.
  split.
  - intros s. split; try done. exists []. by rewrite app_nil_r.
  - intros s1 s2 s3 [I1 L1 B1 (x1 & E1 & P1)] [I2 L2 B2 (x2 & E2 & P2)]. split; [auto|congruence| |].
    + intros. rewrite B2, B1; done.
    + exists (x1 ++ x2). by rewrite E2, E1, app_assoc, puts_app, P1, P2.
Qed.

#[export] Instance writer_may_preorder : PreOrder writer_may.
Proof.
  split.
  - intros s. split; try done. exists []. by rewrite app_nil_r.
  - intros s1 s2 s3 [I1 L1 B1 (x1 & E1 & P1)] [I2 L2 B2 (x2 & E2 & P2)]. split; [auto|congruence| |].
    + intros. rewrite B2, B1; done.
    + exists (x1 ++ x2). by rewrite E2, E1, app_assoc, gots_app, P1, P2.
Qed.

(** ** Programs among other processes

    [wp p Q s]: whatever the others do, as [rely] allows, [p] run from [s]
    does what [may] allows, and ends in [Q].  Slices lie behind the header, and
    the fields that are packed lie in [mine]. *)

Section wp.

Context (rely may : shared → shared → Prop) (mine : Z → Prop) `{!PreOrder rely}.

Fixpoint wp {A} (p : prog A) (Q : result A → shared → Prop) (s : shared) : Prop :=
  ∀ s', rely s s' →
  match p with
  | Done r => Q r s'
  | Size k => wp (k (blen s'.1)) Q s'
  | Peek i k => _HEADER_SIZE ≤ i ∧ wp (k (byte_at i s'.1)) Q s'
  | Poke i b p => _HEADER_SIZE ≤ i ∧ may s' (over i [b] s'.1, s'.2) ∧ wp p Q (over i [b] s'.1, s'.2)
  | Unpack k => ∃ log, may s' (s'.1, log) ∧ wp (k (slice 0 _HEADER_RAW_SIZE s'.1)) Q (s'.1, log)
  | Pack at_ bs p =>
      (∀ i, at_ ≤ i < at_ + blen bs → mine i) ∧
      ∃ log, may s' (over at_ bs s'.1, log) ∧ wp p Q (over at_ bs s'.1, log)
  end.

Lemma wp_rely {A} (p : prog A) Q s s' : rely s s' → wp p Q s → wp p Q s'.
Proof. destruct p; simpl; intros Hr Hw s2 Hs2; apply Hw; by etrans. Qed.

Lemma wp_mono {A} (p : prog A) (Q Q' : result A → shared → Prop) s :
  (∀ r s', Q r s' → Q' r s') → wp p Q s → wp p Q' s.
Proof.
  intros HQ. revert s. induction p as [r|k IH|i k IH|i b p IH|k IH|i bs p IH]; intros s Hw s' Hr;
    specialize (Hw s' Hr); naive_solver.
Qed.

Lemma wp_bind {A B} (p : prog A) (f : A → prog B) Q s :
  wp p (λ r s', match r with Ok a => wp (f a) Q s' | Err e => Q (Err e) s' end) s → wp (p ≫= f) Q s.
Proof.
  revert s. induction p as [[a|e]|k IH|i k IH|i b p IH|k IH|i bs p IH]; intros s Hw;
    [apply (Hw s); reflexivity|..]; intros s' Hr; specialize (Hw s' Hr).
  - done.
  - by apply IH.
  - destruct Hw as [? Hw]. split; [done|]. by apply IH.
  - destruct Hw as (? & ? & Hw). split_and!; [done..|]. by apply IH.
  - destruct Hw as (log & ? & Hw). exists log. split; [done|]. by apply IH.
  - destruct Hw as (? & log & ? & Hw). split; [done|]. exists log. split; [done|]. by apply IH.
Qed.

End wp.

(** ** What each side knows while the other works *)

(** The writer, in the middle of a call: nothing it does not know of was taken
    in, there is room for [total] bytes from the head on, and the first [k]
    of these are those of [fr]; the header's number is [sq]. *)
Definition writing (done : list (bytes * result Z)) (head n sq total k : Z) (fr : bytes) (s : shared) : Prop :=
  ∃ q t, known s q n t ∧ head = (t + used q) mod c ∧ used q + total ≤ Z.max 0 (c - 1) ∧ puts s.2 = done ∧
    field 18 8 s.1 = sq ∧ ∀ i, 0 ≤ i < k → s.1 !! place c (head + i) = fr !! Z.to_nat i.

(** The reader, in the middle of a call: [d] is the first message. *)
Definition reading (done : list (unit * result (option bytes))) (d : bytes) (t : Z) (s : shared) : Prop :=
  ∃ q n, known s (d :: q) n t ∧ gots s.2 = done.

Lemma place_lower x : 0 < c → 32 ≤ Z.of_nat (place c x) < 32 + c.
Proof. intros. unfold place, _HEADER_SIZE. pose proof (Z.mod_pos_bound x c). lia. Qed.

Lemma known_sound s q n t : known s q n t → sound s.
Proof. by exists q, n, t. Qed.

Lemma writing_stable done head n sq total k fr s s' :
  0 ≤ total → k ≤ total → reader_may s s' →
  writing done head n sq total k fr s → writing done head n sq total k fr s'.
Proof.
  intros Ht Hk [Hs Hl Hb (ext & He & Hp)] (q & t & [Hlog Hh] & Hhead & Hroom & Hputs & Hseq & Hwr).
  destruct (Hs (known_sound _ _ _ _ (conj Hlog Hh))) as (q' & n' & t' & Hlog' & Hh').
  rewrite He in Hlog'. apply legal_app in Hlog' as (st & Hlog1 & Hext).
  assert (st = (q, n)) as -> by (by eapply legal_det).
  destruct (legal_gets _ _ _ _ Hext Hp) as [Hn Hu]. simpl in Hn, Hu. subst n'.
  pose proof (hd_len _ _ _ _ Hh) as Hlen. unfold _HEADER_SIZE in Hlen.
  exists q', t'. split; [split; [rewrite He; apply legal_app; eauto|done]|]. split_and!.
  - rewrite <- (hd_head _ _ _ _ Hh'), (field_same 10 4 s.1 s'.1), (hd_head _ _ _ _ Hh);
      [done|lia|lia|done|]. intros. apply Hb; lia.
  - lia.
  - by rewrite He, puts_app, Hp, app_nil_r.
  - rewrite (field_same 18 8 s.1 s'.1); [done|lia|lia|done|]. intros. apply Hb; lia.
  - intros i Hi. rewrite <- Hwr by done. pose proof (used_nonneg q).
    assert (0 < c) as Hc by lia. pose proof (place_lower (head + i) Hc).
    rewrite <- (Nat2Z.id (place _ _)). apply Hb; lia.
Qed.

Lemma between_stable done head n sq s s' :
  reader_may s s' → writing done head n sq 0 0 [] s → writing done head n sq 0 0 [] s'.
Proof. by apply writing_stable. Qed.

Lemma reading_stable done d t s s' : writer_may s s' → reading done d t s → reading done d t s'.
Proof.
  intros [Hs Hl Hb (ext & He & Hg)] (q & n & [Hlog Hh] & Hgots).
  destruct (Hs (known_sound _ _ _ _ (conj Hlog Hh))) as (q' & n' & t' & Hlog' & Hh').
  rewrite He in Hlog'. apply legal_app in Hlog' as (st & Hlog1 & Hext).
  assert (st = (d :: q, n)) as -> by (by eapply legal_det).
  destruct (legal_puts _ _ _ _ Hext Hg) as [ext' Hq]. simpl in Hq. subst q'.
  pose proof (hd_len _ _ _ _ Hh) as Hlen. unfold _HEADER_SIZE in Hlen.
  assert (t' = t) as ->.
  { rewrite <- (hd_tail _ _ _ _ Hh'), <- (hd_tail _ _ _ _ Hh). apply field_same; [lia|lia|done|].
    intros. apply Hb; lia. }
  exists (q ++ ext'), n'. split; [split; [rewrite He; apply legal_app; eauto|done]|].
  by rewrite He, gots_app, Hg, app_nil_r.
Qed.

(** The header's fields do not lie among the data. *)
Lemma holds_data buf buf' q t :
  holds c buf q t → blen buf' = blen buf →
  (∀ i, 0 ≤ i < 18 → buf' !! Z.to_nat i = buf !! Z.to_nat i) →
  (∀ i, 0 ≤ i < used q → buf' !! place c (t + i) = buf !! place c (t + i)) →
  holds c buf' q t.
Proof.
  intros [Hl Hcp Ht Hr Hh Hf Hb] Hl' Hlow Hdata. unfold _HEADER_SIZE in Hl.
  split; try done; [unfold _HEADER_SIZE; lia|..|intros i Hi; rewrite Hdata by done; by apply Hb];
    rewrite (field_same _ _ buf buf'); try done; try lia; intros; apply Hlow; lia.
Qed.

(** ** The writer *)

Definition within {Op} (done : list Op) (now : Op → Prop) (all : list Op) : Prop :=
  all = done ∨ ∃ x, now x ∧ all = done ++ [x].

(** The header's bytes that a writer packs, and those that a reader packs. *)
Definition writer_field (i : Z) : Prop := 0 ≤ i < 14 ∨ 18 ≤ i < _HEADER_SIZE.
Definition reader_field (i : Z) : Prop := 14 ≤ i < 18.

Definition writes (done : list (bytes * result Z)) (d : bytes) (s s' : shared) : Prop :=
  writer_may s s' ∧ within done (λ x, x.1 = d) (puts s'.2).

Lemma field_slice at_ n buf :
  0 ≤ at_ → at_ + Z.of_nat n ≤ 26 → 26 ≤ blen buf → field at_ n (slice 0 26 buf) = field at_ n buf.
Proof.
  intros. pose proof (length_slice 0 26 buf ltac:(lia) ltac:(lia)) as Hl. unfold field. f_equal.
  apply slice_eq; rewrite ?length_slice by lia; [lia..|]. intros i Hi.
  by rewrite !lookup_slice by lia.
Qed.

Lemma wp_header {A} rely may mine (f : Z * Z * Z * Z → prog A) Q s :
  PreOrder rely →
  (∀ s', rely s s' → _HEADER_SIZE ≤ blen s'.1 ∧
     ∃ log, may s' (s'.1, log) ∧
       wp rely may mine (f (field 6 4 s'.1, field 10 4 s'.1, field 14 4 s'.1, field 18 8 s'.1)) Q (s'.1, log)) →
  wp rely may mine (_read_header ≫= f) Q s.
Proof.
  intros ? Hw. apply wp_bind; [done|]. apply wp_bind; [done|]. intros s1 Hr1.
  destruct (Hw s1 Hr1) as [Hl1 _]. unfold _HEADER_RAW_SIZE, _HEADER_SIZE in *.
  rewrite (proj2 (Z.ltb_ge _ _)) by lia. intros s2 Hr2.
  destruct (Hw s2 ltac:(by etrans)) as (Hl & log & Hm & Hf). exists log. split; [done|].
  intros s3 Hr3 s4 Hr4. rewrite !field_slice by (simpl; lia). eapply wp_rely; [done| |exact Hf]; by etrans.
Qed.

Lemma wp_pack_into rely may (mine : Z → Prop) at_ n v Q s :
  PreOrder rely → 0 ≤ v < 256 ^ Z.of_nat n → (∀ i, at_ ≤ i < at_ + Z.of_nat n → mine i) →
  (∀ s', rely s s' → at_ + Z.of_nat n ≤ blen s'.1 ∧
     ∃ log, may s' (over at_ (be_bytes n v) s'.1, log) ∧
       ∀ s2, rely (over at_ (be_bytes n v) s'.1, log) s2 → Q (Ok tt) s2) →
  wp rely may mine (pack_into at_ n v) Q s.
Proof.
  intros ? Hv Hmine Hw s1 Hr1. destruct (Hw s1 Hr1) as [Hl1 _]. rewrite (proj2 (Z.ltb_ge _ _)) by lia.
  unfold pack. rewrite (proj2 (Z.leb_le 0 v)), (proj2 (Z.ltb_lt v _)) by lia. intros s2 Hr2. split.
  { intros i. unfold blen. rewrite length_be_bytes. apply Hmine. }
  by apply Hw; etrans.
Qed.

Lemma used_of_header buf q t :
  holds c buf q t → (if t <=? field 10 4 buf then field 10 4 buf - t else c - (t - field 10 4 buf)) = used q.
Proof.
  intros Hh. rewrite (hd_head _ _ _ _ Hh). pose proof (hd_range _ _ _ _ Hh). pose proof (hd_fits _ _ _ _ Hh).
  pose proof (used_nonneg q). destruct (decide (c = 0)) as [->|].
  { assert (used q = 0 ∧ t = 0) as [-> ->] by lia. done. }
  destruct (decide (t + used q < c)).
  - rewrite Z.mod_small by lia. rewrite (proj2 (Z.leb_le _ _)) by lia. lia.
  - rewrite <- (Z_mod_plus_full _ (-1)), Z.mod_small by lia. rewrite (proj2 (Z.leb_gt _ _)) by lia. lia.
Qed.

(** A byte before the ones that are overwritten, less than a turn away. *)
Lemma place_apart base xs buf y :
  0 < c → _HEADER_SIZE + c ≤ blen buf → base mod c + blen xs ≤ c → base + blen xs - c ≤ y < base →
  over (_HEADER_SIZE + base mod c) xs buf !! place c y = buf !! place c y.
Proof.
  intros Hc Hl Hfit Hy. pose proof (Z.mod_pos_bound y c Hc). pose proof (Z.mod_pos_bound base c Hc).
  unfold place, _HEADER_SIZE in *. apply lookup_over_out; [lia|lia|].
  destruct (decide (y mod c < base mod c)); [lia|]. destruct (decide (base mod c + blen xs ≤ y mod c)); [lia|].
  exfalso. set (j := y mod c - base mod c). apply (mod_apart c y (base + j)); [done|lia|].
  rewrite <- Zplus_mod_idemp_l, (Z.mod_small (base mod c + j)); lia.
Qed.

Lemma place_over base xs buf j :
  0 < c → _HEADER_SIZE + c ≤ blen buf → base mod c + blen xs ≤ c → 0 ≤ j < blen xs →
  over (_HEADER_SIZE + base mod c) xs buf !! place c (base + j) = xs !! Z.to_nat j.
Proof.
  intros Hc Hl Hfit Hj. pose proof (Z.mod_pos_bound base c Hc). unfold place, _HEADER_SIZE in *.
  rewrite <- (Zplus_mod_idemp_l base j), (Z.mod_small (base mod c + j)), Z.add_assoc by lia.
  apply lookup_over_in; lia.
Qed.

Lemma place_mod x y : place c (x mod c + y) = place c (x + y).
Proof. unfold place. by rewrite Zplus_mod_idemp_l. Qed.

Section writer.

Context (done : list (bytes * result Z)) (d : bytes).

#[local] Abbreviation wpw := (wp reader_may (writes done d) writer_field).

Lemma writing_facts head n sq total k fr s :
  writing done head n sq total k fr s → 0 < total →
  0 < c ∧ 0 ≤ head < c ∧ _HEADER_SIZE + c ≤ blen s.1 ∧ field 6 4 s.1 = c ∧ field 10 4 s.1 = head.
Proof.
  intros (q & t & [_ Hh] & -> & Hroom & _) Ht. pose proof (used_nonneg q). assert (0 < c) as Hc by lia.
  split; [done|]. split; [by apply Z.mod_pos_bound|].
  split_and!; [apply (hd_len _ _ _ _ Hh)|apply (hd_capacity _ _ _ _ Hh)|apply (hd_head _ _ _ _ Hh)].
Qed.

(** A store of the next byte of a frame. *)
Lemma wp_poke {A} (p : prog A) Q head n sq total k fr b i s :
  writing done head n sq total k fr s → 0 ≤ k < total → fr !! Z.to_nat k = Some b →
  i = _HEADER_SIZE + (head + k) mod c →
  (∀ s', writing done head n sq total (k + 1) fr s' → wpw p Q s') → wpw (Poke i b p) Q s.
Proof.
  intros Hw Hk Hb -> Hp s1 Hr.
  eapply writing_stable in Hw; [|lia|lia|exact Hr]. clear s Hr.
  destruct (writing_facts _ _ _ _ _ _ _ Hw ltac:(lia)) as (Hc & Hhead & Hlen & _).
  destruct Hw as (q & t & [Hlog Hh] & Hhd & Hroom & Hputs & Hseq & Hwr).
  pose proof (Z.mod_pos_bound (head + k) c Hc). pose proof (used_nonneg q).
  assert (blen [b] = 1) as H1 by done. unfold _HEADER_SIZE in *. set (buf := over _ _ _).
  assert (∀ i, 0 ≤ i < 32 → buf !! Z.to_nat i = s1.1 !! Z.to_nat i) as Hlow.
  { intros. unfold buf. apply lookup_over_out; lia. }
  assert (holds c buf q t) as Hh'.
  { eapply holds_data; [exact Hh|apply blen_over|intros; apply Hlow; lia|].
    intros i Hi. unfold buf. assert ((head + k) mod c = (t + used q + k) mod c) as ->
      by (by rewrite Hhd, Zplus_mod_idemp_l).
    pose proof (Z.mod_pos_bound (t + used q + k) c Hc). apply place_apart; unfold _HEADER_SIZE; lia. }
  split; [lia|]. split.
  { split; [split|]; [intros _; by exists q, n, t|apply blen_over|intros; apply Hlow; lia
      |exists []; by rewrite app_nil_r|by left]. }
  apply Hp. exists q, t. split; [done|]. split_and!; [done|done|done| |].
  - simpl. rewrite (field_same 18 8 s1.1); [done|lia|lia|apply blen_over|]. intros. apply Hlow. lia.
  - intros i Hi. simpl. destruct (decide (i < k)).
    + rewrite <- Hwr by lia. apply place_apart; unfold _HEADER_SIZE; lia.
    + assert (i = k) as -> by lia. rewrite Hb, <- (Z.add_0_r (head + k)). unfold buf.
      rewrite place_over by (rewrite ?Z.add_0_r; unfold _HEADER_SIZE; lia). done.
Qed.

Lemma wp_pokes xs head n sq total k fr lo s :
  writing done head n sq total k fr s → 0 ≤ k → k + blen xs ≤ total →
  (∀ j, 0 ≤ j < blen xs → xs !! Z.to_nat j = fr !! Z.to_nat (k + j)) →
  (∀ j, 0 ≤ j < blen xs → lo + j = _HEADER_SIZE + (head + k + j) mod c) →
  wpw (pokes lo xs) (λ r s', r = Ok tt ∧ writing done head n sq total (k + blen xs) fr s') s.
Proof.
  revert k lo s. induction xs as [|x xs IH]; intros k lo s Hw Hk Hkt Hxs Hlo.
  - intros s1 Hr. split; [done|]. change (blen []) with 0. rewrite Z.add_0_r.
    change (blen []) with 0 in Hkt. eapply writing_stable; [lia|lia|done|done].
  - assert (blen (x :: xs) = 1 + blen xs) as Hl by (unfold blen; simpl; lia). rewrite Hl in *.
    assert (0 ≤ blen xs) by (unfold blen; lia). pose proof (Hxs 0 ltac:(lia)) as Hx. rewrite Z.add_0_r in Hx.
    pose proof (Hlo 0 ltac:(lia)) as Hlo0. rewrite !Z.add_0_r in Hlo0.
    eapply wp_poke; [exact Hw|lia|by rewrite <- Hx|done|]. intros s1 Hw1. rewrite Z.add_assoc.
    apply IH; [done|lia|lia|..]; intros j Hj.
    + replace (k + 1 + j) with (k + (j + 1)) by lia. rewrite <- Hxs by lia.
      replace (Z.to_nat (j + 1)) with (S (Z.to_nat j)) by lia. done.
    + replace (lo + 1 + j) with (lo + (j + 1)) by lia. rewrite Hlo by lia. do 2 f_equal. lia.
Qed.

Lemma mod_step x j : 0 < c → 0 ≤ j → x mod c + j < c → (x + j) mod c = x mod c + j.
Proof. intros. pose proof (Z.mod_pos_bound x c). rewrite <- Zplus_mod_idemp_l. apply Z.mod_small. lia. Qed.

Lemma wp_copy_in xs head n sq total k fr lo hi s :
  writing done head n sq total k fr s → 0 < total → 0 ≤ k → k + blen xs ≤ total →
  (∀ j, 0 ≤ j < blen xs → xs !! Z.to_nat j = fr !! Z.to_nat (k + j)) →
  lo = _HEADER_SIZE + (head + k) mod c → hi = lo + blen xs → (head + k) mod c + blen xs ≤ c →
  wpw (copy_in lo hi xs) (λ r s', r = Ok tt ∧ writing done head n sq total (k + blen xs) fr s') s.
Proof.
  intros Hw Ht Hk Hkt Hxs -> -> Hfit s1 Hr. assert (0 ≤ blen xs) by (unfold blen; lia).
  eapply writing_stable in Hw; [|lia|lia|exact Hr]. destruct (writing_facts _ _ _ _ _ _ _ Hw Ht) as (Hc & _ & Hlen & _).
  pose proof (Z.mod_pos_bound (head + k) c Hc). unfold _HEADER_SIZE in *. rewrite !slice_index_in by lia.
  rewrite (proj2 (Z.eqb_eq _ _)) by lia. apply wp_pokes; try done. intros j Hj. unfold _HEADER_SIZE.
  rewrite (mod_step (head + k) j) by lia. lia.
Qed.

Lemma wp_write_frame head n sq fr s :
  writing done head n sq (blen fr) 0 fr s → 0 < blen fr →
  wpw (write_frame c head fr) (λ r s', r = Ok tt ∧ writing done head n sq (blen fr) (blen fr) fr s') s.
Proof.
  intros Hw Hpos. destruct (writing_facts _ _ _ _ _ _ _ Hw Hpos) as (Hc & Hhead & _).
  assert (blen fr < c) as Hlt.
  { destruct Hw as (q & t & _ & _ & Hroom & _). pose proof (used_nonneg q). lia. }
  unfold write_frame. destruct (Z.leb_spec (head + blen fr) c) as [Hle|Hgt].
  - apply (wp_copy_in fr _ _ _ _ 0); rewrite ?Z.add_0_r, ?Z.add_0_l, ?(Z.mod_small head) by done;
      try done; try lia.
  - pose proof (length_slice 0 (c - head) fr ltac:(lia) ltac:(lia)) as Hl1.
    pose proof (length_slice (c - head) (blen fr) fr ltac:(lia) ltac:(lia)) as Hl2.
    assert ((head + (c - head)) mod c = 0) as Hz by (rewrite Zplus_minus; apply Z.mod_same; lia).
    apply wp_bind; [apply _|]. eapply wp_mono; [|apply (wp_copy_in _ head n sq (blen fr) 0 fr);
      rewrite ?Hl1, ?Z.add_0_r, ?(Z.mod_small head) by done; [done|done|lia|lia| |done|lia|lia]].
    2: { intros j Hj. by rewrite lookup_slice by lia. }
    intros r s' [-> Hs']. rewrite Hl1, Z.add_0_l, Z.sub_0_r in Hs'.
    eapply wp_mono; [|apply (wp_copy_in _ head n sq (blen fr) (c - head) fr);
      rewrite ?Hl2, ?Hz; [done|done|lia|lia| |done|lia|lia]].
    2: { intros j Hj. by rewrite lookup_slice by lia. }
    intros r s2. by rewrite Hl2, Zplus_minus.
Qed.

(** Between two calls. *)
Definition write_idle (l : list (bytes * result Z)) (s : shared) : Prop :=
  ∃ head n, writing l head n n 0 0 [] s.

Lemma idle_here head n sq total k fr s : writing done head n sq total k fr s → 0 ≤ total → writing done head n sq 0 0 [] s.
Proof.
  intros (q & t & ? & ? & ? & ? & ? & _) Ht. exists q, t. split_and!; try done; [lia|]. intros. lia.
Qed.

(** The log after an operation of the writer. *)
Lemma known_put s q n t r q' n' buf :
  known s q n t → queue_put c (q, n) d = (r, (q', n')) → holds c buf q' t → known (buf, s.2 ++ [Put d r]) q' n' t.
Proof.
  intros [Hlog _] Hput Hh. split; [|done]. apply legal_app. eauto using legal.
Qed.

Lemma may_put s q n t r buf :
  puts s.2 = done → known (buf, s.2 ++ [Put d r]) q n t → blen buf = blen s.1 →
  (∀ i, 14 ≤ i < 18 → buf !! Z.to_nat i = s.1 !! Z.to_nat i) → writes done d s (buf, s.2 ++ [Put d r]).
Proof.
  intros Hputs Hk Hl Hb. split; [split; simpl|].
  - intros _. by exists q, n, t.
  - done.
  - done.
  - by exists [Put d r].
  - right. exists (d, r). split; [done|]. simpl. by rewrite puts_app, Hputs.
Qed.

(** A refusal. *)
Lemma refuse head n e s :
  writing done head n n 0 0 [] s → (∀ q t, known s q n t → queue_put c (q, n) d = (Err e, (q, n))) →
  writes done d s (s.1, s.2 ++ [Put d (Err e)]) ∧
  writing (done ++ [(d, Err e)]) head n n 0 0 [] (s.1, s.2 ++ [Put d (Err e)]).
Proof.
  intros (q & t & Hk & ? & ? & Hputs & ? & ?) Hput. specialize (Hput q t Hk).
  pose proof (known_put _ _ _ _ _ _ _ s.1 Hk Hput (proj2 Hk)) as Hk'. split.
  - by eapply may_put.
  - exists q, t. split_and!; try done. simpl. by rewrite puts_app, Hputs.
Qed.

Lemma no_change s : puts s.2 = done ∨ (∃ r, puts s.2 = done ++ [(d, r)]) → writes done d s (s.1, s.2).
Proof. intros Hp. destruct s. split; [reflexivity|]. destruct Hp as [?|[r ?]]; [by left|right; by exists (d, r)]. Qed.

Lemma writing_header l head n sq total k fr s :
  writing l head n sq total k fr s →
  _HEADER_SIZE ≤ blen s.1 ∧ field 6 4 s.1 = c ∧ field 10 4 s.1 = head ∧ field 18 8 s.1 = sq ∧ puts s.2 = l.
Proof.
  intros (q & t & [_ Hh] & -> & _ & ? & ? & _). pose proof (hd_len _ _ _ _ Hh).
  split_and!; [lia|apply (hd_capacity _ _ _ _ Hh)|apply (hd_head _ _ _ _ Hh)|done..].
Qed.

(** The test of the room, and where it finds the ring full. *)
Lemma wp_available {A} (f : Z → prog A) Q head n s :
  writing done head n n 0 0 [] s → 4 + blen d ≤ c - 1 →
  (∀ s' room, writing (done ++ [(d, Err buffer_full)]) head n n 0 0 [] s' → room < 4 + blen d → wpw (f room) Q s') →
  (∀ s' room, writing done head n n (4 + blen d) 0 (frame d) s' → 4 + blen d ≤ room → wpw (f room) Q s') →
  wpw (available_write_bytes ≫= f) Q s.
Proof.
  intros Hw Hfit Hfull Hroom. apply wp_bind; [apply _|]. unfold available_write_bytes.
  apply wp_header; [apply _|]. intros s1 Hr1. apply (between_stable _ _ _ _ _ _ Hr1) in Hw.
  destruct (writing_header _ _ _ _ _ _ _ _ Hw) as (Hl1 & -> & _ & _ & Hp1). split; [done|]. exists s1.2.
  split; [apply no_change; by left|]. clear s Hr1. rewrite <- surjective_pairing.
  apply wp_bind; [apply _|]. unfold available_read_bytes. apply wp_header; [apply _|]. intros s2 Hr2.
  apply (between_stable _ _ _ _ _ _ Hr2) in Hw.
  destruct (writing_header _ _ _ _ _ _ _ _ Hw) as (Hl2 & -> & _ & _ & Hp2). split; [done|]. clear s1 Hl1 Hp1 Hr2.
  pose proof Hw as (q & t & Hk & _ & Hfits & _). pose proof (hd_tail _ _ _ _ (proj2 Hk)) as ->.
  rewrite (used_of_header _ _ _ (proj2 Hk)). pose proof (used_nonneg q). unfold blen in *.
  destruct (decide (c - 1 - used q < 4 + Z.of_nat (length d))) as [Hno|Hyes].
  - destruct (refuse head n buffer_full s2 Hw) as [Hm Hw2].
    { intros q2 t2 Hk2. assert ((q2, n) = (q, n)) as [= ->] by (eapply legal_det; [apply Hk2|apply Hk]).
      unfold queue_put, blen. by rewrite (proj2 (Z.ltb_ge _ _)), (proj2 (Z.ltb_lt _ _)) by lia. }
    eexists. split; [exact Hm|]. intros s3 Hr3 s4 Hr4. eapply wp_rely; [apply _|etrans; [exact Hr3|exact Hr4]|].
    apply Hfull; [done|lia].
  - exists s2.2. split; [apply no_change; by left|]. rewrite <- surjective_pairing.
    intros s3 Hr3 s4 Hr4. eapply wp_rely; [apply _|etrans; [exact Hr3|exact Hr4]|].
    apply Hroom; [|lia]. destruct Hw as (q2 & t2 & Hk2 & ? & ? & ? & ? & ?).
    assert ((q2, n) = (q, n)) as [= ->] by (eapply legal_det; [apply Hk2|apply Hk]).
    exists q, t2. split_and!; try done; [unfold blen; lia|]. intros. lia.
Qed.

(** The frame is in place: the head moves behind it. *)
Lemma holds_commit buf q t :
  holds c buf q t → used q + (4 + blen d) ≤ Z.max 0 (c - 1) →
  (∀ i, 0 ≤ i < 4 + blen d → buf !! place c ((t + used q) mod c + i) = frame d !! Z.to_nat i) →
  holds c (over 10 (be_bytes 4 (((t + used q) mod c + (4 + blen d)) mod c)) buf) (q ++ [d]) t.
Proof.
  intros [Hl Hcp Ht Hr Hh Hf Hb] Hroom Hfr. set (h := (_ + _) mod c).
  pose proof (used_nonneg q). assert (used (q ++ [d]) = used q + (4 + blen d)) as Hu.
  { rewrite used_app, used_cons. unfold used at 2, frames, blen. simpl. lia. }
  assert (0 ≤ blen d) by (unfold blen; lia). assert (0 < c) as Hc by lia. unfold _HEADER_SIZE in *.
  assert (blen (be_bytes 4 h) = 4) as H4 by done. pose proof (Z.mod_pos_bound ((t + used q) mod c + (4 + blen d)) c Hc) as Hhb.
  assert (∀ i, 0 ≤ i → i < 10 ∨ 14 ≤ i → over 10 (be_bytes 4 h) buf !! Z.to_nat i = buf !! Z.to_nat i) as Hout.
  { intros. apply lookup_over_out; lia. }
  split.
  - rewrite blen_over. unfold _HEADER_SIZE. lia.
  - etrans; [|exact Hcp]. apply field_same; [lia|lia|apply blen_over|]. intros. apply Hout; lia.
  - etrans; [|exact Ht]. apply field_same; [lia|lia|apply blen_over|]. intros. apply Hout; lia.
  - done.
  - rewrite field_over; [|lia|lia|unfold h; change (256 ^ Z.of_nat 4) with (2 ^ 32); lia].
    unfold h. rewrite Zplus_mod_idemp_l, Hu. f_equal. lia.
  - lia.
  - intros i Hi. rewrite Hu in Hi. unfold frames. rewrite map_app, concat_app. simpl. rewrite app_nil_r.
    pose proof (place_lower (t + i) Hc). rewrite <- (Nat2Z.id (place _ _)), Hout, Nat2Z.id by lia.
    fold (frames q). unfold used in *. destruct (decide (i < blen (frames q))).
    + rewrite lookup_app_l by (unfold blen in *; lia). apply Hb. lia.
    + rewrite lookup_app_r by (unfold blen in *; lia).
      replace (Z.to_nat i - length (frames q))%nat with (Z.to_nat (i - blen (frames q))) by (unfold blen in *; lia).
      rewrite <- Hfr by lia. f_equal. rewrite place_mod. f_equal. lia.
Qed.

Lemma wp_commit head n s :
  writing done head n n (4 + blen d) (4 + blen d) (frame d) s → 0 ≤ n < 2 ^ 64 - 1 →
  wpw (_update_head ((head + (4 + blen d)) mod c) (n + 1);; mret (n + 1))
    (λ r s', write_idle (done ++ [(d, r)]) s') s.
Proof.
  intros Hw Hn. assert (0 ≤ blen d) by (unfold blen; lia).
  destruct (writing_facts _ _ _ _ _ _ _ Hw ltac:(lia)) as (Hc & Hhead & _).
  set (h := (head + _) mod c). pose proof (Z.mod_pos_bound (head + (4 + blen d)) c Hc) as Hh.
  assert (256 ^ Z.of_nat 4 = 2 ^ 32 ∧ 256 ^ Z.of_nat 8 = 2 ^ 64) as [H32 H64] by done.
  apply wp_bind; [apply _|]. apply wp_bind; [apply _|].
  apply wp_pack_into; [apply _|unfold h; lia|unfold writer_field; lia|].
  intros s1 Hr1. eapply writing_stable in Hw; [|lia|lia|exact Hr1]. clear s Hr1.
  destruct Hw as (q & t & Hk & Hhd & Hroom & Hputs & Hseq & Hwr). pose proof (used_nonneg q).
  pose proof (hd_len _ _ _ _ (proj2 Hk)) as Hlen. unfold _HEADER_SIZE in Hlen.
  assert (queue_put c (q, n) d = (Ok (n + 1), (q ++ [d], n + 1))) as Hput.
  { unfold queue_put. by rewrite !(proj2 (Z.ltb_ge _ _)) by lia. }
  rewrite Hhd in Hwr. pose proof (holds_commit _ _ _ (proj2 Hk) Hroom Hwr) as Hh1. rewrite <- Hhd in Hh1. fold h in Hh1.
  pose proof (known_put _ _ _ _ _ _ _ _ Hk Hput Hh1) as Hk1.
  assert (∀ i, 14 ≤ i → over 10 (be_bytes 4 h) s1.1 !! Z.to_nat i = s1.1 !! Z.to_nat i) as Hout.
  { intros. apply lookup_over_out; [lia|lia|]. change (blen (be_bytes 4 h)) with 4. lia. }
  split; [lia|]. eexists. split.
  { eapply may_put; [done|exact Hk1|apply blen_over|]. intros. apply Hout. lia. }
  assert (writing (done ++ [(d, Ok (n + 1))]) h (n + 1) n 0 0 [] (over 10 (be_bytes 4 h) s1.1, s1.2 ++ [Put d (Ok (n + 1))])) as Hw.
  { exists (q ++ [d]), t. split; [done|]. split_and!.
    - rewrite <- (hd_head _ _ _ _ Hh1), field_over; [done|lia|lia|]. change (256 ^ Z.of_nat 4) with (2 ^ 32). unfold h. lia.
    - pose proof (hd_fits _ _ _ _ Hh1). lia.
    - simpl. by rewrite puts_app, Hputs.
    - simpl. rewrite <- Hseq. apply field_same; [lia|lia|apply blen_over|]. intros. apply Hout. lia.
    - intros. lia. }
  intros s1' Hr1'. apply (between_stable _ _ _ _ _ _ Hr1') in Hw.
  apply wp_pack_into; [apply _|lia|unfold writer_field, _HEADER_SIZE; lia|].
  intros s2 Hr2. apply (between_stable _ _ _ _ _ _ Hr2) in Hw. clear Hr2 Hr1' Hk1 Hh1 Hout Hk Hputs Hseq Hwr Hlen Hput.
  destruct Hw as (q2 & t2 & Hk & Hhd2 & Hfits & Hputs & Hseq & _).
  pose proof (hd_len _ _ _ _ (proj2 Hk)) as Hlen. unfold _HEADER_SIZE in Hlen. set (bs := be_bytes 8 (n + 1)).
  assert (∀ i, 0 ≤ i → i < 18 ∨ 26 ≤ i → over 18 bs s2.1 !! Z.to_nat i = s2.1 !! Z.to_nat i) as Hout.
  { intros. apply lookup_over_out; [lia|lia|]. change (blen bs) with 8. lia. }
  assert (known (over 18 bs s2.1, s2.2) q2 (n + 1) t2) as Hk2.
  { destruct Hk as [? Hh2]. split; [done|]. eapply holds_data; [exact Hh2|apply blen_over|intros; apply Hout; lia|].
    intros i Hi. pose proof (place_lower (t2 + i) Hc). rewrite <- (Nat2Z.id (place _ _)). apply Hout; lia. }
  split; [lia|]. exists s2.2. split.
  { split; [split; simpl|right; by exists (d, Ok (n + 1))]; [intros _; by eexists _, _, _|apply blen_over
      |intros; apply Hout; lia|exists []; by rewrite app_nil_r]. }
  intros s3 Hr3 s4 Hr4. exists h, (n + 1). eapply between_stable; [etrans; [exact Hr3|exact Hr4]|]. exists q2, t2. split_and!; try done; [|intros; lia].
  simpl. apply field_over; [lia|lia|]. change (256 ^ Z.of_nat 8) with (2 ^ 64). lia.
Qed.

Lemma wp_write s :
  write_idle done s → blen done < 2 ^ 64 - 1 → wpw (write d) (λ r s', write_idle (done ++ [(d, r)]) s') s.
Proof.
  intros (head & n & Hw) Hlen. assert (0 ≤ blen d) by (unfold blen; lia).
  assert (0 ≤ n < 2 ^ 64 - 1) as Hn.
  { destruct Hw as (q & t & [Hlog _] & _ & _ & Hputs & _). apply legal_fifo in Hlog as [_ Hn]. simpl in Hn.
    rewrite Hputs in Hn. pose proof (length_accepted done).
    unfold blen in *. lia. }
  unfold write. apply wp_header; [apply _|]. intros s1 Hr1. apply (between_stable _ _ _ _ _ _ Hr1) in Hw. clear s Hr1.
  destruct (writing_header _ _ _ _ _ _ _ _ Hw) as (Hl1 & -> & -> & -> & Hp1). split; [done|].
  destruct (Z.ltb_spec (c - 1) (4 + blen d)) as [Hbig|Hfit].
  { destruct (refuse head n too_large s1 Hw) as [Hm Hw1].
    { intros q t _. unfold queue_put. by rewrite (proj2 (Z.ltb_lt _ _)) by lia. }
    eexists. split; [exact Hm|]. intros s2 Hr2. exists head, n. by eapply between_stable. }
  exists s1.2. split; [apply no_change; by left|]. rewrite <- surjective_pairing.
  eapply wp_available; [exact Hw|lia|..].
  { intros s2 room Hw2 Hroom. rewrite (proj2 (Z.ltb_lt _ _)) by lia.
    apply wp_bind; [apply _|]. unfold available_write_bytes. apply wp_header; [apply _|].
    intros s3 Hr3. apply (between_stable _ _ _ _ _ _ Hr3) in Hw2.
    destruct (writing_header _ _ _ _ _ _ _ _ Hw2) as (Hl3 & _ & _ & _ & Hp3). split; [done|]. exists s3.2.
    split; [apply no_change; eauto|]. rewrite <- surjective_pairing. apply wp_bind; [apply _|].
    unfold available_read_bytes. apply wp_header; [apply _|].
    intros s4 Hr4. apply (between_stable _ _ _ _ _ _ Hr4) in Hw2.
    destruct (writing_header _ _ _ _ _ _ _ _ Hw2) as (Hl4 & _ & _ & _ & Hp4). split; [done|]. exists s4.2.
    split; [apply no_change; eauto|]. rewrite <- surjective_pairing.
    intros s5 Hr5 s6 Hr6 s7 Hr7. exists head, n. eapply between_stable; [|exact Hw2].
    etrans; [exact Hr5|]. by etrans. }
  intros s2 room Hw2 Hroom. rewrite (proj2 (Z.ltb_ge _ _)) by lia.
  destruct (writing_facts _ _ _ _ _ _ _ Hw2 ltac:(lia)) as (Hc & Hhead & _).
  unfold pack. change (256 ^ Z.of_nat 4) with (2 ^ 32).
  rewrite (proj2 (Z.leb_le 0 _)), (proj2 (Z.ltb_lt (blen d) (2 ^ 32))) by lia.
  change (wpw (write_frame c head (frame d);; new_head ← Done (py_mod (head + (4 + blen d)) c);
    _update_head new_head (n + 1);; mret (n + 1)) (λ r s', write_idle (done ++ [(d, r)]) s') s2).
  apply wp_bind; [apply _|]. rewrite <- blen_frame in Hw2. eapply wp_mono; [|apply wp_write_frame; [exact Hw2|rewrite blen_frame; lia]].
  intros r s3 [-> Hw3]. rewrite blen_frame in Hw3. unfold py_mod. rewrite (proj2 (Z.eqb_neq _ _)) by lia.
  by apply wp_commit.
Qed.

End writer.

(** ** The reader *)

Definition reads (done : list (unit * result (option bytes))) (s s' : shared) : Prop :=
  reader_may s s' ∧ within done (λ x, x.1 = tt) (gots s'.2).

Definition read_idle (l : list (unit * result (option bytes))) (s : shared) : Prop := sound s ∧ gots s.2 = l.

Lemma read_idle_stable l s s' : writer_may s s' → read_idle l s → read_idle l s'.
Proof.
  intros [Hs _ _ (ext & He & Hg)] [Hsound Hgots]. split; [by apply Hs|]. by rewrite He, gots_app, Hg, app_nil_r.
Qed.

Section reader.

Context (done : list (unit * result (option bytes))).

#[local] Abbreviation wpr := (wp writer_may (reads done) reader_field).

Lemma keep_reading s : gots s.2 = done → reads done s (s.1, s.2).
Proof. intros Hg. destruct s. split; [reflexivity|by left]. Qed.

Lemma known_get s q n t r q' n' t' buf :
  gots s.2 = done → known s q n t → queue_get (q, n) = (r, (q', n')) → holds c buf q' t' → blen buf = blen s.1 →
  (∀ i, 0 ≤ i → i < 14 ∨ 18 ≤ i → buf !! Z.to_nat i = s.1 !! Z.to_nat i) →
  reads done s (buf, s.2 ++ [Got r]) ∧ read_idle (done ++ [(tt, r)]) (buf, s.2 ++ [Got r]).
Proof.
  intros Hg [Hlog _] Hget Hh Hl Hb.
  assert (known (buf, s.2 ++ [Got r]) q' n' t') as Hk.
  { split; [|done]. apply legal_app. eauto using legal. }
  split; [split; [split|]|split]; simpl; [intros _; by eexists _, _, _|done|done|by exists [Got r]| | |].
  - right. exists (tt, r). by rewrite gots_app, Hg.
  - by eexists _, _, _.
  - by rewrite gots_app, Hg.
Qed.

(** Bytes that stay what they are are read, around the end of the circle or not. *)
Section stays.

Context (P : shared → Prop) (P_stable : ∀ s s', writer_may s s' → P s → P s').

Lemma wp_peeks xs i s :
  _HEADER_SIZE ≤ i → P s → (∀ s j, P s → 0 ≤ j < blen xs → s.1 !! Z.to_nat (i + j) = xs !! Z.to_nat j) →
  wpr (peeks (length xs) i) (λ r s', r = Ok xs ∧ P s') s.
Proof.
  revert i s. induction xs as [|x xs IH]; intros i s Hi Hp Hb; [by intros s1 Hr1; eauto|].
  intros s1 Hr1. split; [done|]. pose proof (P_stable _ _ Hr1 Hp) as Hp1.
  assert (blen (x :: xs) = 1 + blen xs) as Hl by (unfold blen; simpl; lia). assert (0 ≤ blen xs) by (unfold blen; lia).
  assert (byte_at i s1.1 = x) as ->.
  { unfold byte_at. by rewrite <- (Z.add_0_r i), (Hb _ _ Hp1) by lia. }
  apply wp_bind; [apply _|]. eapply wp_mono; [|apply IH; [lia|exact Hp1|]].
  - intros r s2 [-> Hp2] s3 Hr3. eauto.
  - intros s2 j Hp2 Hj. replace (i + 1 + j) with (i + (j + 1)) by lia. rewrite Hb by (done || lia).
    replace (Z.to_nat (j + 1)) with (S (Z.to_nat j)) by lia. done.
Qed.

Lemma wp_copy_out lo hi xs s :
  _HEADER_SIZE ≤ lo → hi = lo + blen xs → hi ≤ _HEADER_SIZE + c → P s →
  (∀ s, P s → _HEADER_SIZE + c ≤ blen s.1) →
  (∀ s j, P s → 0 ≤ j < blen xs → s.1 !! Z.to_nat (lo + j) = xs !! Z.to_nat j) →
  wpr (copy_out lo hi) (λ r s', r = Ok xs ∧ P s') s.
Proof.
  intros Hlo -> Hhi Hp Hl Hb s1 Hr1. pose proof (P_stable _ _ Hr1 Hp) as Hp1. pose proof (Hl _ Hp1).
  unfold _HEADER_SIZE, blen in *. rewrite !slice_index_in by lia.
  replace (Z.to_nat (lo + Z.of_nat (length xs) - lo)) with (length xs) by lia. by apply wp_peeks.
Qed.

Lemma wp_circular off xs s :
  (∀ s, P s → _HEADER_SIZE + c ≤ blen s.1 ∧
              ∀ i, 0 ≤ i < blen xs → s.1 !! place c (off + i) = xs !! Z.to_nat i) →
  0 ≤ off < c → blen xs ≤ c → P s →
  wpr (_read_bytes_circular off (blen xs) c) (λ r s', r = Ok xs ∧ P s') s.
Proof.
  intros Hbytes Hoff Hlen Hp. assert (0 ≤ blen xs) by (unfold blen; lia).
  assert (∀ s, P s → _HEADER_SIZE + c ≤ blen s.1) as Hl by (intros; by apply Hbytes).
  assert (∀ s i, P s → 0 ≤ i < blen xs → s.1 !! place c (off + i) = xs !! Z.to_nat i) as Hb
    by (intros; by apply Hbytes). clear Hbytes. unfold place in Hb.
  unfold _read_bytes_circular. destruct (Z.leb_spec (off + blen xs) c) as [Hle|Hgt].
  - apply wp_copy_out; unfold _HEADER_SIZE in *; try done; try lia. intros s1 j Hp1 Hj.
    by rewrite <- (Hb s1), (Z.mod_small (off + j)), Z.add_assoc by (done || lia).
  - set (k := c - off). assert (blen (take (Z.to_nat k) xs) = k) as Hk1.
    { unfold blen, k in *. rewrite length_take. lia. }
    assert (blen (drop (Z.to_nat k) xs) = blen xs - k) as Hk2.
    { unfold blen, k in *. rewrite length_drop. lia. }
    apply wp_bind; [apply _|]. eapply wp_mono; [|apply (wp_copy_out _ _ (take (Z.to_nat k) xs))];
      rewrite ?Hk1; unfold _HEADER_SIZE in *; try done; try lia.
    2: { intros s1 j Hp1 Hj. rewrite lookup_take_lt, <- (Hb s1), (Z.mod_small (off + j)), Z.add_assoc by (done || lia). done. }
    intros r s1 [-> Hp1]. apply wp_bind; [apply _|]. eapply wp_mono; [|apply (wp_copy_out _ _ (drop (Z.to_nat k) xs))];
      rewrite ?Hk2; unfold _HEADER_SIZE in *; try done; try lia.
    + intros r s2 [-> Hp2] s3 Hr3. rewrite take_drop. eauto.
    + intros s2 j Hp2 Hj. rewrite lookup_drop. replace (Z.to_nat k + Z.to_nat j)%nat with (Z.to_nat (k + j)) by lia.
      rewrite <- (Hb s2) by (done || lia). do 3 f_equal. replace (off + (k + j)) with (j + 1 * c) by (unfold k; lia).
      rewrite Z_mod_plus_full, Z.mod_small; lia.
Qed.

End stays.

(** Where the first message lies. *)
Lemma reading_frame d t s :
  reading done d t s →
  0 < c ∧ 0 ≤ t < c ∧ 4 + blen d < c ∧ _HEADER_SIZE + c ≤ blen s.1 ∧ gots s.2 = done ∧
  ∀ i, 0 ≤ i < 4 + blen d → s.1 !! place c (t + i) = frame d !! Z.to_nat i.
Proof.
  intros (q & n & [_ Hh] & Hg). pose proof (used_cons d q) as Hu. pose proof (used_nonneg q).
  pose proof (hd_fits _ _ _ _ Hh). pose proof (hd_range _ _ _ _ Hh). assert (0 ≤ blen d) by (unfold blen; lia).
  split; [lia|]. split; [lia|]. split; [lia|]. split; [by apply (hd_len _ _ _ _ Hh)|]. split; [done|].
  intros i Hi. rewrite (hd_bytes _ _ _ _ Hh), frames_cons by lia. apply lookup_app_l.
  pose proof (blen_frame d). unfold blen in *. lia.
Qed.

(** The tail moves behind the first message. *)
Lemma holds_taken buf d q t :
  holds c buf (d :: q) t →
  holds c (over 14 (be_bytes 4 ((t + 4 + blen d) mod c)) buf) q ((t + 4 + blen d) mod c).
Proof.
  intros [Hl Hcp Ht Hr Hh Hf Hb]. set (t' := (_ + _) mod c). rewrite used_cons in Hh, Hf, Hb.
  pose proof (used_nonneg q). assert (0 ≤ blen d) by (unfold blen; lia). assert (0 < c) as Hc by lia.
  pose proof (Z.mod_pos_bound (t + 4 + blen d) c Hc) as Htb. unfold _HEADER_SIZE in *.
  assert (∀ i, 0 ≤ i → i < 14 ∨ 18 ≤ i → over 14 (be_bytes 4 t') buf !! Z.to_nat i = buf !! Z.to_nat i) as Hout.
  { intros. apply lookup_over_out; [lia|lia|]. change (blen (be_bytes 4 t')) with 4. lia. }
  split.
  - rewrite blen_over. unfold _HEADER_SIZE. lia.
  - etrans; [|exact Hcp]. apply field_same; [lia|lia|apply blen_over|]. intros. apply Hout; lia.
  - apply field_over; [lia|lia|]. change (256 ^ Z.of_nat 4) with (2 ^ 32). unfold t'. lia.
  - unfold t'. lia.
  - etrans; [apply (field_same 10 4 buf); [lia|lia|apply blen_over|intros; apply Hout; lia]|].
    rewrite Hh. unfold t'. rewrite Zplus_mod_idemp_l. f_equal. lia.
  - lia.
  - intros i Hi. pose proof (place_lower (t' + i) Hc). rewrite <- (Nat2Z.id (place _ _)), Hout, Nat2Z.id by lia.
    unfold t'. rewrite place_mod. replace (t + 4 + blen d + i) with (t + (4 + blen d + i)) by lia.
    rewrite Hb, frames_cons by lia. pose proof (blen_frame d) as Hfr. unfold blen in *.
    rewrite lookup_app_r by lia. f_equal. lia.
Qed.

Lemma wp_take d t s :
  reading done d t s →
  wpr (_update_tail ((t + 4 + blen d) mod c);; mret (Some d)) (λ r s', read_idle (done ++ [(tt, r)]) s') s.
Proof.
  intros Hp. destruct (reading_frame _ _ _ Hp) as (Hc & Ht & _). assert (0 ≤ blen d) by (unfold blen; lia).
  pose proof (Z.mod_pos_bound (t + 4 + blen d) c Hc) as Htb. set (t' := (_ + _) mod c) in *.
  assert (256 ^ Z.of_nat 4 = 2 ^ 32) as H32 by done. apply wp_bind; [apply _|].
  apply wp_pack_into; [apply _|lia|unfold reader_field; lia|].
  intros s1 Hr1. apply (reading_stable _ _ _ _ _ Hr1) in Hp. destruct Hp as (q & n & Hk & Hg).
  pose proof (hd_len _ _ _ _ (proj2 Hk)) as Hlen. unfold _HEADER_SIZE in Hlen.
  destruct (known_get s1 (d :: q) n t (Ok (Some d)) q n t' (over 14 (be_bytes 4 t') s1.1)) as [Hm Hi]; try done.
  - apply holds_taken, Hk.
  - apply blen_over.
  - intros i Hi0 Hi. apply lookup_over_out; [lia|done|]. change (blen (be_bytes 4 t')) with 4. lia.
  - split; [lia|]. eexists. split; [exact Hm|]. intros s2 Hr2 s3 Hr3.
    eapply read_idle_stable; [|exact Hi]. by etrans.
Qed.

Lemma wp_read s : read_idle done s → wpr read (λ r s', read_idle (done ++ [(tt, r)]) s') s.
Proof.
  intros Hi. unfold read. apply wp_header; [apply _|]. intros s1 Hr1. eapply read_idle_stable in Hi; [|exact Hr1].
  destruct Hi as [(q & n & t & Hk) Hg]. pose proof (proj2 Hk) as Hh. pose proof (hd_len _ _ _ _ Hh).
  pose proof (hd_fits _ _ _ _ Hh). pose proof (hd_range _ _ _ _ Hh).
  split; [lia|]. rewrite (hd_capacity _ _ _ _ Hh), (hd_head _ _ _ _ Hh), (hd_tail _ _ _ _ Hh).
  destruct q as [|d q].
  { destruct (known_get s1 [] n t (Ok None) [] n t s1.1) as [Hm Hi]; try done. eexists. split; [exact Hm|].
    assert ((t + used []) mod c = t) as ->.
    { change (used []) with 0. rewrite Z.add_0_r. destruct (decide (c = 0)) as [->|].
      - rewrite Z.mod_0_r. done.
      - apply Z.mod_small. lia. }
    rewrite Z.eqb_refl. intros s2 Hr2. by eapply read_idle_stable. }
  assert (reading done d t s1) as Hp by (by exists q, n).
  destruct (reading_frame _ _ _ Hp) as (Hc & Ht & Hd & _). assert (0 ≤ blen d) by (unfold blen; lia).
  exists s1.2. split; [by apply keep_reading|]. rewrite <- surjective_pairing.
  rewrite used_cons in *. pose proof (used_nonneg q).
  rewrite (proj2 (Z.eqb_neq _ _)).
  2: { intros E. apply (mod_apart c t (t + (4 + blen d + used q))); [lia|lia|]. by rewrite E, Z.mod_small. }
  assert (∀ s, reading done d t s → _HEADER_SIZE + c ≤ blen s.1 ∧
    ∀ i, 0 ≤ i < 4 + blen d → s.1 !! place c (t + i) = frame d !! Z.to_nat i) as Hframe.
  { intros s2 Hs2. by destruct (reading_frame _ _ _ Hs2) as (_ & _ & _ & ? & _ & ?). }
  apply wp_bind; [apply _|]. change 4 with (blen (be_bytes 4 (blen d))) at 1.
  eapply wp_mono; [|apply (wp_circular (reading done d t)); [by apply reading_stable| |done|change (blen _) with 4; lia|exact Hp]].
  2: { intros s2 Hs2. destruct (Hframe _ Hs2) as [? Hb]. split; [done|].
    change (blen (be_bytes 4 (blen d))) with 4. intros i Hi. rewrite Hb by lia. unfold frame. apply lookup_app_l.
    rewrite length_be_bytes. lia. }
  intros r s2 [-> Hs2]. change (blen (be_bytes 4 (blen d)) =? 4) with true. cbn [negb raise_if].
  rewrite be_value_bytes by (change (256 ^ Z.of_nat 4) with (2 ^ 32); lia). unfold py_mod.
  rewrite (proj2 (Z.eqb_neq c 0)) by lia.
  change (wpr (payload ← _read_bytes_circular ((t + 4) mod c) (blen d) c;
    _update_tail ((t + 4 + blen d) mod c);; mret (Some payload)) (λ r s', read_idle (done ++ [(tt, r)]) s') s2).
  apply wp_bind; [apply _|]. pose proof (Z.mod_pos_bound (t + 4) c Hc).
  eapply wp_mono; [|apply (wp_circular (reading done d t)); [by apply reading_stable| |done|lia|exact Hs2]].
  2: { intros s3 Hs3. destruct (Hframe _ Hs3) as [? Hb]. split; [done|].
    intros i Hi. rewrite place_mod, <- Z.add_assoc, Hb by lia. unfold frame.
    rewrite lookup_app_r by (rewrite length_be_bytes; lia). rewrite length_be_bytes. f_equal. lia. }
  intros r s3 [-> Hs3]. by apply wp_take.
Qed.

End reader.

(** ** Processes whose calls of [struct] are one step *)

Section process.

Context {Op Res : Type} (call : Op → prog Res) (fit : list (Op * result Res) → Prop).
Context (idle : list (Op * result Res) → shared → Prop) (rely may : shared → shared → Prop) (mine : Z → Prop)
  `{!PreOrder rely, !PreOrder may}.
Context (own : list event → list (Op * result Res)).
Context (call_ok : ∀ done op s, idle done s → fit done →
  wp rely (λ s s', may s s' ∧ within done (λ x, x.1 = op) (own s'.2)) mine (call op) (λ r s', idle (done ++ [(op, r)]) s') s).
Context (idle_own : ∀ l s, idle l s → own s.2 = l) (idle_stable : ∀ l s s', rely s s' → idle l s → idle l s').
Context (rely_own : ∀ s s', rely s s' → own s'.2 = own s.2).

Definition working (p : Process prog Op Res) (s : shared) : Prop :=
  match pr_now p with
  | None => idle (pr_done p) s
  | Some (op, k) =>
      wp rely (λ s s', may s s' ∧ within (pr_done p) (λ x, x.1 = op) (own s'.2)) mine k
        (λ r s', idle (pr_done p ++ [(op, r)]) s') s ∧
      within (pr_done p) (λ x, x.1 = op) (own s.2)
  end.

Lemma working_stable p s s' : rely s s' → working p s → working p s'.
Proof.
  intros Hr. unfold working. destruct (pr_now p) as [[op k]|]; [|by eauto].
  intros [Hw Hin]. split; [by eapply wp_rely|]. by rewrite (rely_own _ _ Hr).
Qed.

Lemma working_step p p' buf buf' log :
  process_step call p buf = (p', buf') → working p (buf, log) →
  (∀ op todo, pr_now p = None → pr_todo p = op :: todo → fit (pr_done p)) →
  ∃ log', may (buf, log) (buf', log') ∧ working p' (buf', log').
Proof.
  unfold process_step, working. destruct (pr_now p) as [[op [r|k|i k|i b k|k|i bs k]]|] eqn:En; simpl.
  - intros [= <- <-] [Hw _] _. exists log. split; [reflexivity|]. simpl. apply Hw. reflexivity.
  - intros [= <- <-] [Hw Hin] _. exists log. split; [reflexivity|]. simpl. split; [|done].
    apply (Hw (buf, log)). reflexivity.
  - intros [= <- <-] [Hw Hin] _. exists log. split; [reflexivity|]. simpl. split; [|done].
    apply (Hw (buf, log)). reflexivity.
  - intros [= <- <-] [Hw _] _. destruct (Hw (buf, log)) as (_ & [Hm Hin] & Hk); [reflexivity|]. by exists log.
  - intros [= <- <-] [Hw _] _. destruct (Hw (buf, log)) as (log' & [Hm Hin] & Hk); [reflexivity|]. by exists log'.
  - intros [= <- <-] [Hw _] _. destruct (Hw (buf, log)) as (_ & log' & [Hm Hin] & Hk); [reflexivity|]. by exists log'.
  - destruct (pr_todo p) as [|op todo] eqn:Et; intros [= <- <-] Hi Hfit; exists log; (split; [reflexivity|]).
    + by rewrite En.
    + simpl. split; [apply call_ok; [done|by eapply Hfit]|]. left. by apply (idle_own _ (buf, log)).
Qed.

(** Where the next step of a program reads or writes. *)
Definition foot (p : prog Res) : Prop :=
  match p with
  | Peek i _ | Poke i _ _ => _HEADER_SIZE ≤ i
  | Pack at_ bs _ => ∀ i, at_ ≤ i < at_ + blen bs → mine i
  | _ => True
  end.

Lemma working_foot p s op k : working p s → pr_now p = Some (op, k) → foot k.
Proof.
  unfold working. intros Hp Hn. rewrite Hn in Hp. destruct Hp as [Hw _].
  destruct k; simpl; try done; destruct (Hw s ltac:(reflexivity)); done.
Qed.

(** An operation that took effect and did not return yet. *)
Definition follows {M} (p : Process M Op Res) (effects : list (Op * result Res)) : Prop :=
  effects = pr_done p ∨ ∃ op k r, pr_now p = Some (op, k) ∧ effects = pr_done p ++ [(op, r)].

Lemma working_follows p s : working p s → follows p (own s.2).
Proof.
  unfold working, follows. destruct (pr_now p) as [[op k]|] eqn:En; [|left; by apply idle_own].
  intros [_ [?|([op' r] & Hop & ?)]]; [by left|]. simpl in Hop. subst op'. right. by exists op, k, r.
Qed.

End process.

Definition calls {M Op Res} (p : Process M Op Res) : list Op :=
  map fst (pr_done p) ++ match pr_now p with Some (op, _) => [op] | None => [] end ++ pr_todo p.

Lemma calls_step {M} `{Machine M} {Op Res} (call : Op → prog Res) p buf : calls (process_step call p buf).1 = calls p.
Proof.
  unfold calls, process_step. destruct (pr_now p) as [[op m]|] eqn:En.
  - destruct (outcome m); [by simpl; rewrite map_app, <- app_assoc|]. by destruct (advance m buf).
  - by destruct (pr_todo p) eqn:Et; simpl; rewrite ?En, ?Et.
Qed.

(** ** The pair *)

Definition pair_ok (s : Pair prog) (log : list event) : Prop :=
  sound (pa_buf s, log) ∧
  working write_idle reader_may writer_may writer_field puts (pa_writer s) (pa_buf s, log) ∧
  working read_idle writer_may reader_may reader_field gots (pa_reader s) (pa_buf s, log).

Lemma reader_may_puts s s' : reader_may s s' → puts s'.2 = puts s.2.
Proof. intros [_ _ _ (ext & He & Hp)]. by rewrite He, puts_app, Hp, app_nil_r. Qed.
Lemma writer_may_gots s s' : writer_may s s' → gots s'.2 = gots s.2.
Proof. intros [_ _ _ (ext & He & Hp)]. by rewrite He, gots_app, Hp, app_nil_r. Qed.
Lemma write_idle_stable l s s' : reader_may s s' → write_idle l s → write_idle l s'.
Proof. intros Hr (head & n & Hw). exists head, n. by eapply between_stable. Qed.
Lemma write_idle_own l s : write_idle l s → puts s.2 = l.
Proof. by intros (head & n & q & t & _ & _ & _ & Hp & _). Qed.

Lemma pair_step_ok s w log :
  pair_ok s log → blen (calls (pa_writer s)) < 2 ^ 64 → ∃ log', pair_ok (pair_step s w) log'.
Proof.
  intros (Hs & Hw & Hr) Hlen. unfold pair_step. destruct w.
  - destruct (process_step write (pa_writer s) (pa_buf s)) as [p buf] eqn:E.
    edestruct (working_step write (λ l, blen l < 2 ^ 64 - 1) write_idle reader_may writer_may writer_field puts)
      as (log' & Hm & Hw'); [intros; by apply wp_write|apply write_idle_own|exact E|exact Hw| |].
    { intros op todo En Et. unfold calls, blen in *. rewrite En, Et, !length_app, length_map in Hlen. simpl in Hlen. lia. }
    exists log'. split; [by eapply wm_sound|]. split; [done|]. simpl.
    eapply working_stable; [apply _|apply read_idle_stable|apply writer_may_gots|exact Hm|exact Hr].
  - destruct (process_step (λ _, read) (pa_reader s) (pa_buf s)) as [p buf] eqn:E.
    edestruct (working_step (λ _, read) (λ _, True) read_idle writer_may reader_may reader_field gots)
      as (log' & Hm & Hr'); [intros done [] ? Hi _; by apply wp_read|by intros ?? []|exact E|exact Hr|done|].
    exists log'. split; [by eapply rm_sound|]. split; [|done]. simpl.
    eapply working_stable; [apply _|apply write_idle_stable|apply reader_may_puts|exact Hm|exact Hw].
Qed.

Lemma pair_writer_calls {M} `{Machine M} (s : Pair M) w : calls (pa_writer (pair_step s w)) = calls (pa_writer s).
Proof.
  unfold pair_step. destruct w; [pose proof (calls_step write (pa_writer s) (pa_buf s))|]; by destruct (process_step _ _ _).
Qed.

End ring.

(** ** A new segment *)

Lemma exec_bind {A B} (p : prog A) (f : A → prog B) buf :
  exec (p ≫= f) buf = match exec p buf with (Ok a, buf) => exec (f a) buf | (Err e, buf) => (Err e, buf) end.
Proof. revert buf. by induction p as [[]| | | | |]; intros buf; simpl. Qed.

Lemma exec_copy_in lo hi bs buf :
  0 ≤ lo → hi = lo + blen bs → hi ≤ blen buf → exec (copy_in lo hi bs) buf = (Ok tt, over lo bs buf).
Proof.
  intros Hlo -> Hhi. assert (0 ≤ blen bs) by (unfold blen; lia). unfold copy_in. cbn [exec].
  rewrite !slice_index_in, (proj2 (Z.eqb_eq _ _)) by lia. clear Hhi. revert lo buf Hlo.
  induction bs as [|b bs IH]; intros lo buf Hlo; [done|]. cbn [pokes exec]. rewrite (over_cons lo b bs) by done.
  apply IH; unfold blen; lia.
Qed.

Lemma field_over_other at_ n lo bs buf :
  0 ≤ at_ → at_ + Z.of_nat n ≤ blen buf → 0 ≤ lo → at_ + Z.of_nat n ≤ lo → field at_ n (over lo bs buf) = field at_ n buf.
Proof.
  intros. apply field_same; [done|done|apply blen_over|]. intros. apply lookup_over_out; lia.
Qed.

Lemma field_over_part at_ n bs buf :
  0 ≤ at_ → at_ + Z.of_nat n ≤ blen bs → blen bs ≤ blen buf → field at_ n (over 0 bs buf) = field at_ n bs.
Proof.
  intros. unfold field. f_equal. apply slice_eq; rewrite ?length_slice, ?blen_over by lia; [lia..|].
  intros i Hi. rewrite lookup_slice by lia. rewrite <- (Z.add_0_l (at_ + i)) at 1. apply lookup_over_in; lia.
Qed.

Lemma created size c buf :
  (∀ k, k ≤ size k) → create size c = Ok buf →
  0 ≤ c < 2 ^ 32 ∧ holds c buf [] 0 ∧ field 18 8 buf = 0 ∧ _validate_header buf = Ok tt.
Proof.
  intros Hsize Hc. unfold create in Hc. apply bind_Ok in Hc as ([] & Hpos & Hc). apply raise_if_Ok in Hpos.
  unfold _init_header, pack in Hc. change (256 ^ Z.of_nat 4) with (2 ^ 32) in Hc.
  destruct ((0 <=? c) && (c <? 2 ^ 32))%bool eqn:Hr; [|done]. bool_hyps. split; [done|].
  pose proof (Hsize (_HEADER_SIZE + c)) as Hs. set (zs := replicate (Z.to_nat (size (_HEADER_SIZE + c))) 0) in Hc.
  assert (_HEADER_SIZE + c ≤ blen zs) as Hz by (unfold zs, blen; rewrite length_replicate; lia).
  set (hdr := (_MAGIC ++ be_bytes 2 _VERSION ++ be_bytes 4 c ++ be_bytes 4 0 ++ be_bytes 4 0 ++ be_bytes 8 0)%list). assert (blen hdr = 26) as Hh by done.
  set (pad := replicate (Z.to_nat (_HEADER_SIZE - _HEADER_RAW_SIZE)) 0). rewrite exec_bind in Hc. cbn [exec] in Hc. rewrite exec_bind in Hc.
  fold hdr pad in Hc. unfold _HEADER_SIZE, _HEADER_RAW_SIZE in *.
  rewrite (exec_copy_in 0 26 hdr) in Hc by (done || lia).
  rewrite (exec_copy_in 26 32 pad) in Hc by (rewrite ?blen_over; (done || lia)).
  injection Hc as <-. set (buf := over 26 pad _).
  assert (∀ a n, 0 ≤ a → a + Z.of_nat n ≤ 26 → field a n buf = field a n hdr) as Hf.
  { intros. unfold buf. rewrite field_over_other, field_over_part; rewrite ?blen_over; try lia. }
  assert (blen buf = blen zs) as Hl by (unfold buf; by rewrite !blen_over).
  split; [|split].
  - split.
    + unfold _HEADER_SIZE. lia.
    + rewrite Hf by lia. change (be_value (be_bytes 4 c) = c). apply be_value_bytes. done.
    + rewrite Hf by lia. done.
    + lia.
    + rewrite Hf by lia. by rewrite Zmod_0_l.
    + change (used []) with 0. lia.
    + change (used []) with 0. intros. lia.
  - rewrite Hf by lia. done.
  - unfold _validate_header, _HEADER_SIZE. rewrite Hf by lia.
    assert (slice 0 4 buf = _MAGIC) as ->.
    { apply slice_eq; [done|done|change (blen _MAGIC) with 4; lia|]. change (blen _MAGIC) with 4. intros i Hi.
      unfold buf. rewrite lookup_over_out by lia. rewrite lookup_over_in by lia.
      unfold hdr. by rewrite lookup_app_l by (simpl; lia). }
    rewrite (proj2 (Z.ltb_ge _ _)) by lia. by rewrite bool_decide_true.
Qed.

(** ** Operations end *)

(** [p] ends within [m] steps on a segment of [n] bytes, whatever it reads. *)
Fixpoint short (n : Z) {A} (p : prog A) (m : nat) : Prop :=
  match p with
  | Done _ => True
  | Size k => (1 ≤ m)%nat ∧ short n (k n) (m - 1)
  | Peek _ k => (1 ≤ m)%nat ∧ ∀ b, short n (k b) (m - 1)
  | Poke _ _ p => (1 ≤ m)%nat ∧ short n p (m - 1)
  | Unpack k => (28 ≤ m)%nat ∧ ∀ bs, short n (k bs) (m - 28)
  | Pack _ bs p => (2 + 2 * length bs ≤ m)%nat ∧ short n p (m - (2 + 2 * length bs))
  end.

Lemma short_le n {A} (p : prog A) m m' : short n p m → (m ≤ m')%nat → short n p m'.
Proof.
  revert m m'. induction p as [r|k IH|i k IH|i b p IH|k IH|i bs p IH]; intros m m' Hs Hle; [done|..];
    destruct Hs as [? Hs]; (split; [lia|]); intros; (eapply IH; [apply Hs|lia]).
Qed.

Lemma short_bind n {A B} m1 m2 (p : prog A) (f : A → prog B) m :
  short n p m1 → (∀ a, short n (f a) m2) → (m1 + m2 ≤ m)%nat → short n (p ≫= f) m.
Proof.
  intros Hp Hf. revert m1 m Hp. induction p as [[a|e]|k IH|i k IH|i b p IH|k IH|i bs p IH]; intros m1 m Hp Hm;
    [by eapply short_le; [apply Hf|lia]|done|..];
    destruct Hp as [? Hp]; (split; [lia|]); intros; (eapply IH; [apply Hp|lia]).
Qed.

Lemma short_header n {A} m m' (f : Z * Z * Z * Z → prog A) :
  (∀ x, short n (f x) m) → (29 + m ≤ m')%nat → short n (_read_header ≫= f) m'.
Proof.
  intros Hf Hm. apply (short_bind n 29 m); [|done|done]. apply (short_bind n 29 0); [|done|lia].
  split; [lia|]. destruct (n <? _); [done|]. split; [lia|done].
Qed.

Lemma short_available n : short n available_write_bytes 58.
Proof.
  apply (short_header n 29); [|lia]. intros [[[c h] t] sq]. apply (short_bind n 29 0); [|done|lia].
  apply (short_header n 0); [|lia]. by intros [[[? ?] ?] ?].
Qed.

Lemma short_pack n k at_ v : short n (pack_into at_ k v) (3 + 2 * k).
Proof.
  split; [lia|]. destruct (n <? _); [done|]. unfold pack. destruct (_ && _)%bool; (split; [|done]);
    rewrite ?length_be_bytes, ?length_replicate; lia.
Qed.

Lemma short_pokes n bs i : short n (pokes i bs) (length bs).
Proof. revert i. induction bs as [|b bs IH]; intros i; [done|]. split; [simpl; lia|]. simpl. by rewrite Nat.sub_0_r. Qed.

Lemma short_peeks n k i : short n (peeks k i) k.
Proof.
  revert i. induction k as [|k IH]; intros i; [done|]. split; [lia|]. intros b.
  apply (short_bind n k 0); [apply IH|done|lia].
Qed.

Lemma short_copy_in n lo hi bs : short n (copy_in lo hi bs) (1 + length bs).
Proof. split; [lia|]. cbv beta zeta. case_match; [|done]. eapply short_le; [apply short_pokes|lia]. Qed.

Lemma short_copy_out n lo hi : 0 ≤ n → short n (copy_out lo hi) (1 + Z.to_nat n).
Proof.
  intros. split; [lia|]. eapply short_le; [apply short_peeks|]. unfold slice_index. repeat case_match; lia.
Qed.

Lemma length_slice_le {A} lo hi (l : list A) : (length (slice lo hi l) ≤ length l)%nat.
Proof. unfold slice. rewrite length_take, length_drop. lia. Qed.

Lemma short_write_frame n c head fr : short n (write_frame c head fr) (2 + 2 * length fr).
Proof.
  unfold write_frame. destruct (_ <=? _); [eapply short_le; [apply short_copy_in|lia]|].
  pose proof (length_slice_le 0 (c - head) fr). pose proof (length_slice_le (c - head) (blen fr) fr).
  eapply short_bind; [apply short_copy_in|intros _; apply short_copy_in|lia].
Qed.

Lemma short_write n d : short n (write d) (148 + 2 * length d).
Proof.
  apply (short_header n (119 + 2 * length d)); [|lia]. intros [[[c h] t] sq]. destruct (_ <? _); [done|].
  apply (short_bind n 58 (61 + 2 * length d)); [apply short_available| |lia]. intros room. destruct (_ <? _).
  { apply (short_bind n 58 0); [apply short_available|done|lia]. }
  unfold pack. destruct (_ && _)%bool; [|done].
  change (Done (Ok ?x) ≫= ?f) with (f x). cbv beta.
  apply (short_bind n (10 + 2 * length d) 30); [| |lia].
  { eapply short_le; [apply short_write_frame|]. rewrite length_app, length_be_bytes. lia. }
  intros _. apply (short_bind n 0 30); [done| |lia]. intros h'. apply (short_bind n 30 0); [|done|lia].
  apply (short_bind n 11 19); [apply short_pack|intros _; apply short_pack|lia].
Qed.

Lemma short_circular n off len c : 0 ≤ n → short n (_read_bytes_circular off len c) (2 + 2 * Z.to_nat n).
Proof.
  intros. unfold _read_bytes_circular. destruct (_ <=? _); [eapply short_le; [by apply short_copy_out|lia]|].
  eapply short_bind; [by apply short_copy_out|intros p1|]; [eapply (short_bind n _ 0)|]; [by apply short_copy_out|done|reflexivity|lia].
Qed.

Lemma short_read n : 0 ≤ n → short n read (48 + 4 * Z.to_nat n).
Proof.
  intros Hn. apply (short_header n (19 + 4 * Z.to_nat n)); [|lia]. intros [[[c h] t] sq]. destruct (_ =? _); [done|].
  apply (short_bind n (2 + 2 * Z.to_nat n) (17 + 2 * Z.to_nat n)); [by apply short_circular| |lia].
  intros bs. apply (short_bind n 0 (17 + 2 * Z.to_nat n)); [done| |lia]. intros _.
  apply (short_bind n 0 (17 + 2 * Z.to_nat n)); [done| |lia]. intros off.
  apply (short_bind n (2 + 2 * Z.to_nat n) 11); [by apply short_circular| |lia]. intros payload.
  apply (short_bind n 0 11); [done| |lia]. intros t'. apply (short_bind n 11 0); [apply short_pack|done|lia].
Qed.

(** What is left of a program, and of a process. *)
Definition left_over (n : Z) {A} (a : access A) (m : nat) : Prop :=
  match a with
  | At p => short n p m
  | Unpacking seen k =>
      (length seen ≤ 26)%nat ∧ (27 - length seen ≤ m)%nat ∧ ∀ bs, short n (k bs) (m - (27 - length seen))
  | Packing todo p => (1 + length todo ≤ m)%nat ∧ short n p (m - (1 + length todo))
  end.

Lemma length_pack_bytes at_ bs : length (pack_bytes at_ bs) = (2 * length bs)%nat.
Proof. unfold pack_bytes, placed. rewrite length_app, length_reverse, !length_imap, length_replicate. lia. Qed.

Lemma access_ends {A} (a : access A) buf m :
  outcome a = None → left_over (blen buf) a m → ∃ m', m = S m' ∧ left_over (blen buf) (access_step a buf).1 m'.
Proof.
  destruct a as [[r|k|i k|i b p|k|i bs p]|seen k|[|[i b] todo] p]; intros Ha Hl; [done|..];
    simpl in Hl; destruct_and?; destruct m as [|m]; try lia; exists m; (split; [done|]); simpl.
  - eapply short_le; [done|lia].
  - eapply short_le; [done|lia].
  - eapply short_le; [done|lia].
  - split_and!; [lia..|]. intros. eapply short_le; [done|lia].
  - rewrite length_pack_bytes. split; [lia|]. eapply short_le; [done|lia].
  - unfold blen at 2, _HEADER_RAW_SIZE. destruct (Z.ltb_spec (Z.of_nat (length seen)) 26); simpl.
    + rewrite length_app. simpl. split_and!; [lia..|]. intros. eapply short_le; [done|lia].
    + eapply short_le; [done|lia].
  - eapply short_le; [done|lia].
  - split; [lia|]. eapply short_le; [done|lia].
Qed.

Definition cost {Op} (K : Op → nat) : list Op → nat := sum_list_with (λ op, 2 + K op)%nat.
Definition ends_within {Op Res} (n : Z) (K : Op → nat) (p : Process access Op Res) (r : nat) : Prop :=
  match pr_now p with
  | None => (cost K (pr_todo p) ≤ r)%nat
  | Some (_, a) => ∃ m, left_over n a m ∧ (1 + m + cost K (pr_todo p) ≤ r)%nat
  end.

Lemma process_ends {Op Res} (call : Op → prog Res) K p buf r :
  (∀ op, short (blen buf) (call op) (K op)) → ends_within (blen buf) K p (S r) →
  ends_within (blen buf) K (process_step call p buf).1 r.
Proof.
  intros HK. unfold ends_within, process_step. destruct (pr_now p) as [[op a]|] eqn:En.
  - intros (m & Hl & Hm). destruct (outcome a) as [x|] eqn:Ea; [simpl; lia|].
    destruct (access_ends _ buf _ Ea Hl) as (m' & -> & Hl'). change (advance a buf) with (access_step a buf).
    destruct (access_step a buf) as [a' buf']. simpl in *. exists m'. split; [done|lia].
  - destruct (pr_todo p) as [|op todo] eqn:Et; simpl; [rewrite En, Et; unfold cost; simpl; lia|].
    unfold cost. simpl. intros Hm. exists (K op). split; [apply HK|]. lia.
Qed.

Lemma ended {Op Res} n K (p : Process access Op Res) : ends_within n K p 0 → map fst (pr_done p) = calls p.
Proof.
  unfold ends_within, cost, calls. destruct (pr_now p) as [[op q]|]; [intros (m & _ & Hm); lia|].
  destruct (pr_todo p); simpl; [by rewrite app_nil_r|lia].
Qed.

Lemma process_blen {Op Res} (call : Op → prog Res) (p : Process access Op Res) buf :
  blen (process_step call p buf).2 = blen buf.
Proof.
  unfold process_step. destruct (pr_now p) as [[op a]|]; [|by destruct (pr_todo p)].
  destruct (outcome a); [done|]. simpl.
  destruct a as [[r|k|i k|i b q|k|i bs q]|seen k|[|[i b] todo] q]; simpl; try done; try apply blen_over.
  by destruct (_ <? _).
Qed.

Lemma pair_blen (s : Pair access) w : blen (pa_buf (pair_step s w)) = blen (pa_buf s).
Proof.
  unfold pair_step. destruct w; [pose proof (process_blen write (pa_writer s) (pa_buf s))
    |pose proof (process_blen (λ _, read) (pa_reader s) (pa_buf s))]; by destruct (process_step _ _ _).
Qed.

Lemma pair_writer_ends schedule s r :
  let K := λ d : bytes, (148 + 2 * length d)%nat in
  ends_within (blen (pa_buf s)) K (pa_writer s) (length (List.filter id schedule) + r) →
  ends_within (blen (pa_buf s)) K (pa_writer (pair_run s schedule)) r.
Proof.
  intros K. revert s. induction schedule as [|w schedule IH]; intros s; [done|]. intros H.
  rewrite <- (pair_blen s w). apply IH. rewrite pair_blen. unfold pair_step. destruct w.
  - pose proof (process_ends write K (pa_writer s) (pa_buf s) _ (short_write _) H) as Hp. by destruct (process_step _ _ _).
  - by destruct (process_step _ _ _).
Qed.

Lemma pair_reader_ends schedule s r :
  let K := λ _ : unit, (48 + 4 * length (pa_buf s))%nat in
  ends_within (blen (pa_buf s)) K (pa_reader s) (length (List.filter negb schedule) + r) →
  ends_within (blen (pa_buf s)) K (pa_reader (pair_run s schedule)) r.
Proof.
  revert s. induction schedule as [|w schedule IH]; intros s; [done|]. intros K H.
  pose proof (pair_blen s w) as Hb. assert (length (pa_buf (pair_step s w)) = length (pa_buf s)) as Hl by (unfold blen in Hb; lia).
  specialize (IH (pair_step s w)). rewrite Hb, Hl in IH. apply IH. clear IH Hb Hl. unfold pair_step. destruct w.
  - by destruct (process_step _ _ _).
  - assert (∀ op, short (blen (pa_buf s)) read (K op)) as HK.
    { intros. eapply short_le; [apply short_read|]; unfold K, blen; lia. }
    pose proof (process_ends (λ _, read) K (pa_reader s) (pa_buf s) _ HK H) as Hp. by destruct (process_step _ _ _).
Qed.

Lemma pair_calls {M} `{Machine M} schedule (s : Pair M) :
  calls (pa_writer (pair_run s schedule)) = calls (pa_writer s) ∧ calls (pa_reader (pair_run s schedule)) = calls (pa_reader s).
Proof.
  revert s. induction schedule as [|w schedule IH]; intros s; [done|]. simpl. destruct (IH (pair_step s w)) as [-> ->].
  unfold pair_step. destruct w.
  - pose proof (calls_step write (pa_writer s) (pa_buf s)). by destruct (process_step _ _ _).
  - pose proof (calls_step (λ _, read) (pa_reader s) (pa_buf s)). by destruct (process_step _ _ _).
Qed.

(** ** Calls of [struct] byte by byte

    What [struct] is about to write is taken as written: where no read of the
    header overlaps with a write of a field, the bytes then are those of a run
    in which a call is one step. *)

Definition written (ws : list (Z * Z)) (buf : bytes) : bytes := foldl (λ buf w, over w.1 [w.2] buf) buf ws.

Lemma written_cons w ws buf : written (w :: ws) buf = written ws (over w.1 [w.2] buf).
Proof. done. Qed.

Lemma written_app ws ws' buf : written (ws ++ ws') buf = written ws' (written ws buf).
Proof. apply foldl_app. Qed.

Lemma blen_written ws buf : blen (written ws buf) = blen buf.
Proof. revert buf. induction ws as [|w ws IH]; intros buf; [done|]. by rewrite written_cons, IH, blen_over. Qed.

Lemma over_written i b ws buf :
  0 ≤ i → Forall (λ w, 0 ≤ w.1 ∧ w.1 ≠ i) ws → over i [b] (written ws buf) = written ws (over i [b] buf).
Proof.
  intros Hi Hws. revert buf. induction Hws as [|w ws [] _ IH]; intros buf; [done|]. rewrite !written_cons, IH.
  f_equal. apply list_insert_insert_ne. lia.
Qed.

Lemma byte_written i ws buf : 0 ≤ i → Forall (λ w, 0 ≤ w.1 ∧ w.1 ≠ i) ws → byte_at i (written ws buf) = byte_at i buf.
Proof.
  intros Hi Hws. revert buf. induction Hws as [|w ws [] _ IH]; intros buf; [done|]. rewrite written_cons, IH.
  unfold byte_at. f_equal. apply list_lookup_insert_ne. lia.
Qed.

(** Bytes of places apart. *)
Definition apart (P P' : Z → Prop) : Prop := ∀ i, (P i → 0 ≤ i ∧ ¬ P' i) ∧ (P' i → 0 ≤ i).

Lemma written_comm P P' ws ws' buf :
  apart P P' → Forall (P ∘ fst) ws → Forall (P' ∘ fst) ws' → written ws (written ws' buf) = written ws' (written ws buf).
Proof.
  intros Hd Hws Hws'. revert buf. induction Hws as [|w ws Hw _ IH]; intros buf; [done|].
  rewrite !written_cons, <- IH. f_equal. destruct (Hd w.1) as [Hp _]. apply over_written; [by apply Hp|].
  eapply Forall_impl; [exact Hws'|]. intros w' Hw'. split; [by apply Hd|]. intros E. simpl in *. rewrite E in Hw'.
  by apply (Hp Hw).
Qed.

Lemma placed_cons at_ b bs : placed at_ (b :: bs) = (at_, b) :: placed (at_ + 1) bs.
Proof.
  unfold placed. simpl. f_equal; [f_equal; lia|]. apply imap_ext. intros j x _. simpl. f_equal. lia.
Qed.

Lemma placed_in at_ bs : Forall (λ w, at_ ≤ w.1 < at_ + blen bs) (placed at_ bs).
Proof.
  revert at_. induction bs as [|b bs IH]; intros at_; [constructor|]. rewrite placed_cons.
  assert (blen (b :: bs) = 1 + blen bs) as -> by (unfold blen; simpl; lia). assert (0 ≤ blen bs) by (unfold blen; lia).
  constructor; [simpl; lia|]. eapply Forall_impl; [apply IH|]. simpl. lia.
Qed.

Lemma written_placed at_ bs buf : 0 ≤ at_ → written (placed at_ bs) buf = over at_ bs buf.
Proof.
  revert at_ buf. induction bs as [|b bs IH]; intros at_ buf Hat; [done|].
  rewrite placed_cons, written_cons, IH by lia. by rewrite (over_cons at_ b bs).
Qed.

Lemma written_reverse at_ bs buf : 0 ≤ at_ → written (reverse (placed at_ bs)) buf = over at_ bs buf.
Proof.
  revert at_ buf. induction bs as [|b bs IH]; intros at_ buf Hat; [done|].
  rewrite placed_cons, reverse_cons, written_app, IH by lia. rewrite (over_cons at_ b bs), <- written_placed by lia.
  cbn. change (<[Z.to_nat at_:=b]> ?l) with (over at_ [b] l). rewrite over_written, written_placed; [done|lia|done|].
  eapply Forall_impl; [apply placed_in|]. simpl. lia.
Qed.

Lemma over_twice at_ bs bs' buf : 0 ≤ at_ → length bs' = length bs → over at_ bs (over at_ bs' buf) = over at_ bs buf.
Proof.
  revert at_ bs' buf. induction bs as [|b bs IH]; intros at_ [|b' bs'] buf Hat Hl; try done.
  rewrite (over_cons at_ b bs), (over_cons at_ b' bs'), (over_cons at_ b bs) by done.
  rewrite <- (written_placed (at_ + 1) bs'), over_written, written_placed, IH by
    (try (eapply Forall_impl; [apply placed_in|]); simpl in *; lia).
  f_equal. apply list_insert_insert_eq.
Qed.

Lemma written_pack at_ bs buf : 0 ≤ at_ → written (pack_bytes at_ bs) buf = over at_ bs buf.
Proof.
  intros. unfold pack_bytes. rewrite written_app, written_placed, written_reverse by done.
  apply over_twice; [done|]. by rewrite length_replicate.
Qed.

Lemma pack_bytes_in at_ bs : Forall (λ w, at_ ≤ w.1 < at_ + blen bs) (pack_bytes at_ bs).
Proof.
  apply Forall_app. split; [|apply Forall_reverse, placed_in].
  eapply Forall_impl; [apply placed_in|]. unfold blen. by rewrite length_replicate.
Qed.

Definition whole_access {A} (a : access A) : prog A :=
  match a with At p => p | Unpacking _ k => Unpack k | Packing _ p => p end.
Definition pending {A} (a : access A) : list (Z * Z) := match a with Packing todo _ => todo | _ => [] end.

(** What was read of the header is still there. *)
Definition seen_in {A} (a : access A) (buf : bytes) : Prop :=
  match a with
  | Unpacking seen _ => blen seen ≤ _HEADER_RAW_SIZE ∧ seen = slice 0 (blen seen) buf
  | _ => True
  end.

(** The first bytes of the header stay, unless [a] starts to write a field. *)
Definition keeps_header {A} (a : access A) (buf buf' : bytes) : Prop :=
  (∃ todo p, a = Packing todo p) ∨ ∀ n, 0 ≤ n ≤ _HEADER_RAW_SIZE → slice 0 n buf' = slice 0 n buf.

Lemma slice_snoc (buf : bytes) n : 0 ≤ n < blen buf → slice 0 n buf ++ [byte_at n buf] = slice 0 (n + 1) buf.
Proof.
  intros Hn. rewrite !slice_take, !drop_0 by lia. unfold blen in *.
  destruct (lookup_lt_is_Some_2 buf (Z.to_nat n)) as [x Hx]; [lia|].
  unfold byte_at. rewrite Hx. replace (Z.to_nat (n + 1 - 0)) with (S (Z.to_nat n)) by lia.
  by rewrite (take_S_r _ _ _ Hx), Z.sub_0_r.
Qed.

Lemma slice_over n i b (buf : bytes) : 0 ≤ n ≤ i → slice 0 n (over i [b] buf) = slice 0 n buf.
Proof. intros Hn. rewrite !slice_take, !drop_0 by lia. apply take_insert_ge. lia. Qed.

#[local] Abbreviation lies P ws := (Forall (P ∘ fst) (ws : list (Z * Z))).

#[local] Arguments over lo bs buf : simpl never.
#[local] Arguments written !ws buf.
#[local] Arguments pack_bytes at_ bs : simpl never.

Section simulation.

Context (mine theirs : Z → Prop) (Hapart : apart mine theirs).
Context (mine_header : ∀ i, mine i → i < _HEADER_SIZE) (theirs_header : ∀ i, theirs i → i < _HEADER_SIZE).

Lemma theirs_elsewhere i ws : _HEADER_SIZE ≤ i → lies theirs ws → Forall (λ w, 0 ≤ w.1 ∧ w.1 ≠ i) ws.
Proof.
  intros Hi Hws. eapply Forall_impl; [exact Hws|]. intros w Hw. simpl in Hw.
  pose proof (theirs_header _ Hw). destruct (Hapart w.1) as [_ Ht]. specialize (Ht Hw). lia.
Qed.

(** A step of an access is the one of the program whose calls are one step, or
    none. *)
Lemma access_simulates {A} (a : access A) buf ws :
  let B := written ws (written (pending a) buf) in
  _HEADER_RAW_SIZE ≤ blen buf → outcome a = None → lies theirs ws → lies mine (pending a) →
  seen_in a B → foot mine (whole_access a) → ((∃ seen k, a = Unpacking seen k) → ws = []) →
  let '(a', buf') := access_step a buf in
  let B' := written ws (written (pending a') buf') in
  lies mine (pending a') ∧ seen_in a' B' ∧ keeps_header a' B B' ∧
  ((whole_access a', B') = (whole_access a, B) ∨ (whole_access a', B') = prog_step (whole_access a) B).
Proof.
  intros B Hbuf Ha Hws Hp Hseen Hfoot Hun. unfold keeps_header.
  assert (blen B = blen buf) as HB by (unfold B; by rewrite !blen_written).
  destruct a as [[r|k|i k|i b p|k|at_ bs p]|seen k|[|[i b] todo] p]; cbn in *; try done.
  - split_and!; [constructor|done|by right|right]. by rewrite HB.
  - split_and!; [constructor|done|by right|right]. unfold B. rewrite byte_written; [done|unfold _HEADER_SIZE in *; lia|by apply theirs_elsewhere].
  - assert (over i [b] B = written ws (over i [b] buf)) as <-.
    { apply over_written; [unfold _HEADER_SIZE in *; lia|by apply theirs_elsewhere]. }
    split_and!; [constructor|done| |by right]. right. intros n Hn. apply slice_over.
    unfold _HEADER_SIZE, _HEADER_RAW_SIZE in *. lia.
  - split; [constructor|]. split; [by rewrite slice_take|]. split; [by right|by left].
  - assert (lies mine (pack_bytes at_ bs)) as Hm.
    { eapply Forall_impl; [apply pack_bytes_in|]. intros w Hw. by apply Hfoot. }
    assert (written ws (written (pack_bytes at_ bs) buf) = over at_ bs B) as ->; [|split; [done|]; split; [done|]; split; [by eauto|by right]].
    destruct bs as [|b bs]; [done|]. assert (0 ≤ at_) as Hat.
    { destruct (Hapart at_) as [Hm0 _]. apply Hm0, Hfoot. unfold blen. simpl. lia. }
    unfold B. rewrite <- (written_placed at_ (b :: bs) (written ws buf)) by done.
    rewrite (written_comm mine theirs (placed _ _)), written_pack, written_placed; try done.
    eapply Forall_impl; [apply placed_in|]. intros w Hw. by apply Hfoot.
  - destruct Hseen as [Hl Hs]. assert (ws = []) as -> by eauto. cbn in *.
    destruct (Z.ltb_spec (blen seen) _HEADER_RAW_SIZE) as [Hlt|Hge]; cbn.
    + assert (blen (seen ++ [byte_at (blen seen) buf]) = blen seen + 1) as Hl'.
      { unfold blen. rewrite length_app. simpl. lia. }
      split; [constructor|]. split; [|split; [by right|by left]]. split; [lia|].
      rewrite Hl', <- slice_snoc by (unfold blen in *; lia). by rewrite Hs at 1.
    + split_and!; [constructor|done|by right|right]. replace (blen seen) with _HEADER_RAW_SIZE in Hs by lia. by rewrite <- Hs.
  - split_and!; [constructor|done|by right|by left].
  - apply Forall_cons in Hp as [_ Hp]. split_and!; [done|done|by left; eauto|by left].
Qed.

Definition whole {Op Res} (p : Process access Op Res) : Process prog Op Res :=
  mkProcess (prod_map id whole_access <$> pr_now p) (pr_todo p) (pr_done p).
Definition to_write {Op Res} (p : Process access Op Res) : list (Z * Z) := from_option (λ x, pending x.2) [] (pr_now p).
Definition has_seen {Op Res} (p : Process access Op Res) (buf : bytes) : Prop := from_option (λ x, seen_in x.2 buf) True (pr_now p).

Lemma process_simulates {Op Res} (call : Op → prog Res) p buf ws :
  let B := written ws (written (to_write p) buf) in
  _HEADER_RAW_SIZE ≤ blen buf → lies theirs ws → lies mine (to_write p) → has_seen p B →
  (∀ op k, pr_now (whole p) = Some (op, k) → foot mine k) → (unpacking p = true → ws = []) →
  let '(p', buf') := process_step call p buf in
  let B' := written ws (written (to_write p') buf') in
  lies mine (to_write p') ∧ has_seen p' B' ∧
  (packing p' = true ∨ ∀ n, 0 ≤ n ≤ _HEADER_RAW_SIZE → slice 0 n B' = slice 0 n B) ∧
  ((whole p', B') = (whole p, B) ∨ (whole p', B') = process_step call (whole p) B).
Proof.
  destruct p as [[[op a]|] todo done_]; intros B Hbuf Hws Hp Hseen Hfoot Hun; unfold process_step; cbn [pr_now pr_todo pr_done].
  - pose proof (access_simulates a buf ws Hbuf) as Hsim. cbv zeta in Hsim.
    destruct (outcome a) as [r|] eqn:Ea.
    { destruct a as [[]| |]; try done. injection Ea as ->. cbn. split_and!; [constructor|done|by right|by right]. }
    change (advance a buf) with (access_step a buf). destruct (access_step a buf) as [a' buf'].
    destruct Hsim as (Hm & Hs & Hk & Hstep); try done.
    { by eapply Hfoot. }
    { intros (seen & k & ->). by apply Hun. }
    split; [done|]. split; [done|]. split.
    { destruct Hk as [(? & ? & ->)|Hk]; [by left|by right]. }
    set (run := λ x : prog Res * bytes, (@mkProcess prog Op Res (Some (op, x.1)) todo done_, x.2)).
    destruct Hstep as [Hstep|Hstep]; [left; exact (f_equal run Hstep)|].
    destruct (whole_access a) as [r| | | | |] eqn:Ew; [left|right..]; (etrans; [exact (f_equal run Hstep)|]);
      unfold run, whole; cbn; by rewrite Ew.
  - destruct todo as [|op todo]; (split; [constructor|]; split; [done|]; split; [by right|by right]).
Qed.

End simulation.

Lemma fields_apart : apart writer_field reader_field ∧ apart reader_field writer_field.
Proof. unfold apart, writer_field, reader_field. split; intros; lia. Qed.
Lemma fields_in_header i : (writer_field i → i < _HEADER_SIZE) ∧ (reader_field i → i < _HEADER_SIZE).
Proof. unfold writer_field, reader_field, _HEADER_SIZE. lia. Qed.

Lemma not_packing {Op Res} (p : Process access Op Res) : packing p = false → to_write p = [].
Proof. unfold packing, to_write. by destruct (pr_now p) as [[? []]|]. Qed.

Lemma seen_kept {Op Res Op' Res'} (p : Process access Op Res) (p' : Process access Op' Res') B B' :
  packing p' = true ∨ (∀ n, 0 ≤ n ≤ _HEADER_RAW_SIZE → slice 0 n B' = slice 0 n B) →
  unpacking p && packing p' = false → has_seen p B → has_seen p B'.
Proof.
  unfold has_seen, unpacking. destruct (pr_now p) as [[op [| |]]|]; cbn; try done. intros [->|Hsame]; [done|].
  intros _ [Hl Hs]. split; [done|]. rewrite Hsame; [done|]. unfold blen in *. lia.
Qed.

(** The pair of which the calls of [struct] are one step. *)
Definition abstract (s : Pair access) : Pair prog :=
  mkPair (written (to_write (pa_reader s)) (written (to_write (pa_writer s)) (pa_buf s))) (whole (pa_writer s)) (whole (pa_reader s)).

Record bytes_ok (c : Z) (s : Pair access) (log : list event) : Prop := {
  bo_size : _HEADER_RAW_SIZE ≤ blen (pa_buf s);
  bo_writer : lies writer_field (to_write (pa_writer s)) ∧ has_seen (pa_writer s) (pa_buf (abstract s));
  bo_reader : lies reader_field (to_write (pa_reader s)) ∧ has_seen (pa_reader s) (pa_buf (abstract s));
  bo_pair : pair_ok c (abstract s) log;
}.

#[local] Opaque read write.

Lemma bytes_step c s w log :
  0 ≤ c < 2 ^ 32 → bytes_ok c s log → blen (calls (pa_writer s)) < 2 ^ 64 → torn s = false → torn (pair_step s w) = false →
  ∃ log', bytes_ok c (pair_step s w) log'.
Proof.
  intros Hc [Hsize [Hww Hws] [Hrw Hrs] Hok] Hlen Ht Ht'. pose proof (pair_blen s w) as Hb.
  destruct (pair_step_ok c Hc (abstract s) w log Hok) as [log' Hok'].
  { unfold calls in *. cbn. by destruct (pr_now (pa_writer s)) as [[]|]. }
  destruct s as [buf pw pr]. unfold abstract, torn in *. cbn in *. destruct fields_apart as [Ha Ha'].
  apply orb_false_iff in Ht as [Ht1 Ht2]. destruct w; cbn in *.
  - pose proof (process_simulates writer_field reader_field Ha (λ i, proj2 (fields_in_header i)) write pw buf (to_write pr)
      Hsize Hrw Hww Hws) as Hsim.
    destruct (process_step write pw buf) as [pw' buf']. cbn in *.
    apply orb_false_iff in Ht' as [Ht1' Ht2'].
    destruct Hsim as (Hw' & Hs' & Hk & Hstep).
    { intros op k Hn. eapply working_foot; [|exact (proj1 (proj2 Hok))|exact Hn]; apply _. }
    { intros Hu. apply not_packing. by rewrite Hu in Ht1. }
    assert (∀ log'', pair_ok c (abstract (mkPair buf' pw' pr)) log'' → bytes_ok c (mkPair buf' pw' pr) log'') as Hok2.
    { intros log'' Hp. split; [cbn; by rewrite Hb|done| |done]. split; [done|].
      eapply seen_kept; [exact Hk| |exact Hrs]. by rewrite andb_comm. }
    destruct Hstep as [Hstep|Hstep]; [exists log|exists log']; apply Hok2; unfold abstract; cbn.
    + apply (f_equal (λ x, mkPair x.2 x.1 (whole pr))) in Hstep. cbn in Hstep. by rewrite Hstep.
    + by rewrite <- Hstep in Hok'.
  - rewrite (written_comm _ _ _ _ _ Ha' Hrw Hww) in *.
    pose proof (process_simulates reader_field writer_field Ha' (λ i, proj1 (fields_in_header i)) (λ _, read) pr buf (to_write pw)
      Hsize Hww Hrw Hrs) as Hsim.
    destruct (process_step (λ _, read) pr buf) as [pr' buf']. cbn in *.
    apply orb_false_iff in Ht' as [Ht1' Ht2'].
    destruct Hsim as (Hr' & Hs' & Hk & Hstep).
    { intros op k Hn. eapply working_foot; [|exact (proj2 (proj2 Hok))|exact Hn]; apply _. }
    { intros Hu. apply not_packing. rewrite Hu in Ht2. by destruct (packing pw). }
    rewrite <- (written_comm _ _ _ _ _ Ha' Hr' Hww) in *.
    assert (∀ log'', pair_ok c (abstract (mkPair buf' pw pr')) log'' → bytes_ok c (mkPair buf' pw pr') log'') as Hok2.
    { intros log'' Hp. split; [cbn; by rewrite Hb| |done|done]. split; [done|]. by eapply seen_kept; [exact Hk| |exact Hws]. }
    destruct Hstep as [Hstep|Hstep]; [exists log|exists log']; apply Hok2; unfold abstract; cbn.
    + apply (f_equal (λ x, mkPair x.2 (whole pw) x.1)) in Hstep. cbn in Hstep. by rewrite Hstep.
    + by rewrite <- Hstep in Hok'.
Qed.

Lemma bytes_run c s schedule log :
  0 ≤ c < 2 ^ 32 → bytes_ok c s log → blen (calls (pa_writer s)) < 2 ^ 64 → untorn s schedule = true →
  ∃ log', bytes_ok c (pair_run s schedule) log'.
Proof.
  intros Hc. revert s log. induction schedule as [|w schedule IH]; intros s log Hs Hlen Hu; [by exists log|].
  cbn in Hu. apply andb_true_iff in Hu as [Ht Hu].
  assert (torn (pair_step s w) = false) as Ht'.
  { destruct schedule; cbn in Hu; destruct (torn (pair_step s w)); done. }
  destruct (bytes_step c s w log Hc Hs Hlen) as [log' Hs']; [by destruct (torn s)|done|].
  apply (IH _ _ Hs'); [|done]. by rewrite pair_writer_calls.
Qed.

Lemma whole_follows {Op Res} (p : Process access Op Res) effects : follows (whole p) effects → follows p effects.
Proof.
  intros [?|(op & k & r & Hn & He)]; [by left|right]. cbn in *.
  destruct (pr_now p) as [[op' a]|]; [|done]. injection Hn as -> _. eauto.
Qed.

(** ** The contract *)

(** C9: one writer and one reader may use a ring at the same time, without a
    lock, as long as neither reads the header while the other writes a field of
    it: however else the bytes they load and store interleave, the calls take
    effect one after the other as those of a bounded first-in first-out queue,
    with the results they return; what was read is what was accepted, in order
    and unchanged.  And every call ends, torn or not, after a bounded number of
    its process's own steps. *)
Theorem ring_is_a_queue size capacity buf data n schedule :
  (∀ k, k ≤ size k) → create size capacity = Ok buf → blen data < 2 ^ 64 →
  let s0 : Pair access := pair_start buf data n in
  let s := pair_run s0 schedule in
  (untorn s0 schedule = true →
   ∃ log st, legal capacity ([], 0) log st ∧ follows (pa_writer s) (puts log) ∧ follows (pa_reader s) (gots log) ∧
     accepted (puts log) = handed_out (gots log) ++ st.1) ∧
  ((sum_list_with (λ d, 150 + 2 * length d) data ≤ length (List.filter id schedule))%nat → map fst (pr_done (pa_writer s)) = data) ∧
  (((50 + 4 * length buf) * n ≤ length (List.filter negb schedule))%nat → length (pr_done (pa_reader s)) = n).
Proof.
  intros Hsize Hc Hdata s0 s. destruct (created size capacity buf Hsize Hc) as (Hcap & Hh & Hseq & _).
  destruct (pair_calls schedule s0) as [Hcw Hcr]. fold s in Hcw, Hcr. split; [|split].
  - intros Hu. assert (pair_ok capacity (abstract s0) []) as Hok.
    { assert (known capacity (buf, []) [] 0 0) as Hk by (split; [constructor|done]).
      split; [by eexists _, _, _|]. split; [|split; [by eexists _, _, _|done]].
      exists (field 10 4 buf), 0, [], 0. split; [done|]. split_and!; [apply (hd_head _ _ _ _ Hh)| |done|done|intros; lia].
      change (used []) with 0. lia. }
    destruct (bytes_run capacity s0 schedule [] Hcap) as (log & [_ _ _ ((q & m & t & Hk & _) & Hw & Hr)]); [|done|done|].
    { pose proof (hd_len _ _ _ _ Hh). unfold _HEADER_SIZE in *. split; [unfold _HEADER_RAW_SIZE; cbn; lia|by split..|done]. }
    exists log, (q, m). split; [done|]. split; [|split].
    + apply whole_follows. eapply working_follows in Hw; [exact Hw|apply write_idle_own].
    + apply whole_follows. eapply working_follows in Hr; [exact Hr|by intros ?? []].
    + by apply legal_fifo in Hk as [Hk _].
  - intros Hlen. etrans; [eapply ended, (pair_writer_ends schedule s0 0)|exact Hcw].
    unfold ends_within. cbn. unfold cost. rewrite Nat.add_0_r. exact Hlen.
  - intros Hlen. rewrite <- (length_map fst). transitivity (length (calls (pa_reader s))).
    + f_equal. eapply ended, (pair_reader_ends schedule s0 0). unfold ends_within. cbn [pr_now pr_todo pa_reader pair_start s0].
      rewrite Nat.add_0_r. etrans; [|exact Hlen]. unfold cost. clear. cbn [pa_buf pair_start]. induction n as [|n IH]; cbn in *; lia.
    + rewrite Hcr. apply length_replicate.
Qed.
