(* ===== verification/RateLimiter.v ===== *)
(** * Rate limits ([rate_limiter.py])

    A token bucket, a sliding window and buckets in tiers.  Numbers are exact.
    The part of [acquire] under the lock is one step ([attempt]); the loop
    around it reads a clock that takes its time and sleeps. *)

From Stdlib Require Import Qminmax Lqa.
From S2P Require Import Prelude.

#[local] Open Scope Q_scope.

(** ** Token buckets *)

Record TokenBucketLimiter := mkBucket {
  tb_rate : Q;
  tb_capacity : Q;
  tb_tokens : Q;
  tb_last_refill : Q;
}.

Definition positive (q : Q) : bool := negb (Qle_bool q 0).

Definition make_bucket (rate capacity now : Q) : result TokenBucketLimiter :=
  if negb (positive rate) then raise ValueError "Rate must be greater than 0"
  else if negb (positive capacity) then raise ValueError "Capacity must be greater than 0"
  else Ok (mkBucket rate capacity capacity now).

Definition with_tokens (b : TokenBucketLimiter) (tokens last : Q) : TokenBucketLimiter :=
  mkBucket (tb_rate b) (tb_capacity b) tokens last.

Definition _refill (now : Q) (b : TokenBucketLimiter) : TokenBucketLimiter :=
  let elapsed := now - tb_last_refill b in
  if positive elapsed then with_tokens b (Qmin (tb_capacity b) (tb_tokens b + elapsed * tb_rate b)) now else b.

(** One pass under the lock: whether the tokens were taken. *)
Definition attempt (now tokens : Q) (b : TokenBucketLimiter) : bool * TokenBucketLimiter :=
  let b := _refill now b in
  if Qle_bool tokens (tb_tokens b) then (true, with_tokens b (tb_tokens b - tokens) (tb_last_refill b)) else (false, b).

(** The checks of [acquire]. *)
Definition check_tokens (tokens : Q) (b : TokenBucketLimiter) : result unit :=
  if negb (positive tokens) then raise ValueError "Tokens to acquire must be positive"
  else if negb (Qle_bool tokens (tb_capacity b)) then raise ValueError "Requested tokens exceed capacity"
  else Ok tt.

(** A clock: how long the thread takes until its [n]-th reading. *)
Class Pace := { took : nat → Q }.

Record Thread := mkThread {
  th_bucket : TokenBucketLimiter;
  th_now : Q;
  th_reads : nat;
}.

Section acquire.
Context `{Pace}.

Definition read_clock (th : Thread) : Thread :=
  mkThread (th_bucket th) (th_now th + took (th_reads th)) (S (th_reads th)).
Definition sleep (s : Q) (th : Thread) : Thread := mkThread (th_bucket th) (th_now th + s) (th_reads th).

Definition min_sleep : Q := 1 # 1000.
Definition max_chunk : Q := 1 # 20.

(** The loop; [None] when it did not end within its fuel. *)
Fixpoint acquire_loop (fuel : nat) (tokens : Q) (block : bool) (timeout : option Q) (start : Q) (th : Thread)
    : option (bool * Thread) :=
  match fuel with
  | O => None
  | S fuel =>
      let th := read_clock th in
      let '(taken, b) := attempt (th_now th) tokens (th_bucket th) in
      let th := mkThread b (th_now th) (th_reads th) in
      if taken then Some (true, th)
      else if negb block then Some (false, th)
      else
        let needed_wait := (tokens - tb_tokens b) / tb_rate b in
        let th := read_clock th in
        match timeout with
        | Some t =>
            let remaining := t - (th_now th - start) in
            if Qle_bool remaining 0 then Some (false, th)
            else if negb (Qle_bool needed_wait remaining) then Some (false, sleep (Qmax min_sleep remaining) th)
            else acquire_loop fuel tokens block timeout start
                   (sleep (Qmax min_sleep (Qmin (Qmin needed_wait remaining) max_chunk)) th)
        | None => acquire_loop fuel tokens block timeout start (sleep (Qmax min_sleep (Qmin needed_wait max_chunk)) th)
        end
  end.

Definition acquire (fuel : nat) (tokens : Q) (block : bool) (timeout : option Q) (th : Thread) : option (result bool * Thread) :=
  match check_tokens tokens (th_bucket th) with
  | Err e => Some (Err e, th)
  | Ok _ =>
      let th := read_clock th in
      '(r, th) ← acquire_loop fuel tokens block timeout (th_now th) th;
      Some (Ok r, th)
  end.

End acquire.

(** ** Sliding windows *)

Record SlidingWindowLimiter := mkWindow {
  sw_window_seconds : Q;
  sw_max_requests : nat;
  sw_timestamps : list Q;
}.

Definition make_window (window_seconds : Q) (max_requests : Z) : result SlidingWindowLimiter :=
  if negb (positive window_seconds) then raise ValueError "Window must be positive"
  else if (max_requests <=? 0)%Z then raise ValueError "Max requests must be positive"
  else Ok (mkWindow window_seconds (Z.to_nat max_requests) []).

(** [while ts and ts[0] <= cutoff: ts.popleft()] *)
Fixpoint drop_expired (cutoff : Q) (ts : list Q) : list Q :=
  match ts with
  | [] => []
  | t :: r => if Qle_bool t cutoff then drop_expired cutoff r else ts
  end.

Definition allow_request (now : Q) (w : SlidingWindowLimiter) : bool * SlidingWindowLimiter :=
  let ts := drop_expired (now - sw_window_seconds w) (sw_timestamps w) in
  if (length ts <? sw_max_requests w)%nat
  then (true, mkWindow (sw_window_seconds w) (sw_max_requests w) (ts ++ [now])%list)
  else (false, mkWindow (sw_window_seconds w) (sw_max_requests w) ts).

(** ** Tiers *)

Record RateLimitRule := mkRule { ru_name : string; ru_rate : Q; ru_capacity : Q }.

(** The dict of buckets: a later rule of the same name takes the place of the
    earlier one. *)
Fixpoint set_bucket (name : string) (b : TokenBucketLimiter) (bs : list (string * TokenBucketLimiter)) :=
  match bs with
  | [] => [(name, b)]
  | (n, b') :: bs => if decide (n = name) then (n, b) :: bs else (n, b') :: set_bucket name b bs
  end.

Fixpoint make_tiers (now : Q) (rules : list RateLimitRule) (bs : list (string * TokenBucketLimiter))
    : result (list (string * TokenBucketLimiter)) :=
  match rules with
  | [] => Ok bs
  | r :: rules => b ← make_bucket (ru_rate r) (ru_capacity r) now; make_tiers now rules (set_bucket (ru_name r) b bs)
  end.

(** The first pass: refills, and stops at the first tier that is short; the
    clock is read for every tier. *)
Fixpoint refill_tiers (now : nat → Q) (n : nat) (tokens : Q) (bs : list (string * TokenBucketLimiter))
    : bool * list (string * TokenBucketLimiter) :=
  match bs with
  | [] => (true, [])
  | (name, b) :: bs =>
      let b := _refill (now n) b in
      if negb (Qle_bool tokens (tb_tokens b)) then (false, (name, b) :: bs)
      else let '(ok, bs) := refill_tiers now (S n) tokens bs in (ok, (name, b) :: bs)
  end.

Definition deduct (tokens : Q) (b : TokenBucketLimiter) : TokenBucketLimiter :=
  with_tokens b (tb_tokens b - tokens) (tb_last_refill b).

Definition acquire_all (now : nat → Q) (tokens : Q) (bs : list (string * TokenBucketLimiter))
    : bool * list (string * TokenBucketLimiter) :=
  let '(ok, bs) := refill_tiers now 0 tokens bs in
  if ok then (true, map (λ nb, (nb.1, deduct tokens nb.2)) bs) else (false, bs).

(** ** The simulation of the command line *)

Fixpoint simulate (now : nat → Q) (n : nat) (requests : nat) (b : TokenBucketLimiter) (allowed rejected : nat)
    : result (nat * nat * Q) :=
  match requests with
  | O => Ok (allowed, rejected, tb_tokens b)
  | S requests =>
      _ ← check_tokens 1 b;
      let '(ok, b) := attempt (now n) 1 b in
      if (ok : bool) then simulate now (S n) requests b (S allowed) rejected else simulate now (S n) requests b allowed (S rejected)
  end.
