(* ===== verification/RateLimiterSpec.v ===== *)
(** * What the rate limits promise

    Throughput of a bucket over any stretch of time, the end of a blocking
    wait, the sliding window against a reference, and tiers. *)

From Stdlib Require Import Qminmax Qround Lqa.
From S2P Require Import Prelude RateLimiter.

#[local] Open Scope Q_scope.

Lemma positive_spec q : positive q = true ↔ 0 < q.
Proof.
  unfold positive. rewrite negb_true_iff, <- not_true_iff_false, Qle_bool_iff. split; [apply Qnot_le_lt|apply Qlt_not_le].
Qed.

Lemma Qle_bool_false x y : Qle_bool x y = false ↔ y < x.
Proof. rewrite <- not_true_iff_false, Qle_bool_iff. split; [apply Qnot_le_lt|apply Qlt_not_le]. Qed.

(** Decides the tests on numbers in the goal. *)
Ltac qcase e H := destruct e eqn:H; [apply Qle_bool_iff in H|apply Qle_bool_false in H].

(** ** Buckets *)

Record sound (b : TokenBucketLimiter) : Prop := {
  sound_rate : 0 < tb_rate b;
  sound_capacity : 0 < tb_capacity b;
  sound_tokens : 0 <= tb_tokens b <= tb_capacity b;
}.

(** Rate and capacity stay. *)
Definition same_limits (b b' : TokenBucketLimiter) : Prop := tb_rate b' = tb_rate b ∧ tb_capacity b' = tb_capacity b.

Lemma make_bucket_sound rate capacity now b :
  make_bucket rate capacity now = Ok b →
  sound b ∧ tb_rate b = rate ∧ tb_capacity b = capacity ∧ tb_last_refill b = now.
Proof.
  unfold make_bucket. destruct (positive rate) eqn:Hr, (positive capacity) eqn:Hc; try done. intros [= <-].
  apply positive_spec in Hr, Hc. split; [split; cbn; lra|done].
Qed.

Lemma refill_spec now b :
  sound b →
  let b' := _refill now b in
  sound b' ∧ same_limits b b' ∧
  (tb_last_refill b <= now → tb_last_refill b' == now) ∧ (now < tb_last_refill b → b' = b) ∧
  tb_tokens b <= tb_tokens b' <= tb_tokens b + tb_rate b * (tb_last_refill b' - tb_last_refill b) ∧
  (tb_tokens b' == tb_capacity b ∨ tb_tokens b' == tb_tokens b + tb_rate b * (tb_last_refill b' - tb_last_refill b)).
Proof.
  intros [Hr Hc Ht]. unfold _refill. destruct (positive _) eqn:He.
  - apply positive_spec in He. cbn.
    assert (0 <= tb_rate b * (now - tb_last_refill b)) by (apply Qmult_le_0_compat; lra).
    destruct (Q.min_spec (tb_capacity b) (tb_tokens b + (now - tb_last_refill b) * tb_rate b)) as [[Hlt E]|[Hle E]];
      (split_and!; [split; cbn; rewrite ?E; lra|done|intros; reflexivity|intros; lra|rewrite E; lra..|]).
    + left. rewrite E. reflexivity.
    + right. rewrite E. ring.
  - assert (now <= tb_last_refill b) as Hn.
    { apply Qnot_lt_le. intros Hlt. assert (positive (now - tb_last_refill b) = true) by (apply positive_spec; lra). congruence. }
    split_and!; [done|done|intros; lra|done|lra..|]. right. ring.
Qed.

(** What an attempt takes. *)
Definition taken (r : bool) (tokens : Q) : Q := if r then tokens else 0.

Lemma bucket_attempt_spec now tokens b r b' :
  sound b → 0 < tokens → attempt now tokens b = (r, b') →
  sound b' ∧ same_limits b b' ∧ (tb_last_refill b <= now → tb_last_refill b' == now) ∧
  taken r tokens + tb_tokens b' <= tb_tokens b + tb_rate b * (tb_last_refill b' - tb_last_refill b) ∧
  taken r tokens + tb_tokens b' <= tb_capacity b.
Proof.
  intros Hs Hp. unfold attempt. destruct (refill_spec now b Hs) as (Hs1 & Hl & Hlast & _ & Htok & _).
  destruct Hs1 as [H1 H2 H3]. destruct Hl as [Er Ec].
  qcase (Qle_bool tokens (tb_tokens (_refill now b))) Hq; intros [= <- <-]; cbn; rewrite ?Er, ?Ec in *;
    (split_and!; [split; cbn; rewrite ?Er, ?Ec; lra|split; cbn; congruence|done|lra|lra]).
Qed.

(** A run of attempts, each with its time and its tokens: what was taken. *)
Fixpoint attempts (l : list (Q * Q)) (b : TokenBucketLimiter) : Q * TokenBucketLimiter :=
  match l with
  | [] => (0, b)
  | (now, tokens) :: l =>
      let '(r, b) := attempt now tokens b in
      let '(sum, b) := attempts l b in (taken r tokens + sum, b)
  end.

(** Times that do not go back, from [t] on. *)
Fixpoint from (t : Q) (times : list Q) : Prop :=
  match times with [] => True | now :: times => t <= now ∧ from now times end.

Lemma from_le t t' times : t' <= t → from t times → from t' times.
Proof. destruct times; [done|]. intros ? [? ?]. split; [lra|done]. Qed.

Lemma from_app t l k : from t (l ++ k) → from t l ∧ from (default t (last l)) k.
Proof.
  revert t. induction l as [|x l IH]; intros t; [done|]. intros [Hx [Hl Hk]%IH]. split; [done|]. rewrite last_cons. by destruct (last l).
Qed.

Lemma attempts_spec l b :
  sound b → Forall (λ a, 0 < a.2) l → from (tb_last_refill b) (map fst l) →
  let '(sum, b') := attempts l b in
  sound b' ∧ same_limits b b' ∧ tb_last_refill b' == default (tb_last_refill b) (last (map fst l)) ∧
  sum + tb_tokens b' <= tb_tokens b + tb_rate b * (tb_last_refill b' - tb_last_refill b).
Proof.
  revert b. induction l as [|[now tokens] l IH]; intros b Hs Hp Ht; cbn [attempts].
  { split_and!; [done..|reflexivity|lra]. }
  apply Forall_cons in Hp as [Hp Hps]. destruct Ht as [Hn Ht]. cbn in Hn, Hp.
  destruct (attempt now tokens b) as [r b1] eqn:E. destruct (bucket_attempt_spec _ _ _ _ _ Hs Hp E) as (Hs1 & [Er Ec] & Hlast & Htok & _).
  specialize (Hlast Hn). specialize (IH b1 Hs1 Hps). destruct (attempts l b1) as [sum b2].
  destruct IH as (Hs2 & [Er2 Ec2] & Hlast2 & Htok2); [eapply from_le; [|exact Ht]; cbn; lra|]. rewrite Er in Htok2.
  split_and!; [done|split; congruence| |].
  - rewrite Hlast2. cbn [map fst]. rewrite last_cons. destruct (last (map fst l)); [reflexivity|exact Hlast].
  - assert (tb_rate b * (tb_last_refill b2 - tb_last_refill b) ==
      tb_rate b * (tb_last_refill b2 - tb_last_refill b1) + tb_rate b * (tb_last_refill b1 - tb_last_refill b)) by ring. lra.
Qed.

(** C27: A bucket limits the throughput over every stretch of time.  From its
    making on, whatever was asked before: of the attempts from some moment to a
    later one, at times that do not go back and with positive amounts, those
    that succeed take at most the capacity and what the rate refills between
    the two moments. *)
Theorem bucket_limits_throughput rate capacity t0 b before now tokens after :
  make_bucket rate capacity t0 = Ok b →
  Forall (λ a, 0 < a.2) (before ++ (now, tokens) :: after) → from t0 (map fst (before ++ (now, tokens) :: after)) →
  (attempts ((now, tokens) :: after) (attempts before b).2).1
    <= capacity + rate * (default now (last (map fst after)) - now).
Proof.
  intros (Hs & <- & <- & <-)%make_bucket_sound Hp Ht. rewrite map_app in Ht. apply from_app in Ht as [Ht [Hn Ht']].
  apply Forall_app in Hp as [Hp [Hp1 Hp2]%Forall_cons]. cbn in Hp1, Hn, Ht'.
  pose proof (attempts_spec before b Hs Hp Ht) as H1. destruct (attempts before b) as [sum1 b1]. cbn [snd attempts].
  destruct H1 as (Hs1 & [Er1 Ec1] & Hl1 & _). destruct (attempt now tokens b1) as [r b2] eqn:E.
  destruct (bucket_attempt_spec _ _ _ _ _ Hs1 Hp1 E) as (Hs2 & [Er2 Ec2] & Hl2 & _ & Hcap). rewrite Hl1 in Hl2. specialize (Hl2 Hn).
  pose proof (attempts_spec after b2 Hs2 Hp2 ltac:(eapply from_le; [|exact Ht']; cbn; lra)) as H3.
  destruct (attempts after b2) as [sum3 b3]. destruct H3 as (Hs3 & _ & Hl3 & Htok). cbn.
  assert (tb_last_refill b3 == default now (last (map fst after))) as Hl.
  { rewrite Hl3. destruct (last (map fst after)); [reflexivity|exact Hl2]. }
  rewrite <- Hl, Er2, Er1, Ec1 in *. destruct (sound_tokens _ Hs3).
  assert (tb_rate b * (tb_last_refill b3 - tb_last_refill b2) == tb_rate b * (tb_last_refill b3 - now)) by (rewrite Hl2; reflexivity).
  lra.
Qed.

(** ** The wait for tokens *)

Section wait.
Context `{Pace}.
Context (patient : ∀ n, 0 <= took n).

(** The tokens a refill would find, the capacity apart. *)
Definition due (b : TokenBucketLimiter) (now : Q) : Q := tb_tokens b + tb_rate b * (now - tb_last_refill b).

Lemma due_later b t t' : sound b → t <= t' → due b t <= due b t'.
Proof. intros [Hr _ _] Ht. unfold due. assert (0 <= tb_rate b * (t' - t)) by (apply Qmult_le_0_compat; lra). lra. Qed.

Lemma attempt_due now tokens b :
  sound b → tb_last_refill b <= now → tokens <= tb_capacity b →
  let '(r, b') := attempt now tokens b in
  if r then True else sound b' ∧ same_limits b b' ∧ tb_last_refill b' == now ∧ due b now <= tb_tokens b' < tokens.
Proof.
  intros Hs Hl Hc. unfold attempt. destruct (refill_spec now b Hs) as (Hs1 & Hlim & Hlast & _ & _ & Htok).
  qcase (Qle_bool tokens (tb_tokens (_refill now b))) Hq; [done|].
  specialize (Hlast Hl). destruct Hlim as [Er Ec]. split_and!; [done|done|done| |lra]. unfold due.
  destruct Htok as [Htok|Htok]; rewrite ?Hlast, ?Ec in Htok; lra.
Qed.

Lemma chunk_enough lo x m : x <= Qmax lo (Qmin x m) ∨ m <= Qmax lo (Qmin x m).
Proof.
  pose proof (Q.le_max_r lo (Qmin x m)). destruct (Q.min_spec x m) as [[_ E]|[_ E]]; [left|right];
    (eapply Qle_trans; [|eassumption]); rewrite E; lra.
Qed.

Lemma chunk_within lo x y m : x <= y → x <= Qmax lo (Qmin (Qmin x y) m) ∨ m <= Qmax lo (Qmin (Qmin x y) m).
Proof.
  intros Hxy. destruct (chunk_enough lo (Qmin x y) m) as [Hl|Hr]; [left|by right].
  eapply Qle_trans; [|exact Hl]. rewrite Q.min_l by done. lra.
Qed.

(** Nothing is waited for longer than the missing tokens take. *)
Lemma loop_returns k tokens block timeout start th :
  sound (th_bucket th) → tb_last_refill (th_bucket th) <= th_now th → tokens <= tb_capacity (th_bucket th) →
  tokens - due (th_bucket th) (th_now th) <= inject_Z (Z.of_nat k) * (max_chunk * tb_rate (th_bucket th)) →
  ∃ r th', acquire_loop (S k) tokens block timeout start th = Some (r, th') ∧ (block = true → timeout = None → r = true).
Proof.
  revert th. induction k as [|k IH]; intros th Hs Hl Hc Hd;
    pose proof (patient (th_reads th)) as Hp1; cbn [acquire_loop]; unfold read_clock; cbn [th_now th_bucket th_reads];
    set (now := th_now th + took (th_reads th)) in *; assert (th_now th <= now) by (unfold now; lra); clearbody now;
    pose proof (attempt_due now tokens (th_bucket th) Hs ltac:(lra) Hc) as Ha;
    destruct (attempt now tokens (th_bucket th)) as [[] b] eqn:E; [by eexists _, _| |by eexists _, _|];
    pose proof (due_later _ (th_now th) now Hs ltac:(lra)); destruct Ha as (Hs' & [Er Ec] & Hlast & Htok).
  - exfalso. change (inject_Z (Z.of_nat 0)) with 0 in Hd. lra.
  - destruct block; [cbn [negb]|by eexists _, _].
    pose proof (patient (S (th_reads th))) as Hp2.
    set (needed := (tokens - tb_tokens b) / tb_rate b). pose proof (sound_rate _ Hs') as Hr.
    assert (needed * tb_rate b == tokens - tb_tokens b) as Hneed by (unfold needed; field; lra).
    assert (∀ s, needed <= s ∨ max_chunk <= s → ∃ r th',
      acquire_loop (S k) tokens true timeout start
        (sleep s (mkThread b (now + took (S (th_reads th))) (S (S (th_reads th))))) = Some (r, th')
      ∧ (true = true → timeout = None → r = true)) as Hrec.
    { intros s Hs2. assert (0 < s) as Hpos.
      { destruct Hs2 as [|Hm]; [|unfold max_chunk in Hm; lra]. apply Qlt_le_trans with needed; [|done].
        apply Qlt_shift_div_l; lra. }
      apply IH; cbn [th_bucket th_now sleep].
      - done.
      - lra.
      - by rewrite Ec.
      - rewrite Nat2Z.inj_succ, <- Z.add_1_r, inject_Z_plus in Hd. change (inject_Z 1) with 1 in Hd. rewrite <- Er in Hd.
        assert (tb_tokens b + tb_rate b * s <= due b (now + took (S (th_reads th)) + s)) as Hdue.
        { unfold due. assert (0 <= tb_rate b * (now + took (S (th_reads th)) - tb_last_refill b)) by (apply Qmult_le_0_compat; lra). lra. }
        assert (0 <= inject_Z (Z.of_nat k) * (max_chunk * tb_rate b)) as Hk.
        { apply Qmult_le_0_compat; [change 0 with (inject_Z 0); rewrite <- Zle_Qle; lia|unfold max_chunk; lra]. }
        destruct Hs2 as [Hn|Hm].
        + assert (needed * tb_rate b <= s * tb_rate b) by (apply Qmult_le_compat_r; lra). lra.
        + assert (max_chunk * tb_rate b <= s * tb_rate b) by (apply Qmult_le_compat_r; lra). lra. }
    destruct timeout as [t|].
    + destruct (Qle_bool _ 0); [by eexists _, _|]. qcase (Qle_bool needed (t - (now + took (S (th_reads th)) - start))) Hle; cbn [negb]; [|by eexists _, _].
      by apply Hrec, chunk_within.
    + apply Hrec, chunk_enough.
Qed.

(** A wait for tokens comes to an end.  Whatever time the steps of the
    thread take, a call that passes the checks returns within as many rounds as
    there are twentieths of a second in the time the bucket takes to fill, plus
    one; a blocking call without a timeout gets its tokens. *)
Theorem acquire_returns tokens block timeout th :
  sound (th_bucket th) → tb_last_refill (th_bucket th) <= th_now th → check_tokens tokens (th_bucket th) = Ok tt →
  let rounds := Z.to_nat (Qceiling (20 * (tb_capacity (th_bucket th) / tb_rate (th_bucket th)))) in
  ∃ r th', acquire (S rounds) tokens block timeout th = Some (Ok r, th') ∧ (block = true → timeout = None → r = true).
Proof.
  intros Hs Hl Hc rounds. unfold acquire. rewrite Hc. unfold check_tokens in Hc.
  destruct (positive tokens) eqn:Hp; [|done]. apply positive_spec in Hp. cbn [negb] in Hc.
  qcase (Qle_bool tokens (tb_capacity (th_bucket th))) Hq; [|done]. pose proof (patient (th_reads th)) as Hpat.
  destruct (loop_returns rounds tokens block timeout (th_now (read_clock th)) (read_clock th)) as (r & th' & E & Hr).
  - done.
  - cbn. lra.
  - done.
  - cbn [th_bucket read_clock]. pose proof Hs as [Hrate Hcap Htok].
    set (q := 20 * (tb_capacity (th_bucket th) / tb_rate (th_bucket th))) in *.
    assert (0 <= q) as Hq0.
    { unfold q. apply Qmult_le_0_compat; [lra|]. apply Qle_shift_div_l; lra. }
    assert (q <= inject_Z (Z.of_nat rounds)) as Hround.
    { unfold rounds. rewrite Z2Nat.id; [apply Qle_ceiling|]. rewrite Zle_Qle. change (inject_Z 0) with 0.
      pose proof (Qle_ceiling q). lra. }
    assert (q * (max_chunk * tb_rate (th_bucket th)) == tb_capacity (th_bucket th)) as Hqe by (unfold q, max_chunk; field; lra).
    assert (q * (max_chunk * tb_rate (th_bucket th)) <= inject_Z (Z.of_nat rounds) * (max_chunk * tb_rate (th_bucket th))) as Hmul.
    { apply Qmult_le_compat_r; [done|unfold max_chunk; lra]. }
    assert (0 <= due (th_bucket th) (th_now (read_clock th))) as Hdue.
    { unfold due. cbn. assert (0 <= tb_rate (th_bucket th) * (th_now th + took (th_reads th) - tb_last_refill (th_bucket th)))
        by (apply Qmult_le_0_compat; lra). lra. }
    lra.
  - exists r, th'. rewrite E. done.
Qed.

End wait.

(** ** The sliding window *)

(** A run of requests: the answers. *)
Fixpoint requests (times : list Q) (w : SlidingWindowLimiter) : list bool :=
  match times with
  | [] => []
  | now :: times => let '(ok, w) := allow_request now w in ok :: requests times w
  end.

(** The requests of a window of length [len] that ends with [now]. *)
Definition in_window (len now t : Q) : Prop := now - len < t ∧ t <= now.
#[export] Instance in_window_dec len now t : Decision (in_window len now t).
Proof.
  refine (cast_if (decide (Qle_bool t (now - len) = false ∧ Qle_bool t now = true)));
    unfold in_window; rewrite <- Qle_bool_iff, <- Qle_bool_false; assumption.
Defined.

(** The reference: a request passes when fewer than the bound passed in the
    window that ends with it.  [passed] are the times of those that passed. *)
Fixpoint reference (len : Q) (bound : nat) (times passed : list Q) : list bool :=
  match times with
  | [] => []
  | now :: times =>
      let ok := bool_decide (length (filter (in_window len now) passed) < bound)%nat in
      ok :: reference len bound times (if ok then passed ++ [now] else passed)%list
  end.

(** The times of the requests that passed. *)
Definition passed_times (times : list Q) (oks : list bool) : list Q := map fst (filter (λ tb, tb.2 = true) (zip times oks)).

Lemma drop_expired_filter len now ts passed :
  0 < len → Forall (λ t, t <= now) passed → StronglySorted Qle passed →
  (∃ dead, passed = dead ++ ts ∧ Forall (λ t, ¬ now - len < t) dead)%list →
  ∃ dead, (passed = dead ++ drop_expired (now - len) ts ∧ Forall (λ t, ¬ now - len < t) dead)%list ∧
    filter (in_window len now) passed = drop_expired (now - len) ts.
Proof.
  intros Hlen Hle Hs. induction ts as [|t ts IH]; intros (dead & -> & Hd); cbn [drop_expired].
  - exists dead. split; [done|]. rewrite app_nil_r. apply filter_none. eapply Forall_impl; [exact Hd|].
    intros t Ht [? _]. by apply Ht.
  - qcase (Qle_bool t (now - len)) Ht.
    + apply IH. exists (dead ++ [t])%list. rewrite <- app_assoc. split; [done|]. apply Forall_app. split; [done|].
      constructor; [lra|done].
    + exists dead. split; [done|]. rewrite filter_app, filter_none, app_nil_l.
      * apply StronglySorted_app in Hs as (_ & _ & Hs). apply Forall_app in Hle as [_ Hle].
        apply filter_all. inversion_clear Hs as [|? ? _ Hf]. apply Forall_cons in Hle as [Ht1 Hle]. constructor; [by split|].
        rewrite Forall_forall in *. intros x Hx. split; [|by apply Hle]. eapply Qlt_le_trans; [exact Ht|by apply Hf].
      * eapply Forall_impl; [exact Hd|]. intros x Hx [? _]. by apply Hx.
Qed.

(** A window further on has more dead requests. *)
Lemma dead_later len now now' dead :
  now <= now' → Forall (λ t, ¬ now - len < t) dead → Forall (λ t, ¬ now' - len < t) dead.
Proof. intros Hn Hd. eapply Forall_impl; [exact Hd|]. intros t Ht Hl. apply Ht. lra. Qed.

Lemma requests_reference len bound times t0 passed dead w :
  0 < len → from t0 times → Forall (λ t, t <= t0) passed → StronglySorted Qle passed →
  sw_window_seconds w = len → sw_max_requests w = bound →
  passed = (dead ++ sw_timestamps w)%list → Forall (λ t, ¬ t0 - len < t) dead →
  requests times w = reference len bound times passed.
Proof.
  intros Hlen. revert t0 passed dead w. induction times as [|now times IH]; intros t0 passed dead w Ht Hp Hs Hw Hb Hd Hdead; [done|].
  destruct Ht as [Hn Ht]. cbn [requests reference]. unfold allow_request. rewrite Hw, Hb.
  assert (Forall (λ t, t <= now) passed) as Hp' by (eapply Forall_impl; [exact Hp|]; intros x Hx; cbn in *; lra).
  destruct (drop_expired_filter len now (sw_timestamps w) passed Hlen Hp' Hs) as (dead' & [E Hdead'] & ->).
  { exists dead. split; [done|]. by eapply dead_later. }
  set (ts := drop_expired (now - len) (sw_timestamps w)) in *. clearbody ts.
  destruct (Nat.ltb_spec (length ts) bound) as [Hlt|Hge].
  - rewrite bool_decide_eq_true_2 by done. f_equal. apply (IH now _ dead'); cbn; [done| | |done|done| |done].
    + apply Forall_app. split; [done|]. repeat constructor. lra.
    + apply StronglySorted_app. split_and!; [|done|by repeat constructor].
      intros x y Hx ->%list_elem_of_singleton. rewrite Forall_forall in Hp'. by apply Hp'.
    + by rewrite E, <- app_assoc.
  - rewrite bool_decide_eq_false_2 by lia. f_equal. by apply (IH now _ dead').
Qed.

Lemma filter_length_le {A} (P R : A → Prop) `{∀ x, Decision (P x)} `{∀ x, Decision (R x)} l :
  Forall (λ x, P x → R x) l → (length (filter P l) <= length (filter R l))%nat.
Proof.
  induction 1 as [|x l Hx _ IH]; [done|]. rewrite !filter_cons.
  destruct (decide (P x)), (decide (R x)); cbn; try lia. by exfalso; auto.
Qed.

Lemma reference_bound len bound times t0 passed :
  from t0 times → Forall (λ t, t <= t0) passed →
  (∀ e, length (filter (in_window len e) passed) <= bound)%nat →
  ∀ e, (length (filter (in_window len e) (passed ++ passed_times times (reference len bound times passed))) <= bound)%nat.
Proof.
  revert t0 passed. induction times as [|now times IH]; intros t0 passed Ht Hp Hb e.
  { cbn. rewrite app_nil_r. apply Hb. }
  destruct Ht as [Hn Ht]. cbn [reference]. unfold passed_times. cbn [zip_with]. rewrite filter_cons. cbn [snd].
  assert (Forall (λ t, t <= now) passed) as Hp' by (eapply Forall_impl; [exact Hp|]; intros x Hx; cbn in *; lra).
  case_bool_decide as Hlt; cbn [decide].
  - rewrite decide_True by done. cbn [map fst]. rewrite cons_middle, app_assoc. apply (IH now); [done| |].
    { apply Forall_app. split; [done|]. repeat constructor. lra. }
    intros e'. rewrite filter_app, length_app, filter_cons. destruct (decide (in_window len e' now)) as [[H1 H2]|]; cbn.
    + assert (length (filter (in_window len e') passed) <= length (filter (in_window len now) passed))%nat; [|lia].
      apply filter_length_le. eapply Forall_impl; [exact Hp'|]. intros t Htn [H3 H4]. split; [lra|exact Htn].
    + specialize (Hb e'). lia.
  - rewrite decide_False by done. by apply (IH now).
Qed.

(** C30: The sliding window is exact.  For requests at times that do not go
    back, the limiter answers as the reference that keeps every request: one
    passes exactly when fewer than the bound passed in the window that ends with
    it.  And no window of that length, wherever it ends, holds more requests
    that passed than the bound. *)
Theorem window_is_exact window_seconds max_requests w t0 times :
  make_window window_seconds max_requests = Ok w → from t0 times →
  requests times w = reference window_seconds (Z.to_nat max_requests) times [] ∧
  ∀ e, (length (filter (in_window window_seconds e) (passed_times times (requests times w))) <= Z.to_nat max_requests)%nat.
Proof.
  unfold make_window. destruct (positive window_seconds) eqn:Hp; [|done]. apply positive_spec in Hp.
  destruct (Z.leb_spec max_requests 0); [done|]. intros [= <-] Ht.
  assert (requests times (mkWindow window_seconds (Z.to_nat max_requests) []) = reference window_seconds (Z.to_nat max_requests) times [])
    as E by (by eapply (requests_reference _ _ _ t0 [] []); repeat constructor).
  split; [exact E|]. rewrite E. apply (reference_bound _ _ _ t0 []); [done|constructor|]. intros e. cbn. lia.
Qed.

(** ** Tiers *)

(** What a request does to one tier. *)
Definition kept_or_spent (ok : bool) (tokens : Q) (b b' : TokenBucketLimiter) : Prop :=
  same_limits b b' ∧ 0 <= tb_tokens b' ∧
  (if ok then tb_tokens b' + tokens <= tb_tokens b + tb_rate b * (tb_last_refill b' - tb_last_refill b)
   else tb_tokens b <= tb_tokens b').

Lemma refill_tiers_spec now n tokens bs :
  Forall (λ nb, sound nb.2) bs →
  let '(ok, bs') := refill_tiers now n tokens bs in
  map fst bs' = map fst bs ∧
  Forall2 (λ nb nb', sound nb'.2 ∧ same_limits nb.2 nb'.2 ∧
    tb_tokens nb.2 <= tb_tokens nb'.2 <= tb_tokens nb.2 + tb_rate nb.2 * (tb_last_refill nb'.2 - tb_last_refill nb.2) ∧
    (ok = true → tokens <= tb_tokens nb'.2)) bs bs'.
Proof.
  revert n. induction bs as [|[name b] bs IH]; intros n Hs; cbn [refill_tiers]; [by split|].
  apply Forall_cons in Hs as [Hb Hs]. destruct (refill_spec (now n) b Hb) as (Hs1 & Hl & _ & _ & Ht & _). cbn in Hs1.
  assert (∀ c, sound c → sound c ∧ same_limits c c ∧ tb_tokens c <= tb_tokens c <= tb_tokens c + tb_rate c * (tb_last_refill c - tb_last_refill c)) as Hself.
  { intros c Hc. split_and!; [done|done|lra|]. assert (tb_rate c * (tb_last_refill c - tb_last_refill c) == 0) by ring. lra. }
  qcase (Qle_bool tokens (tb_tokens (_refill (now n) b))) Hq; cbn [negb].
  - specialize (IH (S n) Hs). destruct (refill_tiers now (S n) tokens bs) as [ok bs']. destruct IH as [E IH]. split; [cbn; by rewrite E|].
    constructor; [done|exact IH].
  - split; [done|]. constructor; [done|]. clear IH. induction Hs as [|nb l Hnb _ IH]; constructor; [|done].
    destruct (Hself _ Hnb) as (? & ? & ?). done.
Qed.

(** A request takes its tokens from every tier or from none. *)
Theorem tiers_give_all_or_nothing now tokens bs ok bs' :
  Forall (λ nb, sound nb.2) bs → acquire_all now tokens bs = (ok, bs') →
  map fst bs' = map fst bs ∧ Forall2 (λ nb nb', kept_or_spent ok tokens nb.2 nb'.2) bs bs'.
Proof.
  intros Hs. unfold acquire_all. pose proof (refill_tiers_spec now 0 tokens bs Hs) as Hr.
  destruct (refill_tiers now 0 tokens bs) as [ok1 bs1]. destruct Hr as [E Hr]. destruct ok1; intros [= <- <-].
  - split; [by rewrite map_map|]. apply Forall2_fmap_r. eapply Forall2_impl; [exact Hr|].
    intros nb nb' ([_ _ Ht] & Hl & H2 & H3). specialize (H3 eq_refl). split_and!; [done|cbn; lra|cbn; lra].
  - split; [done|]. eapply Forall2_impl; [exact Hr|]. intros nb nb' ([_ _ Ht] & Hl & H2 & _). split_and!; [done|lra|lra].
Qed.
