(* ===== verification/PriorityScheduler.v ===== *)
(** * The preemptive scheduler ([priority_scheduler.py])

    Slots, a ready queue, aging and preemption.  Times are seconds, exact; the
    tasks belong to the scheduler from [enqueue] on; the state file is what
    [from_dict] reads from it. *)

From Stdlib Require Import Qminmax.
From S2P Require Import Prelude Json.

Inductive TaskPriority := BACKGROUND | NORMAL | HIGH | CRITICAL.
Inductive TaskState := PENDING | RUNNING | PREEMPTED | COMPLETED | CANCELLED.

#[export] Instance TaskPriority_eq_dec : EqDecision TaskPriority.
Proof. solve_decision. Defined.
#[export] Instance TaskState_eq_dec : EqDecision TaskState.
Proof. solve_decision. Defined.
#[export] Instance Q_eq_dec : EqDecision Q.
Proof. solve_decision. Defined.

Definition priority_value (p : TaskPriority) : Z :=
  match p with BACKGROUND => 10 | NORMAL => 20 | HIGH => 50 | CRITICAL => 100 end.

Record ScheduledTask := mkTask {
  task_id : string;
  priority : TaskPriority;
  lane : string;
  preemptible : bool;
  checkpoint : option json;
  enqueued_at : option Q;
  started_at : option Q;
  state : TaskState;
  preemptions_count : Z;
}.

#[export] Instance ScheduledTask_eq_dec : EqDecision ScheduledTask.
Proof. solve_decision. Defined.

Definition with_priority (t : ScheduledTask) (p : TaskPriority) : ScheduledTask :=
  mkTask (task_id t) p (lane t) (preemptible t) (checkpoint t) (enqueued_at t) (started_at t) (state t) (preemptions_count t).
Definition with_state (t : ScheduledTask) (s : TaskState) : ScheduledTask :=
  mkTask (task_id t) (priority t) (lane t) (preemptible t) (checkpoint t) (enqueued_at t) (started_at t) s (preemptions_count t).
Definition with_enqueued (t : ScheduledTask) (at_ : option Q) : ScheduledTask :=
  mkTask (task_id t) (priority t) (lane t) (preemptible t) (checkpoint t) at_ (started_at t) (state t) (preemptions_count t).
(** [state = RUNNING; started_at = now] *)
Definition start (now : Q) (t : ScheduledTask) : ScheduledTask :=
  mkTask (task_id t) (priority t) (lane t) (preemptible t) (checkpoint t) (enqueued_at t) (Some now) RUNNING (preemptions_count t).
(** [state = PREEMPTED; preemptions_count += 1] *)
Definition preempt (t : ScheduledTask) : ScheduledTask :=
  mkTask (task_id t) (priority t) (lane t) (preemptible t) (checkpoint t) (enqueued_at t) (started_at t) PREEMPTED
    (preemptions_count t + 1).

(** The scheduler; the running tasks are the values of a dict by task id. *)
Record Scheduler := mkScheduler {
  max_slots : Z;
  starvation_threshold_seconds : Q;
  ready_queue : list ScheduledTask;
  running_tasks : list ScheduledTask;
}.

Definition with_queues (s : Scheduler) (ready running : list ScheduledTask) : Scheduler :=
  mkScheduler (max_slots s) (starvation_threshold_seconds s) ready running.

Definition has_id (id : string) (l : list ScheduledTask) : bool := existsb (λ t, bool_decide (task_id t = id)) l.
(** [del running[id]] *)
Definition remove_id (id : string) (l : list ScheduledTask) : list ScheduledTask := filter (λ t, task_id t ≠ id) l.
(** [running[t.task_id] = t] *)
Fixpoint set_task (t : ScheduledTask) (l : list ScheduledTask) : list ScheduledTask :=
  match l with
  | [] => [t]
  | t' :: l => if decide (task_id t' = task_id t) then t :: l else t' :: set_task t l
  end.

Definition active_slots_count (s : Scheduler) : Z := Z.of_nat (length (running_tasks s)).

(** ** The state file *)

(** [_load_state]: what the file holds, of what it holds; a ready task that is
    known already is left out. *)
Record StateFile := mkStateFile {
  sf_max_slots : option Z;
  sf_threshold : option Q;
  sf_running : list ScheduledTask;
  sf_ready : list ScheduledTask;
}.

Fixpoint dedupe (seen : list string) (l : list ScheduledTask) : list ScheduledTask :=
  match l with
  | [] => []
  | t :: l => if bool_decide (task_id t ∈ seen) then dedupe seen l else t :: dedupe (task_id t :: seen) l
  end.

Definition make_scheduler (slots : Z) (threshold : Q) (file : option StateFile) : Scheduler :=
  let slots := Z.max 1 slots in
  let threshold := Qmax 1 threshold in
  match file with
  | None => mkScheduler slots threshold [] []
  | Some f =>
      let running := foldl (λ l t, set_task t l) [] (sf_running f) in
      mkScheduler (default slots (sf_max_slots f)) (default threshold (sf_threshold f))
        (dedupe (map task_id running) (sf_ready f)) running
  end.

Definition saved (s : Scheduler) : StateFile :=
  mkStateFile (Some (max_slots s)) (Some (starvation_threshold_seconds s)) (running_tasks s) (ready_queue s).

(** ** Operations *)

(** The first task of this id in the queue takes the higher priority. *)
Fixpoint raise_priority (id : string) (p : TaskPriority) (l : list ScheduledTask) : list ScheduledTask :=
  match l with
  | [] => []
  | t :: l =>
      if decide (task_id t = id)
      then (if priority_value (priority t) <? priority_value p then with_priority t p else t) :: l
      else t :: raise_priority id p l
  end.

Definition enqueue (now : Q) (task : ScheduledTask) (s : Scheduler) : Scheduler :=
  if has_id (task_id task) (running_tasks s) then s
  else if has_id (task_id task) (ready_queue s)
  then with_queues s (raise_priority (task_id task) (priority task) (ready_queue s)) (running_tasks s)
  else
    let task := match enqueued_at task with None => with_enqueued task (Some now) | Some _ => task end in
    let task := if decide (state task = PREEMPTED) then task else with_state task PENDING in
    with_queues s (ready_queue s ++ [task]) (running_tasks s).

Definition effective_priority (threshold : Q) (now : Q) (t : ScheduledTask) : Q :=
  let base_score := inject_Z (priority_value (priority t)) in
  match enqueued_at t with
  | None => base_score
  | Some at_ =>
      let wait_seconds := Qmax 0 (now - at_) in
      if negb (Qle_bool wait_seconds threshold) then (base_score + (wait_seconds - threshold) * 2)%Q else base_score
  end.

(** The sort of the ready queue, [reverse=True]: the first of the two comes
    first, or they are equal. *)
Definition goes_first (threshold now : Q) (a b : ScheduledTask) : bool :=
  let x := effective_priority threshold now a in
  let y := effective_priority threshold now b in
  let enq t := default 0%Q (enqueued_at t) in
  (negb (Qle_bool x y) || Qeq_bool x y && Qle_bool (enq a) (enq b))%bool.

(** A stable sort. *)
Fixpoint insert_by (first : ScheduledTask → ScheduledTask → bool) (t : ScheduledTask) (l : list ScheduledTask) :=
  match l with
  | [] => [t]
  | u :: l => if first t u then t :: u :: l else u :: insert_by first t l
  end.
Definition sort_by (first : ScheduledTask → ScheduledTask → bool) (l : list ScheduledTask) : list ScheduledTask :=
  foldr (insert_by first) [] l.

Definition candidates (s : Scheduler) (dispatched : list ScheduledTask) : list ScheduledTask :=
  filter (λ t, preemptible t = true ∧ t ∉ dispatched) (running_tasks s).

(** The loop of [tick]; [None] when it did not end within its fuel. *)
Fixpoint tick_loop (fuel : nat) (now : Q) (s : Scheduler) (dispatched : list ScheduledTask) : option (Scheduler * list ScheduledTask) :=
  let eff := effective_priority (starvation_threshold_seconds s) now in
  match sort_by (goes_first (starvation_threshold_seconds s) now) (ready_queue s) with
  | [] => Some (s, dispatched)
  | highest_ready :: rest =>
      let sorted := with_queues s (highest_ready :: rest) (running_tasks s) in
      let task := start now highest_ready in
      if active_slots_count s <? max_slots s then
        match fuel with
        | O => None
        | S fuel => tick_loop fuel now (with_queues s rest (set_task task (running_tasks s))) (dispatched ++ [task])
        end
      else
        match sort_by (λ a b, Qle_bool (eff a) (eff b)) (candidates s dispatched) with
        | [] => Some (sorted, dispatched)
        | lowest_running :: _ =>
            if negb (Qle_bool (eff highest_ready) (eff lowest_running)) then
              match fuel with
              | O => None
              | S fuel =>
                  tick_loop fuel now
                    (with_queues s (rest ++ [preempt lowest_running])
                       (set_task task (remove_id (task_id lowest_running) (running_tasks s)))) (dispatched ++ [task])
              end
            else Some (sorted, dispatched)
        end
  end.

Definition tick (fuel : nat) (now : Q) (s : Scheduler) : option (Scheduler * list ScheduledTask) := tick_loop fuel now s [].

Definition complete_task (id : string) (s : Scheduler) : bool * Scheduler :=
  if has_id id (running_tasks s) then (true, with_queues s (ready_queue s) (remove_id id (running_tasks s))) else (false, s).

(** The first task of this id leaves the queue. *)
Fixpoint remove_first (id : string) (l : list ScheduledTask) : option (list ScheduledTask) :=
  match l with
  | [] => None
  | t :: l => if decide (task_id t = id) then Some l else cons t <$> remove_first id l
  end.

Definition cancel_task (id : string) (s : Scheduler) : bool * Scheduler :=
  if has_id id (running_tasks s) then (true, with_queues s (ready_queue s) (remove_id id (running_tasks s)))
  else
    match remove_first id (ready_queue s) with
    | Some ready => (true, with_queues s ready (running_tasks s))
    | None => (false, s)
    end.
