(* ===== verification/SchedulerSpec.v ===== *)
(** * What a tick of the scheduler does

    The loop of [tick] ends, keeps every task, and leaves no task waiting that
    a slot or a preemption could serve; aging bounds how long a task can be
    overtaken. *)

From Stdlib Require Import Qminmax Lqa.
From S2P Require Import Prelude Json PriorityScheduler.

(** ** Stable sorts *)
Section sort.
Context (first : ScheduledTask → ScheduledTask → bool).

Lemma insert_by_perm t l : insert_by first t l ≡ₚ t :: l.
Proof. induction l as [|u l IH]; simpl; [done|]. destruct (first t u); [done|]. rewrite IH. apply Permutation_swap. Qed.

Lemma sort_by_perm l : sort_by first l ≡ₚ l.
Proof. induction l as [|t l IH]; simpl; [done|]. by rewrite insert_by_perm, IH. Qed.

Context (le : ScheduledTask → ScheduledTask → Prop) `{!Reflexive le, !Transitive le}.
Context (first_le : ∀ a b, first a b = true → le a b) (not_first_le : ∀ a b, first a b = false → le b a).

(** The head of a sorted list comes before all of it. *)
Lemma insert_by_sorted t l : StronglySorted le l → StronglySorted le (insert_by first t l).
Proof.
  induction 1 as [|u l Hs IH Hf]; simpl; [by repeat constructor|]. destruct (first t u) eqn:E.
  - apply first_le in E. constructor; [by constructor|]. constructor; [done|]. eapply Forall_impl; [exact Hf|]. intros x Hx. by trans u.
  - constructor; [done|]. rewrite insert_by_perm. constructor; [by apply not_first_le|done].
Qed.

Lemma sort_by_sorted l : StronglySorted le (sort_by first l).
Proof. induction l; simpl; [constructor|by apply insert_by_sorted]. Qed.

Lemma sort_by_head l t rest : sort_by first l = t :: rest → Forall (le t) (t :: rest).
Proof. intros E. pose proof (sort_by_sorted l) as Hs. rewrite E in Hs. inversion_clear Hs. by constructor. Qed.

End sort.

(** ** Tasks by id *)

Lemma has_id_spec id l : has_id id l = true ↔ id ∈ map task_id l.
Proof.
  unfold has_id. rewrite existsb_exists, list_elem_of_In, in_map_iff. split.
  - intros (t & ? & Ht). exists t. by case_bool_decide.
  - intros (t & <- & ?). exists t. split; [done|]. by apply bool_decide_eq_true.
Qed.

Lemma set_task_new t l : task_id t ∉ map task_id l → set_task t l = l ++ [t].
Proof.
  induction l as [|u l IH]; simpl; [done|]. intros [H1 H2]%not_elem_of_cons. rewrite decide_False by done. by rewrite IH.
Qed.

Lemma remove_id_perm t l : NoDup (map task_id l) → t ∈ l → l ≡ₚ t :: remove_id (task_id t) l.
Proof.
  unfold remove_id. induction l as [|u l IH]; simpl; intros Hnd Hin; [by apply elem_of_nil in Hin|].
  apply NoDup_cons in Hnd as [Hu Hnd]. rewrite filter_cons. apply elem_of_cons in Hin as [->|Hin].
  - rewrite decide_False by auto. rewrite filter_all; [done|]. apply Forall_forall. intros x Hx E. apply Hu. rewrite <- E.
    by apply (list_elem_of_fmap_2 task_id).
  - rewrite decide_True; [|intros E; apply Hu; rewrite E; by apply (list_elem_of_fmap_2 task_id)].
    rewrite Permutation_swap. constructor. by apply IH.
Qed.

Lemma remove_id_elem id t l : t ∈ remove_id id l ↔ t ∈ l ∧ task_id t ≠ id.
Proof. unfold remove_id. rewrite list_elem_of_filter. tauto. Qed.

Section tick.
Context (threshold now : Q).
#[local] Abbreviation eff := (effective_priority threshold now).

Definition above (a b : ScheduledTask) : Prop := (eff b <= eff a)%Q.
Definition below (a b : ScheduledTask) : Prop := (eff a <= eff b)%Q.

#[local] Instance above_refl : Reflexive above.
Proof. intros a. apply Qle_refl. Qed.
#[local] Instance above_trans : Transitive above.
Proof. intros a b c H1 H2. unfold above in *. lra. Qed.
#[local] Instance below_refl : Reflexive below.
Proof. intros a. apply Qle_refl. Qed.
#[local] Instance below_trans : Transitive below.
Proof. intros a b c H1 H2. unfold below in *. lra. Qed.

Lemma goes_first_above a b : goes_first threshold now a b = true → above a b.
Proof.
  unfold goes_first, above. rewrite orb_true_iff, andb_true_iff, negb_true_iff, Qeq_bool_iff. intros [Hx|[Hx _]]; [|lra].
  apply Qlt_le_weak, Qnot_le_lt. rewrite <- Qle_bool_iff. congruence.
Qed.

Lemma not_goes_first_above a b : goes_first threshold now a b = false → above b a.
Proof.
  unfold goes_first, above. rewrite orb_false_iff, negb_false_iff, Qle_bool_iff. by intros [Hx _].
Qed.

Lemma highest_above l t rest : sort_by (goes_first threshold now) l = t :: rest → ∀ u, u ∈ l → above t u.
Proof.
  intros E u Hu. pose proof (sort_by_head _ above goes_first_above not_goes_first_above _ _ _ E) as Hf.
  rewrite Forall_forall in Hf. apply Hf. rewrite <- E. by rewrite sort_by_perm.
Qed.

Lemma qle_below a b : Qle_bool (eff a) (eff b) = true → below a b.
Proof. apply Qle_bool_iff. Qed.

Lemma not_qle_below a b : Qle_bool (eff a) (eff b) = false → below b a.
Proof. unfold below. intros Hab. apply Qlt_le_weak, Qnot_le_lt. rewrite <- Qle_bool_iff. congruence. Qed.

Lemma lowest_below l t rest : sort_by (λ a b, Qle_bool (eff a) (eff b)) l = t :: rest → t ∈ l ∧ ∀ u, u ∈ l → below t u.
Proof.
  intros E. pose proof (sort_by_head _ below qle_below not_qle_below _ _ _ E) as Hf. pose proof (sort_by_perm (λ a b, Qle_bool (eff a) (eff b)) l) as Hp.
  rewrite E in Hp. split; [rewrite <- Hp; by left|]. intros u Hu. rewrite Forall_forall in Hf. apply Hf. by rewrite Hp.
Qed.

(** ** The loop *)

(** No task is there twice. *)
Definition distinct (s : Scheduler) : Prop := NoDup (map task_id (running_tasks s ++ ready_queue s)).

(** Slots are filled, and no ready task comes before one that could be preempted. *)
Definition settled (s : Scheduler) (dispatched : list ScheduledTask) : Prop :=
  ready_queue s = [] ∨
  max_slots s ≤ active_slots_count s ∧
  ∀ r c, r ∈ ready_queue s → c ∈ candidates s dispatched → (eff r <= eff c)%Q.

(** What holds along the loop that began with [s0]. *)
Record along (s0 s : Scheduler) (dispatched : list ScheduledTask) : Prop := {
  along_distinct : distinct s;
  along_same : map task_id (running_tasks s ++ ready_queue s) ≡ₚ map task_id (running_tasks s0 ++ ready_queue s0);
  along_limits : max_slots s = max_slots s0 ∧ starvation_threshold_seconds s = threshold;
  along_slots : active_slots_count s0 ≤ active_slots_count s ∧
                (active_slots_count s ≤ max_slots s ∨ active_slots_count s = active_slots_count s0);
  (** What was dispatched was waiting, and runs since now. *)
  along_dispatched : ∀ d, d ∈ dispatched → d ∈ running_tasks s ∧ ∃ t, t ∈ ready_queue s0 ∧ d = start now t;
  (** Nothing that waits is above it. *)
  along_order : ∀ d r, d ∈ dispatched → r ∈ ready_queue s → (eff r <= eff d)%Q;
  (** What waits did so before, or was preempted: then it is not above anything
      that may still be. *)
  along_ready : ∀ r, r ∈ ready_queue s → r ∈ ready_queue s0 ∨
    (max_slots s ≤ active_slots_count s ∧ (∀ c, c ∈ candidates s dispatched → (eff r <= eff c)%Q) ∧
     ∃ t d, t ∈ running_tasks s0 ∧ preemptible t = true ∧ r = preempt t ∧ d ∈ dispatched ∧ (eff t < eff d)%Q);
  (** What runs did so before, or was dispatched. *)
  along_source : ∀ t, t ∈ running_tasks s → t ∈ running_tasks s0 ∨ t ∈ dispatched;
  (** What ran still does, or waits. *)
  along_running : ∀ t, t ∈ running_tasks s0 → t ∈ running_tasks s ∨ max_slots s ≤ active_slots_count s ∧ preempt t ∈ ready_queue s;
}.

Lemma start_id t : task_id (start now t) = task_id t.
Proof. done. Qed.

Lemma start_eff t : eff (start now t) = eff t.
Proof. done. Qed.

Lemma preempt_eff t : eff (preempt t) = eff t.
Proof. done. Qed.

(** A ready task is none of those that run. *)
Lemma start_fresh s l t :
  distinct s → t ∈ ready_queue s → (∀ u, u ∈ l → u ∈ running_tasks s) →
  set_task (start now t) l = l ++ [start now t] ∧ start now t ∉ l.
Proof.
  unfold distinct. rewrite map_app. intros (_ & Hd & _)%NoDup_app Ht Hl.
  assert (task_id t ∉ map task_id l) as Hn.
  { intros (u & Hu & Hin%list_elem_of_In)%list_elem_of_In%in_map_iff. apply (Hd (task_id t)); [|by apply (list_elem_of_fmap_2 task_id)].
    rewrite <- Hu. by apply (list_elem_of_fmap_2 task_id), Hl. }
  split; [by apply set_task_new|]. intros Hin. apply Hn. change (task_id t) with (task_id (start now t)).
  by apply (list_elem_of_fmap_2 task_id).
Qed.

(** The ready queue as it is sorted. *)
Lemma sorted_ready s highest rest :
  sort_by (goes_first threshold now) (ready_queue s) = highest :: rest → highest :: rest ≡ₚ ready_queue s.
Proof. intros E. rewrite <- E. apply sort_by_perm. Qed.

Lemma along_alloc s0 s dispatched highest rest :
  along s0 s dispatched → sort_by (goes_first threshold now) (ready_queue s) = highest :: rest →
  active_slots_count s < max_slots s →
  along s0 (with_queues s rest (set_task (start now highest) (running_tasks s))) (dispatched ++ [start now highest]).
Proof.
  intros [Hd Hsame [Hm Hth] Hsl Hdis Hord Hrdy Hsrc Hrun] E Hlt. pose proof (sorted_ready _ _ _ E) as Hp.
  assert (∀ r, r ∈ rest → r ∈ ready_queue s) as Hrest by (intros r Hr; rewrite <- Hp; by right).
  assert (highest ∈ ready_queue s) as Hin by (rewrite <- Hp; by left).
  assert (map task_id (running_tasks s ++ ready_queue s) ≡ₚ map task_id ((running_tasks s ++ [start now highest]) ++ rest)) as Hids.
  { rewrite !map_app. cbn [map]. rewrite start_id, <- app_assoc. apply Permutation_app_head.
    symmetry. exact (Permutation_map task_id Hp). }
  destruct (start_fresh s (running_tasks s) highest Hd Hin ltac:(done)) as [Hset _].
  split; cbn [running_tasks ready_queue with_queues max_slots starvation_threshold_seconds]; rewrite ?Hset.
  - unfold distinct. cbn [running_tasks ready_queue with_queues]. rewrite <- Hids. exact Hd.
  - by rewrite <- Hids.
  - done.
  - unfold active_slots_count in *. cbn [running_tasks with_queues]. rewrite length_app. cbn [length]. lia.
  - intros d [Hd1|Hd1]%elem_of_app.
    + destruct (Hdis d Hd1) as [? Ht]. split; [apply elem_of_app; by left|exact Ht].
    + apply list_elem_of_singleton in Hd1 as ->. split; [apply elem_of_app; right; by left|]. exists highest. split; [|done].
      destruct (Hrdy highest Hin) as [?|(Hfull & _)]; [done|lia].
  - intros d r [Hd1|Hd1]%elem_of_app Hr; [by apply Hord; auto|]. apply list_elem_of_singleton in Hd1 as ->. rewrite start_eff.
    by apply (highest_above _ _ _ E), Hrest.
  - intros r Hr. destruct (Hrdy r (Hrest r Hr)) as [?|(Hfull & _)]; [by left|lia].
  - intros t. rewrite !elem_of_app. intros [[?|?]%Hsrc|?]; auto.
  - intros t [?|[Hfull _]]%Hrun; [left; apply elem_of_app; by left|lia].
Qed.


Lemma candidate_spec s dispatched c :
  c ∈ candidates s dispatched ↔ c ∈ running_tasks s ∧ preemptible c = true ∧ c ∉ dispatched.
Proof. unfold candidates. rewrite list_elem_of_filter. tauto. Qed.

Lemma along_preempt s0 s dispatched highest rest lowest more :
  along s0 s dispatched → sort_by (goes_first threshold now) (ready_queue s) = highest :: rest →
  max_slots s ≤ active_slots_count s →
  sort_by (λ a b, Qle_bool (eff a) (eff b)) (candidates s dispatched) = lowest :: more → (eff lowest < eff highest)%Q →
  along s0 (with_queues s (rest ++ [preempt lowest]) (set_task (start now highest) (remove_id (task_id lowest) (running_tasks s))))
    (dispatched ++ [start now highest]).
Proof.
  intros [Hd Hsame [Hm Hth] Hsl Hdis Hord Hrdy Hsrc Hrun] E Hfull El Hlt. pose proof (sorted_ready _ _ _ E) as Hp.
  destruct (lowest_below _ _ _ El) as [Hcand Hlow]. apply candidate_spec in Hcand as (Hlrun & Hpre & Hnd).
  assert (∀ r, r ∈ rest → r ∈ ready_queue s) as Hrest by (intros r Hr; rewrite <- Hp; by right).
  assert (highest ∈ ready_queue s) as Hin by (rewrite <- Hp; by left).
  pose proof Hd as Hd'. unfold distinct in Hd'. rewrite map_app in Hd'. apply NoDup_app in Hd' as (Hndr & Hdisj & _).
  pose proof (remove_id_perm lowest (running_tasks s) Hndr Hlrun) as Hrem.
  set (others := remove_id (task_id lowest) (running_tasks s)) in *.
  assert (∀ u, u ∈ others → u ∈ running_tasks s) as Hoth by (intros u [? _]%remove_id_elem; done).
  destruct (start_fresh s others highest Hd Hin Hoth) as [Hset _].
  assert (map task_id ((others ++ [start now highest]) ++ (rest ++ [preempt lowest])) ≡ₚ map task_id (running_tasks s ++ ready_queue s)) as Hids.
  { rewrite !map_app. rewrite (Permutation_map task_id Hrem), <- (Permutation_map task_id Hp). cbn [map].
    change (task_id (start now highest)) with (task_id highest). change (task_id (preempt lowest)) with (task_id lowest). solve_Permutation. }
  assert (∀ c, c ∈ candidates (with_queues s (rest ++ [preempt lowest]) (others ++ [start now highest])) (dispatched ++ [start now highest]) →
    c ∈ candidates s dispatched) as Hsub.
  { intros c. rewrite !candidate_spec. cbn [running_tasks with_queues]. intros (Hc & Hcp & Hcd).
    rewrite elem_of_app in Hcd. apply elem_of_app in Hc as [Hc|Hc]; [|tauto]. split; [by apply Hoth|tauto]. }
  assert (highest ∈ ready_queue s0) as Hin0.
  { destruct (Hrdy highest Hin) as [?|(_ & Hle & _)]; [done|]. exfalso. specialize (Hle lowest ltac:(by apply candidate_spec)). lra. }
  assert (active_slots_count (with_queues s (rest ++ [preempt lowest]) (others ++ [start now highest])) = active_slots_count s) as Hact.
  { unfold active_slots_count. cbn [running_tasks with_queues]. rewrite Hrem, length_app. cbn [length]. lia. }
  rewrite Hset. split; cbn [running_tasks ready_queue with_queues max_slots starvation_threshold_seconds]; rewrite ?Hact.
  - unfold distinct. cbn [running_tasks ready_queue with_queues]. rewrite Hids. exact Hd.
  - by rewrite Hids.
  - done.
  - done.
  - intros d [Hd1|Hd1]%elem_of_app; rewrite elem_of_app.
    + destruct (Hdis d Hd1) as [Hr Ht]. split; [left|exact Ht]. rewrite Hrem in Hr. apply elem_of_cons in Hr as [->|?]; done.
    + apply list_elem_of_singleton in Hd1 as ->. split; [right; by left|eauto].
  - intros d r Hd1 Hr. apply elem_of_app in Hd1 as [Hd1|Hd1], Hr as [Hr|Hr]; rewrite ?list_elem_of_singleton in *; subst;
      rewrite ?start_eff, ?preempt_eff.
    + by apply Hord; auto.
    + specialize (Hord d highest Hd1 Hin). lra.
    + by apply (highest_above _ _ _ E), Hrest.
    + lra.
  - intros r [Hr|Hr]%elem_of_app.
    + destruct (Hrdy r (Hrest r Hr)) as [?|(_ & Hle & t & d & Ht)]; [by left|]. right. split; [done|]. split; [by auto|].
      exists t, d. rewrite elem_of_app. tauto.
    + apply list_elem_of_singleton in Hr as ->. right. split; [done|]. split; [intros c Hc; rewrite preempt_eff; by apply Hlow, Hsub|].
      exists lowest, (start now highest). rewrite elem_of_app, list_elem_of_singleton, start_eff. destruct (Hsrc lowest Hlrun); [tauto|done].
  - intros t. rewrite !elem_of_app. intros [[?|?]%Hoth%Hsrc|?]; auto.
  - intros t Ht. rewrite !elem_of_app, !list_elem_of_singleton. destruct (Hrun t Ht) as [Hr|[_ Hr]].
    + rewrite Hrem in Hr. apply elem_of_cons in Hr as [->|?]; [right; split; [done|by right]|left; by left].
    + right. split; [done|]. left. rewrite <- Hp in Hr. apply elem_of_cons in Hr as [Hr|Hr]; [|done]. exfalso.
      unfold distinct in Hd. rewrite Hsame, map_app in Hd. apply NoDup_app in Hd as (_ & Hd0 & _).
      apply (Hd0 (task_id t)); [by apply (list_elem_of_fmap_2 task_id)|]. change (task_id t) with (task_id (preempt t)). rewrite Hr.
      by apply (list_elem_of_fmap_2 task_id).
Qed.

(** The order of the ready queue does not matter. *)
Lemma along_perm s0 s dispatched ready :
  along s0 s dispatched → ready ≡ₚ ready_queue s → along s0 (with_queues s ready (running_tasks s)) dispatched.
Proof.
  intros [Hd Hsame Hlim Hsl Hdis Hord Hrdy Hsrc Hrun] Hp.
  split; cbn [running_tasks ready_queue with_queues max_slots starvation_threshold_seconds]; try done.
  - unfold distinct in *. cbn [running_tasks ready_queue with_queues]. by rewrite (Permutation_map task_id (Permutation_app_head _ Hp)).
  - by rewrite <- Hsame, (Permutation_map task_id (Permutation_app_head _ Hp)).
  - intros d r ? Hr. rewrite Hp in Hr. by apply Hord.
  - intros r Hr. rewrite Hp in Hr. by apply Hrdy.
  - intros u Hu. destruct (Hrun u Hu) as [?|[? ?]]; [by left|right]. split; [done|by rewrite Hp].
Qed.

(** What the loop uses up: running tasks it may preempt, and free slots. *)
Definition spare (s : Scheduler) (dispatched : list ScheduledTask) : nat :=
  length (filter (λ t, t ∉ dispatched) (running_tasks s)) + Z.to_nat (max_slots s - active_slots_count s).

Lemma others_spare (dispatched l : list ScheduledTask) d :
  d ∉ l → filter (λ t, t ∉ dispatched ++ [d]) (l ++ [d]) = filter (λ t, t ∉ dispatched) l.
Proof.
  intros Hd. rewrite filter_app, (filter_cons _ d), decide_False, filter_nil, app_nil_r; [|intros Hn; apply Hn, elem_of_app; right; by left].
  apply filter_ext_in. intros t Ht. rewrite not_elem_of_app, list_elem_of_singleton. split; [tauto|]. intros ?. split; [done|].
  by intros ->.
Qed.

(** One round: it ends, or goes on with less to use up. *)
Lemma loop_round s0 s dispatched :
  along s0 s dispatched →
  (∃ s', (∀ fuel, tick_loop fuel now s dispatched = Some (s', dispatched)) ∧ along s0 s' dispatched ∧ settled s' dispatched) ∨
  (∃ s' dispatched', (∀ fuel, tick_loop (S fuel) now s dispatched = tick_loop fuel now s' dispatched') ∧
     along s0 s' dispatched' ∧ (spare s' dispatched' < spare s dispatched)%nat).
Proof.
  intros Ha. pose proof (along_limits _ _ _ Ha) as [_ Hth]. pose proof (along_distinct _ _ _ Ha) as Hd.
  destruct (sort_by (goes_first threshold now) (ready_queue s)) as [|highest rest] eqn:E.
  { left. exists s. split_and!; [intros [|fuel]; cbn [tick_loop]; by rewrite Hth, E|done|left].
    apply Permutation_nil. by rewrite <- E, sort_by_perm. }
  pose proof (sorted_ready _ _ _ E) as Hp. assert (highest ∈ ready_queue s) as Hin by (rewrite <- Hp; by left).
  destruct (Z.ltb_spec (active_slots_count s) (max_slots s)) as [Hlt|Hfull].
  { right. eexists _, _. split; [intros fuel; cbn [tick_loop]; rewrite Hth, E, (proj2 (Z.ltb_lt _ _)) by done; reflexivity|].
    split; [by apply along_alloc|]. destruct (start_fresh s (running_tasks s) highest Hd Hin ltac:(done)) as [Hset Hn].
    unfold spare, active_slots_count in *. cbn [running_tasks with_queues max_slots]. rewrite Hset, others_spare, length_app by done. cbn [length]. lia. }
  destruct (sort_by (λ a b, Qle_bool (eff a) (eff b)) (candidates s dispatched)) as [|lowest more] eqn:El.
  { left. eexists. split; [intros [|fuel]; cbn [tick_loop]; rewrite Hth, E, (proj2 (Z.ltb_ge _ _)), El by done; reflexivity|].
    split; [by apply along_perm|]. right. split; [done|]. intros r c _ Hc. exfalso.
    change (c ∈ candidates s dispatched) in Hc. pose proof (sort_by_perm (λ a b, Qle_bool (eff a) (eff b)) (candidates s dispatched)) as Hpc.
    rewrite El in Hpc. rewrite <- Hpc in Hc. by apply elem_of_nil in Hc. }
  destruct (Qle_bool (eff highest) (eff lowest)) eqn:Eq.
  { left. eexists. split; [intros [|fuel]; cbn [tick_loop]; rewrite Hth, E, (proj2 (Z.ltb_ge _ _)), El, Eq by done; reflexivity|].
    split; [by apply along_perm|]. right. split; [done|]. intros r c Hr Hc. cbn [ready_queue with_queues] in Hr. rewrite Hp in Hr.
    apply Qle_bool_iff in Eq. pose proof (highest_above _ _ _ E r Hr) as H1. pose proof (proj2 (lowest_below _ _ _ El) c Hc) as H2.
    unfold above, below in *. lra. }
  right. eexists _, _. split; [intros fuel; cbn [tick_loop]; rewrite Hth, E, (proj2 (Z.ltb_ge _ _)), El, Eq by done; reflexivity|].
  assert (eff lowest < eff highest)%Q as Hlt by (apply Qnot_le_lt; rewrite <- Qle_bool_iff; congruence).
  split; [by eapply along_preempt|]. destruct (lowest_below _ _ _ El) as [(Hlrun & _ & Hnd)%candidate_spec _].
  destruct (start_fresh s (remove_id (task_id lowest) (running_tasks s)) highest Hd Hin) as [Hset Hn].
  { intros u [? _]%remove_id_elem. done. }
  pose proof Hd as Hndr. unfold distinct in Hndr. rewrite map_app in Hndr. apply NoDup_app in Hndr as (Hndr & _).
  pose proof (remove_id_perm lowest (running_tasks s) Hndr Hlrun) as Hrem.
  unfold spare, active_slots_count. cbn [running_tasks with_queues max_slots]. rewrite Hset, others_spare, length_app by done.
  pose proof (Permutation_length (filter_Permutation (λ t, t ∉ dispatched) _ _ Hrem)) as Hlen. rewrite filter_cons, decide_True in Hlen by done.
  rewrite (Permutation_length Hrem). cbn [length] in *. lia.
Qed.

Lemma loop_settles s0 fuel s dispatched :
  along s0 s dispatched → (spare s dispatched <= fuel)%nat →
  ∃ s' dispatched', tick_loop fuel now s dispatched = Some (s', dispatched') ∧ along s0 s' dispatched' ∧ settled s' dispatched'.
Proof.
  revert s dispatched. induction fuel as [|fuel IH]; intros s dispatched Ha Hf;
    (destruct (loop_round s0 s dispatched Ha) as [(s' & Hr & Ha' & Hs)|(s' & d' & Hr & Ha' & Hlt)]; [by exists s', dispatched|]).
  - lia.
  - rewrite Hr. apply IH; [done|lia].
Qed.

End tick.

Lemma tick_along now s :
  distinct s → active_slots_count s ≤ max_slots s →
  ∃ s' dispatched, tick (Z.to_nat (max_slots s) + length (running_tasks s)) now s = Some (s', dispatched) ∧
    along (starvation_threshold_seconds s) now s s' dispatched ∧ settled (starvation_threshold_seconds s) now s' dispatched.
Proof.
  intros Hd Hm. apply loop_settles.
  - split; [exact Hd|done|by split|by split; [lia|left]|by intros d Hin%elem_of_nil|by intros d r Hin%elem_of_nil|by intros; left..].
  - unfold spare, active_slots_count. pose proof (length_filter (λ t, t ∉ @nil ScheduledTask) (running_tasks s)). lia.
Qed.

(** C18: What a tick does.  On a scheduler that holds no task twice, the loop of
    [tick] ends, within as many rounds as it has slots and running tasks.  No
    task is lost or doubled, and no slot beyond the bound is taken.  What is
    dispatched was ready, runs since now, and nothing that still waits comes
    before it.  A running task stops only if it can be preempted, and for one
    that comes before it.  And then either no task waits, or the slots are full
    and no waiting task comes before one that could be preempted. *)
Theorem ticks_dispatch_the_first now s :
  distinct s → active_slots_count s ≤ max_slots s →
  let eff := effective_priority (starvation_threshold_seconds s) now in
  ∃ s' dispatched, tick (Z.to_nat (max_slots s) + length (running_tasks s)) now s = Some (s', dispatched) ∧
    map task_id (running_tasks s' ++ ready_queue s') ≡ₚ map task_id (running_tasks s ++ ready_queue s) ∧
    active_slots_count s ≤ active_slots_count s' ≤ max_slots s ∧
    (∀ d, d ∈ dispatched → d ∈ running_tasks s' ∧ ∃ t, t ∈ ready_queue s ∧ d = start now t) ∧
    (∀ d r, d ∈ dispatched → r ∈ ready_queue s' → (eff r <= eff d)%Q) ∧
    (∀ t, t ∈ running_tasks s → t ∈ running_tasks s' ∨
       preempt t ∈ ready_queue s' ∧ preemptible t = true ∧ ∃ d, d ∈ dispatched ∧ (eff t < eff d)%Q) ∧
    (ready_queue s' = [] ∨ active_slots_count s' = max_slots s ∧
       ∀ r c, r ∈ ready_queue s' → c ∈ running_tasks s' → preemptible c = true → c ∉ dispatched → (eff r <= eff c)%Q).
Proof.
  intros Hd Hm eff. destruct (tick_along now s Hd Hm) as (s' & dispatched & Ht & Ha' & Hs).
  destruct Ha' as [_ Hsame [Hms _] Hsl Hdis Hord Hrdy Hsrc Hrun]. exists s', dispatched. split; [exact Ht|]. split; [done|]. split; [lia|].
  split; [done|]. split; [done|]. split.
  - intros t Hin. destruct (Hrun t Hin) as [?|[_ Hr]]; [by left|right]. split; [done|]. destruct (Hrdy _ Hr) as [Hr0|(_ & _ & t0 & d & H1 & H2 & H3 & H4 & H5)].
    + exfalso. unfold distinct in Hd. rewrite map_app in Hd. apply NoDup_app in Hd as (_ & Hd & _).
      apply (Hd (task_id t)); [by apply (list_elem_of_fmap_2 task_id)|]. change (task_id t) with (task_id (preempt t)).
      by apply (list_elem_of_fmap_2 task_id).
    + destruct t, t0. injection H3 as -> -> -> -> -> -> -> ?. split; [done|]. exists d. split; [done|exact H5].
  - destruct Hs as [?|[Hfull Hle]]; [by left|right]. split; [lia|]. intros r c Hr Hc Hp Hn. apply Hle; [done|]. by apply candidate_spec.
Qed.


(** ** Runs *)

Inductive op :=
  | Enqueue (now : Q) (t : ScheduledTask)
  | Tick (now : Q)
  | Complete (id : string)
  | Cancel (id : string)
  | Reload (slots : Z) (threshold : Q).

(** One operation; a new process loads what the last one saved. *)
Definition perform (o : op) (s : Scheduler) : option Scheduler :=
  match o with
  | Enqueue now t => Some (enqueue now t s)
  | Tick now => fst <$> tick (Z.to_nat (max_slots s) + length (running_tasks s)) now s
  | Complete id => Some (complete_task id s).2
  | Cancel id => Some (cancel_task id s).2
  | Reload slots threshold => Some (make_scheduler slots threshold (Some (saved s)))
  end.

Definition run (ops : list op) (s : Scheduler) : option Scheduler := foldl (λ s o, s ≫= perform o) (Some s) ops.

Lemma distinct_queues s ready running :
  distinct s → NoDup (map task_id (running ++ ready)) → distinct (with_queues s ready running).
Proof. done. Qed.

Lemma raise_ids id p l : map task_id (raise_priority id p l) = map task_id l.
Proof.
  induction l as [|t l IH]; simpl; [done|]. destruct (decide (task_id t = id)); simpl; [|by rewrite IH].
  by destruct (_ <? _).
Qed.

Lemma remove_id_sublist id l : sublist (remove_id id l) l.
Proof. apply sublist_filter. Qed.

Lemma remove_first_sublist id l l' : remove_first id l = Some l' → sublist l' l.
Proof.
  revert l'. induction l as [|t l IH]; simpl; intros l'; [done|]. destruct (decide (task_id t = id)).
  - intros [= <-]. by apply sublist_cons.
  - destruct (remove_first id l); simpl; [|done]. intros [= <-]. by apply sublist_skip, IH.
Qed.

Lemma sublist_ids l k : sublist l k → sublist (map task_id l) (map task_id k).
Proof. by induction 1; simpl; constructor. Qed.

Lemma distinct_sublist s ready running :
  distinct s → sublist ready (ready_queue s) → sublist running (running_tasks s) → distinct (with_queues s ready running).
Proof.
  unfold distinct. intros Hd Hr Hu. eapply sublist_NoDup; [exact Hd|]. apply sublist_ids. by apply sublist_app.
Qed.

Lemma has_id_false id l : has_id id l = false → id ∉ map task_id l.
Proof. intros Hf Hin. apply has_id_spec in Hin. congruence. Qed.

Lemma enqueue_distinct now t s : distinct s → distinct (enqueue now t s).
Proof.
  intros Hd. unfold enqueue. destruct (has_id _ (running_tasks s)) eqn:E1; [done|]. destruct (has_id _ (ready_queue s)) eqn:E2.
  - unfold distinct in *. cbn [running_tasks ready_queue with_queues]. rewrite map_app in *. by rewrite raise_ids.
  - apply has_id_false in E1, E2. unfold distinct in *. cbn [running_tasks ready_queue with_queues].
    rewrite app_assoc, map_app. apply NoDup_app. split; [done|]. split; [|apply NoDup_singleton].
    intros x Hx Hin. rewrite map_app in Hx. cbn [map] in Hin. apply list_elem_of_singleton in Hin.
    assert (x = task_id t) as -> by (rewrite Hin; by destruct (enqueued_at t); case_decide).
    apply elem_of_app in Hx. tauto.
Qed.

Lemma dedupe_all seen l : NoDup (map task_id l) → (∀ t, t ∈ l → task_id t ∉ seen) → dedupe seen l = l.
Proof.
  revert seen. induction l as [|t l IH]; intros seen Hn Hs; simpl; [done|]. apply NoDup_cons in Hn as [Ht Hn].
  rewrite bool_decide_eq_false_2 by (apply Hs; by left). f_equal. apply IH; [done|]. intros u Hu [E|Hin]%elem_of_cons.
  - apply Ht. rewrite <- E. by apply (list_elem_of_fmap_2 task_id).
  - eapply (Hs u); [by right|done].
Qed.

Lemma fold_set acc l : NoDup (map task_id (acc ++ l)) → foldl (λ l t, set_task t l) acc l = acc ++ l.
Proof.
  revert acc. induction l as [|t l IH]; intros acc Hn; simpl; [by rewrite app_nil_r|].
  rewrite set_task_new, IH, <- app_assoc; [done|by rewrite <- app_assoc|]. rewrite map_app in Hn. apply NoDup_app in Hn as (_ & Hn & _).
  intros Hin. apply (Hn _ Hin). by left.
Qed.

(** A new process finds the scheduler that was saved. *)
Lemma reload_restores slots threshold s : distinct s → make_scheduler slots threshold (Some (saved s)) = s.
Proof.
  intros Hd. unfold distinct in Hd. pose proof Hd as Hd'. rewrite map_app in Hd'. apply NoDup_app in Hd' as (H1 & H2 & H3).
  unfold make_scheduler, saved. cbn. rewrite fold_set by done. rewrite dedupe_all; [by destruct s|done|].
  intros t Ht Hin. apply (H2 _ Hin). by apply (list_elem_of_fmap_2 task_id).
Qed.

(** Schedulers stay sound.  Through any enqueues, ticks, completions,
    cancellations and restarts of a scheduler that began without a state file,
    every tick comes to its end, no task is held twice, and no more tasks run
    than there are slots. *)
Theorem schedulers_stay_sound slots threshold ops :
  ∃ s, run ops (make_scheduler slots threshold None) = Some s ∧ distinct s ∧ active_slots_count s ≤ max_slots s.
Proof.
  unfold run. induction ops as [|o ops (s & E & Hd & Hm)] using rev_ind.
  { eexists. split; [done|]. split; [constructor|]. unfold active_slots_count. cbn. lia. }
  rewrite foldl_app, E. cbn [foldl mbind option_bind].
  assert (∀ id, active_slots_count (with_queues s (ready_queue s) (remove_id id (running_tasks s))) ≤ max_slots s) as Hrem.
  { intros id. unfold active_slots_count in *. cbn [running_tasks with_queues].
    pose proof (sublist_length _ _ (remove_id_sublist id (running_tasks s))). lia. }
  destruct o as [now t|now|id|id|slots' threshold']; cbn [perform].
  - exists (enqueue now t s). split; [done|]. split; [by apply enqueue_distinct|]. unfold enqueue. by repeat case_match.
  - destruct (tick_along now s Hd Hm) as (s' & d & Ht & [Hd' _ [Hms _] Hsl] & _). rewrite Ht. exists s'. split; [done|]. split; [done|lia].
  - unfold complete_task. destruct (has_id id (running_tasks s)); cbn; [|by exists s]. eexists. split; [done|].
    split; [apply distinct_sublist; [done..|apply remove_id_sublist]|apply Hrem].
  - unfold cancel_task. destruct (has_id id (running_tasks s)); cbn.
    { eexists. split; [done|]. split; [apply distinct_sublist; [done..|apply remove_id_sublist]|apply Hrem]. }
    destruct (remove_first id (ready_queue s)) as [ready|] eqn:Er; cbn; [|by exists s]. eexists. split; [done|].
    split; [apply distinct_sublist; [done|by eapply remove_first_sublist|done]|done].
  - eexists. split; [done|]. by rewrite reload_restores.
Qed.

(** ** Aging *)

(** Aging bounds how long a task is overtaken.  Forty-five seconds after
    the starvation threshold a task of any priority comes before every task that
    was enqueued forty-five seconds or more after it, whatever its priority. *)
Theorem aging_bounds_overtaking threshold now a b ta tb :
  enqueued_at a = Some ta → enqueued_at b = Some tb → (0 <= threshold)%Q →
  (ta + 45 <= tb)%Q → (ta + threshold + 45 <= now)%Q →
  goes_first threshold now a b = true.
Proof.
  intros Ha Hb Ht Hab Hn. unfold goes_first. rewrite Ha, Hb. cbn [default].
  assert (effective_priority threshold now b <= effective_priority threshold now a)%Q as Hle.
  { unfold effective_priority. rewrite Ha, Hb.
    assert (10 <= inject_Z (priority_value (priority a)))%Q as H1 by (destruct (priority a); vm_compute; discriminate).
    assert (inject_Z (priority_value (priority b)) <= 100)%Q as H2 by (destruct (priority b); vm_compute; discriminate).
    assert (Qmax 0 (now - ta) == now - ta)%Q as E1 by (apply Q.max_r; lra). pose proof (Q.max_spec 0 (now - tb)) as E2.
    destruct (Qle_bool (Qmax 0 (now - ta)) threshold) eqn:Q1; cbn [negb].
    { apply Qle_bool_iff in Q1. lra. }
    destruct (Qle_bool (Qmax 0 (now - tb)) threshold) eqn:Q2; cbn [negb]; lra. }
  destruct (Qle_bool (effective_priority threshold now a) (effective_priority threshold now b)) eqn:E; cbn [negb orb]; [|done].
  apply Qle_bool_iff in E. apply andb_true_iff. split; [apply Qeq_bool_iff; lra|apply Qle_bool_iff; simpl; lra].
Qed.
