(* ===== verification/WorkStealing.v ===== *)
(** * Work stealing ([work_stealing.py])

    Workers with ready queues and running tasks; an idle worker takes a task
    from the tail of another's queue and the task's fencing token grows.  A task
    is one object that the registry and a queue share: queues hold the ids of
    the registry's tasks. *)

From stdpp Require Import gmap.
From S2P Require Import Prelude Json.

Record StealableTask := mkStealable {
  sk_owner : string;
  sk_required_capabilities : gset string;
  sk_fencing_token : Z;
  sk_payload : json;
}.

Record WorkerNodeDescriptor := mkNode {
  wn_capacity : Z;
  wn_capabilities : gset string;
  wn_ready_tasks : list string;
  wn_running_tasks : list string;
}.

(** Workers by name, with their names in the order they were registered in. *)
Record WorkStealingCluster := mkCluster {
  ws_names : list string;
  ws_workers : gmap string WorkerNodeDescriptor;
  ws_registry : gmap string StealableTask;
}.

Definition empty_cluster : WorkStealingCluster := mkCluster [] ∅ ∅.

Definition ready_count (n : WorkerNodeDescriptor) : Z := Z.of_nat (length (wn_ready_tasks n)).
Definition running_count (n : WorkerNodeDescriptor) : Z := Z.of_nat (length (wn_running_tasks n)).
Definition total_load (n : WorkerNodeDescriptor) : Z := ready_count n + running_count n.

Definition with_tasks (n : WorkerNodeDescriptor) (ready running : list string) : WorkerNodeDescriptor :=
  mkNode (wn_capacity n) (wn_capabilities n) ready running.
Definition put_worker (w : string) (n : WorkerNodeDescriptor) (c : WorkStealingCluster) : WorkStealingCluster :=
  mkCluster (ws_names c) (<[w := n]> (ws_workers c)) (ws_registry c).
Definition put_task (id : string) (t : StealableTask) (c : WorkStealingCluster) : WorkStealingCluster :=
  mkCluster (ws_names c) (ws_workers c) (<[id := t]> (ws_registry c)).

(** ** Operations *)

(** A worker that is known keeps its queues. *)
Definition register_worker (w : string) (capacity : Z) (capabilities : gset string) (c : WorkStealingCluster) : WorkStealingCluster :=
  match ws_workers c !! w with
  | Some n => put_worker w (mkNode (Z.max 1 capacity) capabilities (wn_ready_tasks n) (wn_running_tasks n)) c
  | None => mkCluster (ws_names c ++ [w]) (<[w := mkNode (Z.max 1 capacity) capabilities [] []]> (ws_workers c)) (ws_registry c)
  end.

Definition get_worker (w : string) (c : WorkStealingCluster) : result WorkerNodeDescriptor :=
  of_option (Exn KeyError "Unknown worker") (ws_workers c !! w).

Definition enqueue_task (w id : string) (task : StealableTask) (c : WorkStealingCluster) : result WorkStealingCluster :=
  if bool_decide (is_Some (ws_registry c !! id)) then raise KeyError "Duplicate task_id"
  else
    worker ← get_worker w c;
    let task := mkStealable w (sk_required_capabilities task) (sk_fencing_token task) (sk_payload task) in
    mret (put_worker w (with_tasks worker (wn_ready_tasks worker ++ [id]) (wn_running_tasks worker)) (put_task id task c)).

(** The first occurrence leaves the list. *)
Fixpoint pop_first (id : string) (l : list string) : option (list string) :=
  match l with
  | [] => None
  | x :: l => if decide (x = id) then Some l else cons x <$> pop_first id l
  end.

(** [running_tasks[id] = task] *)
Definition add_running (id : string) (l : list string) : list string := if bool_decide (id ∈ l) then l else l ++ [id].

Definition start_task (w id : string) (c : WorkStealingCluster) : result WorkStealingCluster :=
  worker ← get_worker w c;
  match pop_first id (wn_ready_tasks worker) with
  | None => raise KeyError "not in ready queue"
  | Some ready => mret (put_worker w (with_tasks worker ready (add_running id (wn_running_tasks worker))) c)
  end.

Definition complete_task (w id : string) (c : WorkStealingCluster) : result (bool * WorkStealingCluster) :=
  worker ← get_worker w c;
  if bool_decide (id ∈ wn_running_tasks worker) then
    let worker := with_tasks worker (wn_ready_tasks worker) (filter (λ x, x ≠ id) (wn_running_tasks worker)) in
    let c := put_worker w worker c in
    mret (true, mkCluster (ws_names c) (ws_workers c) (delete id (ws_registry c)))
  else mret (false, c).

(** The last element that fits leaves the list. *)
Fixpoint pop_last (fits : string → bool) (l : list string) : option (string * list string) :=
  match l with
  | [] => None
  | x :: l =>
      match pop_last fits l with
      | Some (y, l') => Some (y, x :: l')
      | None => if fits x then Some (x, l) else None
      end
  end.

Definition fits (capabilities : gset string) (c : WorkStealingCluster) (id : string) : bool :=
  match ws_registry c !! id with
  | Some t => bool_decide (sk_required_capabilities t ⊆ capabilities)
  | None => false
  end.

Definition steal_task (stealer_id victim_id : string) (c : WorkStealingCluster) : result (string * WorkStealingCluster) :=
  stealer ← get_worker stealer_id c;
  victim ← get_worker victim_id c;
  if wn_capacity stealer <=? total_load stealer then raise CapacityExceededError "at capacity"
  else if decide (wn_ready_tasks victim = []) then raise NoStealableTaskError "no ready tasks to steal"
  else
    match pop_last (fits (wn_capabilities stealer) c) (wn_ready_tasks victim) with
    | None => raise IncompatibleCapabilityError "lacks required capabilities"
    | Some (id, ready) =>
        stolen ← of_option (Exn KeyError id) (ws_registry c !! id);
        let stolen := mkStealable stealer_id (sk_required_capabilities stolen) (sk_fencing_token stolen + 1) (sk_payload stolen) in
        let c := put_worker victim_id (with_tasks victim ready (wn_running_tasks victim)) (put_task id stolen c) in
        stealer ← get_worker stealer_id c;
        mret (id, put_worker stealer_id (with_tasks stealer (wn_ready_tasks stealer ++ [id]) (wn_running_tasks stealer)) c)
    end.

Definition verify_execution_token (id w : string) (token : Z) (c : WorkStealingCluster) : result bool :=
  match ws_registry c !! id with
  | None => raise KeyError "Task not found"
  | Some task =>
      if negb (bool_decide (sk_owner task = w)) || negb (sk_fencing_token task =? token)
      then raise StaleFencingTokenError "Stale or unauthorized execution"
      else mret true
  end.

(** ** Rebalancing *)

Abbreviation Node := (string * WorkerNodeDescriptor)%type.

Definition active_nodes (c : WorkStealingCluster) : list Node :=
  filter (λ n : Node, 0 < wn_capacity n.2) (omap (λ w, pair w <$> ws_workers c !! w) (ws_names c)).

(** The first and the last node of the list sorted by load, highest first, in
    which nodes of one load stay in their order. *)
Definition heavier (a b : Node) : Node := if total_load a.2 <? total_load b.2 then b else a.
Definition lighter (a b : Node) : Node := if total_load b.2 <=? total_load a.2 then b else a.

Definition is_stealing_error (e : exn) : bool :=
  match exn_cls e with
  | NoStealableTaskError | IncompatibleCapabilityError | CapacityExceededError | StaleFencingTokenError => true
  | _ => false
  end.

(** The loop; [None] when it did not end within its fuel. *)
Fixpoint rebalance_loop (fuel : nat) (transferred : Z) (c : WorkStealingCluster) : option (result Z * WorkStealingCluster) :=
  match active_nodes c with
  | a :: b :: nodes =>
      let most_loaded := foldl heavier a (b :: nodes) in
      let least_loaded := foldl lighter a (b :: nodes) in
      let diff := total_load most_loaded.2 - total_load least_loaded.2 in
      if (1 <? diff) && (total_load least_loaded.2 <? wn_capacity least_loaded.2) && (0 <? ready_count most_loaded.2) then
        match steal_task least_loaded.1 most_loaded.1 c with
        | Ok (_, c) => match fuel with O => None | S fuel => rebalance_loop fuel (transferred + 1) c end
        | Err e => if is_stealing_error e then Some (Ok transferred, c) else Some (Err e, c)
        end
      else Some (Ok transferred, c)
  | _ => Some (Ok transferred, c)
  end.

Definition rebalance (fuel : nat) (c : WorkStealingCluster) : option (result Z * WorkStealingCluster) := rebalance_loop fuel 0 c.
