(* ===== verification/StealingSpec.v ===== *)
(** * What work stealing promises

    Every task is held once, by its owner; a token verifies until the task is
    stolen; rebalancing ends. *)

From stdpp Require Import gmap.
From S2P Require Import Prelude Json WorkStealing.

Definition tasks (n : WorkerNodeDescriptor) : list string := wn_ready_tasks n ++ wn_running_tasks n.

(** Every registered task is in the queue of its owner, once, and nowhere else. *)
Record sound (c : WorkStealingCluster) : Prop := {
  so_names : ∀ w, w ∈ ws_names c ↔ is_Some (ws_workers c !! w);
  so_nodup : NoDup (ws_names c);
  so_held : ∀ w n, ws_workers c !! w = Some n →
    NoDup (tasks n) ∧ ∀ id, id ∈ tasks n → ∃ t, ws_registry c !! id = Some t ∧ sk_owner t = w;
  so_owned : ∀ id t, ws_registry c !! id = Some t → ∃ n, ws_workers c !! sk_owner t = Some n ∧ id ∈ tasks n;
}.

(** ** Queues *)

Lemma pop_first_spec id l l' : pop_first id l = Some l' → l ≡ₚ id :: l'.
Proof.
  revert l'. induction l as [|x l IH]; intros l'; simpl; [done|].
  case_decide as Hx; [intros [= <-]; by rewrite Hx|].
  destruct (pop_first id l) as [k|] eqn:E; [|done]. intros [= <-]. rewrite (IH k eq_refl). by constructor.
Qed.

Lemma pop_last_spec fits l id l' : pop_last fits l = Some (id, l') → l ≡ₚ id :: l' ∧ fits id = true.
Proof.
  revert l'. induction l as [|x l IH]; intros l'; simpl; [done|].
  destruct (pop_last fits l) as [[y k]|] eqn:E.
  - intros [= -> <-]. destruct (IH k eq_refl) as [Hp Hf]. split; [|done]. rewrite Hp. by constructor.
  - destruct (fits x) eqn:Hf; [|done]. intros [= -> ->]. done.
Qed.

Lemma pop_last_none fits l : pop_last fits l = None → ∀ id, id ∈ l → fits id = false.
Proof.
  induction l as [|x l IH]; simpl; [intros _ id Hi; by apply elem_of_nil in Hi|].
  destruct (pop_last fits l) as [[]|]; [done|]. destruct (fits x) eqn:Hf; [done|].
  intros _ id [->|Hi]%elem_of_cons; [done|by apply IH].
Qed.

Lemma add_running_perm id l : id ∉ l → add_running id l = l ++ [id].
Proof. intros Hi. unfold add_running. by rewrite bool_decide_false. Qed.

Lemma without_spec id (l : list string) x : x ∈ filter (λ x, x ≠ id) l ↔ x ≠ id ∧ x ∈ l.
Proof. by rewrite list_elem_of_filter. Qed.

(** ** Operations keep clusters sound *)

Ltac fold_worker := match goal with H : get_worker _ _ = Ok _ |- _ => apply of_option_Ok in H end.

(** The tasks of one worker change, and with them its part of the registry. *)
Lemma sound_put c w n n' reg :
  sound c → ws_workers c !! w = Some n → NoDup (tasks n') →
  (∀ id, id ∈ tasks n' → ∃ t, reg !! id = Some t ∧ sk_owner t = w) →
  (∀ id t, reg !! id = Some t → sk_owner t = w → id ∈ tasks n') →
  (∀ id t, sk_owner t ≠ w → reg !! id = Some t ↔ ws_registry c !! id = Some t) →
  sound (mkCluster (ws_names c) (<[w := n']> (ws_workers c)) reg).
Proof.
  intros [Hn Hd Hh Ho] Hw Hnd Hheld Howned Hother. split; cbn; [|done| |].
  - intros v. rewrite Hn. destruct (decide (v = w)) as [->|]; [|by rewrite lookup_insert_ne by done].
    rewrite lookup_insert_eq, Hw. split; eauto.
  - intros v m. destruct (decide (v = w)) as [->|Hv].
    + rewrite lookup_insert_eq. intros [= <-]. auto.
    + rewrite lookup_insert_ne by done. intros Hm. destruct (Hh v m Hm) as [Hm1 Hm2]. split; [done|].
      intros id Hi. destruct (Hm2 id Hi) as (t & Ht & <-). exists t. split; [|done]. by apply Hother.
  - intros id t Ht. destruct (decide (sk_owner t = w)) as [E|Hv].
    + rewrite E, lookup_insert_eq. eauto.
    + rewrite lookup_insert_ne by done. apply Ho, Hother; done.
Qed.

Lemma sound_same c w n n' :
  sound c → ws_workers c !! w = Some n → tasks n' ≡ₚ tasks n → sound (put_worker w n' c).
Proof.
  intros Hs Hw Hp. destruct (so_held c Hs w n Hw) as [H1 H2]. eapply sound_put; eauto.
  - by rewrite Hp.
  - intros id. rewrite Hp. apply H2.
  - intros id t Ht <-. destruct (so_owned c Hs id t Ht) as (m & Hm & Hi). simplify_eq. by rewrite Hp.
Qed.

Lemma sound_more c w n n' id t :
  sound c → ws_workers c !! w = Some n → ws_registry c !! id = None → sk_owner t = w → tasks n' ≡ₚ id :: tasks n →
  sound (mkCluster (ws_names c) (<[w := n']> (ws_workers c)) (<[id := t]> (ws_registry c))).
Proof.
  intros Hs Hw Hnew <- Hp. destruct (so_held c Hs _ n Hw) as [H1 H2].
  assert (id ∉ tasks n) as Hid by (intros Hi; destruct (H2 id Hi) as (? & ? & _); congruence).
  eapply sound_put; eauto.
  - rewrite Hp. by constructor.
  - intros x. rewrite Hp. intros [->|Hi]%elem_of_cons; [exists t; by rewrite lookup_insert_eq|].
    destruct (H2 x Hi) as (u & Hu & Ho). exists u. rewrite lookup_insert_ne; [done|]. by intros ->.
  - intros x u Hu Ho. rewrite Hp. destruct (decide (x = id)) as [->|]; [by left|right].
    rewrite lookup_insert_ne in Hu by done. destruct (so_owned c Hs x u Hu) as (m & Hm & Hi). rewrite Ho in Hm. by simplify_eq.
  - intros x u Hu. destruct (decide (x = id)) as [->|]; [|by rewrite lookup_insert_ne].
    rewrite lookup_insert_eq, Hnew. naive_solver.
Qed.

Lemma sound_less c w n n' id :
  sound c → ws_workers c !! w = Some n → tasks n ≡ₚ id :: tasks n' →
  sound (mkCluster (ws_names c) (<[w := n']> (ws_workers c)) (delete id (ws_registry c))).
Proof.
  intros Hs Hw Hp. destruct (so_held c Hs _ n Hw) as [H1 H2]. rewrite Hp in H1. apply NoDup_cons in H1 as [Hid H1].
  eapply sound_put; eauto.
  - intros x Hi. destruct (H2 x) as (u & Hu & Ho); [rewrite Hp; by right|]. exists u.
    rewrite lookup_delete_ne; [done|]. by intros ->.
  - intros x u [Hne Hu]%lookup_delete_Some Ho. destruct (so_owned c Hs x u Hu) as (m & Hm & Hi). rewrite Ho in Hm. simplify_eq.
    rewrite Hp in Hi. apply elem_of_cons in Hi as [->|Hi]; done.
  - intros x u Hu. rewrite lookup_delete_Some. split; [by intros [_ ?]|]. intros Hx. split; [|done]. intros <-.
    destruct (H2 id) as (u' & Hu' & Ho); [rewrite Hp; by left|]. congruence.
Qed.

Lemma register_sound c w capacity caps : sound c → sound (register_worker w capacity caps c).
Proof.
  intros Hs. unfold register_worker. destruct (ws_workers c !! w) as [n|] eqn:Hw; [by eapply sound_same|].
  assert (w ∉ ws_names c) as Hnew by (rewrite (so_names c Hs), Hw; by intros []).
  destruct Hs as [Hn Hd Hh Ho]. split; cbn.
  - intros v. rewrite elem_of_app, list_elem_of_singleton, Hn. destruct (decide (v = w)) as [->|].
    + rewrite lookup_insert_eq. split; eauto.
    + rewrite lookup_insert_ne by done. naive_solver.
  - apply NoDup_app. split_and!; [done| |apply NoDup_singleton]. intros v Hv ->%list_elem_of_singleton. done.
  - intros v m. destruct (decide (v = w)) as [->|]; [|rewrite lookup_insert_ne by done; apply Hh].
    rewrite lookup_insert_eq. intros [= <-]. split; [constructor|]. intros id Hi. by apply elem_of_nil in Hi.
  - intros id t Ht. destruct (Ho id t Ht) as (m & Hm & Hi). exists m. split; [|done].
    rewrite lookup_insert_ne; [done|]. intros ->. by rewrite Hw in Hm.
Qed.

(** ** What each operation does *)

Lemma enqueue_spec c w id task c' :
  enqueue_task w id task c = Ok c' →
  ws_registry c !! id = None ∧ ∃ n, ws_workers c !! w = Some n ∧
    c' = mkCluster (ws_names c) (<[w := with_tasks n (wn_ready_tasks n ++ [id]) (wn_running_tasks n)]> (ws_workers c))
           (<[id := mkStealable w (sk_required_capabilities task) (sk_fencing_token task) (sk_payload task)]> (ws_registry c)).
Proof.
  unfold enqueue_task. case_bool_decide as Hreg; [done|]. apply eq_None_not_Some in Hreg. intros H. inv_ok.
  apply of_option_Ok in Ha. eauto.
Qed.

Lemma start_spec c w id c' :
  sound c → start_task w id c = Ok c' →
  ∃ n n', ws_workers c !! w = Some n ∧ c' = put_worker w n' c ∧ tasks n' ≡ₚ tasks n ∧ wn_capacity n' = wn_capacity n ∧
    ∀ x, x ∈ wn_running_tasks n → x ∈ wn_running_tasks n'.
Proof.
  intros Hs. unfold start_task. intros H. inv_ok. apply of_option_Ok in Ha.
  destruct (pop_first id _) as [ready|] eqn:E; [|done]. inv_ok. apply pop_first_spec in E.
  assert (id ∉ wn_running_tasks a) as Hid.
  { destruct (so_held c Hs w a Ha) as [Hnd _]. unfold tasks in Hnd. rewrite E in Hnd.
    apply NoDup_cons in Hnd as [Hnd _]. intros Hi. apply Hnd, elem_of_app. by right. }
  exists a, (with_tasks a ready (add_running id (wn_running_tasks a))). split; [done|]. split; [done|].
  unfold tasks. cbn. rewrite add_running_perm by done. split_and!; [|done|intros; apply elem_of_app; by left].
  rewrite E. simpl. rewrite app_assoc, (Permutation_app_comm (_ ++ _) [id]). done.
Qed.

Lemma complete_spec c w id b c' :
  sound c → complete_task w id c = Ok (b, c') →
  (b = false ∧ c' = c) ∨
  b = true ∧ ∃ n n', ws_workers c !! w = Some n ∧ tasks n ≡ₚ id :: tasks n' ∧ wn_capacity n' = wn_capacity n ∧
    (∀ x, x ∈ wn_running_tasks n → x ≠ id → x ∈ wn_running_tasks n') ∧
    c' = mkCluster (ws_names c) (<[w := n']> (ws_workers c)) (delete id (ws_registry c)).
Proof.
  intros Hs. unfold complete_task. intros H. inv_ok. apply of_option_Ok in Ha.
  case_bool_decide as Hi; inv_ok; [right|by left]. split; [done|].
  exists a, (with_tasks a (wn_ready_tasks a) (filter (λ x, x ≠ id) (wn_running_tasks a))).
  split; [done|]. cbn. split_and!; [|done| |done].
  - destruct (so_held c Hs w a Ha) as [Hnd _]. unfold tasks in *. cbn.
    apply NoDup_app in Hnd as (_ & _ & Hnd). rewrite Permutation_middle. f_equiv.
    apply NoDup_Permutation; [done| |].
    + constructor; [|by apply NoDup_filter]. rewrite without_spec. by intros [].
    + intros x. rewrite elem_of_cons, without_spec. destruct (decide (x = id)) as [->|]; naive_solver.
  - intros x Hx Hne. by apply without_spec.
Qed.

(** A stolen task: who had it, who has it, and what became of their queues. *)
Record stolen (s v id : string) (c c' : WorkStealingCluster) (nv ns nv' ns' : WorkerNodeDescriptor) : Prop := {
  st_victim : ws_workers c !! v = Some nv;
  st_stealer : <[v := nv']> (ws_workers c) !! s = Some ns;
  st_room : ∃ n, ws_workers c !! s = Some n ∧ total_load n < wn_capacity n;
  st_popped : wn_ready_tasks nv ≡ₚ id :: wn_ready_tasks nv';
  st_victim_rest : wn_running_tasks nv' = wn_running_tasks nv ∧ wn_capacity nv' = wn_capacity nv;
  st_pushed : wn_ready_tasks ns' = wn_ready_tasks ns ++ [id];
  st_stealer_rest : wn_running_tasks ns' = wn_running_tasks ns ∧ wn_capacity ns' = wn_capacity ns;
  st_result : ∃ t, ws_registry c !! id = Some t ∧
    c' = mkCluster (ws_names c) (<[s := ns']> (<[v := nv']> (ws_workers c)))
           (<[id := mkStealable s (sk_required_capabilities t) (sk_fencing_token t + 1) (sk_payload t)]> (ws_registry c));
}.

Lemma steal_spec c s v id c' :
  steal_task s v c = Ok (id, c') → ∃ nv ns nv' ns', stolen s v id c c' nv ns nv' ns'.
Proof.
  unfold steal_task. intros H. inv_ok. apply of_option_Ok in Ha, Ha0. case_match eqn:Hroom; [done|].
  case_decide; [done|]. destruct (pop_last _ _) as [[x ready]|] eqn:E; [|done]. inv_ok.
  apply pop_last_spec in E as [Hp _]. apply of_option_Ok in Ha2. bool_hyps.
  eexists _, _, _, (with_tasks _ (wn_ready_tasks _ ++ [_]) (wn_running_tasks _)).
  split; [done|exact Ha2|eauto|exact Hp|done|done|done|eauto].
Qed.

Lemma stolen_tasks s v id c c' nv ns nv' ns' :
  stolen s v id c c' nv ns nv' ns' → tasks nv ≡ₚ id :: tasks nv' ∧ tasks ns' ≡ₚ id :: tasks ns.
Proof.
  intros []. destruct st_victim_rest0 as [Hr _], st_stealer_rest0 as [Hr' _]. unfold tasks. rewrite st_popped0, Hr, Hr', st_pushed0.
  split; [done|]. rewrite <- app_assoc. simpl. by rewrite <- Permutation_middle.
Qed.

Lemma steal_sound c s v id c' : sound c → steal_task s v c = Ok (id, c') → sound c'.
Proof.
  intros Hs (nv & ns & nv' & ns' & H)%steal_spec. destruct (stolen_tasks _ _ _ _ _ _ _ _ _ H) as [Hv Hst].
  destruct (st_result _ _ _ _ _ _ _ _ _ H) as (t & Ht & ->).
  pose proof (sound_less c v nv nv' id Hs (st_victim _ _ _ _ _ _ _ _ _ H) Hv) as Hless.
  rewrite <- (insert_delete_eq (ws_registry c) id).
  apply (sound_more _ s ns ns' id _ Hless (st_stealer _ _ _ _ _ _ _ _ _ H)); [apply lookup_delete_eq|done|done].
Qed.

(** ** Tasks change hands *)

(** What stealing may change: ready queues, and owner and token of tasks that
    are not running. *)
Record rearranged (c c' : WorkStealingCluster) : Prop := {
  re_names : ws_names c' = ws_names c;
  re_workers : ∀ w n, ws_workers c !! w = Some n → ∃ n', ws_workers c' !! w = Some n' ∧
    wn_running_tasks n' = wn_running_tasks n ∧ wn_capacity n' = wn_capacity n ∧
    total_load n' ≤ Z.max (total_load n) (wn_capacity n);
  re_tasks : ∀ id t, ws_registry c !! id = Some t → ∃ t', ws_registry c' !! id = Some t' ∧
    (t' = t ∨ sk_fencing_token t < sk_fencing_token t');
  re_gone : ∀ id, ws_registry c !! id = None → ws_registry c' !! id = None;
  re_running : ∀ w n id, ws_workers c !! w = Some n → id ∈ wn_running_tasks n → ws_registry c' !! id = ws_registry c !! id;
}.

Lemma rearranged_refl c : rearranged c c.
Proof. split; eauto. intros w n Hw. exists n. split_and!; [done..|lia]. Qed.

Lemma rearranged_trans c1 c2 c3 : rearranged c1 c2 → rearranged c2 c3 → rearranged c1 c3.
Proof.
  intros [Hn Hw Ht Hg Hr] [Hn' Hw' Ht' Hg' Hr']. split; [congruence| | |auto|].
  - intros w n E. destruct (Hw w n E) as (m & Em & H1 & H2 & H3). destruct (Hw' w m Em) as (k & Ek & H4 & H5 & H6).
    exists k. split; [done|]. split; [congruence|]. split; [congruence|]. lia.
  - intros id t E. destruct (Ht id t E) as (u & Eu & Hu). destruct (Ht' id u Eu) as (v & Ev & Hv). exists v. split; [done|].
    destruct Hu as [->|Hu], Hv as [->|Hv]; auto. right. lia.
  - intros w n id E Hi. destruct (Hw w n E) as (m & Em & H1 & _). rewrite (Hr' w m id Em), (Hr w n id E Hi); [done|]. by rewrite H1.
Qed.

(** A task that waits does not run. *)
Lemma ready_not_running c v nv id w n :
  sound c → ws_workers c !! v = Some nv → id ∈ wn_ready_tasks nv → ws_workers c !! w = Some n → id ∉ wn_running_tasks n.
Proof.
  intros Hs Hv Hi Hw Hr. destruct (so_held c Hs v nv Hv) as [Hnd Hv']. destruct (so_held c Hs w n Hw) as [_ Hw'].
  destruct (Hv' id) as (t & Ht & <-); [apply elem_of_app; by left|].
  destruct (Hw' id) as (t' & Ht' & <-); [apply elem_of_app; by right|]. simplify_eq.
  unfold tasks in Hnd. apply NoDup_app in Hnd as (_ & Hnd & _). by apply (Hnd id).
Qed.

Lemma steal_rearranged c s v id c' : sound c → steal_task s v c = Ok (id, c') → rearranged c c'.
Proof.
  intros Hs (nv & ns & nv' & ns' & H)%steal_spec. destruct H as [Hv Hst Hroom Hpop [Hr Hc] Hpush [Hr' Hc'] (t & Ht & ->)].
  assert (total_load nv = total_load nv' + 1) as Hload.
  { unfold total_load, ready_count, running_count. rewrite Hr, Hpop. simpl. lia. }
  assert (total_load ns' = total_load ns + 1) as Hload'.
  { unfold total_load, ready_count, running_count. rewrite Hr', Hpush, length_app. simpl. lia. }
  split; cbn; [done| | | |].
  - intros w n Hw. destruct (decide (w = s)) as [->|Hns]; [|rewrite lookup_insert_ne by done; destruct (decide (w = v)) as [->|Hnv]].
    + rewrite lookup_insert_eq. exists ns'. split; [done|]. destruct Hroom as (m & Hm & Hlt). simplify_eq.
      destruct (decide (v = s)) as [->|Hvs].
      * rewrite lookup_insert_eq in Hst. simplify_eq. split_and!; [congruence|congruence|lia].
      * rewrite lookup_insert_ne in Hst by done. simplify_eq. split_and!; [done|done|lia].
    + rewrite lookup_insert_eq. simplify_eq. exists nv'. split_and!; [done..|lia].
    + rewrite lookup_insert_ne by done. exists n. split_and!; [done..|lia].
  - intros x u Hu. destruct (decide (x = id)) as [->|]; [|rewrite lookup_insert_ne by done; eauto].
    rewrite lookup_insert_eq. simplify_eq. eexists. split; [done|]. right. cbn. lia.
  - intros x Hx. rewrite lookup_insert_ne; [done|]. congruence.
  - intros w n x Hw Hx. rewrite lookup_insert_ne; [done|]. intros <-.
    eapply (ready_not_running c v nv id w n); eauto. rewrite Hpop. by left.
Qed.

(** ** Rebalancing *)

Lemma active_elem c w n :
  (w, n) ∈ active_nodes c ↔ w ∈ ws_names c ∧ ws_workers c !! w = Some n ∧ 0 < wn_capacity n.
Proof.
  unfold active_nodes. rewrite list_elem_of_filter, list_elem_of_omap. simpl. split.
  - intros (Hc & v & Hv & E). destruct (ws_workers c !! v) as [m|] eqn:Em; [|done]. injection E as <- <-. auto.
  - intros (Hw & E & Hc). split; [done|]. exists w. by rewrite E.
Qed.

Lemma heaviest a l : foldl heavier a l ∈ a :: l ∧ ∀ x, x ∈ a :: l → total_load x.2 ≤ total_load (foldl heavier a l).2.
Proof.
  revert a. induction l as [|b l IH]; intros a; simpl; [split; [by left|]; by intros x ->%list_elem_of_singleton|].
  assert (heavier a b = a ∧ total_load b.2 ≤ total_load a.2 ∨ heavier a b = b ∧ total_load a.2 ≤ total_load b.2) as Hab.
  { unfold heavier. case_match eqn:E; bool_hyps; [right|left]; split; (done || lia). }
  destruct (IH (heavier a b)) as [H1 H2]. pose proof (H2 _ ltac:(by left)) as H3.
  destruct Hab as [[E Hle]|[E Hle]]; rewrite E in H1, H2, H3 |- *; set_unfold; (split; [tauto|]);
    intros x [->|[->|Hx]]; (lia || apply H2; auto).
Qed.

Lemma lightest a l : foldl lighter a l ∈ a :: l ∧ ∀ x, x ∈ a :: l → total_load (foldl lighter a l).2 ≤ total_load x.2.
Proof.
  revert a. induction l as [|b l IH]; intros a; simpl; [split; [by left|]; by intros x ->%list_elem_of_singleton|].
  assert (lighter a b = a ∧ total_load a.2 ≤ total_load b.2 ∨ lighter a b = b ∧ total_load b.2 ≤ total_load a.2) as Hab.
  { unfold lighter. case_match eqn:E; bool_hyps; [right|left]; split; (done || lia). }
  destruct (IH (lighter a b)) as [H1 H2]. pose proof (H2 _ ltac:(by left)) as H3.
  destruct Hab as [[E Hle]|[E Hle]]; rewrite E in H1, H2, H3 |- *; set_unfold; (split; [tauto|]);
    intros x [->|[->|Hx]]; (lia || apply H2; auto).
Qed.

(** A worker with room that is refused can run none of the tasks that wait. *)
Lemma steal_refused c s v ns nv :
  ws_workers c !! s = Some ns → ws_workers c !! v = Some nv → total_load ns < wn_capacity ns → wn_ready_tasks nv ≠ [] →
  (∃ id c', steal_task s v c = Ok (id, c')) ∨
  (∃ e, steal_task s v c = Err e ∧ is_stealing_error e = true) ∧ ∀ id, id ∈ wn_ready_tasks nv → fits (wn_capabilities ns) c id = false.
Proof.
  intros Hs Hv Hroom Hready. unfold steal_task, get_worker. rewrite Hs, Hv. cbn.
  rewrite (proj2 (Z.leb_gt _ _)) by lia. rewrite decide_False by done.
  destruct (pop_last _ _) as [[id ready]|] eqn:E; [left|right].
  - apply pop_last_spec in E as [_ Hf]. unfold fits in Hf. destruct (ws_registry c !! id) as [t|]; [|done]. cbn.
    destruct (decide (s = v)) as [->|]; [rewrite lookup_insert_eq|rewrite lookup_insert_ne, Hs by done]; cbn; eauto.
  - split; [eexists; split; [reflexivity|done]|]. by apply pop_last_none.
Qed.

(** The sum of the squares of the loads, the measure of the loop. *)
Definition load_of (c : WorkStealingCluster) (w : string) : Z :=
  match ws_workers c !! w with Some n => total_load n | None => 0 end.
Definition total (f : string → Z) (l : list string) : Z := foldr (λ w acc, f w + acc) 0 l.
Definition potential (c : WorkStealingCluster) : Z := total (λ w, load_of c w * load_of c w) (ws_names c).

Lemma total_perm f l l' : l ≡ₚ l' → total f l = total f l'.
Proof. induction 1; simpl; lia. Qed.

Lemma total_ext f g l : (∀ x, x ∈ l → f x = g x) → total f l = total g l.
Proof. induction l as [|x l IH]; intros H; simpl; [done|]. rewrite IH, (H x) by (set_solver). done. Qed.

Lemma total_nonneg f l : (∀ x, 0 ≤ f x) → 0 ≤ total f l.
Proof. intros H. induction l as [|x l IH]; simpl; [done|]. pose proof (H x). lia. Qed.

Lemma total_two f g l a b :
  NoDup l → a ∈ l → b ∈ l → a ≠ b → (∀ x, x ≠ a → x ≠ b → f x = g x) → total f l - f a - f b = total g l - g a - g b.
Proof.
  intros Hnd (k & Hk)%elem_of_Permutation Hb Hab Hfg. rewrite Hk in Hb, Hnd.
  apply elem_of_cons in Hb as [->|(k' & Hk')%elem_of_Permutation]; [done|].
  rewrite Hk' in Hnd, Hk. rewrite !(total_perm _ _ _ Hk). simpl.
  apply NoDup_cons in Hnd as [Ha Hnd]. apply NoDup_cons in Hnd as [Hb _].
  rewrite (total_ext f g k'); [lia|]. intros x Hx. apply Hfg; intros ->; [apply Ha; by right|done].
Qed.

Lemma steal_descends c s v id c' :
  sound c → steal_task s v c = Ok (id, c') → load_of c s + 1 < load_of c v → potential c' < potential c.
Proof.
  intros Hs (nv & ns & nv' & ns' & H)%steal_spec Hlt. destruct H as [Hv Hst Hroom Hpop [Hr Hc] Hpush [Hr' Hc'] (t & Ht & ->)].
  assert (s ≠ v) as Hne by (intros ->; lia). rewrite lookup_insert_ne in Hst by done.
  assert (total_load nv = total_load nv' + 1) as Hload.
  { unfold total_load, ready_count, running_count. rewrite Hr, Hpop. simpl. lia. }
  assert (total_load ns' = total_load ns + 1) as Hload'.
  { unfold total_load, ready_count, running_count. rewrite Hr', Hpush, length_app. simpl. lia. }
  unfold potential. cbn [ws_names]. set (c' := mkCluster _ _ _).
  assert (load_of c' s = load_of c s + 1 ∧ load_of c' v = load_of c v - 1) as [E1 E2].
  { unfold load_of, c'. cbn. rewrite lookup_insert_eq, lookup_insert_ne, lookup_insert_eq by done. rewrite Hst, Hv. lia. }
  pose proof (total_two (λ w, load_of c' w * load_of c' w) (λ w, load_of c w * load_of c w) (ws_names c) s v (so_nodup c Hs)
    ltac:(apply (so_names c Hs); eauto) ltac:(apply (so_names c Hs); eauto) Hne) as Htwo.
  cbv beta in Htwo. rewrite E1, E2 in Htwo.
  assert (∀ x, x ≠ s → x ≠ v → load_of c' x * load_of c' x = load_of c x * load_of c x) as Hrest.
  { intros x Hxs Hxv. unfold load_of, c'. cbn. by rewrite !lookup_insert_ne by done. }
  specialize (Htwo Hrest). nia.
Qed.

(** ** The loop *)

(** No two workers differ by more than one task; or the lightest is full, or the
    heaviest has none to give, or none that the lightest could run. *)
Definition levelled (c : WorkStealingCluster) : Prop :=
  (∀ a b, a ∈ active_nodes c → b ∈ active_nodes c → total_load a.2 ≤ total_load b.2 + 1) ∨
  ∃ m l, m ∈ active_nodes c ∧ l ∈ active_nodes c ∧
    (∀ x, x ∈ active_nodes c → total_load l.2 ≤ total_load x.2 ≤ total_load m.2) ∧
    (wn_capacity l.2 ≤ total_load l.2 ∨ wn_ready_tasks m.2 = [] ∨
     ∀ id, id ∈ wn_ready_tasks m.2 → fits (wn_capabilities l.2) c id = false).

(** One round: the loop ends, or a task changes hands and the potential falls. *)
Lemma rebalance_round c :
  sound c →
  ((∀ fuel k, rebalance_loop fuel k c = Some (Ok k, c)) ∧ levelled c) ∨
  ∃ c1, sound c1 ∧ rearranged c c1 ∧ potential c1 < potential c ∧
    ∀ fuel k, rebalance_loop (S fuel) k c = rebalance_loop fuel (k + 1) c1.
Proof.
  intros Hs. destruct (active_nodes c) as [|a [|b nodes]] eqn:Hact.
  - left. split; [by intros [|fuel] k; simpl; rewrite Hact|]. left. rewrite Hact. intros x y Hx%elem_of_nil. done.
  - left. split; [by intros [|fuel] k; simpl; rewrite Hact|]. left. rewrite Hact.
    intros x y ->%list_elem_of_singleton ->%list_elem_of_singleton. lia.
  - destruct (heaviest a (b :: nodes)) as [Hm1 Hm2], (lightest a (b :: nodes)) as [Hl1 Hl2].
    set (m := foldl heavier a (b :: nodes)) in *. set (l := foldl lighter a (b :: nodes)) in *. rewrite <- Hact in Hm1, Hm2, Hl1, Hl2.
    assert (∀ fuel k, rebalance_loop fuel k c =
      if (1 <? total_load m.2 - total_load l.2) && (total_load l.2 <? wn_capacity l.2) && (0 <? ready_count m.2) then
        match steal_task l.1 m.1 c with
        | Ok (_, c) => match fuel with O => None | S fuel => rebalance_loop fuel (k + 1) c end
        | Err e => if is_stealing_error e then Some (Ok k, c) else Some (Err e, c)
        end
      else Some (Ok k, c)) as Hloop.
    { intros [|fuel] k; simpl; rewrite Hact; reflexivity. }
    destruct m as [v nv], l as [s ns]. cbn [fst snd] in *.
    pose proof Hm1 as (_ & Hv & _)%active_elem. pose proof Hl1 as (_ & Hst & _)%active_elem.
    destruct (1 <? total_load nv - total_load ns) eqn:Hd; [|left; split; [by intros; rewrite Hloop|]; bool_hyps; left; intros x y Hx Hy].
    2: { specialize (Hm2 x Hx). specialize (Hl2 y Hy). lia. }
    bool_hyps. destruct ((total_load ns <? wn_capacity ns) && (0 <? ready_count nv))%bool eqn:Hg.
    2: { left. split; [intros; rewrite Hloop; simpl; by rewrite Hg|]. right. exists (v, nv), (s, ns). split_and!; [done..|auto|].
         apply andb_false_iff in Hg as [Hg|Hg]; bool_hyps; [by left|right; left].
         unfold ready_count in Hg. cbn. destruct (wn_ready_tasks nv); [done|simpl in Hg; lia]. }
    bool_hyps. destruct (steal_refused c s v ns nv Hst Hv) as [(id & c1 & E)|[(e & E & He) Hnone]]; [done| | |].
    + unfold ready_count in *. intros E. by rewrite E in *.
    + right. exists c1. split_and!.
      * by eapply steal_sound.
      * by eapply steal_rearranged.
      * eapply steal_descends; [done..|]. unfold load_of. rewrite Hst, Hv. lia.
      * intros fuel k. rewrite Hloop. simpl. rewrite (proj2 (Z.ltb_lt _ _)), (proj2 (Z.ltb_lt 0 _)), E by done. done.
    + left. split.
      * intros fuel k. rewrite Hloop. simpl. by rewrite (proj2 (Z.ltb_lt _ _)), (proj2 (Z.ltb_lt 0 _)), E, He by done.
      * right. exists (v, nv), (s, ns). split_and!; [done..|auto|]. right. right. exact Hnone.
Qed.

Lemma rebalance_loop_spec fuel k c :
  sound c → potential c ≤ Z.of_nat fuel →
  ∃ n c', rebalance_loop fuel k c = Some (Ok n, c') ∧ sound c' ∧ rearranged c c' ∧ levelled c' ∧ k ≤ n.
Proof.
  revert k c. induction fuel as [|fuel IH]; intros k c Hs Hf.
  all: destruct (rebalance_round c Hs) as [[E Hl]|(c1 & Hs1 & Hr & Hlt & E)];
    [exists k, c; split_and!; [apply E|done|apply rearranged_refl|done|lia]|].
  all: assert (0 ≤ potential c1) as Hpos by (apply total_nonneg; intros; nia).
  - lia.
  - destruct (IH (k + 1) c1 Hs1 ltac:(lia)) as (n & c' & H & Hs' & Hr' & Hl & Hn).
    exists n, c'. rewrite E. split_and!; [done|done|by eapply rearranged_trans|done|lia].
Qed.

Lemma rebalance_ends c :
  sound c →
  ∃ n c', rebalance (Z.to_nat (potential c)) c = Some (Ok n, c') ∧ 0 ≤ n ∧ sound c' ∧ rearranged c c' ∧ levelled c'.
Proof.
  intros Hs. assert (0 ≤ potential c) by (apply total_nonneg; intros; nia).
  destruct (rebalance_loop_spec (Z.to_nat (potential c)) 0 c Hs ltac:(lia)) as (n & c' & H1 & H2 & H3 & H4 & H5). eauto 8.
Qed.

(** Rebalancing comes to an end.  On a cluster in which every task is held
    once, the loop of [rebalance] ends within as many rounds as the sum of the
    squared loads, and counts what it moved.  Only waiting tasks change hands,
    each with a greater token; running tasks, capacities and the registry's tasks
    stay, no worker gets above its capacity.  And then no two workers differ by
    more than one task, or the lightest is full or the heaviest has no waiting
    task that the lightest could run. *)
Theorem rebalance_settles c :
  sound c →
  ∃ n c', rebalance (Z.to_nat (potential c)) c = Some (Ok n, c') ∧ 0 ≤ n ∧ sound c' ∧ rearranged c c' ∧ levelled c'.
Proof. apply rebalance_ends. Qed.

(** ** Any operations *)

Inductive Op :=
  | Register (w : string) (capacity : Z) (capabilities : gset string)
  | Enqueue (w id : string) (task : StealableTask)
  | Start (w id : string)
  | Complete (w id : string)
  | Steal (stealer victim : string)
  | Rebalance.

(** A call that raises changes nothing. *)
Definition or_same {A} (f : A → WorkStealingCluster) (c : WorkStealingCluster) (r : result A) : WorkStealingCluster :=
  match r with Ok a => f a | Err _ => c end.

Definition perform (o : Op) (c : WorkStealingCluster) : option WorkStealingCluster :=
  match o with
  | Register w capacity caps => Some (register_worker w capacity caps c)
  | Enqueue w id task => Some (or_same (λ c, c) c (enqueue_task w id task c))
  | Start w id => Some (or_same (λ c, c) c (start_task w id c))
  | Complete w id => Some (or_same snd c (complete_task w id c))
  | Steal s v => Some (or_same snd c (steal_task s v c))
  | Rebalance => snd <$> rebalance (Z.to_nat (potential c)) c
  end.

Fixpoint run (ops : list Op) (c : WorkStealingCluster) : option WorkStealingCluster :=
  match ops with [] => Some c | o :: ops => c ← perform o c; run ops c end.

Definition runs_on (c : WorkStealingCluster) (w id : string) : Prop :=
  ∃ n, ws_workers c !! w = Some n ∧ id ∈ wn_running_tasks n.

(** What happens to a task that is not completed. *)
Record keeps (id : string) (c c' : WorkStealingCluster) : Prop := {
  ke_token : ∀ t, ws_registry c !! id = Some t →
    ∃ t', ws_registry c' !! id = Some t' ∧ (t' = t ∨ sk_fencing_token t < sk_fencing_token t');
  ke_running : ∀ w, runs_on c w id → ws_registry c' !! id = ws_registry c !! id ∧ runs_on c' w id;
}.

Lemma keeps_task_refl id c : keeps id c c.
Proof. split; eauto. Qed.

Lemma keeps_task_trans id c1 c2 c3 : keeps id c1 c2 → keeps id c2 c3 → keeps id c1 c3.
Proof.
  intros [H1 H2] [H3 H4]. split.
  - intros t Ht. destruct (H1 t Ht) as (u & Hu & Htu). destruct (H3 u Hu) as (v & Hv & Huv). exists v. split; [done|].
    destruct Htu as [->|], Huv as [->|]; auto. right. lia.
  - intros w Hw. destruct (H2 w Hw) as [E Hw']. destruct (H4 w Hw') as [E' Hw'']. split; [congruence|done].
Qed.

(** Queues and registry change for one worker, the registry not at [id]. *)
Lemma keeps_put id c w n n' reg names :
  ws_workers c !! w = Some n → reg !! id = ws_registry c !! id →
  (id ∈ wn_running_tasks n → id ∈ wn_running_tasks n') →
  keeps id c (mkCluster names (<[w := n']> (ws_workers c)) reg).
Proof.
  intros Hw Hreg Hrun. split; cbn; [intros t; rewrite Hreg; eauto|]. intros v (m & Hm & Hi). split; [done|].
  destruct (decide (v = w)) as [->|Hv]; [exists n'; cbn; rewrite lookup_insert_eq; simplify_eq; auto|].
  exists m. cbn. by rewrite lookup_insert_ne.
Qed.

Lemma rearranged_keeps id c c' : rearranged c c' → keeps id c c'.
Proof.
  intros [_ Hw Ht _ Hr]. split; [apply Ht|]. intros w (n & Hn & Hi). split; [by eapply Hr|].
  destruct (Hw w n Hn) as (n' & Hn' & E & _). exists n'. by rewrite E.
Qed.

Lemma perform_spec o c :
  sound c → ∃ c', perform o c = Some c' ∧ sound c' ∧ ∀ id, (∀ w, o ≠ Complete w id) → keeps id c c'.
Proof.
  intros Hs. pose proof (λ id, keeps_task_refl id c) as Hsame.
  destruct o as [w capacity caps|w x task|w x|w x|s v|]; simpl.
  - eexists. split; [done|]. split; [by apply register_sound|]. intros id _. unfold register_worker.
    destruct (ws_workers c !! w) as [n|] eqn:Hw; [by eapply keeps_put|]. split; cbn; [eauto|].
    intros v (m & Hm & Hi). split; [done|]. exists m. cbn. rewrite lookup_insert_ne; [done|]. intros ->. by rewrite Hw in Hm.
  - destruct (enqueue_task w x task c) as [c'|] eqn:E; simpl; [|by eauto].
    destruct (enqueue_spec _ _ _ _ _ E) as (Hx & n & Hn & ->). eexists. split; [done|]. split.
    + eapply sound_more; eauto. unfold tasks. cbn. rewrite <- app_assoc. simpl. by rewrite <- Permutation_middle.
    + intros id _. destruct (decide (id = x)) as [->|Hne].
      * split; cbn; [by rewrite Hx|]. intros v (m & Hm & Hi).
        destruct (so_held c Hs v m Hm) as [_ Hh]. destruct (Hh x) as (t & Ht & _); [apply elem_of_app; by right|]. congruence.
      * eapply keeps_put; eauto. cbn. by rewrite lookup_insert_ne.
  - destruct (start_task w x c) as [c'|] eqn:E; simpl; [|by eauto].
    destruct (start_spec _ _ _ _ Hs E) as (n & n' & Hn & -> & Hp & _ & Hr). eexists. split; [done|].
    split; [by eapply sound_same|]. intros id _. eapply keeps_put; eauto.
  - destruct (complete_task w x c) as [[b c']|] eqn:E; simpl; [|by eauto].
    destruct (complete_spec _ _ _ _ _ Hs E) as [[_ ->]|(_ & n & n' & Hn & Hp & _ & Hr & ->)]; [by eauto|].
    eexists. split; [done|]. split; [by eapply sound_less|]. intros id Hid.
    assert (id ≠ x) as Hne by (intros ->; by apply (Hid w)). eapply keeps_put; eauto. cbn. by rewrite lookup_delete_ne.
  - destruct (steal_task s v c) as [[x c']|] eqn:E; simpl; [|by eauto]. eexists. split; [done|].
    split; [by eapply steal_sound|]. intros id _. by eapply rearranged_keeps, steal_rearranged.
  - destruct (rebalance_ends c Hs) as (n & c' & E & _ & Hs' & Hr & _). rewrite E. eexists. split; [done|].
    split; [done|]. intros id _. by apply rearranged_keeps.
Qed.

Lemma run_spec ops c :
  sound c → ∃ c', run ops c = Some c' ∧ sound c' ∧ ∀ id, Forall (λ o, ∀ w, o ≠ Complete w id) ops → keeps id c c'.
Proof.
  revert c. induction ops as [|o ops IH]; intros c Hs; simpl; [exists c; split_and!; auto using keeps_task_refl|].
  destruct (perform_spec o c Hs) as (c1 & E1 & Hs1 & Hk1). rewrite E1. simpl.
  destruct (IH c1 Hs1) as (c' & E & Hs' & Hk). exists c'. split; [done|]. split; [done|].
  intros id [Ho Hops]%Forall_cons. eapply keeps_task_trans; auto.
Qed.

Lemma verify_spec id w token c :
  verify_execution_token id w token c = Ok true ↔
  ∃ t, ws_registry c !! id = Some t ∧ sk_owner t = w ∧ sk_fencing_token t = token.
Proof.
  unfold verify_execution_token. destruct (ws_registry c !! id) as [t|]; [|naive_solver].
  case_bool_decide; simpl; [|naive_solver]. destruct (Z.eqb_spec (sk_fencing_token t) token); simpl; naive_solver.
Qed.

Lemma empty_sound : sound empty_cluster.
Proof.
  split; cbn; [|constructor|by intros ?? ?|by intros ?? ?].
  intros w. rewrite lookup_empty. split; [by intros []%elem_of_nil|by intros []].
Qed.

(** C21: Fencing tokens fence stolen work.  Through any operations on a cluster,
    refused ones included, every registered task is held by its owner, once.  A
    worker whose token verifies and whose task is not completed: as long as the
    task runs there, the token verifies, whatever is stolen and rebalanced; no
    smaller token verifies, and the same token for no other worker; and once
    the task was stolen the token verifies for nobody. *)
Theorem stealing_is_fenced ops :
  ∃ c, run ops empty_cluster = Some c ∧ sound c ∧
    ∀ more, ∃ c', run more c = Some c' ∧
      ∀ id w token, verify_execution_token id w token c = Ok true → Forall (λ o, ∀ v, o ≠ Complete v id) more →
        (runs_on c w id → runs_on c' w id ∧ verify_execution_token id w token c' = Ok true) ∧
        (∀ w' token', verify_execution_token id w' token' c' = Ok true → token ≤ token' ∧ (token' = token → w' = w)) ∧
        (∀ s v c1 c2 w', steal_task s v c = Ok (id, c1) → run more c1 = Some c2 →
           verify_execution_token id w' token c2 ≠ Ok true).
Proof.
  destruct (run_spec ops empty_cluster empty_sound) as (c & E & Hs & _). exists c. split; [done|]. split; [done|].
  intros more. destruct (run_spec more c Hs) as (c' & E' & Hs' & Hk). exists c'. split; [done|].
  intros id w token (t & Ht & <- & <-)%verify_spec Hno. specialize (Hk id Hno). destruct Hk as [Htok Hrun].
  split_and!.
  - intros Hr. destruct (Hrun _ Hr) as [Ereg Hr']. split; [done|]. apply verify_spec. exists t. by rewrite Ereg.
  - intros w' token' (u & Hu & <- & <-)%verify_spec. destruct (Htok t Ht) as (u' & Hu' & [->|Hlt]); simplify_eq; (split; [lia|intros; done || lia]).
  - intros s v c1 c2 w' Hst E2 (u & Hu & _ & Etok)%verify_spec. pose proof (steal_sound _ _ _ _ _ Hs Hst) as Hs1.
    destruct (run_spec more c1 Hs1) as (c2' & E2' & _ & Hk). simplify_eq. destruct (Hk id Hno) as [Htok1 _].
    apply steal_spec in Hst as (nv & ns & nv' & ns' & [_ _ _ _ _ _ _ (t' & Ht' & ->)]). simplify_eq.
    destruct (Htok1 _ (lookup_insert_eq _ _ _)) as (u' & Hu' & Hle). cbn in Hle. simplify_eq.
    destruct Hle as [->|Hle]; cbn in *; lia.
Qed.
