(* ===== verification/LeaseStore.v ===== *)
(** * Work leases of the runtime ([courier_runtime/lease.py])

    At most one live lease per scope, with a token that every new grant raises.
    The table is a map by scope; an immediate transaction is one step; times
    are exact. *)

From S2P Require Import Prelude.

Record Lease := mkLease {
  le_scope : string;
  le_holder : option string;
  le_workkey : option string;
  le_token : Z;
  le_expires_at : Q;
}.

(** The rows by scope. *)
Abbreviation Table := (gmap string Lease).

Definition _row (scope : string) (db : Table) : option Lease := db !! scope.

Definition later (t now : Q) : bool := negb (Qle_bool t now).

Definition current (now : Q) (scope : string) (db : Table) : option Lease :=
  match _row scope db with
  | Some lease => if (bool_decide (le_holder lease ≠ None) && later (le_expires_at lease) now)%bool then Some lease else None
  | None => None
  end.

(** [row and row.holder is not None and row.expires_at > now and row.holder != holder] *)
Definition held_by_other (now : Q) (holder : string) (row : option Lease) : bool :=
  match row with
  | Some r => match le_holder r with Some h => later (le_expires_at r) now && negb (bool_decide (h = holder)) | None => false end
  | None => false
  end.

Definition acquire (now : Q) (scope holder workkey : string) (ttl_s : Q) (db : Table) : result (Lease * Table) :=
  let row := _row scope db in
  if held_by_other now holder row then raise LeaseConflict "is held"
  else
    let token := match row with
                 | Some r => if (bool_decide (le_holder r = Some holder) && later (le_expires_at r) now)%bool
                             then le_token r else le_token r + 1
                 | None => 0 + 1
                 end in
    let lease := mkLease scope (Some holder) (Some workkey) token (now + ttl_s) in
    mret (lease, <[scope := lease]> db).

Definition renew (now : Q) (lease : Lease) (ttl_s : Q) (db : Table) : result (Lease * Table) :=
  match _row (le_scope lease) db with
  | Some row =>
      if negb (le_token row =? le_token lease) || negb (bool_decide (le_holder row = le_holder lease))
         || negb (later (le_expires_at row) now)
      then raise StaleLease "no longer current"
      else
        mret (mkLease (le_scope lease) (le_holder lease) (le_workkey lease) (le_token lease) (now + ttl_s),
              <[le_scope lease := mkLease (le_scope row) (le_holder row) (le_workkey row) (le_token row) (now + ttl_s)]> db)
  | None => raise StaleLease "no longer current"
  end.

Definition check_write (now : Q) (scope : string) (token : Z) (db : Table) : result Lease :=
  match current now scope db with
  | Some lease => if le_token lease =? token then mret lease else raise StaleLease "write refused"
  | None => raise StaleLease "write refused"
  end.

(** [WHERE scope=? AND token=? AND holder=?]: no row has a holder equal to [NULL]. *)
Definition release (lease : Lease) (db : Table) : Table :=
  match _row (le_scope lease) db with
  | Some row =>
      if ((le_token row =? le_token lease) && bool_decide (le_holder row ≠ None) && bool_decide (le_holder row = le_holder lease))%bool
      then <[le_scope lease := mkLease (le_scope row) None None (le_token row) 0]> db
      else db
  | None => db
  end.

(** ** What the store promises *)

Inductive Op :=
  | Acquire (now : Q) (scope holder workkey : string) (ttl_s : Q)
  | Renew (now : Q) (lease : Lease) (ttl_s : Q)
  | Release (lease : Lease).

(** The table, and the leases that were granted; the clock may jump. *)
Definition perform (s : Table * list Lease) (o : Op) : Table * list Lease :=
  let '(db, granted) := s in
  match o with
  | Acquire now scope holder workkey ttl_s =>
      match acquire now scope holder workkey ttl_s db with Ok (l, db) => (db, granted ++ [l]) | Err _ => s end
  | Renew now lease ttl_s => match renew now lease ttl_s db with Ok (_, db) => (db, granted) | Err _ => s end
  | Release lease => (release lease db, granted)
  end.

(** A row is of its scope, with the greatest token granted there, and with the
    holder the token was granted to, unless it was released. *)
Definition row_ok (granted : list Lease) (scope : string) (row : Lease) : Prop :=
  le_scope row = scope ∧
  (∀ g, g ∈ granted → le_scope g = scope → le_token g ≤ le_token row) ∧
  ∀ h, le_holder row = Some h → ∀ g, g ∈ granted → le_scope g = scope → le_token g = le_token row → le_holder g = Some h.

Record fenced (s : Table * list Lease) : Prop := {
  fe_rows : ∀ scope row, s.1 !! scope = Some row → row_ok s.2 scope row;
  fe_known : ∀ g, g ∈ s.2 → is_Some (s.1 !! le_scope g);
  fe_apart : ∀ g g', g ∈ s.2 → g' ∈ s.2 → le_scope g = le_scope g' → le_token g = le_token g' → le_holder g = le_holder g';
}.

Lemma acquire_fenced db granted now scope holder workkey ttl_s l db' :
  fenced (db, granted) → acquire now scope holder workkey ttl_s db = Ok (l, db') → fenced (db', granted ++ [l]).
Proof.
  intros [Hr Hk Ha]. cbn in *. unfold acquire, _row. case_match eqn:Hheld; [done|]. intros H. inv_ok.
  set (token := match db !! scope with Some _ => _ | None => _ end).
  set (l := mkLease scope (Some holder) (Some workkey) token (now + ttl_s)).
  (* among the grants of the scope the new one is the greatest, and new or its holder's *)
  assert (∀ g, g ∈ granted → le_scope g = scope → le_token g ≤ token ∧ (le_token g = token → le_holder g = Some holder)) as Hnew.
  { intros g Hg <-. destruct (Hk g Hg) as [row E]. destruct (Hr _ _ E) as (_ & Hle & Hown). specialize (Hle g Hg eq_refl).
    subst token. rewrite E. case_match eqn:Hc; [|lia]. bool_hyps. split; [done|]. intros Et. by apply (Hown holder). }
  split; cbn.
  - intros s row. destruct (decide (s = scope)) as [->|Hs].
    + rewrite lookup_insert_eq. intros [= <-]. split; [done|]. cbn. split.
      * intros g [Hg| ->%list_elem_of_singleton]%elem_of_app Es; [by apply Hnew|done].
      * intros h [= <-] g [Hg| ->%list_elem_of_singleton]%elem_of_app Es; [by apply Hnew|done].
    + rewrite lookup_insert_ne by done. intros E. destruct (Hr s row E) as (H1 & H2 & H3). split; [done|].
      split; [intros g|intros h Eh g]; intros [Hg| ->%list_elem_of_singleton]%elem_of_app Es; eauto; by destruct Hs.
  - intros g [Hg| ->%list_elem_of_singleton]%elem_of_app; [|by rewrite lookup_insert_eq; eauto].
    destruct (decide (scope = le_scope g)) as [<-|]; [by rewrite lookup_insert_eq; eauto|]. rewrite lookup_insert_ne by done. auto.
  - intros g g' [Hg| ->%list_elem_of_singleton]%elem_of_app [Hg'| ->%list_elem_of_singleton]%elem_of_app Es Et; cbn in *; eauto.
    + by apply Hnew.
    + symmetry. by apply Hnew.
Qed.

(** A row keeps scope and token, and its holder or none. *)
Lemma same_grant_fenced db granted scope row row' :
  fenced (db, granted) → db !! scope = Some row →
  le_scope row' = le_scope row → le_token row' = le_token row → (le_holder row' = None ∨ le_holder row' = le_holder row) →
  fenced (<[scope := row']> db, granted).
Proof.
  intros [Hr Hk Ha] E Es Et Eh. cbn in *. split; cbn; [| |done].
  - intros s r. destruct (decide (s = scope)) as [->|]; [|by rewrite lookup_insert_ne; auto]. rewrite lookup_insert_eq. intros [= <-].
    destruct (Hr scope row E) as (H1 & H2 & H3). split; [congruence|]. rewrite Et. split; [done|].
    intros h Eh'. apply H3. destruct Eh; congruence.
  - intros g Hg. destruct (decide (scope = le_scope g)) as [<-|]; [rewrite lookup_insert_eq; eauto|rewrite lookup_insert_ne by done; auto].
Qed.

Lemma lease_perform_fenced s o : fenced s → fenced (perform s o).
Proof.
  destruct s as [db granted]. intros Hf. destruct o as [now scope holder workkey ttl_s|now lease ttl_s|lease]; simpl.
  - destruct (acquire _ _ _ _ _ _) as [[l db']|] eqn:E; [|done]. by eapply acquire_fenced.
  - unfold renew, _row. destruct (db !! le_scope lease) as [row|] eqn:E; [|done]. destruct (_ || _)%bool; [done|]. simpl.
    eapply same_grant_fenced; eauto.
  - unfold release, _row. destruct (db !! le_scope lease) as [row|] eqn:E; [|done]. destruct (_ && _)%bool; [|done].
    eapply same_grant_fenced; eauto.
Qed.

(** Tokens fence writes.  Through any acquires, renewals and releases, at
    whatever times: a write that passes is under the greatest token that was ever
    granted in its scope, the lease it is told of is live and of the holder that
    token was granted to, and an acquire fails exactly when the scope is live in
    another's hands.  So a holder whose scope was granted to another does not
    write there any more. *)
Theorem leases_fence_writes ops :
  let '(db, granted) := foldl perform (∅, []) ops in
  (∀ now scope token l, check_write now scope token db = Ok l →
    le_token l = token ∧ current now scope db = Some l ∧
    ∀ g, g ∈ granted → le_scope g = scope → le_token g ≤ token ∧ (le_token g = token → le_holder g = le_holder l)) ∧
  (∀ g g', g ∈ granted → g' ∈ granted → le_scope g = le_scope g' → le_token g = le_token g' → le_holder g = le_holder g') ∧
  ∀ now scope holder workkey ttl_s,
    is_ok (acquire now scope holder workkey ttl_s db) = false ↔
    ∃ l h, current now scope db = Some l ∧ le_holder l = Some h ∧ h ≠ holder.
Proof.
  assert (fenced (foldl perform (∅, []) ops)) as Hf.
  { assert (fenced (∅, [])) as H by (split; cbn; [by intros ?? ?%lookup_empty_Some|by intros ? ?%elem_of_nil|by intros ?? ?%elem_of_nil]).
    revert H. generalize (@empty Table _, @nil Lease). induction ops as [|o ops IH]; intros s Hs; simpl; [done|]. by apply IH, lease_perform_fenced. }
  destruct (foldl perform _ _) as [db granted]. destruct Hf as [Hr Hk Ha]. cbn in *. split_and!; [|done|].
  - intros now scope token l. unfold check_write. destruct (current now scope db) as [row|] eqn:E; [|done]. case_match eqn:Et; [|done].
    intros [= <-]. bool_hyps. split; [done|]. split; [done|]. unfold current, _row in E.
    destruct (db !! scope) as [r|] eqn:Er; [|done]. case_match eqn:Hlive; [|done]. simplify_eq. bool_hyps.
    destruct (Hr scope row Er) as (_ & H2 & H3). intros g Hg Es. split; [by apply H2|]. intros Eg.
    destruct (le_holder row) as [h|] eqn:Eh; [|done]. by apply (H3 h).
  - intros now scope holder workkey ttl_s. unfold acquire, current, held_by_other, _row. destruct (db !! scope) as [r|]; simpl; [|naive_solver].
    destruct (le_holder r) as [h|] eqn:Eh; simpl; [|naive_solver]. destruct (later _ _); simpl; [|naive_solver].
    case_bool_decide; simpl; naive_solver.
Qed.
