(* ===== verification/TaskLifecycle.v ===== *)
(** * Task health and recovery of the runtime ([courier_runtime/task_lifecycle.py])

    Stalls, recoveries, deadlocks and wakes over the dict of active tasks.
    Numbers and times are exact; what [psutil] answers and the clock are
    arguments; the record of an id is one object. *)

From Stdlib Require Import Ascii.
From S2P Require Import Prelude PyText.

Inductive TaskState :=
  | HEALTHY | LONG_RUNNING_HEALTHY | WAITING_EXTERNAL | WAITING_USER | SUSPECTED_STALL | CONFIRMED_STALL
  | OWNER_LOST | ORPHANED | RECOVERING | DONE | FAILED_FINAL | CANCELLED | SUPERSEDED.
Inductive ActivityClass := COMPUTE | NETWORK_IO | USER_INTERACTION | BACKGROUND_WORKER | DAEMON.
Inductive StallRootCause :=
  | DEADLOCK | INFINITE_LOOP | RESOURCE_EXHAUSTION | NETWORK_TIMEOUT | MISSING_DEPENDENCY | UNKNOWN.

#[export] Instance TaskState_eq_dec : EqDecision TaskState.
Proof. solve_decision. Defined.
#[export] Instance ActivityClass_eq_dec : EqDecision ActivityClass.
Proof. solve_decision. Defined.
#[export] Instance StallRootCause_eq_dec : EqDecision StallRootCause.
Proof. solve_decision. Defined.

Record Checkpoint := mkCheckpoint { cp_checkpoint_id : string; cp_consistency_score : Q }.

Record TaskRecord := mkTask {
  tr_task_id : string;
  tr_workkey : string;
  tr_owner_session : string;
  tr_owner_host : string;
  tr_pid_or_execution_id : string;
  tr_process_start_identity : string;
  tr_expected_activity_class : ActivityClass;
  tr_last_heartbeat : Q;
  tr_last_useful_progress : Q;
  tr_last_checkpoint : option string;
  tr_available_checkpoints : list Checkpoint;
  tr_recovery_state : option string;
  tr_current_state : TaskState;
  tr_recovery_count : Z;
  tr_waiting_on_task_id : option string;
  tr_cpu_usage : Q;
  tr_network_drops : Z;
  tr_memory_usage_mb : Q;
  tr_memory_growth_rate : Q;
  tr_provider : option string;
  tr_fallback_provider : option string;
  tr_provider_degraded : bool;
}.

(** What the healing and the reconciliation of a task change of it. *)
Definition with_progress (t : TaskRecord) (recovery : option string) (s : TaskState) (count : Z) : TaskRecord :=
  mkTask (tr_task_id t) (tr_workkey t) (tr_owner_session t) (tr_owner_host t) (tr_pid_or_execution_id t)
    (tr_process_start_identity t) (tr_expected_activity_class t) (tr_last_heartbeat t) (tr_last_useful_progress t)
    (tr_last_checkpoint t) (tr_available_checkpoints t) recovery s count
    (tr_waiting_on_task_id t) (tr_cpu_usage t) (tr_network_drops t) (tr_memory_usage_mb t) (tr_memory_growth_rate t)
    (tr_provider t) (tr_fallback_provider t) (tr_provider_degraded t).
Definition with_state (t : TaskRecord) (s : TaskState) : TaskRecord :=
  with_progress t (tr_recovery_state t) s (tr_recovery_count t).
Definition with_recovery (t : TaskRecord) (recovery : string) : TaskRecord :=
  with_progress t (Some recovery) (tr_current_state t) (tr_recovery_count t).
Definition with_checkpoint (t : TaskRecord) (cp : option string) : TaskRecord :=
  mkTask (tr_task_id t) (tr_workkey t) (tr_owner_session t) (tr_owner_host t) (tr_pid_or_execution_id t)
    (tr_process_start_identity t) (tr_expected_activity_class t) (tr_last_heartbeat t) (tr_last_useful_progress t)
    cp (tr_available_checkpoints t) (tr_recovery_state t) (tr_current_state t) (tr_recovery_count t)
    (tr_waiting_on_task_id t) (tr_cpu_usage t) (tr_network_drops t) (tr_memory_usage_mb t) (tr_memory_growth_rate t)
    (tr_provider t) (tr_fallback_provider t) (tr_provider_degraded t).
Definition with_provider (t : TaskRecord) (provider : option string) (degraded : bool) : TaskRecord :=
  mkTask (tr_task_id t) (tr_workkey t) (tr_owner_session t) (tr_owner_host t) (tr_pid_or_execution_id t)
    (tr_process_start_identity t) (tr_expected_activity_class t) (tr_last_heartbeat t) (tr_last_useful_progress t)
    (tr_last_checkpoint t) (tr_available_checkpoints t) (tr_recovery_state t) (tr_current_state t) (tr_recovery_count t)
    (tr_waiting_on_task_id t) (tr_cpu_usage t) (tr_network_drops t) (tr_memory_usage_mb t) (tr_memory_growth_rate t)
    provider (tr_fallback_provider t) degraded.
Definition with_owner (t : TaskRecord) (host session : string) : TaskRecord :=
  mkTask (tr_task_id t) (tr_workkey t) session host (tr_pid_or_execution_id t)
    (tr_process_start_identity t) (tr_expected_activity_class t) (tr_last_heartbeat t) (tr_last_useful_progress t)
    (tr_last_checkpoint t) (tr_available_checkpoints t) (tr_recovery_state t) (tr_current_state t) (tr_recovery_count t)
    (tr_waiting_on_task_id t) (tr_cpu_usage t) (tr_network_drops t) (tr_memory_usage_mb t) (tr_memory_growth_rate t)
    (tr_provider t) (tr_fallback_provider t) (tr_provider_degraded t).
Definition with_times (t : TaskRecord) (heartbeat progress : Q) : TaskRecord :=
  mkTask (tr_task_id t) (tr_workkey t) (tr_owner_session t) (tr_owner_host t) (tr_pid_or_execution_id t)
    (tr_process_start_identity t) (tr_expected_activity_class t) heartbeat progress
    (tr_last_checkpoint t) (tr_available_checkpoints t) (tr_recovery_state t) (tr_current_state t) (tr_recovery_count t)
    (tr_waiting_on_task_id t) (tr_cpu_usage t) (tr_network_drops t) (tr_memory_usage_mb t) (tr_memory_growth_rate t)
    (tr_provider t) (tr_fallback_provider t) (tr_provider_degraded t).

(** A receipt; the fields that are always the same are left out. *)
Record RecoveryReceipt := mkReceipt {
  rc_incident_id : string;
  rc_task_id : string;
  rc_workkey : string;
  rc_old_owner : string;
  rc_failure_class : TaskState;
  rc_last_good_checkpoint : option string;
  rc_cleanup_action : string;
  rc_successor : string;
  rc_work_preserved : bool;
  rc_network_diagnostics : option string;
  rc_stall_root_cause : StallRootCause;
}.

(** The pipeline with its receipts and the knowledge base of the patcher. *)
Record Healer := mkHealer {
  he_receipts : list RecoveryReceipt;
  he_knowledge_base : list (StallRootCause * string);
}.

Definition truthy (s : option string) : bool := match s with Some "" | None => false | Some _ => true end.
Definition gtb (a b : Q) : bool := negb (Qle_bool a b).
Definition geb (a b : Q) : bool := Qle_bool b a.

(** [sub in text] *)
Fixpoint contains (sub text : string) : bool :=
  (String.prefix sub text || match text with String _ text => contains sub text | "" => false end)%bool.

(** ** Stalls *)

(** The thresholds of the manager's detector; others are 60 seconds. *)
Definition threshold_of (c : ActivityClass) : Q :=
  match c with
  | COMPUTE => 300 | NETWORK_IO => 120 | BACKGROUND_WORKER => 600 | USER_INTERACTION => 3600 | DAEMON => 60
  end.

(** A process id; [isdigit] knows ASCII digits. *)
Definition is_pid (s : string) : bool :=
  (negb (bool_decide (s = "")) && forallb is_digit (String.list_ascii_of_string s))%bool.

(** [cpu_load] is the load of the system, [descendants] whether a process has children. *)
Definition analyze_health (now cpu_load : Q) (descendants : string → bool) (task : TaskRecord) (owner_exists process_alive : bool) : TaskState :=
  if negb owner_exists then OWNER_LOST
  else if negb process_alive then ORPHANED
  else if gtb (tr_memory_usage_mb task) 1024 && gtb (tr_memory_growth_rate task) 50 then CONFIRMED_STALL
  else if geb (tr_cpu_usage task) 99 && negb (bool_decide (tr_expected_activity_class task = COMPUTE)) then CONFIRMED_STALL
  else if 10 <=? tr_network_drops task then CONFIRMED_STALL
  else
    let time_since_progress := (now - tr_last_useful_progress task)%Q in
    let threshold := threshold_of (tr_expected_activity_class task) in
    let threshold := (if gtb cpu_load 90 then threshold * 2 else threshold)%Q in
    if gtb time_since_progress threshold then
      if bool_decide (tr_expected_activity_class task = COMPUTE) && is_pid (tr_pid_or_execution_id task)
         && descendants (tr_pid_or_execution_id task)
      then LONG_RUNNING_HEALTHY
      else if bool_decide (tr_expected_activity_class task = DAEMON) then HEALTHY
      else if gtb (now - tr_last_heartbeat task) threshold then CONFIRMED_STALL
      else SUSPECTED_STALL
    else if gtb time_since_progress (threshold / 2) then LONG_RUNNING_HEALTHY
    else HEALTHY.

(** The cause, and the task: its provider may be found degraded. *)
Definition analyze_stall_cause (task : TaskRecord) : StallRootCause * TaskRecord :=
  if geb (tr_cpu_usage task) 99 && negb (bool_decide (tr_expected_activity_class task = COMPUTE)) then (INFINITE_LOOP, task)
  else if 10 <=? tr_network_drops task then (NETWORK_TIMEOUT, task)
  else if truthy (tr_waiting_on_task_id task) then (DEADLOCK, task)
  else if match tr_last_checkpoint task with Some cp => contains "ModuleNotFoundError" cp | None => false end
       then (MISSING_DEPENDENCY, task)
  else if truthy (tr_provider task) && (5 <=? tr_network_drops task)
       then (NETWORK_TIMEOUT, with_provider task (tr_provider task) true)
  else (UNKNOWN, task).

Definition patchable (cause : StallRootCause) : bool :=
  match cause with INFINITE_LOOP | DEADLOCK | MISSING_DEPENDENCY | NETWORK_TIMEOUT => true | _ => false end.

Definition known (cause : StallRootCause) (kb : list (StallRootCause * string)) : bool :=
  existsb (λ k, bool_decide (k.1 = cause)) kb.

Definition attempt_patch (task : TaskRecord) (cause : StallRootCause) (kb : list (StallRootCause * string))
    : bool * list (StallRootCause * string) :=
  if negb (patchable cause) then (false, kb)
  else if known cause kb then (true, kb)
  else
    let fix_ :=
      match cause with
      | MISSING_DEPENDENCY => "pip_install_injected"
      | NETWORK_TIMEOUT =>
          match tr_fallback_provider task with
          | Some p => if (tr_provider_degraded task && truthy (Some p))%bool then "swapped_provider_" +:+ p
                      else "exponential_backoff_injected"
          | None => "exponential_backoff_injected"
          end
      | _ => "fix_applied"
      end in
    (true, kb ++ [(cause, fix_)]).

(** ** Recovery *)

(** [max(checkpoints, key=score)]: the first of the best. *)
Definition best_checkpoint (first : Checkpoint) (l : list Checkpoint) : Checkpoint :=
  foldl (λ best cp, if gtb (cp_consistency_score cp) (cp_consistency_score best) then cp else best) first l.

(** Without the identity of the current process. *)
Definition verify_ownership (task : TaskRecord) : bool :=
  (negb (bool_decide (tr_pid_or_execution_id task = "")) && negb (bool_decide (tr_process_start_identity task = "")))%bool.

Definition _run_network_diagnostics : string := "DNS OK, Ping OK, TCP Timeout".

Definition recover_task (incident_id : string) (task : TaskRecord) (h : Healer) : option RecoveryReceipt * TaskRecord * Healer :=
  if negb (bool_decide (tr_current_state task = CONFIRMED_STALL) || bool_decide (tr_current_state task = OWNER_LOST)
           || bool_decide (tr_current_state task = ORPHANED)) then (None, task, h)
  else if bool_decide (tr_recovery_state task ≠ None) then (None, task, h)
  else if 3 <=? tr_recovery_count task then (None, with_state task WAITING_USER, h)
  else
    let task := with_recovery task "CAPTURING_STATE" in
    let task := match tr_available_checkpoints task with
                | [] => task
                | cp :: l => with_checkpoint task (Some (cp_checkpoint_id (best_checkpoint cp l)))
                end in
    let task := with_recovery task "VERIFYING_OWNERSHIP" in
    if negb (verify_ownership task) then (None, task, h)
    else
      let task := with_recovery task "SPAWNING_SUCCESSOR" in
      let '(root_cause, task) := analyze_stall_cause task in
      let '(patched, kb) := attempt_patch task root_cause (he_knowledge_base h) in
      let receipt :=
        mkReceipt incident_id (tr_task_id task) (tr_workkey task) (tr_owner_session task) (tr_current_state task)
          (tr_last_checkpoint task) (if (patched : bool) then "PATCH_AND_RESTART" else "TERMINATE_AND_RESTART")
          ("succ_" +:+ tr_task_id task) (truthy (tr_last_checkpoint task))
          (if decide (tr_expected_activity_class task = NETWORK_IO) then Some _run_network_diagnostics else None) root_cause in
      (Some receipt, with_progress task (tr_recovery_state task) RECOVERING (tr_recovery_count task + 1),
       mkHealer (he_receipts h ++ [receipt]) kb).

(** ** The manager *)

(** The dict of active tasks, in its order. *)
Abbreviation Tasks := (list (string * TaskRecord)).
Record Manager := mkManager { ma_active_tasks : Tasks; ma_healer : Healer }.

Fixpoint find_task (id : string) (ts : Tasks) : option TaskRecord :=
  match ts with
  | [] => None
  | (k, t) :: ts => if decide (k = id) then Some t else find_task id ts
  end.
Definition set_task (id : string) (t : TaskRecord) (ts : Tasks) : Tasks :=
  map (λ kt, if decide (kt.1 = id) then (kt.1, t) else kt) ts.
Definition del_task (id : string) (ts : Tasks) : Tasks := filter (λ kt : string * TaskRecord, kt.1 ≠ id) ts.

(** The task of an id changes state, and [recover_task] is tried on it. *)
Definition try_recovery (incident_id id : string) (task : TaskRecord) (m : Manager) : bool * Manager :=
  let '(receipt, task, h) := recover_task incident_id task (ma_healer m) in
  (match receipt with Some _ => true | None => false end, mkManager (set_task id task (ma_active_tasks m)) h).

Definition pre_emptive_patch (task : TaskRecord) (h : Healer) : bool :=
  (geb (tr_cpu_usage task) 80 && negb (bool_decide (tr_expected_activity_class task = COMPUTE))
   && known INFINITE_LOOP (he_knowledge_base h))%bool.

(** [pre_emptive_patch] has no effect here. *)
Definition reconcile_lease (now cpu_load : Q) (descendants : string → bool) (incident_id task_id : string)
    (owner_exists process_alive : bool) (m : Manager) : Manager :=
  match find_task task_id (ma_active_tasks m) with
  | None => m
  | Some task =>
      let new_state := analyze_health now cpu_load descendants task owner_exists process_alive in
      let task := with_state task new_state in
      match new_state with
      | CONFIRMED_STALL | OWNER_LOST | ORPHANED => (try_recovery incident_id task_id task m).2
      | _ => mkManager (set_task task_id task (ma_active_tasks m)) (ma_healer m)
      end
  end.

(** The tasks that wait for [id] are suspended. *)
Definition suspend_dependents (id : string) (ts : Tasks) : Tasks :=
  map (λ kt, if bool_decide (tr_waiting_on_task_id kt.2 = Some id) then (kt.1, with_state kt.2 SUSPECTED_STALL) else kt) ts.

Definition outage_one (incident_id : string) (m : Manager) (task_id : string) : Manager :=
  match find_task task_id (ma_active_tasks m) with
  | None => m
  | Some task =>
      if tr_provider_degraded task && truthy (tr_fallback_provider task) then
        let task := with_state (with_provider task (tr_fallback_provider task) false) CONFIRMED_STALL in
        let m := (try_recovery incident_id task_id task m).2 in
        mkManager (suspend_dependents task_id (ma_active_tasks m)) (ma_healer m)
      else m
  end.
Definition handle_provider_outage (incident_id : string) (m : Manager) : Manager :=
  foldl (outage_one incident_id) m (map fst (ma_active_tasks m)).

(** [receipt.old_owner = old_owner] of the receipt that came last. *)
Definition reown (old_owner : string) (r : RecoveryReceipt) : RecoveryReceipt :=
  mkReceipt (rc_incident_id r) (rc_task_id r) (rc_workkey r) old_owner (rc_failure_class r) (rc_last_good_checkpoint r)
    (rc_cleanup_action r) (rc_successor r) (rc_work_preserved r) (rc_network_diagnostics r) (rc_stall_root_cause r).
Fixpoint reown_last (old_owner : string) (l : list RecoveryReceipt) : list RecoveryReceipt :=
  match l with
  | [] => []
  | [r] => [reown old_owner r]
  | r :: l => r :: reown_last old_owner l
  end.

Definition steal_lease_for_failed_host (incident_id task_id new_host new_session : string) (m : Manager) : Manager :=
  match find_task task_id (ma_active_tasks m) with
  | None => m
  | Some task =>
      if decide (tr_owner_host task = new_host) then m
      else
        let old_owner := tr_owner_session task in
        let '(recovered, m) := try_recovery incident_id task_id (with_owner (with_state task OWNER_LOST) new_host new_session) m in
        if (recovered : bool)
        then mkManager (ma_active_tasks m) (mkHealer (reown_last old_owner (he_receipts (ma_healer m))) (he_knowledge_base (ma_healer m)))
        else m
  end.

Definition archived (s : TaskState) : bool :=
  match s with DONE | FAILED_FINAL | CANCELLED | SUPERSEDED => true | _ => false end.
Definition active (t : TaskRecord) : bool := negb (archived (tr_current_state t)).
Definition of_key (workkey : string) (ts : Tasks) : Tasks :=
  filter (λ kt : string * TaskRecord, tr_workkey kt.2 = workkey ∧ active kt.2 = true) ts.

(** [circuit_open]: the provider's circuit is open and there is no fallback. *)
Definition request_wake (circuit_open : bool) (workkey : string) (check_resource_limits : bool) (m : Manager) : bool :=
  let ts := ma_active_tasks m in
  if circuit_open then false
  else if (check_resource_limits
           && (50 <=? Z.of_nat (length (filter (λ kt : string * TaskRecord, active kt.2 = true) ts)))
           && negb (existsb (λ kt, bool_decide (tr_workkey kt.2 = workkey) && active kt.2) ts))%bool then false
  else negb (0 <? Z.of_nat (length (of_key workkey ts))).

(** ** Deadlocks *)

(** The walk from a task along [waiting_on_task_id]: the path, and the cycle it
    ran into; [None] when it did not end within its fuel. *)
Fixpoint from_first (c : string) (path : list string) : list string :=
  match path with
  | [] => []
  | x :: r => if decide (x = c) then path else from_first c r
  end.

Fixpoint walk (fuel : nat) (ts : Tasks) (path : list string) (curr : option string) : option (list string * option (list string)) :=
  match curr with
  | Some c =>
      if decide (c = "") then Some (path, None)
      else
        match find_task c ts with
        | None => Some (path, None)
        | Some task =>
            if bool_decide (c ∈ path) then Some (path, Some (from_first c path))
            else match fuel with O => None | S fuel => walk fuel ts (path ++ [c]) (tr_waiting_on_task_id task) end
        end
  | None => Some (path, None)
  end.

Record Scan := mkScan { sc_manager : Manager; sc_visited : list string; sc_recovered : list string }.

(** [cycle[0]] is recovered. *)
Definition break_cycle (incident_id : string) (cycle : list string) (s : Scan) : Scan :=
  match cycle with
  | [] => s
  | c :: _ =>
      match find_task c (ma_active_tasks (sc_manager s)) with
      | None => s
      | Some task =>
          let '(recovered, m) := try_recovery incident_id c (with_state task CONFIRMED_STALL) (sc_manager s) in
          mkScan m (sc_visited s) (if (recovered : bool) then sc_recovered s ++ [c] else sc_recovered s)
      end
  end.

Definition detect_one (incident_id : string) (s : Scan) (task_id : string) : option Scan :=
  if bool_decide (task_id ∈ sc_visited s) then Some s
  else
    let ts := ma_active_tasks (sc_manager s) in
    '(path, cycle) ← walk (length ts) ts [] (Some task_id);
    let s := match cycle with Some cycle => break_cycle incident_id cycle s | None => s end in
    Some (mkScan (sc_manager s) (sc_visited s ++ path) (sc_recovered s)).

Fixpoint detect_all (incident_id : string) (ids : list string) (s : Scan) : option Scan :=
  match ids with [] => Some s | id :: ids => s ← detect_one incident_id s id; detect_all incident_id ids s end.

Definition detect_deadlocks (incident_id : string) (m : Manager) : option (list string * Manager) :=
  s ← detect_all incident_id (map fst (ma_active_tasks m)) (mkScan m [] []);
  Some (sc_recovered s, sc_manager s).

(** ** Restarts and ends *)

Definition restart_one (incident_id : string) (m : Manager) (task_id : string) : Manager :=
  match find_task task_id (ma_active_tasks m) with
  | None => m
  | Some task =>
      if archived (tr_current_state task) then mkManager (del_task task_id (ma_active_tasks m)) (ma_healer m)
      else
        let '(recovered, m) := try_recovery incident_id task_id (with_state task OWNER_LOST) m in
        if (recovered : bool) then m else mkManager (del_task task_id (ma_active_tasks m)) (ma_healer m)
  end.
(** Without the sweep of files at its end. *)
Definition reconcile_after_restart (incident_id : string) (m : Manager) : Manager :=
  foldl (restart_one incident_id) m (map fst (ma_active_tasks m)).

Definition complete_task (task_id : string) (m : Manager) : Manager :=
  mkManager (del_task task_id (ma_active_tasks m)) (ma_healer m).

Definition mark_task_resumed (now1 now2 : Q) (task_id : string) (m : Manager) : Manager :=
  match find_task task_id (ma_active_tasks m) with
  | None => m
  | Some task =>
      let task := with_times (with_progress task None HEALTHY (tr_recovery_count task)) now1 now2 in
      mkManager (set_task task_id task (ma_active_tasks m)) (ma_healer m)
  end.
