(* ===== verification/TaskRecovery.v ===== *)
(** * What recoveries guarantee

    Deadlock detection breaks every cycle of waiting tasks and touches nothing
    else; recoveries are bounded; wakes coalesce. *)

From S2P Require Import Prelude PyText TaskLifecycle.

(** ** The dict *)

Lemma find_in id t ts : find_task id ts = Some t → id ∈ map fst ts.
Proof. induction ts as [|[k u] ts IH]; simpl; [done|]. case_decide as E; [subst; by left|]. intros H. right. auto. Qed.

Lemma find_some id ts : id ∈ map fst ts → is_Some (find_task id ts).
Proof.
  induction ts as [|[k u] ts IH]; simpl; [by intros ?%elem_of_nil|]. intros [E|H]%elem_of_cons; case_decide; eauto. congruence.
Qed.

Lemma task_keys_set id t ts : map fst (set_task id t ts) = map fst ts.
Proof. unfold set_task. rewrite map_map. apply map_ext. intros [k u]. simpl. by case_decide. Qed.

Lemma find_set id id' t ts :
  find_task id' (set_task id t ts) = if decide (id' = id) then (λ _, t) <$> find_task id ts else find_task id' ts.
Proof.
  induction ts as [|[k u] ts IH]; simpl; [by case_decide|].
  repeat (case_decide; simpl; simplify_eq); (done || exact IH).
Qed.

(** ** One recovery *)

Definition stalled (s : TaskState) : Prop := s = CONFIRMED_STALL ∨ s = OWNER_LOST ∨ s = ORPHANED.
(** [recover_task] gives a receipt. *)
Definition recoverable (t : TaskRecord) : Prop :=
  tr_recovery_state t = None ∧ tr_recovery_count t < 3 ∧ verify_ownership t = true.

Lemma cause_same t c u :
  analyze_stall_cause t = (c, u) → u = t ∨ u = with_provider t (tr_provider t) true.
Proof. unfold analyze_stall_cause. intros H. repeat case_match; simplify_eq; auto. Qed.

(** What a recovery leaves alone. *)
Record same_task (t t' : TaskRecord) : Prop := {
  sa_id : tr_task_id t' = tr_task_id t;
  sa_key : tr_workkey t' = tr_workkey t;
  sa_wait : tr_waiting_on_task_id t' = tr_waiting_on_task_id t;
}.

Lemma recover_spec i t h r t' h' :
  recover_task i t h = (r, t', h') →
  same_task t t' ∧
  match r with
  | Some rc => stalled (tr_current_state t) ∧ recoverable t ∧ tr_current_state t' = RECOVERING ∧
      tr_recovery_state t' = Some "SPAWNING_SUCCESSOR" ∧ tr_recovery_count t' = tr_recovery_count t + 1 ∧
      he_receipts h' = he_receipts h ++ [rc] ∧ rc_task_id rc = tr_task_id t
  | None => h' = h ∧ tr_recovery_count t' = tr_recovery_count t ∧
      (tr_recovery_state t ≠ None → tr_recovery_state t' ≠ None) ∧
      (tr_current_state t' = tr_current_state t ∨ tr_current_state t' = WAITING_USER) ∧
      (stalled (tr_current_state t) → ¬ recoverable t)
  end.
Proof.
  unfold recover_task. destruct (negb _) eqn:Hst.
  { intros [= <- <- <-]. split; [done|]. split_and!; auto. bool_hyps. unfold stalled. naive_solver. }
  assert (stalled (tr_current_state t)) as Hs.
  { apply negb_false_iff in Hst. rewrite !orb_true_iff, !bool_decide_eq_true in Hst. unfold stalled. tauto. }
  destruct (bool_decide (tr_recovery_state t ≠ None)) eqn:Hrec; bool_hyps.
  { intros [= <- <- <-]. split; [done|]. split_and!; auto. by intros _ [? _]. }
  apply dec_stable in Hrec. destruct (3 <=? _) eqn:Hc; bool_hyps.
  { intros [= <- <- <-]. split; [done|]. split_and!; auto. intros _ (_ & ? & _). lia. }
  set (t1 := match _ with [] => _ | _ => _ end).
  assert (same_task t t1 ∧ tr_current_state t1 = tr_current_state t ∧ tr_recovery_count t1 = tr_recovery_count t ∧
          verify_ownership t1 = verify_ownership t) as (H1 & H2 & H3 & H4) by (subst t1; case_match; done).
  destruct (negb (verify_ownership (with_recovery t1 _))) eqn:Hv.
  { intros [= <- <- <-]. bool_hyps. change (verify_ownership t1 = false) in Hv. destruct H1. split; [done|]. split_and!; [done|exact H3|done|by left|].
    intros _ (_ & _ & ?). congruence. }
  bool_hyps. change (verify_ownership t1 = true) in Hv.
  destruct (analyze_stall_cause _) as [c u] eqn:Hu. apply cause_same in Hu.
  destruct (attempt_patch _ _ _) as [patched kb]. intros [= <- <- <-].
  assert (same_task t u ∧ tr_recovery_state u = Some "SPAWNING_SUCCESSOR" ∧ tr_recovery_count u = tr_recovery_count t) as (G1 & G2 & G3)
    by (destruct H1; destruct Hu as [-> | ->]; done).
  destruct G1. split; [done|]. cbn. split_and!; try done; [split_and!; [done|done|congruence]|congruence].
Qed.

(** ** Walks along what tasks wait for *)

Definition waits (ts : Tasks) (x y : string) : Prop :=
  ∃ t, find_task x ts = Some t ∧ tr_waiting_on_task_id t = Some y ∧ y ≠ "" ∧ is_Some (find_task y ts).
Definition on_cycle (ts : Tasks) (x : string) : Prop := tc (waits ts) x x.

Lemma waits_det ts x y z : waits ts x y → waits ts x z → y = z.
Proof. intros (t & E & H & _) (u & E' & H' & _). congruence. Qed.

Lemma tc_first {A} (R : A → A → Prop) x y : tc R x y → R x y ∨ ∃ z, R x z ∧ tc R z y.
Proof. inversion 1; eauto. Qed.

Section walks.
Context (ts : Tasks).
Local Notation R := (waits ts).

(** From a task there is one way on. *)
Lemma one_way x y z : rtc R x y → rtc R x z → rtc R y z ∨ rtc R z y.
Proof.
  intros Hy. revert z. induction Hy as [x|x x' y Hx Hy IH]; intros z Hz; [by left|].
  apply rtc_inv in Hz as [<-|(x'' & Hx' & Hz)]; [right; by eapply rtc_l|].
  assert (x'' = x') as -> by (by eapply waits_det). auto.
Qed.

Lemma cycle_next x y : on_cycle ts x → R x y → on_cycle ts y ∧ rtc R y x.
Proof.
  intros Hc Hy. apply tc_first in Hc as [Hx|(x' & Hx & Hc)].
  - assert (x = y) as <- by (by eapply waits_det). split; [by apply tc_once|done].
  - assert (x' = y) as -> by (by eapply waits_det). split; [by eapply tc_r|by apply tc_rtc].
Qed.

Lemma cycle_back x y : on_cycle ts x → rtc R x y → rtc R y x ∧ on_cycle ts y.
Proof.
  intros Hc Hy. induction Hy as [x|x x' y Hx Hy IH]; [done|].
  destruct (cycle_next x x' Hc Hx) as [Hc' Hback]. destruct (IH Hc') as [Hb Hcy]. split; [by etrans|done].
Qed.

Lemma dead_end x z c : rtc R x z → (∀ y, ¬ R z y) → rtc R x c → on_cycle ts c → False.
Proof.
  intros Hz Hdead Hxc Hc. assert (rtc R z c ∨ rtc R c z) as [H|H] by (by eapply one_way).
  - apply rtc_inv in H as [->|(y & Hy & _)]; [|by eapply Hdead]. apply tc_first in Hc as [H|(y & H & _)]; by eapply Hdead.
  - apply cycle_back in H as [_ H]; [|done]. apply tc_first in H as [H|(y & H & _)]; by eapply Hdead.
Qed.

Lemma one_cycle x h c : rtc R x h → on_cycle ts h → rtc R x c → on_cycle ts c → rtc R h c ∧ rtc R c h.
Proof.
  intros Hh Hch Hc Hcc. assert (rtc R h c ∨ rtc R c h) as [H|H] by (by eapply one_way).
  - split; [done|]. by apply (cycle_back h c).
  - split; [|done]. by apply (cycle_back c h).
Qed.

Lemma from_first_head c path : c ∈ path → ∃ r, from_first c path = c :: r.
Proof.
  induction path as [|x r IH]; [by intros ?%elem_of_nil|]. simpl. intros [->|Hc]%elem_of_cons; case_decide; subst; eauto. done.
Qed.

(** What a walk has seen: distinct tasks, each of which leads to the last one,
    and what the last one waits for. *)
Definition seen (path : list string) (curr : option string) : Prop :=
  NoDup path ∧ (∀ x, x ∈ path → x ≠ "" ∧ is_Some (find_task x ts)) ∧
  (path = [] ∨ ∃ z t, (∀ x, x ∈ path → rtc R x z) ∧ find_task z ts = Some t ∧ tr_waiting_on_task_id t = curr).

Lemma seen_next path c t :
  seen path (Some c) → c ≠ "" → find_task c ts = Some t → c ∉ path → seen (path ++ [c]) (tr_waiting_on_task_id t).
Proof.
  intros (Hnd & Hact & Hlast) Hc E Hnew. split; [|split].
  - apply NoDup_app. split; [done|]. split; [|apply NoDup_singleton]. by intros x Hx ->%list_elem_of_singleton.
  - intros x [Hx| ->%list_elem_of_singleton]%elem_of_app; eauto.
  - right. exists c, t. split; [|done]. intros x [Hx| ->%list_elem_of_singleton]%elem_of_app; [|done].
    destruct Hlast as [->|(z & u & Hz & Eu & Hw)]; [by apply elem_of_nil in Hx|].
    eapply rtc_r; [by apply Hz|]. exists u. rewrite E. eauto.
Qed.

(** A walk ends at a dead end, or in a cycle that it names. *)
Lemma walk_spec fuel path curr :
  seen path curr → (length ts < length path + fuel + 1)%nat →
  ∃ path' cycle, walk fuel ts path curr = Some (path', cycle) ∧
    (∀ c, curr = Some c → c ≠ "" → is_Some (find_task c ts) → c ∈ path') ∧ (∀ x, x ∈ path → x ∈ path') ∧
    match cycle with
    | None => ∀ x, x ∈ path' → ∃ z, rtc R x z ∧ ∀ y, ¬ R z y
    | Some cycle => ∃ h r, cycle = h :: r ∧ on_cycle ts h ∧ ∀ x, x ∈ path' → rtc R x h
    end.
Proof.
  revert path curr. induction fuel as [|fuel IH]; intros path curr Hs Hfuel.
  all: assert (∀ c, curr = Some c → c ≠ "" → is_Some (find_task c ts) → c ∈ path →
    ∃ h r, from_first c path = h :: r ∧ on_cycle ts h ∧ ∀ x, x ∈ path → rtc R x h) as Hcyc.
  1, 3: intros c -> Hc Hf Hin; destruct (from_first_head c path Hin) as [r ->];
    destruct Hs as (_ & _ & [->|(z & t & Hz & Et & Hw)]); [by apply elem_of_nil in Hin|];
    assert (R z c) as Hzc by (exists t; auto); exists c, r; split; [done|]; split;
    [eapply tc_rtc_l; [by apply Hz|by apply tc_once]|intros x Hx; eapply rtc_r; [by apply Hz|done]].
  all: assert (∀ c, (curr = None ∨ curr = Some c ∧ (c = "" ∨ find_task c ts = None)) → ∀ x, x ∈ path → ∃ z, rtc R x z ∧ ∀ y, ¬ R z y) as Hdead.
  1, 3: intros c Hc x Hx; destruct Hs as (_ & _ & [->|(z & t & Hz & Et & Hw)]); [by apply elem_of_nil in Hx|];
    exists z; split; [by apply Hz|]; intros y (u & Eu & Hu & Hne & [v Hv]); simplify_eq; naive_solver.
  all: cbn [walk]; destruct curr as [c|]; [|exists path, None; split_and!; [done|done|done|apply (Hdead ""); by left]].
  all: case_decide as Hc; [exists path, None; split_and!; [done|by intros ? [= <-]|done|apply (Hdead c); auto]|].
  all: destruct (find_task c ts) as [t|] eqn:Et;
    [|exists path, None; split_and!; [done|intros ? [= <-] _ [? ?]; congruence|done|apply (Hdead c); auto]].
  all: case_bool_decide as Hin;
    [eexists path, _; split; [done|]; split; [by intros ? [= <-]|]; split; [done|]; apply Hcyc; rewrite ?Et; eauto|].
  - exfalso. destruct (seen_next path c t Hs Hc Et Hin) as (Hnd & Hact & _).
    assert (length (path ++ [c]) <= length (map fst ts))%nat as Hlen.
    { apply submseteq_length, NoDup_submseteq; [done|]. intros x Hx. destruct (Hact x Hx) as [_ [u Hu]]. by eapply find_in. }
    rewrite length_app, length_map in Hlen. simpl in *. lia.
  - destruct (IH (path ++ [c]) (tr_waiting_on_task_id t)) as (path' & cycle & E & _ & Hsub & Hres);
      [by apply seen_next|rewrite length_app; simpl; lia|].
    exists path', cycle. split; [done|]. split; [intros ? [= <-] _ _; apply Hsub, elem_of_app; right; by left|].
    split; [|done]. intros x Hx. apply Hsub, elem_of_app. by left.
Qed.

End walks.

(** ** Deadlocks *)

Record same_waits (ts ts' : Tasks) : Prop := {
  sw_keys : map fst ts' = map fst ts;
  sw_waits : ∀ x, tr_waiting_on_task_id <$> find_task x ts' = tr_waiting_on_task_id <$> find_task x ts;
}.

Lemma waits_same ts ts' x y : same_waits ts ts' → waits ts x y ↔ waits ts' x y.
Proof.
  intros [_ H]. assert (∀ z, is_Some (find_task z ts) ↔ is_Some (find_task z ts')) as Hs.
  { intros z. specialize (H z). destruct (find_task z ts), (find_task z ts'); simplify_eq/=; split; eauto; by intros []. }
  specialize (H x). split; intros (t & E & Hw & Hne & Hy); rewrite E in H; simpl in H.
  - destruct (find_task x ts') as [u|] eqn:Eu; simpl in H; [|done]. exists u. split; [done|]. split; [|split; [done|by apply Hs]]. congruence.
  - destruct (find_task x ts) as [u|] eqn:Eu; simpl in H; [|done]. exists u. split; [done|]. split; [|split; [done|by apply Hs]]. congruence.
Qed.

Lemma on_cycle_same ts ts' x : same_waits ts ts' → on_cycle ts' x → on_cycle ts x.
Proof.
  intros H. unfold on_cycle. generalize x at 1 3. intros y Hc. induction Hc as [y z Hy|y z w Hy _ IH].
  - apply tc_once. by apply (waits_same ts ts').
  - eapply tc_l; [|done]. by apply (waits_same ts ts').
Qed.

Lemma reach_same ts ts' x y : same_waits ts ts' → rtc (waits ts) x y ↔ rtc (waits ts') x y.
Proof.
  intros H. split; induction 1; try done; (eapply rtc_l; [|done]); by apply (waits_same ts ts').
Qed.

Lemma set_same_waits ts0 ts id t u :
  same_waits ts0 ts → find_task id ts = Some t → tr_waiting_on_task_id u = tr_waiting_on_task_id t → same_waits ts0 (set_task id u ts).
Proof.
  intros [Hk Hw] E Hu. split; [by rewrite task_keys_set|]. intros x. rewrite <- Hw, find_set. case_decide; subst; [|done].
  rewrite E. simpl. by rewrite Hu.
Qed.

(** A task that the scan took up: recovered if it could be. *)
Definition taken_up (ts0 ts : Tasks) (recovered : list string) (h : string) : Prop :=
  ∃ t0 t, find_task h ts0 = Some t0 ∧ find_task h ts = Some t ∧
    (tr_current_state t = CONFIRMED_STALL ∨ tr_current_state t = RECOVERING ∨ tr_current_state t = WAITING_USER) ∧
    (recoverable t0 → h ∈ recovered ∧ tr_recovery_count t0 < tr_recovery_count t).

Record scanned (m0 : Manager) (s : Scan) : Prop := {
  sn_same : same_waits (ma_active_tasks m0) (ma_active_tasks (sc_manager s));
  sn_broken : ∀ v c, v ∈ sc_visited s → rtc (waits (ma_active_tasks m0)) v c → on_cycle (ma_active_tasks m0) c →
    ∃ h, rtc (waits (ma_active_tasks m0)) c h ∧ rtc (waits (ma_active_tasks m0)) h c ∧
      taken_up (ma_active_tasks m0) (ma_active_tasks (sc_manager s)) (sc_recovered s) h;
  sn_touched : ∀ x, find_task x (ma_active_tasks (sc_manager s)) = find_task x (ma_active_tasks m0) ∨
    on_cycle (ma_active_tasks m0) x ∧ taken_up (ma_active_tasks m0) (ma_active_tasks (sc_manager s)) (sc_recovered s) x;
  sn_recovered : ∀ h, h ∈ sc_recovered s → on_cycle (ma_active_tasks m0) h;
  sn_receipts : length (he_receipts (ma_healer (sc_manager s))) = (length (he_receipts (ma_healer m0)) + length (sc_recovered s))%nat;
}.

Lemma recoverable_state t s : recoverable (with_state t s) ↔ recoverable t.
Proof. done. Qed.

Lemma break_scanned i m0 s h r :
  scanned m0 s → on_cycle (ma_active_tasks m0) h →
  let s' := break_cycle i (h :: r) s in
  scanned m0 s' ∧ sc_visited s' = sc_visited s ∧
  taken_up (ma_active_tasks m0) (ma_active_tasks (sc_manager s')) (sc_recovered s') h.
Proof.
  intros [Hsame Hbr Htou Hrec Hlen] Hc. simpl.
  assert (is_Some (find_task h (ma_active_tasks m0))) as [t0 E0].
  { apply tc_first in Hc as [(t & E & _)|(z & (t & E & _) & _)]; eauto. }
  assert (∃ t, find_task h (ma_active_tasks (sc_manager s)) = Some t ∧ tr_waiting_on_task_id t = tr_waiting_on_task_id t0) as (t & E & Hw).
  { pose proof (sw_waits _ _ Hsame h) as H. rewrite E0 in H. destruct (find_task h (ma_active_tasks (sc_manager s))) as [t|]; simpl in H; [|done]. exists t. split; [done|congruence]. }
  rewrite E. unfold try_recovery.
  destruct (recover_task i (with_state t CONFIRMED_STALL) (ma_healer (sc_manager s))) as [[rc u] he] eqn:Er.
  apply recover_spec in Er as [[_ _ Hu] Er]. cbn in Hu. set (recovered := match rc with Some _ => true | None => false end).
  set (l := if recovered then sc_recovered s ++ [h] else sc_recovered s).
  set (ts := set_task h u (ma_active_tasks (sc_manager s))).
  assert (sc_recovered s ⊆ l) as Hl by (subst l; destruct recovered; set_solver).
  assert (find_task h ts = Some u) as Eu by (subst ts; rewrite find_set, decide_True, E by done; done).
  assert (tr_recovery_count t ≤ tr_recovery_count u) as Hcount.
  { destruct rc; [destruct Er as (_ & _ & _ & _ & Er & _)|destruct Er as (_ & Er & _)]; cbn in Er; lia. }
  assert (taken_up (ma_active_tasks m0) ts l h) as Hh.
  { exists t0, u. split; [done|]. split; [done|]. split.
    - destruct rc; [destruct Er as (_ & _ & -> & _); auto|destruct Er as (_ & _ & _ & [->| ->] & _); auto].
    - intros H0. destruct (Htou h) as [Esame|[_ (t1 & t2 & E1 & E2 & _ & H12)]].
      + assert (t = t0) as -> by congruence. destruct rc as [rc|].
        * destruct Er as (_ & _ & _ & _ & Er & _). cbn in Er. split; [subst l recovered; set_solver|lia].
        * destruct Er as (_ & _ & _ & _ & Er). exfalso. apply Er; [by left|by apply recoverable_state].
      + simplify_eq. destruct (H12 H0). split; [by apply Hl|lia]. }
  assert (∀ x, taken_up (ma_active_tasks m0) (ma_active_tasks (sc_manager s)) (sc_recovered s) x → taken_up (ma_active_tasks m0) ts l x) as Hkeep.
  { intros x (t1 & t2 & E1 & E2 & Hst & H12). destruct (decide (x = h)) as [->|Hx]; [done|].
    exists t1, t2. split; [done|]. split; [subst ts; by rewrite find_set, decide_False|]. split; [done|].
    intros H1. destruct (H12 H1). split; [by apply Hl|done]. }
  assert (scanned m0 (mkScan (mkManager ts he) (sc_visited s) l)); [|done]. split; cbn.
  - eapply set_same_waits; eauto.
  - intros v c Hv Hr Hcc. destruct (Hbr v c Hv Hr Hcc) as (h' & H1 & H2 & H3). eauto.
  - intros x. destruct (decide (x = h)) as [->|Hx]; [by right|]. destruct (Htou x) as [Ex|[Hx1 Hx2]]; [left|by right; auto].
    subst ts. by rewrite find_set, decide_False.
  - subst l. destruct recovered; [|done]. intros x [Hx| ->%list_elem_of_singleton]%elem_of_app; auto.
  - subst l recovered. destruct rc; [destruct Er as (_ & _ & _ & _ & _ & -> & _)|destruct Er as (-> & _)]; [|done].
    rewrite !length_app. simpl. lia.
Qed.

Lemma detect_one_scanned i m0 s id :
  scanned m0 s → ∃ s', detect_one i s id = Some s' ∧ scanned m0 s' ∧ (∀ v, v ∈ sc_visited s → v ∈ sc_visited s') ∧
    (id ≠ "" → is_Some (find_task id (ma_active_tasks m0)) → id ∈ sc_visited s').
Proof.
  intros Hs. unfold detect_one. case_bool_decide as Hv; [exists s; auto|].
  pose proof (sn_same _ _ Hs) as Hsame. set (ts := ma_active_tasks (sc_manager s)) in *.
  destruct (walk_spec ts (length ts) [] (Some id)) as (path & cycle & E & Hid & _ & Hres);
    [split; [constructor|]; split; [by intros ? ?%elem_of_nil|by left]|simpl; lia|].
  rewrite E. simpl. eexists. split; [done|].
  assert (id ≠ "" → is_Some (find_task id (ma_active_tasks m0)) → id ∈ path) as Hin.
  { intros Hne [t Et]. apply (Hid id); [done|done|]. pose proof (sw_waits _ _ Hsame id) as H. rewrite Et in H.
    fold ts in H. destruct (find_task id ts); [eauto|done]. }
  destruct cycle as [cycle|].
  - destruct Hres as (h & r & -> & Hc & Hreach). apply (on_cycle_same _ _ _ Hsame) in Hc.
    destruct (break_scanned i m0 s h r Hs Hc) as ([H1 H2 H3 H4 H5] & Hvis & Hh). revert H1 H2 H3 H4 H5 Hvis Hh.
    generalize (break_cycle i (h :: r) s). intros s' H1 H2 H3 H4 H5 Hvis Hh.
    split; [|cbn; rewrite Hvis; set_solver]. split; cbn; [done| |done|done|done].
    intros v c [Hv'|Hv']%elem_of_app Hr Hcc; [by eapply H2|].
    apply Hreach, (reach_same _ _ _ _ Hsame) in Hv'. destruct (one_cycle (ma_active_tasks m0) v h c) as [G1 G2]; eauto.
  - destruct Hs as [H1 H2 H3 H4 H5]. split; [|cbn; set_solver]. split; cbn; [done| |done|done|done].
    intros v c [Hv'|Hv']%elem_of_app Hr Hcc; [by eapply H2|]. exfalso.
    destruct (Hres v Hv') as (z & Hz & Hdead). eapply (dead_end (ma_active_tasks m0) v z c); eauto.
    + by apply (reach_same _ _ _ _ Hsame).
    + intros y Hy. apply (Hdead y). by apply (waits_same _ _ _ _ Hsame).
Qed.

Lemma detect_all_scanned i m0 ids s :
  scanned m0 s → ∃ s', detect_all i ids s = Some s' ∧ scanned m0 s' ∧ (∀ v, v ∈ sc_visited s → v ∈ sc_visited s') ∧
    ∀ id, id ∈ ids → id ≠ "" → is_Some (find_task id (ma_active_tasks m0)) → id ∈ sc_visited s'.
Proof.
  revert s. induction ids as [|id ids IH]; intros s Hs; simpl; [exists s; split_and!; [done..|by intros ? ?%elem_of_nil]|].
  destruct (detect_one_scanned i m0 s id Hs) as (s1 & -> & Hs1 & Hv1 & Hid). simpl.
  destruct (IH s1 Hs1) as (s' & -> & Hs' & Hv & Hids). exists s'. split_and!; [done..|auto|].
  intros x [->|Hx]%elem_of_cons; auto.
Qed.

(** C19: Deadlocks are broken, and nothing else is touched.  The detection ends.
    In every cycle of active tasks that wait for each other some task is taken
    up, and recovered if it has recoveries left, is not in recovery and its
    process is known; recovered tasks are told, each with a receipt and on a
    cycle; and a task on no cycle stays exactly as it is. *)
Theorem deadlocks_are_broken incident_id m :
  let ts := ma_active_tasks m in
  ∃ recovered m', detect_deadlocks incident_id m = Some (recovered, m') ∧
    (∀ c, on_cycle ts c → ∃ h, rtc (waits ts) c h ∧ rtc (waits ts) h c ∧ taken_up ts (ma_active_tasks m') recovered h) ∧
    (∀ h, h ∈ recovered → on_cycle ts h) ∧
    length (he_receipts (ma_healer m')) = (length (he_receipts (ma_healer m)) + length recovered)%nat ∧
    ∀ x, ¬ on_cycle ts x → find_task x (ma_active_tasks m') = find_task x ts.
Proof.
  intros ts. unfold detect_deadlocks. destruct (detect_all_scanned incident_id m (map fst (ma_active_tasks m)) (mkScan m [] [])) as (s & -> & Hs & _ & Hall).
  { split; cbn; [by split|by intros ? ? ?%elem_of_nil|by left|by intros ? ?%elem_of_nil|lia]. }
  destruct Hs as [_ Hbr Htou Hrec Hlen]. exists (sc_recovered s), (sc_manager s). split; [done|]. split_and!; [|done|done|].
  - intros c Hc. apply (Hbr c c); [|done|done].
    assert (∃ t, find_task c ts = Some t) as [t Et] by (apply tc_first in Hc as [(t & E & _)|(z & (t & E & _) & _)]; eauto).
    apply Hall; [by eapply find_in| |eauto]. clear -Hc. unfold on_cycle in Hc. revert Hc. generalize c at 1. intros b Hc.
    by induction Hc as [? ? (? & ? & ? & ? & _)|].
  - intros x Hx. destruct (Htou x) as [E|[H _]]; [done|by destruct Hx].
Qed.

(** ** Recoveries are bounded *)

Inductive Op :=
  | Add (id : string) (t : TaskRecord)
  | Reconcile (now cpu_load : Q) (descendants : string → bool) (incident_id id : string) (owner_exists process_alive : bool)
  | Outage (incident_id : string)
  | StealLease (incident_id id new_host new_session : string)
  | Detect (incident_id : string)
  | Restart (incident_id : string)
  | CompleteTask (id : string)
  | Resume (now1 now2 : Q) (id : string).

(** [active_tasks[id] = record] *)
Definition add_task (id : string) (t : TaskRecord) (ts : Tasks) : Tasks :=
  if bool_decide (id ∈ map fst ts) then set_task id t ts else ts ++ [(id, t)].

Definition perform (o : Op) (m : Manager) : option Manager :=
  match o with
  | Add id t => Some (mkManager (add_task id t (ma_active_tasks m)) (ma_healer m))
  | Reconcile now load desc i id owner alive => Some (reconcile_lease now load desc i id owner alive m)
  | Outage i => Some (handle_provider_outage i m)
  | StealLease i id host session => Some (steal_lease_for_failed_host i id host session m)
  | Detect i => snd <$> detect_deadlocks i m
  | Restart i => Some (reconcile_after_restart i m)
  | CompleteTask id => Some (complete_task id m)
  | Resume now1 now2 id => Some (mark_task_resumed now1 now2 id m)
  end.
Fixpoint run (ops : list Op) (m : Manager) : option Manager :=
  match ops with [] => Some m | o :: ops => m ← perform o m; run ops m end.

(** Records are under their own id. *)
Definition named (m : Manager) : Prop := ∀ id t, find_task id (ma_active_tasks m) = Some t → tr_task_id t = id.
Definition receipts_of (id : string) (h : Healer) : Z := Z.of_nat (length (filter (λ r, rc_task_id r = id) (he_receipts h))).

(** The recoveries a task has left, and whether it may begin one. *)
Definition recoveries_left (id : string) (ts : Tasks) : Z :=
  match find_task id ts with Some t => Z.max 0 (3 - tr_recovery_count t) | None => 0 end.
Definition may_recover (id : string) (ts : Tasks) : Z :=
  match find_task id ts with Some t => if decide (tr_recovery_state t = None) then 1 else 0 | None => 0 end.

Record spends (m m' : Manager) : Prop := {
  sp_named : named m → named m';
  sp_left : named m → ∀ id, receipts_of id (ma_healer m') + recoveries_left id (ma_active_tasks m')
    ≤ receipts_of id (ma_healer m) + recoveries_left id (ma_active_tasks m);
  sp_may : named m → ∀ id, receipts_of id (ma_healer m') + may_recover id (ma_active_tasks m')
    ≤ receipts_of id (ma_healer m) + may_recover id (ma_active_tasks m);
}.

Lemma spends_refl m : spends m m.
Proof. split; auto; lia. Qed.

Lemma spends_trans m1 m2 m3 : spends m1 m2 → spends m2 m3 → spends m1 m3.
Proof.
  intros [H1 H2 H3] [H4 H5 H6]. split; [auto| |]; intros Hn id.
  - specialize (H2 Hn id). specialize (H5 (H1 Hn) id). lia.
  - specialize (H3 Hn id). specialize (H6 (H1 Hn) id). lia.
Qed.

(** A task that counts the same for recoveries. *)
Record like (t u : TaskRecord) : Prop := {
  li_id : tr_task_id u = tr_task_id t;
  li_count : tr_recovery_count u = tr_recovery_count t;
  li_state : tr_recovery_state u = tr_recovery_state t;
}.

Lemma find_del id id' ts : find_task id' (del_task id ts) = if decide (id' = id) then None else find_task id' ts.
Proof.
  unfold del_task. induction ts as [|[k u] ts IH]; simpl; [by case_decide|]. rewrite filter_cons. simpl.
  repeat (case_decide; simpl; simplify_eq); (done || exact IH).
Qed.

Lemma del_spends id m : spends m (mkManager (del_task id (ma_active_tasks m)) (ma_healer m)).
Proof.
  split; cbn.
  - intros Hn id' t. cbn. rewrite find_del. case_decide; [done|apply Hn].
  - intros _ id'. unfold recoveries_left. rewrite find_del. case_decide; [case_match|]; lia.
  - intros _ id'. unfold may_recover. rewrite find_del. case_decide; [repeat case_match|]; lia.
Qed.

(** Records that change in nothing that counts. *)
Lemma map_spends (f : string → TaskRecord → TaskRecord) m ts :
  (∀ id, find_task id ts = f id <$> find_task id (ma_active_tasks m)) →
  (∀ id t, find_task id (ma_active_tasks m) = Some t → like t (f id t)) → spends m (mkManager ts (ma_healer m)).
Proof.
  intros Hf Hlike. split; cbn.
  - intros Hn id t. cbn. rewrite Hf. destruct (find_task id _) as [u|] eqn:E; [|done]. intros [= <-].
    rewrite (li_id _ _ (Hlike id u E)). by apply Hn.
  - intros _ id. unfold recoveries_left. rewrite Hf. destruct (find_task id (ma_active_tasks m)) as [u|] eqn:E; simpl; [|lia].
    rewrite (li_count _ _ (Hlike id u E)). lia.
  - intros _ id. unfold may_recover. rewrite Hf. destruct (find_task id (ma_active_tasks m)) as [u|] eqn:E; simpl; [|lia].
    rewrite (li_state _ _ (Hlike id u E)). lia.
Qed.

Lemma set_spends id t u m :
  find_task id (ma_active_tasks m) = Some t → like t u → spends m (mkManager (set_task id u (ma_active_tasks m)) (ma_healer m)).
Proof.
  intros E Hu. apply (map_spends (λ x v, if decide (x = id) then u else v)).
  - intros x. rewrite find_set. destruct (decide (x = id)) as [->|]; [done|]. by destruct (find_task x _).
  - intros x v Ex. case_decide; [|done]. subst. by simplify_eq.
Qed.

Lemma find_map f id ts : find_task id (map (λ kt : string * TaskRecord, (kt.1, f kt.2)) ts) = f <$> find_task id ts.
Proof. induction ts as [|[k u] ts IH]; simpl; [done|]. case_decide; [done|exact IH]. Qed.

Lemma suspend_spends id m : spends m (mkManager (suspend_dependents id (ma_active_tasks m)) (ma_healer m)).
Proof.
  set (f v := if bool_decide (tr_waiting_on_task_id v = Some id) then with_state v SUSPECTED_STALL else v).
  apply (map_spends (λ _, f)); [|intros x v _; subst f; cbv beta; by case_bool_decide].
  intros x. rewrite <- find_map. f_equal. unfold suspend_dependents. apply map_ext. intros [k u]. unfold f. cbn [fst snd].
  by case_bool_decide.
Qed.

Lemma recovery_spends i id t u m :
  find_task id (ma_active_tasks m) = Some t → like t u → spends m (try_recovery i id u m).2.
Proof.
  intros E [Hid Hcount Hstate]. unfold try_recovery. destruct (recover_task i u (ma_healer m)) as [[r u'] h'] eqn:Er.
  apply recover_spec in Er as [[Hid' _ _] Er]. cbn.
  assert (named m → tr_task_id u' = id) as Hname by (intros Hn; rewrite Hid', Hid; by apply Hn).
  split; cbn.
  - intros Hn x v. cbn. rewrite find_set. case_decide as Hx; [|apply Hn]. rewrite Hx, E. intros [= <-]. auto.
  - intros Hn x. unfold recoveries_left. rewrite find_set. destruct r as [rc|].
    + destruct Er as (_ & (_ & Hlt & _) & _ & _ & Hc & Hrec & Hrid). unfold receipts_of. rewrite Hrec, filter_app, length_app, filter_cons.
      rewrite Hrid, <- Hid', (Hname Hn). repeat case_decide; subst; try done; rewrite ?E; simpl; lia.
    + destruct Er as (-> & Hc & _). case_decide; subst; rewrite ?E; simpl; lia.
  - intros Hn x. unfold may_recover. rewrite find_set. destruct r as [rc|].
    + destruct Er as (_ & (Hnone & _ & _) & _ & Hs & _ & Hrec & Hrid). unfold receipts_of. rewrite Hrec, filter_app, length_app, filter_cons.
      rewrite Hrid, <- Hid', (Hname Hn). destruct (decide (x = id)) as [->|]; [rewrite decide_True by done|rewrite decide_False by done]; simpl; [|lia].
      rewrite E. simpl. rewrite decide_False by congruence. rewrite decide_True by congruence. lia.
    + destruct Er as (-> & _ & Hs & _). case_decide; subst; [rewrite E; simpl|lia].
      repeat case_decide; try lia. exfalso. apply Hs; congruence.
Qed.

Lemma foldl_spends {A} (f : Manager → A → Manager) l m : (∀ m x, spends m (f m x)) → spends m (foldl f m l).
Proof. intros Hf. revert m. induction l as [|x l IH]; intros m; simpl; [apply spends_refl|]. by eapply spends_trans. Qed.

Lemma reown_receipts id old l :
  length (filter (λ r, rc_task_id r = id) (reown_last old l)) = length (filter (λ r, rc_task_id r = id) l).
Proof.
  induction l as [|r l IH]; [done|]. destruct l as [|r' l]; [simpl; rewrite !filter_cons; change (rc_task_id (reown old r)) with (rc_task_id r); by case_decide|].
  change (reown_last old (r :: r' :: l)) with (r :: reown_last old (r' :: l)).
  rewrite (filter_cons _ r (reown_last old (r' :: l))), (filter_cons _ r (r' :: l)). case_decide; cbn [length]; [f_equal|]; exact IH.
Qed.

Lemma detect_spends i ids s s' : detect_all i ids s = Some s' → spends (sc_manager s) (sc_manager s').
Proof.
  revert s. induction ids as [|id ids IH]; intros s; simpl; [intros [= <-]; apply spends_refl|].
  intros (s1 & H1 & H2)%bind_Some. eapply spends_trans; [|by apply IH]. clear IH H2. revert H1. unfold detect_one.
  case_bool_decide; [intros [= <-]; apply spends_refl|]. intros ([path cycle] & _ & [= <-])%bind_Some. cbn.
  destruct cycle as [[|c r]|]; cbn; [apply spends_refl| |apply spends_refl].
  destruct (find_task c _) as [t|] eqn:E; [|apply spends_refl].
  pose proof (recovery_spends i c t (with_state t CONFIRMED_STALL) _ E ltac:(done)) as H1.
  destruct (try_recovery _ _ _ _) as [b m]. exact H1.
Qed.

(** Everything but a new record and a resumption spends. *)
Definition spending (o : Op) : Prop := match o with Add _ _ | Resume _ _ _ => False | _ => True end.

Lemma perform_spends o m m' : spending o → perform o m = Some m' → spends m m'.
Proof.
  intros Ho. destruct o as [id t|now load desc i id owner alive|i|i id host session|i|i|id|now1 now2 id]; try done; simpl.
  - intros [= <-]. unfold reconcile_lease. destruct (find_task id _) as [t|] eqn:E; [|apply spends_refl].
    destruct (analyze_health _ _ _ _ _ _); (by eapply set_spends) || by eapply recovery_spends.
  - intros [= <-]. apply foldl_spends. clear m. intros m id. unfold outage_one. destruct (find_task id _) as [t|] eqn:E; [|apply spends_refl].
    case_match; [|apply spends_refl]. eapply spends_trans; [|apply suspend_spends]. by eapply recovery_spends.
  - intros [= <-]. unfold steal_lease_for_failed_host. destruct (find_task id _) as [t|] eqn:E; [|apply spends_refl].
    case_decide; [apply spends_refl|].
    pose proof (recovery_spends i id t (with_owner (with_state t OWNER_LOST) host session) _ E ltac:(done)) as Hs.
    destruct (try_recovery _ _ _ _) as [[] m1]; [|exact Hs]. destruct Hs as [H1 H2 H3].
    split; cbn; [exact H1| |]; intros Hn x; unfold receipts_of; cbn; rewrite reown_receipts; [exact (H2 Hn x)|exact (H3 Hn x)].
  - unfold detect_deadlocks. destruct (detect_all i _ _) as [s|] eqn:E; [|done]. intros [= <-].
    by apply (detect_spends i _ (mkScan m [] [])) in E.
  - intros [= <-]. apply foldl_spends. clear m. intros m id. unfold restart_one. destruct (find_task id _) as [t|] eqn:E; [|apply spends_refl].
    case_match; [apply del_spends|]. pose proof (recovery_spends i id t (with_state t OWNER_LOST) _ E ltac:(done)) as Hs.
    destruct (try_recovery _ _ _ _) as [[] m1]; [exact Hs|]. eapply spends_trans; [exact Hs|apply del_spends].
  - intros [= <-]. apply del_spends.
Qed.

Lemma perform_total o m : ∃ m', perform o m = Some m'.
Proof.
  destruct o; simpl; eauto. unfold detect_deadlocks.
  destruct (detect_all_scanned incident_id m (map fst (ma_active_tasks m)) (mkScan m [] [])) as (s & -> & _); [|simpl; eauto].
  split; cbn; [by split|by intros ? ? ?%elem_of_nil|by left|by intros ? ?%elem_of_nil|lia].
Qed.

Lemma find_app id ts ts' : find_task id (ts ++ ts') = match find_task id ts with Some t => Some t | None => find_task id ts' end.
Proof. induction ts as [|[k u] ts IH]; simpl; [done|]. by case_decide. Qed.

Lemma find_add id id' t ts : find_task id' (add_task id t ts) = if decide (id' = id) then Some t else find_task id' ts.
Proof.
  unfold add_task. case_bool_decide as Hin.
  - rewrite find_set. case_decide; [|done]. destruct (find_some id ts Hin) as [u ->]. done.
  - rewrite find_app. simpl. destruct (decide (id' = id)) as [->|Hne].
    + destruct (find_task id ts) as [u|] eqn:E; [by apply find_in in E|]. by rewrite decide_True.
    + rewrite decide_False by congruence. by case_match.
Qed.

Definition is_resume (id : string) (o : Op) : bool := match o with Resume _ _ x => bool_decide (x = id) | _ => false end.
Definition resumes (id : string) (ops : list Op) : Z := Z.of_nat (length (filter (λ o, is_resume id o = true) ops)).

(** C40: Recoveries are bounded.  Through any reconciliations, outages, stolen
    leases, deadlock scans, restarts, completions and resumptions, in any order,
    every operation ends, and a task that is not entered anew gets no more
    receipts than it has recoveries left of its three, and no two without a
    resumption between them; an id that is not active gets none. *)
Theorem recoveries_are_bounded ops m id :
  named m →
  Forall (λ o, match o with Add x t => tr_task_id t = x ∧ x ≠ id | _ => True end) ops →
  ∃ m', run ops m = Some m' ∧ named m' ∧
    let gained := receipts_of id (ma_healer m') - receipts_of id (ma_healer m) in
    gained ≤ recoveries_left id (ma_active_tasks m) ∧
    gained ≤ may_recover id (ma_active_tasks m) + resumes id ops.
Proof.
  revert m. induction ops as [|o ops IH]; intros m Hn Hops; simpl.
  - exists m. split; [done|]. split; [done|]. unfold recoveries_left, may_recover, resumes. simpl. repeat case_match; lia.
  - apply Forall_cons in Hops as [Ho Hops]. destruct (perform_total o m) as [m1 E]. rewrite E. simpl.
    assert (named m1 ∧ receipts_of id (ma_healer m1) + recoveries_left id (ma_active_tasks m1)
        ≤ receipts_of id (ma_healer m) + recoveries_left id (ma_active_tasks m) ∧
      receipts_of id (ma_healer m1) + may_recover id (ma_active_tasks m1)
        ≤ receipts_of id (ma_healer m) + may_recover id (ma_active_tasks m) + resumes id [o]) as (Hn1 & H1 & H2).
    { assert (0 ≤ resumes id [o]) as Hpos by (unfold resumes; lia).
      assert (spending o ∨ ¬ spending o) as [Hsp|Hsp] by (destruct o; simpl; auto).
      { destruct (perform_spends _ _ _ Hsp E) as [G1 G2 G3]. specialize (G2 Hn id). specialize (G3 Hn id). split; [auto|lia]. }
      destruct o as [x t| | | | | | |now1 now2 x]; try (by destruct Hsp); clear Hsp Hpos.
      - simpl in E. injection E as <-. destruct Ho as [Ht Hx]. split; [|unfold recoveries_left, may_recover; cbn [ma_healer ma_active_tasks]; rewrite !find_add, !decide_False by congruence; unfold resumes; lia].
        intros y u. cbn. rewrite find_add. case_decide; [|apply Hn]. intros [= <-]. congruence.
      - simpl in E. injection E as <-. unfold mark_task_resumed. destruct (find_task x (ma_active_tasks m)) as [t|] eqn:Et; [|split; [done|unfold resumes; lia]].
        cbn. split; [intros y u; cbn; rewrite find_set; case_decide; [subst; rewrite Et; intros [= <-]; exact (Hn _ _ Et)|apply Hn]|].
        unfold recoveries_left, may_recover, resumes. rewrite find_set, filter_cons. cbn [is_resume].
        destruct (decide (id = x)) as [->|Hx]; [|lia]. rewrite Et, bool_decide_true by done. cbn. repeat (case_decide; try done); simpl; lia. }
    destruct (IH m1 Hn1 Hops) as (m' & E' & Hn' & H3 & H4). exists m'. split; [done|]. split; [done|].
    assert (resumes id (o :: ops) = resumes id [o] + resumes id ops) as ->.
    { unfold resumes. rewrite (filter_cons _ o ops), (filter_cons _ o []). case_decide; simpl; lia. }
    cbn. split; lia.
Qed.
