(* ===== verification/QuorumVerifier.v ===== *)
(** * The quorum verifier ([quorum_verifier.py])

    Workers vote with the digest of their output; a policy decides whether the
    largest group of equal digests is a consensus; deviating workers lose their
    reputation.  Ratios are exact before they are rounded; the time of a
    proposal is left out. *)

From Stdlib Require Import Qround.
From S2P Require Import Prelude PyText Json Sha256.

Inductive QuorumPolicy := STRICT_MAJORITY | SUPERMAJORITY_TWO_THIRDS | UNANIMOUS.

(** [json.dumps(payload, sort_keys=True, separators=(",", ":"), ensure_ascii=True)], hashed. *)
Definition canonical_digest (payload : json) : string := sha256_hex (String.list_ascii_of_string (dumps (canon payload))).

Record WorkerProposal := mkProposal {
  wp_task_id : string;
  wp_worker_id : string;
  wp_output_payload : json;
  wp_result_digest : string;
}.

(** [WorkerProposal(...)], whose [__post_init__] refuses a digest that is not the payload's. *)
Definition make_proposal (task_id worker_id : string) (payload : json) (result_digest : option string) : result WorkerProposal :=
  let expected_digest := canonical_digest payload in
  match result_digest with
  | None => Ok (mkProposal task_id worker_id payload expected_digest)
  | Some d =>
      if decide (d = expected_digest) then Ok (mkProposal task_id worker_id payload d)
      else raise QuorumError "Forged result_digest"
  end.

Record Reputation := mkRep {
  re_total_votes : Z;
  re_conforming_count : Z;
  re_byzantine_count : Z;
  re_trust_score : Q;
  re_is_untrusted : bool;
}.

Record QuorumResult := mkResult {
  qr_task_id : string;
  qr_achieved : bool;
  qr_policy : QuorumPolicy;
  qr_winning_digest : option string;
  qr_consensus_output : option json;
  qr_agreement_ratio : Q;
  qr_participating_workers : list string;
  qr_conforming_workers : list string;
  qr_byzantine_workers : list string;
}.

(** The votes of a task in the order they came; reputations by worker. *)
Record Verifier := mkVerifier {
  qv_min_participants : Z;
  qv_policy : QuorumPolicy;
  qv_slash_threshold : Z;
  qv_proposals : gmap string (list WorkerProposal);
  qv_reputation : gmap string Reputation;
}.

Definition make_verifier (min_participants : Z) (policy : QuorumPolicy) (slash_threshold : Z) : Verifier :=
  mkVerifier (Z.max 1 min_participants) policy (Z.max 1 slash_threshold) ∅ ∅.

Definition with_reputation (v : Verifier) (r : gmap string Reputation) : Verifier :=
  mkVerifier (qv_min_participants v) (qv_policy v) (qv_slash_threshold v) (qv_proposals v) r.

Definition new_reputation : Reputation := mkRep 0 0 0 1 false.

Definition _ensure_reputation (worker_id : string) (reps : gmap string Reputation) : Reputation :=
  default new_reputation (reps !! worker_id).

Definition votes (v : Verifier) (task_id : string) : list WorkerProposal := default [] (qv_proposals v !! task_id).

Definition submit_proposal (p : WorkerProposal) (v : Verifier) : result Verifier :=
  if match qv_reputation v !! wp_worker_id p with Some r => re_is_untrusted r | None => false end
  then raise QuorumError "Worker is untrusted/slashed and cannot submit proposals"
  else if existsb (λ q, bool_decide (wp_worker_id q = wp_worker_id p)) (votes v (wp_task_id p))
  then raise DuplicateVoteError "Worker has already voted"
  else Ok (mkVerifier (qv_min_participants v) (qv_policy v) (qv_slash_threshold v)
             (<[wp_task_id p := votes v (wp_task_id p) ++ [p]]> (qv_proposals v)) (qv_reputation v)).

(** ** Groups *)

(** [groups.setdefault(p.result_digest, []).append(p)] *)
Fixpoint add_vote (p : WorkerProposal) (groups : list (string * list WorkerProposal)) : list (string * list WorkerProposal) :=
  match groups with
  | [] => [(wp_result_digest p, [p])]
  | (d, ps) :: groups =>
      if decide (d = wp_result_digest p) then (d, ps ++ [p]) :: groups else (d, ps) :: add_vote p groups
  end.
Definition group_votes (ps : list WorkerProposal) : list (string * list WorkerProposal) := foldl (λ gs p, add_vote p gs) [] ps.

(** The first group of the largest size. *)
Fixpoint top_group (best : string * list WorkerProposal) (groups : list (string * list WorkerProposal)) :=
  match groups with
  | [] => best
  | g :: groups => top_group (if (length best.2 <? length g.2)%nat then g else best) groups
  end.

Definition reaches (policy : QuorumPolicy) (conforming total : Z) : bool :=
  match policy with
  | STRICT_MAJORITY => negb (Qle_bool (inject_Z conforming) (inject_Z total / 2))
  | SUPERMAJORITY_TWO_THIRDS => Qle_bool (2 * inject_Z total / 3 - (1 # 1000000000)) (inject_Z conforming)
  | UNANIMOUS => conforming =? total
  end.

(** [round(q, 4)]: half to even. *)
Definition round4 (q : Q) : Q :=
  let n := Qfloor (q * 10000) in
  let rest := (q * 10000 - inject_Z n)%Q in
  let up := (negb (Qle_bool rest (1 # 2)) || Qeq_bool rest (1 # 2) && Z.odd n)%bool in
  inject_Z (if up then n + 1 else n) / 10000.

Definition ratio (a b : Z) : Q := round4 (inject_Z a / inject_Z b).

(** [sorted] of worker ids. *)
Definition sorted_ids (l : list string) : list string := merge_sort String.le l.

(** ** Evaluation *)

Definition conform (reps : gmap string Reputation) (w : string) : gmap string Reputation :=
  let r := _ensure_reputation w reps in
  let total := re_total_votes r + 1 in
  let count := re_conforming_count r + 1 in
  <[w := mkRep total count (re_byzantine_count r) (ratio count total) (re_is_untrusted r)]> reps.

Definition deviate (slash_threshold : Z) (reps : gmap string Reputation) (w : string) : gmap string Reputation :=
  let r := _ensure_reputation w reps in
  let total := re_total_votes r + 1 in
  let count := re_byzantine_count r + 1 in
  <[w := mkRep total (re_conforming_count r) count (ratio (re_conforming_count r) total)
           ((slash_threshold <=? count) || re_is_untrusted r)]> reps.

Definition evaluate_quorum (task_id : string) (v : Verifier) : result (QuorumResult * Verifier) :=
  let proposals := votes v task_id in
  let total_participants := Z.of_nat (length proposals) in
  if total_participants <? qv_min_participants v then raise InsufficientParticipantsError "minimum required"
  else
    let all_workers := sorted_ids (map wp_worker_id proposals) in
    match group_votes proposals with
    | [] => raise IndexError "list index out of range"
    | g :: groups =>
        let '(top_digest, top_proposals) := top_group g groups in
        let conforming_count := Z.of_nat (length top_proposals) in
        let agreement_ratio := ratio conforming_count total_participants in
        if reaches (qv_policy v) conforming_count total_participants then
          let conforming_workers := sorted_ids (map wp_worker_id top_proposals) in
          let byzantine_workers :=
            sorted_ids (map wp_worker_id (filter (λ p, wp_result_digest p ≠ top_digest) proposals)) in
          let reps := foldl (deviate (qv_slash_threshold v)) (foldl conform (qv_reputation v) conforming_workers) byzantine_workers in
          mret (mkResult task_id true (qv_policy v) (Some top_digest) (wp_output_payload <$> head top_proposals)
                  agreement_ratio all_workers conforming_workers byzantine_workers, with_reputation v reps)
        else
          mret (mkResult task_id false (qv_policy v) None None agreement_ratio all_workers [] [], v)
    end.

(** A worker that is asked for is known from then on. *)
Definition get_worker_reputation (worker_id : string) (v : Verifier) : Reputation * Verifier :=
  let r := _ensure_reputation worker_id (qv_reputation v) in (r, with_reputation v (<[worker_id := r]> (qv_reputation v))).
