(* ===== verification/QuorumSpec.v ===== *)
(** * What the quorum verifier promises

    The consensus is the digest that enough of the voters sent, if there is one;
    reputations count the consensus results a worker took part in. *)

From S2P Require Import Prelude PyText Json Sha256 QuorumVerifier.

(** The votes for a digest, and whether so many of [n] are enough. *)
Definition voters (d : string) (ps : list WorkerProposal) : list WorkerProposal := filter (λ p, wp_result_digest p = d) ps.
Definition quorum (policy : QuorumPolicy) (c n : Z) : Prop :=
  match policy with
  | STRICT_MAJORITY => n < 2 * c
  | SUPERMAJORITY_TWO_THIRDS => 2 * n ≤ 3 * c
  | UNANIMOUS => c = n
  end.

Lemma reaches_quorum policy c n : reaches policy c n = true ↔ quorum policy c n.
Proof.
  destruct policy; simpl.
  - rewrite negb_true_iff, <- not_true_iff_false, Qle_bool_iff. unfold Qle. simpl. lia.
  - rewrite Qle_bool_iff. unfold Qle. simpl. lia.
  - apply Z.eqb_eq.
Qed.

(** ** Groups of votes *)

Definition grouped (groups : list (string * list WorkerProposal)) (ps : list WorkerProposal) : Prop :=
  NoDup (map fst groups) ∧ ∀ d g, (d, g) ∈ groups ↔ g = voters d ps ∧ g ≠ [].

Lemma in_keys {A} (d : string) (g : A) groups : (d, g) ∈ groups → d ∈ map fst groups.
Proof. intros H. apply list_elem_of_fmap. by exists (d, g). Qed.

Lemma add_vote_keys p groups d : d ∈ map fst (add_vote p groups) ↔ d = wp_result_digest p ∨ d ∈ map fst groups.
Proof.
  induction groups as [|[d' g'] groups IH]; simpl; [rewrite list_elem_of_singleton; set_solver|].
  case_decide; simpl; rewrite !elem_of_cons, ?IH; naive_solver.
Qed.

Lemma add_vote_nodup p groups : NoDup (map fst groups) → NoDup (map fst (add_vote p groups)).
Proof.
  induction groups as [|[d' g'] groups IH]; simpl; [intros _; apply NoDup_singleton|].
  intros [Hd Hnd]%NoDup_cons. case_decide; simpl; constructor; auto. rewrite add_vote_keys. naive_solver.
Qed.

Lemma add_vote_elem p groups d g :
  NoDup (map fst groups) →
  (d, g) ∈ add_vote p groups ↔
  d ≠ wp_result_digest p ∧ (d, g) ∈ groups ∨
  d = wp_result_digest p ∧ ((∃ g0, (d, g0) ∈ groups ∧ g = g0 ++ [p]) ∨ d ∉ map fst groups ∧ g = [p]).
Proof.
  induction groups as [|[d' g'] groups IH]; simpl; intros Hnd.
  - rewrite list_elem_of_singleton. set_solver.
  - apply NoDup_cons in Hnd as [Hd Hnd]. pose proof (λ g, in_keys d' g groups) as Hk.
    case_decide as Hp; [subst d'|rewrite elem_of_cons, IH by done]; simpl; setoid_rewrite elem_of_cons.
    + split.
      * intros [E|Hg]; [simplify_eq; right; split; [done|]; left; exists g'; split; [by left|done]|].
        left. split; [|by right]. intros ->. eauto.
      * intros [[Hne [E|Hg]]|[-> [(g0 & [E|Hg] & ->)|[Hn _]]]]; [congruence|by right|left; congruence| |].
        -- destruct Hd. by apply (Hk g0).
        -- destruct Hn. by left.
    + split.
      * intros [E|[[Hne Hg]|[-> [(g0 & Hg & ->)|[Hn ->]]]]]; [left; split; [congruence|left; congruence]|left; split; [done|by right]| |].
        -- right. split; [done|]. left. exists g0. split; [by right|done].
        -- right. split; [done|]. right. split; [|done]. intros [E|]; [by rewrite E in Hp|done].
      * intros [[Hne [E|Hg]]|[-> [(g0 & [E|Hg] & ->)|[Hn ->]]]]; [by left|right; left; done|congruence| |].
        -- right. right. split; [done|]. left. eauto.
        -- right. right. split; [done|]. right. split; [|done]. intros Hi. apply Hn. by right.
Qed.

Lemma voters_snoc d ps p : voters d (ps ++ [p]) = if decide (wp_result_digest p = d) then voters d ps ++ [p] else voters d ps.
Proof. unfold voters. rewrite filter_app, filter_cons. case_decide; simpl; by rewrite ?app_nil_r. Qed.

Lemma group_votes_spec ps : grouped (group_votes ps) ps.
Proof.
  unfold group_votes. induction ps as [|p ps IH] using rev_ind.
  - split; [constructor|]. intros d g. split; [by intros ?%elem_of_nil|by intros [-> ?]].
  - rewrite foldl_app. simpl. destruct IH as [Hnd Hg]. split; [by apply add_vote_nodup|]. intros d g.
    rewrite add_vote_elem, Hg, voters_snoc by done. case_decide as Hp; [subst d|naive_solver].
    split.
    + intros [[]|[_ [(g0 & [-> Hne]%Hg & ->)|[Hn ->]]]]; [done|split; [done|by destruct (voters _ _)]|].
      split; [|done]. destruct (voters (wp_result_digest p) ps) as [|x l] eqn:E; [done|]. exfalso. apply Hn.
      eapply in_keys, Hg. split; [symmetry; exact E|done].
    + intros [-> _]. right. split; [done|]. destruct (voters (wp_result_digest p) ps) as [|x l] eqn:E.
      * right. split; [|done]. intros ([d g'] & Ed & [-> Hne]%Hg)%list_elem_of_fmap. simpl in Ed. congruence.
      * left. eexists. split; [|done]. apply Hg. by rewrite E.
Qed.

Lemma top_group_spec best groups :
  top_group best groups ∈ best :: groups ∧ ∀ g, g ∈ best :: groups → (length g.2 <= length (top_group best groups).2)%nat.
Proof.
  revert best. induction groups as [|h groups IH]; intros best; simpl; [split; [by left|by intros g ->%list_elem_of_singleton]|].
  destruct (IH (if (length best.2 <? length h.2)%nat then h else best)) as [H1 H2].
  pose proof (H2 _ ltac:(by left)) as H3. destruct (Nat.ltb_spec (length best.2) (length h.2)); set_unfold; (split; [tauto|]);
    intros g [->|[->|Hg]]; (lia || apply H2; auto).
Qed.

(** At most one digest has a quorum. *)
Lemma voters_apart d e ps : d ≠ e → (length (voters d ps) + length (voters e ps) <= length ps)%nat.
Proof.
  intros Hde. induction ps as [|p ps IH]; simpl; [lia|]. unfold voters in *. rewrite !filter_cons.
  repeat case_decide; simpl; (lia || congruence).
Qed.

Lemma voters_le d ps : (length (voters d ps) <= length ps)%nat.
Proof. unfold voters. apply length_filter. Qed.

Lemma quorum_unique policy d e ps :
  ps ≠ [] → quorum policy (Z.of_nat (length (voters d ps))) (Z.of_nat (length ps)) →
  (length (voters d ps) <= length (voters e ps))%nat → d = e.
Proof.
  intros Hps Hq Hle. destruct (decide (d = e)) as [|Hde]; [done|]. pose proof (voters_apart d e ps Hde).
  assert (length ps ≠ 0%nat) by (by destruct ps). destruct policy; simpl in Hq; lia.
Qed.

Lemma quorum_mono policy c c' n : c ≤ c' → c' ≤ n → quorum policy c n → quorum policy c' n.
Proof. destruct policy; simpl; lia. Qed.

(** ** Reputations *)

Lemma ensure_insert w w' r reps :
  _ensure_reputation w (<[w' := r]> reps) = if decide (w = w') then r else _ensure_reputation w reps.
Proof.
  unfold _ensure_reputation. case_decide as E; [by rewrite E, lookup_insert_eq|by rewrite lookup_insert_ne by congruence].
Qed.

Definition conformed (r : Reputation) : Reputation :=
  mkRep (re_total_votes r + 1) (re_conforming_count r + 1) (re_byzantine_count r)
    (ratio (re_conforming_count r + 1) (re_total_votes r + 1)) (re_is_untrusted r).
Definition deviated (slash_threshold : Z) (r : Reputation) : Reputation :=
  mkRep (re_total_votes r + 1) (re_conforming_count r) (re_byzantine_count r + 1)
    (ratio (re_conforming_count r) (re_total_votes r + 1)) ((slash_threshold <=? re_byzantine_count r + 1) || re_is_untrusted r).

(** Every worker of a list without repetitions is counted once. *)
Lemma fold_reputations (f : gmap string Reputation → string → gmap string Reputation) (g : Reputation → Reputation) l reps w :
  (∀ reps w w', _ensure_reputation w (f reps w') = if decide (w = w') then g (_ensure_reputation w reps) else _ensure_reputation w reps) →
  NoDup l →
  _ensure_reputation w (foldl f reps l) = if bool_decide (w ∈ l) then g (_ensure_reputation w reps) else _ensure_reputation w reps.
Proof.
  intros Hf. revert reps. induction l as [|x l IH]; intros reps; [done|]. intros [Hx Hnd]%NoDup_cons. simpl. rewrite IH, Hf by done.
  destruct (decide (w = x)) as [->|Hne].
  - rewrite bool_decide_false, bool_decide_true by (done || by left). done.
  - rewrite (bool_decide_ext (w ∈ x :: l) (w ∈ l)); [done|]. rewrite elem_of_cons. naive_solver.
Qed.

Lemma conform_spec reps w w' :
  _ensure_reputation w (conform reps w') = if decide (w = w') then conformed (_ensure_reputation w reps) else _ensure_reputation w reps.
Proof. unfold conform. rewrite ensure_insert. by case_decide; subst. Qed.

Lemma deviate_spec k reps w w' :
  _ensure_reputation w (deviate k reps w') = if decide (w = w') then deviated k (_ensure_reputation w reps) else _ensure_reputation w reps.
Proof. unfold deviate. rewrite ensure_insert. by case_decide; subst. Qed.

Lemma sorted_ids_perm l : sorted_ids l ≡ₚ l.
Proof. unfold sorted_ids. apply merge_sort_Permutation. Qed.

(** ** Verifiers that are in use *)

Inductive Op :=
  | Submit (task_id worker_id : string) (payload : json) (result_digest : option string)
  | Evaluate (task_id : string)
  | Ask (worker_id : string).

(** The verifier, and the results it has told of. *)
Definition perform (o : Op) (s : Verifier * list QuorumResult) : Verifier * list QuorumResult :=
  let '(v, told) := s in
  match o with
  | Submit t w payload d =>
      match (p ← make_proposal t w payload d; submit_proposal p v) with Ok v => (v, told) | Err _ => s end
  | Evaluate t => match evaluate_quorum t v with Ok (r, v) => (v, told ++ [r]) | Err _ => s end
  | Ask w => ((get_worker_reputation w v).2, told)
  end.

Definition run (ops : list Op) (s : Verifier * list QuorumResult) : Verifier * list QuorumResult := foldl (λ s o, perform o s) s ops.

(** Nobody votes twice, digests are those of the payloads, the bounds are positive. *)
Record orderly (v : Verifier) : Prop := {
  or_once : ∀ t, NoDup (map wp_worker_id (votes v t));
  or_honest : ∀ t, Forall (λ p, wp_task_id p = t ∧ wp_result_digest p = canonical_digest (wp_output_payload p)) (votes v t);
  or_bounds : 1 ≤ qv_min_participants v ∧ 1 ≤ qv_slash_threshold v;
}.

Lemma make_proposal_spec t w payload d p :
  make_proposal t w payload d = Ok p → p = mkProposal t w payload (canonical_digest payload).
Proof. unfold make_proposal. destruct d as [d|]; [case_decide as E; [|done]; rewrite E|]; by intros [= <-]. Qed.

Lemma submit_spec p v v' :
  submit_proposal p v = Ok v' →
  v' = mkVerifier (qv_min_participants v) (qv_policy v) (qv_slash_threshold v)
         (<[wp_task_id p := votes v (wp_task_id p) ++ [p]]> (qv_proposals v)) (qv_reputation v) ∧
  wp_worker_id p ∉ map wp_worker_id (votes v (wp_task_id p)).
Proof.
  unfold submit_proposal. case_match; [done|]. destruct (existsb _ _) eqn:E; [done|]. intros [= <-]. split; [done|].
  intros (q & Hq & Hin)%list_elem_of_fmap. apply not_true_iff_false in E. apply E, existsb_exists.
  exists q. rewrite <- list_elem_of_In. split; [done|]. by apply bool_decide_eq_true.
Qed.

(** The two answers of [evaluate_quorum], for the digest [d] most voted for. *)
Definition reached (t : string) (v : Verifier) (d : string) : QuorumResult :=
  let ps := votes v t in
  mkResult t true (qv_policy v) (Some d) (wp_output_payload <$> head (voters d ps))
    (ratio (Z.of_nat (length (voters d ps))) (Z.of_nat (length ps))) (sorted_ids (map wp_worker_id ps))
    (sorted_ids (map wp_worker_id (voters d ps))) (sorted_ids (map wp_worker_id (filter (λ p, wp_result_digest p ≠ d) ps))).
Definition missed (t : string) (v : Verifier) (d : string) : QuorumResult :=
  let ps := votes v t in
  mkResult t false (qv_policy v) None None (ratio (Z.of_nat (length (voters d ps))) (Z.of_nat (length ps)))
    (sorted_ids (map wp_worker_id ps)) [] [].
Definition counted (v : Verifier) (r : QuorumResult) : Verifier :=
  with_reputation v
    (foldl (deviate (qv_slash_threshold v)) (foldl conform (qv_reputation v) (qr_conforming_workers r)) (qr_byzantine_workers r)).

Lemma evaluate_spec t v :
  1 ≤ qv_min_participants v →
  let ps := votes v t in let n := Z.of_nat (length ps) in
  (n < qv_min_participants v ∧ ∃ msg, evaluate_quorum t v = raise InsufficientParticipantsError msg) ∨
  qv_min_participants v ≤ n ∧ ∃ d, (∀ e, (length (voters e ps) <= length (voters d ps))%nat) ∧ voters d ps ≠ [] ∧
    ((¬ quorum (qv_policy v) (Z.of_nat (length (voters d ps))) n ∧ evaluate_quorum t v = Ok (missed t v d, v)) ∨
     quorum (qv_policy v) (Z.of_nat (length (voters d ps))) n ∧
       evaluate_quorum t v = Ok (reached t v d, counted v (reached t v d))).
Proof.
  intros Hmin ps n. unfold evaluate_quorum. fold ps. fold n. destruct (n <? _) eqn:Hn; bool_hyps; [left; eauto|right]. split; [done|].
  destruct (group_votes_spec ps) as [Hnd Hg]. destruct (group_votes ps) as [|g groups] eqn:Egs.
  { exfalso. destruct ps as [|p ps'] eqn:Eps; [simpl in *; lia|].
    destruct (Hg (wp_result_digest p) (voters (wp_result_digest p) (p :: ps'))) as [_ H].
    apply (elem_of_nil (wp_result_digest p, voters (wp_result_digest p) (p :: ps'))), H. split; [done|].
    unfold voters. by rewrite filter_cons_True. }
  destruct (top_group_spec g groups) as [Hin Hmax]. destruct (top_group g groups) as [d top] eqn:Etop.
  apply Hg in Hin as [-> Hne]. exists d. split; [|split; [done|]].
  - intros e. destruct (voters e ps) as [|x l] eqn:E; [simpl; lia|]. apply (Hmax (e, x :: l)), Hg. by rewrite E.
  - destruct (reaches _ _ _) eqn:Hr; [right|left]; (split; [rewrite <- reaches_quorum, Hr; done|reflexivity]).
Qed.

(** ** What any use keeps *)

Definition takes_part (w : string) (l : list string) : bool := bool_decide (w ∈ l).
Definition times (w : string) (f : QuorumResult → list string) (told : list QuorumResult) : Z :=
  Z.of_nat (length (filter (λ r, w ∈ f r) told)).

(** The reputation of a worker with so many conforming and deviating votes. *)
Definition reputation_of (slash_threshold conforming byzantine : Z) : Reputation :=
  mkRep (conforming + byzantine) conforming byzantine
    (if conforming + byzantine =? 0 then 1 else ratio conforming (conforming + byzantine)) (slash_threshold <=? byzantine).

Record in_use (m k : Z) (policy : QuorumPolicy) (s : Verifier * list QuorumResult) : Prop := {
  iu_orderly : orderly s.1;
  iu_fixed : qv_policy s.1 = policy ∧ qv_min_participants s.1 = m ∧ qv_slash_threshold s.1 = k;
  iu_counts : ∀ w, _ensure_reputation w (qv_reputation s.1) =
    reputation_of k (times w qr_conforming_workers s.2) (times w qr_byzantine_workers s.2);
}.

Lemma times_snoc w f told r : times w f (told ++ [r]) = times w f told + (if bool_decide (w ∈ f r) then 1 else 0).
Proof. unfold times. rewrite filter_app, filter_cons, length_app. case_bool_decide; case_decide; simpl; (lia || done). Qed.

Lemma times_nonneg w f told : 0 ≤ times w f told.
Proof. unfold times. lia. Qed.

Lemma conformed_of k c b : 0 ≤ c → 0 ≤ b → conformed (reputation_of k c b) = reputation_of k (c + 1) b.
Proof.
  intros Hc Hb. unfold conformed, reputation_of. cbn. rewrite (proj2 (Z.eqb_neq (c + 1 + b) 0)) by lia.
  by replace (c + 1 + b) with (c + b + 1) by lia.
Qed.

Lemma deviated_of k c b : 1 ≤ k → 0 ≤ c → 0 ≤ b → deviated k (reputation_of k c b) = reputation_of k c (b + 1).
Proof.
  intros Hk Hc Hb. unfold deviated, reputation_of. cbn. rewrite (proj2 (Z.eqb_neq (c + (b + 1)) 0)) by lia.
  replace (c + (b + 1)) with (c + b + 1) by lia. f_equal. apply eq_true_iff_eq. rewrite orb_true_iff, !Z.leb_le. lia.
Qed.

Lemma votes_reputation v r t : votes (with_reputation v r) t = votes v t.
Proof. done. Qed.

Lemma orderly_reputation v r : orderly v → orderly (with_reputation v r).
Proof. intros [H1 H2 H3]. by split. Qed.

Lemma voter_ids_nodup (P : WorkerProposal → Prop) `{∀ p, base.Decision (P p)} ps :
  NoDup (map wp_worker_id ps) → NoDup (sorted_ids (map wp_worker_id (filter P ps))).
Proof.
  intros Hnd. rewrite sorted_ids_perm. induction ps as [|p ps IH]; [constructor|]. simpl in Hnd. apply NoDup_cons in Hnd as [Hp Hnd].
  rewrite filter_cons. case_decide; [|by apply IH]. simpl. constructor; [|by apply IH].
  intros (q & E & Hq)%list_elem_of_fmap. apply Hp, list_elem_of_fmap. exists q. split; [done|]. by apply list_elem_of_filter in Hq as [_ ?].
Qed.

(** No worker both conforms and deviates. *)
Lemma voters_disjoint t v d w :
  orderly v → w ∈ qr_conforming_workers (reached t v d) → w ∉ qr_byzantine_workers (reached t v d).
Proof.
  intros [Ho _ _]. cbn. rewrite !sorted_ids_perm. intros (p & E & Hp)%list_elem_of_fmap (q & E' & Hq)%list_elem_of_fmap.
  apply list_elem_of_filter in Hp as [Hd Hp], Hq as [Hd' Hq].
  assert (p = q) as ->; [|done]. specialize (Ho t). clear -Ho Hp Hq E E'. induction (votes v t) as [|x l IH]; [by apply elem_of_nil in Hp|].
  simpl in Ho. apply NoDup_cons in Ho as [Hx Ho]. apply elem_of_cons in Hp as [->|Hp], Hq as [->|Hq]; auto.
  - destruct Hx. rewrite E in E'. rewrite E'. by apply list_elem_of_fmap_2.
  - destruct Hx. rewrite E' in E. rewrite E. by apply list_elem_of_fmap_2.
Qed.

Lemma perform_in_use m k policy o s : in_use m k policy s → in_use m k policy (perform o s).
Proof.
  destruct s as [v told]. intros Hu. pose proof Hu as [Hord (Hpol & Hmin & Hk) Hc]. cbn [fst snd] in *. destruct o as [t w payload d|t|w]; simpl.
  - destruct (make_proposal t w payload d) as [p|] eqn:Ep; [|done]. simpl. destruct (submit_proposal p v) as [v'|] eqn:E; [|done].
    apply make_proposal_spec in Ep as ->. apply submit_spec in E as [-> Hnew]. cbn in Hnew. split; cbn; [|done|done].
    destruct Hord as [H1 H2 H3]. split; [| |done]; intros t'; unfold votes; cbn; destruct (decide (t = t')) as [<-|Ht].
    + rewrite lookup_insert_eq. simpl. rewrite map_app. apply NoDup_app. split; [apply H1|]. split; [|apply NoDup_singleton].
      intros x Hx ->%list_elem_of_singleton. done.
    + rewrite lookup_insert_ne by done. apply H1.
    + rewrite lookup_insert_eq. simpl. apply Forall_app. split; [apply H2|]. by repeat constructor.
    + rewrite lookup_insert_ne by done. apply H2.
  - pose proof (or_bounds v Hord) as [Hm1 Hk1].
    destruct (evaluate_spec t v Hm1) as [(_ & msg & ->)|(_ & d & _ & _ & [[_ ->]|[_ ->]])]; [done| |].
    + split; cbn; [done|done|]. intros w. rewrite !times_snoc, !bool_decide_false by (cbn; apply not_elem_of_nil).
      rewrite !Z.add_0_r. apply Hc.
    + split; cbn [fst snd]; [by apply orderly_reputation|done|]. intros w. rewrite !times_snoc. unfold counted.
      cbn [qv_reputation with_reputation]. rewrite (fold_reputations _ _ _ _ _ (deviate_spec _)), (fold_reputations _ _ _ _ _ conform_spec).
      2, 3: apply voter_ids_nodup, (or_once v Hord).
      pose proof (voters_disjoint t v d w Hord) as Hdis. rewrite Hc, Hk.
      pose proof (times_nonneg w qr_conforming_workers told). pose proof (times_nonneg w qr_byzantine_workers told).
      repeat case_bool_decide; [by destruct Hdis| | |by rewrite !Z.add_0_r].
      * rewrite deviated_of, Z.add_0_r by lia. done.
      * rewrite conformed_of, Z.add_0_r by lia. done.
  - split; cbn; [by apply orderly_reputation|done|]. intros w'. rewrite ensure_insert. case_decide as E; [rewrite <- E|]; apply Hc.
Qed.

Lemma run_in_use m k policy ops :
  in_use (Z.max 1 m) (Z.max 1 k) policy (run ops (make_verifier m policy k, [])).
Proof.
  unfold run. assert (in_use (Z.max 1 m) (Z.max 1 k) policy (make_verifier m policy k, [])) as H.
  { split; cbn; [|done|].
    - split; cbn; [intros t; unfold votes; cbn; rewrite lookup_empty; constructor..|lia].
    - intros w. change (times w qr_conforming_workers _) with 0. change (times w qr_byzantine_workers _) with 0. unfold reputation_of.
      assert ((Z.max 1 k <=? 0) = false) as -> by (apply Z.leb_gt; lia). unfold _ensure_reputation. cbn. by rewrite lookup_empty. }
  revert H. generalize (make_verifier m policy k, @nil QuorumResult). induction ops as [|o ops IH]; intros s H; simpl; [done|].
  by apply IH, perform_in_use.
Qed.

(** C23: The consensus is what enough voters sent.  However a verifier was used
    before, every vote for a task is another worker's, under the digest of its
    payload.  [evaluate_quorum] raises only when there are too few votes; it
    achieves a consensus exactly when some digest has a quorum under the policy,
    and then it is this digest, with a payload of this digest, the workers that
    sent it conform and all others deviate. *)
Theorem consensus_is_exact m policy k ops t :
  let v := (run ops (make_verifier m policy k, [])).1 in
  let ps := votes v t in
  let has_quorum d := quorum policy (Z.of_nat (length (voters d ps))) (Z.of_nat (length ps)) in
  NoDup (map wp_worker_id ps) ∧
  Forall (λ p, wp_result_digest p = canonical_digest (wp_output_payload p)) ps ∧
  match evaluate_quorum t v with
  | Err e => exn_cls e = InsufficientParticipantsError ∧ Z.of_nat (length ps) < Z.max 1 m
  | Ok (r, _) =>
      Z.max 1 m ≤ Z.of_nat (length ps) ∧ (qr_achieved r = true ↔ ∃ d, has_quorum d) ∧
      ∀ d, has_quorum d →
        qr_winning_digest r = Some d ∧
        (∃ payload, qr_consensus_output r = Some payload ∧ canonical_digest payload = d) ∧
        qr_conforming_workers r ≡ₚ map wp_worker_id (voters d ps) ∧
        qr_byzantine_workers r ≡ₚ map wp_worker_id (filter (λ p, wp_result_digest p ≠ d) ps)
  end.
Proof.
  intros v ps has_quorum. destruct (run_in_use m k policy ops) as [Hord (Hpol & Hmin & _) _]. fold v in Hord, Hpol, Hmin.
  split; [apply Hord|].
  assert (Forall (λ p, wp_result_digest p = canonical_digest (wp_output_payload p)) ps) as Hdig.
  { eapply Forall_impl; [apply (or_honest v Hord t)|]. by intros p []. }
  split; [done|].
  destruct (evaluate_spec t v ltac:(lia)) as [(Hn & msg & ->)|(Hn & d & Hle & Hne & H)]; [by split; [|subst ps; lia]|].
  fold ps in Hn, Hle, Hne, H. rewrite Hpol in H.
  assert (ps ≠ []) as Hps by (intros E; rewrite E in Hne; done).
  assert (∀ e, has_quorum e → e = d) as Huniq by (intros e He; by eapply quorum_unique).
  destruct H as [[Hno ->]|[Hq ->]]; (split; [lia|]).
  - assert (∀ e, ¬ has_quorum e) as Hnone by (intros e He; apply Hno; by rewrite <- (Huniq e He)).
    cbn. split; [|by intros e He%Hnone]. split; [done|]. intros [e He%Hnone]; done.
  - cbn. split; [split; eauto|]. intros e He. rewrite (Huniq e He). split; [done|]. rewrite !sorted_ids_perm. split; [|done].
    fold ps. destruct (voters d ps) as [|p l] eqn:E; [done|]. exists (wp_output_payload p). split; [done|].
    assert (p ∈ voters d ps) as Hp by (rewrite E; by left). apply list_elem_of_filter in Hp as [<- Hp].
    rewrite Forall_forall in Hdig. symmetry. by apply Hdig.
Qed.

(** Reputations count the consensus results.  However a verifier was used,
    a worker's counts are the consensus results it conformed to and deviated
    from, its trust the share of the former, and it is untrusted exactly when it
    deviated from as many as the bound. *)
Theorem reputations_are_counts m policy k ops w :
  let '(v, told) := run ops (make_verifier m policy k, []) in
  (get_worker_reputation w v).1 =
  reputation_of (Z.max 1 k) (times w qr_conforming_workers told) (times w qr_byzantine_workers told).
Proof.
  pose proof (run_in_use m k policy ops) as [_ _ Hc]. destruct (run ops _) as [v told]. apply Hc.
Qed.
