(* ===== verification/Events.v ===== *)
(** * Events ([courier_core/events.py])

    The vocabulary of the journal: event types, the fields each type carries,
    validation, the default de-duplication keys, the canonical encoding of a
    payload and the material of the hash chain. *)

From Stdlib Require Import Ascii.
From S2P Require Import Prelude PyText Json Sha256.

Definition SCHEMA_VERSION : Z := 1.
Definition GENESIS_HASH : string :=
  "0000000000000000000000000000000000000000000000000000000000000000".
Definition MAX_ID_LENGTH : Z := 200.
Definition MAX_ATTEMPTS_LIMIT : Z := 100.
Definition EFFECT_CLASSES : list string := ["idempotent"; "non_idempotent"].
Definition RETRY_SAFE_EFFECT_CLASS : string := "idempotent".
Definition LEASE_EXPIRY_REASONS : list string := ["ttl"; "restart_grace"].
Definition RESULT_OUTCOMES : list string := ["success"; "failure"].
Definition INPUT_KEYS : list string := ["task_id"; "dispatch_id"; "result_id"; "artifacts"].

Inductive EventType :=
  | TASK_CREATED | TASK_CLAIMED | TASK_STARTED | TASK_PROGRESS | RESULT_READY | RESULT_ACCEPTED
  | RESULT_REJECTED | TASK_COMPLETE | LEASE_EXPIRED | TASK_RETRY_SCHEDULED | TASK_BLOCKED
  | TASK_FAILED | TASK_CANCEL_REQUESTED | TASK_CANCELLED | EFFECT_CONFIRMED | RETRY_AUTHORIZED
  | LATE_RESULT_DISCARDED | CONTROLLER_STARTED | CONTROLLER_STOPPED.

#[export] Instance EventType_eq_dec : EqDecision EventType.
Proof. solve_decision. Defined.

Definition all_event_types : list EventType :=
  [TASK_CREATED; TASK_CLAIMED; TASK_STARTED; TASK_PROGRESS; RESULT_READY; RESULT_ACCEPTED;
   RESULT_REJECTED; TASK_COMPLETE; LEASE_EXPIRED; TASK_RETRY_SCHEDULED; TASK_BLOCKED; TASK_FAILED;
   TASK_CANCEL_REQUESTED; TASK_CANCELLED; EFFECT_CONFIRMED; RETRY_AUTHORIZED;
   LATE_RESULT_DISCARDED; CONTROLLER_STARTED; CONTROLLER_STOPPED].

(** [EventType.value] *)
Definition type_value (t : EventType) : string :=
  match t with
  | TASK_CREATED => "TASK_CREATED" | TASK_CLAIMED => "TASK_CLAIMED"
  | TASK_STARTED => "TASK_STARTED" | TASK_PROGRESS => "TASK_PROGRESS"
  | RESULT_READY => "RESULT_READY" | RESULT_ACCEPTED => "RESULT_ACCEPTED"
  | RESULT_REJECTED => "RESULT_REJECTED" | TASK_COMPLETE => "TASK_COMPLETE"
  | LEASE_EXPIRED => "LEASE_EXPIRED" | TASK_RETRY_SCHEDULED => "TASK_RETRY_SCHEDULED"
  | TASK_BLOCKED => "TASK_BLOCKED" | TASK_FAILED => "TASK_FAILED"
  | TASK_CANCEL_REQUESTED => "TASK_CANCEL_REQUESTED" | TASK_CANCELLED => "TASK_CANCELLED"
  | EFFECT_CONFIRMED => "EFFECT_CONFIRMED" | RETRY_AUTHORIZED => "RETRY_AUTHORIZED"
  | LATE_RESULT_DISCARDED => "LATE_RESULT_DISCARDED"
  | CONTROLLER_STARTED => "CONTROLLER_STARTED" | CONTROLLER_STOPPED => "CONTROLLER_STOPPED"
  end.

(** [EventType(text)] *)
Definition type_of_value (s : string) : option EventType :=
  list_find (λ t, type_value t = s) all_event_types ≫= λ p, Some p.2.

Definition SYSTEM_EVENTS (t : EventType) : bool :=
  match t with CONTROLLER_STARTED | CONTROLLER_STOPPED => true | _ => false end.

(** Human decisions on a BLOCKED task. *)
Definition HUMAN_DECISIONS (t : EventType) : bool :=
  match t with EFFECT_CONFIRMED | RETRY_AUTHORIZED => true | _ => false end.

(** The required envelope fields and the required payload keys of a type. *)
Definition REQUIRED (t : EventType) : list string * list string :=
  match t with
  | TASK_CREATED =>
      (["task_id"], ["adapter"; "params"; "effect_class"; "max_attempts"; "lease_ttl_s"])
  | TASK_CLAIMED => (["task_id"; "attempt"; "dispatch_id"; "worker_id"], ["ttl_s"])
  | TASK_STARTED => (["task_id"; "attempt"; "dispatch_id"; "worker_id"], [])
  | TASK_PROGRESS => (["task_id"; "attempt"; "dispatch_id"], [])
  | RESULT_READY =>
      (["task_id"; "attempt"; "dispatch_id"; "worker_id"; "result_id"], ["artifacts"; "outcome"])
  | RESULT_ACCEPTED => (["task_id"; "attempt"; "dispatch_id"; "result_id"], [])
  | RESULT_REJECTED =>
      (["task_id"; "attempt"; "dispatch_id"; "result_id"], ["reason"; "retryable"])
  | TASK_COMPLETE => (["task_id"; "attempt"; "dispatch_id"; "result_id"], [])
  | LEASE_EXPIRED => (["task_id"; "attempt"; "dispatch_id"; "worker_id"], ["reason"])
  | TASK_RETRY_SCHEDULED => (["task_id"; "attempt"], ["reason"])
  | TASK_BLOCKED => (["task_id"], ["reason"])
  | TASK_FAILED => (["task_id"], ["reason"])
  | TASK_CANCEL_REQUESTED => (["task_id"], [])
  | TASK_CANCELLED => (["task_id"], [])
  | LATE_RESULT_DISCARDED => (["task_id"; "dispatch_id"; "result_id"], ["reason"])
  | EFFECT_CONFIRMED => (["task_id"; "attempt"], ["actor"; "reason"])
  | RETRY_AUTHORIZED => (["task_id"; "attempt"], ["actor"; "reason"])
  | CONTROLLER_STARTED => ([], [])
  | CONTROLLER_STOPPED => ([], [])
  end.

(** One journal entry; the journal assigns [seq], [prev_hash] and [hash].  The
    envelope has the types of its annotations; a payload is a dict of JSON
    values and is checked dynamically. *)
Record Event := mkEvent {
  ev_type : EventType;
  ev_task_id : option string;
  ev_attempt : option Z;
  ev_dispatch_id : option string;
  ev_worker_id : option string;
  ev_result_id : option string;
  ev_payload : list (string * json);
  ev_event_id : string;
  ev_ts_utc : string;
  ev_dedupe_key : option string;
  ev_schema_v : Z;
  ev_seq : option Z;
  ev_prev_hash : option string;
  ev_hash : option string;
}.

#[export] Instance Event_eq_dec : EqDecision Event.
Proof. solve_decision. Defined.

Definition set_payload (e : Event) (p : list (string * json)) : Event :=
  mkEvent (ev_type e) (ev_task_id e) (ev_attempt e) (ev_dispatch_id e) (ev_worker_id e)
    (ev_result_id e) p (ev_event_id e) (ev_ts_utc e) (ev_dedupe_key e) (ev_schema_v e)
    (ev_seq e) (ev_prev_hash e) (ev_hash e).
Definition set_dedupe_key (e : Event) (k : option string) : Event :=
  mkEvent (ev_type e) (ev_task_id e) (ev_attempt e) (ev_dispatch_id e) (ev_worker_id e)
    (ev_result_id e) (ev_payload e) (ev_event_id e) (ev_ts_utc e) k (ev_schema_v e)
    (ev_seq e) (ev_prev_hash e) (ev_hash e).
Definition set_seal (e : Event) (seq : option Z) (prev hash : option string) : Event :=
  mkEvent (ev_type e) (ev_task_id e) (ev_attempt e) (ev_dispatch_id e) (ev_worker_id e)
    (ev_result_id e) (ev_payload e) (ev_event_id e) (ev_ts_utc e) (ev_dedupe_key e)
    (ev_schema_v e) seq prev hash.

(** An interpolated optional value. *)
Definition fmt (o : option string) : string := default "None" o.
Definition fmt_int (o : option Z) : string := fmt (str_of_Z <$> o).

(** Keys that make the journal refuse a second copy of an effect. *)
Definition default_dedupe_key (t : EventType) (task_id : option string) (attempt : option Z)
    (dispatch_id result_id : option string) : option string :=
  match t with
  | TASK_CREATED => Some ("created:" +:+ fmt task_id)
  | TASK_CLAIMED => Some ("claim:" +:+ fmt task_id +:+ ":" +:+ fmt_int attempt)
  | TASK_STARTED => Some ("start:" +:+ fmt dispatch_id)
  | RESULT_READY => Some ("result:" +:+ fmt dispatch_id +:+ ":" +:+ fmt result_id)
  | RESULT_ACCEPTED => Some ("accepted:" +:+ fmt task_id)
  | TASK_COMPLETE => Some ("complete:" +:+ fmt task_id)
  | LEASE_EXPIRED => Some ("lease_expired:" +:+ fmt dispatch_id)
  | EFFECT_CONFIRMED => Some ("effect_confirmed:" +:+ fmt task_id)
  | RETRY_AUTHORIZED => Some ("retry_authorized:" +:+ fmt task_id +:+ ":" +:+ fmt_int attempt)
  | _ => None
  end.

(** The stable key of the external effect a task intends. *)
Definition effect_key (task_id : string) : result string :=
  data ← encode_utf8 ("courier-effect-v1:" +:+ task_id);
  mret ("cfx-" +:+ py_take 40 (sha256_hex data)).

(** ** Validation *)
Definition invalid {A} (msg : string) : result A := raise EventValidationError msg.
Definition reject_if (b : bool) (msg : string) : result unit :=
  raise_if b (Exn EventValidationError msg).

Definition _check_id (name : string) (value : json) : result unit :=
  match value with
  | JStr s => reject_if (bool_decide (s = "") || (MAX_ID_LENGTH <? py_len s))%bool name
  | _ => invalid name
  end.

Definition _check_positive_int (name : string) (value : json) (upper : option Z) : result unit :=
  match value with
  | JInt z => reject_if ((z <? 1) || match upper with Some u => u <? z | None => false end)%bool name
  | _ => invalid name
  end.

Definition is_lower_hex (a : ascii) : bool :=
  ((48 <=? code a) && (code a <=? 57) || (97 <=? code a) && (code a <=? 102))%bool.

(** [re.compile("^[0-9a-f]{64}$").match]: the dollar also matches before a
    final line feed. *)
Fixpoint hex_then_end (n : nat) (s : string) : bool :=
  match n, s with
  | O, "" => true
  | O, String a "" => code a =? 10
  | S n, String a r => (is_lower_hex a && hex_then_end n r)%bool
  | _, _ => false
  end.
Definition sha256_hex_match (s : string) : bool := hex_then_end 64 s.

(** [self.field is None] *)
Definition field_missing (e : Event) (name : string) : bool :=
  let missing {A} (o : option A) := match o with None => true | Some _ => false end in
  if decide (name = "task_id") then missing (ev_task_id e)
  else if decide (name = "attempt") then missing (ev_attempt e)
  else if decide (name = "dispatch_id") then missing (ev_dispatch_id e)
  else if decide (name = "worker_id") then missing (ev_worker_id e)
  else missing (ev_result_id e).

Definition check_id_opt (name : string) (o : option string) : result unit :=
  match o with None => mret tt | Some s => _check_id name (JStr s) end.

Section events.
Context `{PyPlatform}.

Definition artifact_ok (a : json) : bool :=
  match a with
  | JObj kvs =>
      (match jget "path" kvs with Some (JStr p) => negb (bool_decide (p = "")) | _ => false end
       && sha256_hex_match (py_str (default (JStr "") (jget "sha256" kvs))))%bool
  | _ => false
  end.

Definition _check_artifacts (artifacts : json) : result unit :=
  match artifacts with
  | JArr l => reject_if (negb (forallb artifact_ok l))
                "each artifact needs a non-empty path and a lowercase sha256"
  | _ => invalid "artifacts must be a list"
  end.

Definition _validate_input (value : json) : result unit :=
  match value with
  | JObj kvs =>
      reject_if (negb (forallb (λ k, bool_decide (k ∈ INPUT_KEYS)) (map fst kvs)
                       && forallb (λ k, jhas k kvs) INPUT_KEYS)) "input keys";;
      _check_id "input.task_id" (jget_none "task_id" kvs);;
      _check_id "input.dispatch_id" (jget_none "dispatch_id" kvs);;
      _check_id "input.result_id" (jget_none "result_id" kvs);;
      _check_artifacts (jget_none "artifacts" kvs);;
      reject_if (negb (py_truthy (jget_none "artifacts" kvs)))
        "input must reference at least one artifact"
  | _ => invalid "input keys"
  end.

(** The checks of one event type. *)
Definition validate_type_payload (e : Event) : result unit :=
  let p := ev_payload e in
  let at_ k := jget_none k p in
  match ev_type e with
  | TASK_CREATED =>
      _check_id "adapter" (at_ "adapter");;
      reject_if (negb (is_dict (at_ "params"))) "params must be an object";;
      known ← json_in_strs (at_ "effect_class") EFFECT_CLASSES;
      reject_if (negb known) "effect_class";;
      _check_positive_int "max_attempts" (at_ "max_attempts") (Some MAX_ATTEMPTS_LIMIT);;
      _check_positive_int "lease_ttl_s" (at_ "lease_ttl_s") None;;
      (if is_null (at_ "timeout_s") then mret tt
       else _check_positive_int "timeout_s" (at_ "timeout_s") None);;
      (if is_null (at_ "depends_on") then mret tt
       else
         _check_id "depends_on" (at_ "depends_on");;
         reject_if (bool_decide (Some (at_ "depends_on") = JStr <$> ev_task_id e))
           "a task cannot depend on itself")
  | TASK_CLAIMED =>
      _check_positive_int "ttl_s" (at_ "ttl_s") None;;
      (if is_null (at_ "input") then mret tt else _validate_input (at_ "input"))
  | RESULT_READY =>
      known ← json_in_strs (at_ "outcome") RESULT_OUTCOMES;
      reject_if (negb known) "outcome";;
      _check_artifacts (at_ "artifacts");;
      reject_if (jhas "retryable" p && negb (is_bool (at_ "retryable"))) "retryable must be a boolean"
  | RESULT_REJECTED =>
      reject_if (negb (is_bool (at_ "retryable"))) "retryable must be a boolean"
  | LEASE_EXPIRED =>
      known ← json_in_strs (at_ "reason") LEASE_EXPIRY_REASONS;
      reject_if (negb known) "lease expiry reason"
  | _ => mret tt
  end.

Definition _validate_payload (e : Event) : result unit :=
  let p := ev_payload e in
  validate_type_payload e;;
  (if (HUMAN_DECISIONS (ev_type e) || jhas "actor" p)%bool
   then _check_id "actor" (jget_none "actor" p) else mret tt);;
  (if HUMAN_DECISIONS (ev_type e)
   then match jget_none "reason" p with
        | JStr s => reject_if (py_blank s) "needs a non-empty reason"
        | _ => invalid "needs a non-empty reason"
        end
   else mret tt).

Definition validate (e : Event) : result unit :=
  reject_if (negb (ev_schema_v e =? SCHEMA_VERSION)) "unsupported schema_v";;
  _check_id "event_id" (JStr (ev_event_id e));;
  reject_if (negb (ends_with "Z" (ev_ts_utc e))) "ts_utc";;
  check_id_opt "dedupe_key" (ev_dedupe_key e);;
  reject_if (existsb (field_missing e) (REQUIRED (ev_type e)).1) "required field";;
  reject_if (SYSTEM_EVENTS (ev_type e)
             && negb (forallb (field_missing e)
                        ["task_id"; "attempt"; "dispatch_id"; "worker_id"; "result_id"]))
    "a system event takes no task field";;
  check_id_opt "task_id" (ev_task_id e);;
  check_id_opt "dispatch_id" (ev_dispatch_id e);;
  check_id_opt "worker_id" (ev_worker_id e);;
  check_id_opt "result_id" (ev_result_id e);;
  (match ev_attempt e with
   | Some n => _check_positive_int "attempt" (JInt n) (Some MAX_ATTEMPTS_LIMIT)
   | None => mret tt
   end);;
  reject_if (negb (forallb (λ k, jhas k (ev_payload e)) (REQUIRED (ev_type e)).2)) "missing payload key";;
  _validate_payload e.

(** [Event.__post_init__]: the payload is copied through the canonical
    encoding, a missing dedupe key is filled in, the event is validated. *)
Definition post_init (e : Event) : result Event :=
  match loads (canonical_json (JObj (ev_payload e))) with
  | Ok (JObj p) =>
      let e := set_payload e p in
      let e := match ev_dedupe_key e with
               | Some _ => e
               | None => set_dedupe_key e (default_dedupe_key (ev_type e) (ev_task_id e)
                           (ev_attempt e) (ev_dispatch_id e) (ev_result_id e))
               end in
      validate e;; mret e
  | _ => invalid "payload is not canonical JSON"
  end.

(** [Event(type=..., ...)] with the defaults of the other fields. *)
Definition new_event (t : EventType) (task_id : option string) (attempt : option Z)
    (dispatch_id worker_id result_id : option string) (payload : list (string * json))
    (event_id ts_utc : string) (dedupe_key : option string) : result Event :=
  post_init (mkEvent t task_id attempt dispatch_id worker_id result_id payload event_id ts_utc
               dedupe_key SCHEMA_VERSION None None None).

Definition payload_json (e : Event) : string := canonical_json (JObj (ev_payload e)).

(** What makes two submissions the same effect. *)
Definition content (e : Event) :=
  (type_value (ev_type e), ev_task_id e, ev_attempt e, ev_dispatch_id e, ev_worker_id e,
   ev_result_id e, payload_json e).

Definition jopt (o : option string) : json := match o with Some s => JStr s | None => JNull end.
Definition jopt_int (o : option Z) : json := match o with Some z => JInt z | None => JNull end.

(** Every stored column but the hash. *)
Definition chain_material (e : Event) (payload_text : option string) : json :=
  JArr [JInt (ev_schema_v e); jopt_int (ev_seq e); JStr (ev_event_id e);
        JStr (type_value (ev_type e)); jopt (ev_task_id e); jopt_int (ev_attempt e);
        jopt (ev_dispatch_id e); jopt (ev_worker_id e); jopt (ev_result_id e);
        jopt (ev_dedupe_key e); JStr (ev_ts_utc e);
        JStr (default (payload_json e) payload_text); jopt (ev_prev_hash e)].

Definition chain_hash (e : Event) (payload_text : option string) : result string :=
  data ← encode_utf8 (canonical_json (chain_material e payload_text));
  mret (sha256_hex data).

(** [dataclasses.replace] constructs the event again each time. *)
Definition sealed (e : Event) (seq : Z) (prev_hash : string) : result Event :=
  s ← post_init (set_seal e (Some seq) (Some prev_hash) None);
  h ← chain_hash s None;
  post_init (set_seal s (ev_seq s) (ev_prev_hash s) (Some h)).

(** One row of the [events] table. *)
Record Row := mkRow {
  r_seq : Z;
  r_event_id : string;
  r_schema_v : Z;
  r_type : string;
  r_task_id : option string;
  r_attempt : option Z;
  r_dispatch_id : option string;
  r_worker_id : option string;
  r_result_id : option string;
  r_dedupe_key : option string;
  r_ts_utc : string;
  r_payload : string;
  r_prev_hash : string;
  r_hash : string;
}.

Definition from_row (r : Row) : result Event :=
  payload ← loads (r_payload r);
  match type_of_value (r_type r) with
  | None => invalid "unknown event type"
  | Some t =>
      match payload with
      | JObj p =>
          post_init (mkEvent t (r_task_id r) (r_attempt r) (r_dispatch_id r) (r_worker_id r)
            (r_result_id r) p (r_event_id r) (r_ts_utc r) (r_dedupe_key r) (r_schema_v r)
            (Some (r_seq r)) (Some (r_prev_hash r)) (Some (r_hash r)))
      | _ => invalid "payload must be a JSON object"
      end
  end.

(** The tuple [Journal.append] inserts for a sealed event. *)
Definition event_row (e : Event) : Row :=
  mkRow (default 0 (ev_seq e)) (ev_event_id e) (ev_schema_v e) (type_value (ev_type e))
    (ev_task_id e) (ev_attempt e) (ev_dispatch_id e) (ev_worker_id e) (ev_result_id e)
    (ev_dedupe_key e) (ev_ts_utc e) (payload_json e) (default "" (ev_prev_hash e))
    (default "" (ev_hash e)).

(** ** Facts about construction *)

(** What [post_init] makes of its argument before validating it. *)
Definition normalize (e : Event) : Event :=
  let e := set_payload e (sort_kvs (map (λ kv, (kv.1, canon kv.2)) (ev_payload e))) in
  match ev_dedupe_key e with
  | Some _ => e
  | None => set_dedupe_key e (default_dedupe_key (ev_type e) (ev_task_id e)
              (ev_attempt e) (ev_dispatch_id e) (ev_result_id e))
  end.

(** A constructed event: normalised, canonical and validated. *)
Record Valid (e : Event) : Prop := {
  valid_canonical : canonical (JObj (ev_payload e));
  valid_normal : normalize e = e;
  valid_validate : validate e = Ok tt;
}.

Lemma post_init_wf e :
  json_wf (JObj (ev_payload e)) →
  post_init e = (validate (normalize e);; Ok (normalize e)).
Proof. intros Hw. unfold post_init. by rewrite loads_canonical_json, canon_obj. Qed.

Lemma normalize_canonical e :
  json_wf (JObj (ev_payload e)) → canonical (JObj (ev_payload (normalize e))).
Proof.
  intros Hw. apply canon_canonical in Hw. rewrite canon_obj in Hw.
  unfold normalize. simpl. by destruct (ev_dedupe_key e).
Qed.

Lemma normalize_idemp e :
  json_wf (JObj (ev_payload e)) → normalize (normalize e) = normalize e.
Proof.
  intros Hw. pose proof (normalize_canonical e Hw) as Hc%canon_id. rewrite canon_obj in Hc.
  injection Hc as Hc. unfold normalize at 1. rewrite Hc. unfold normalize.
  destruct e as [t ? ? ? ? ? ? ? ? [k|] ? ? ? ?]; simpl; [done|].
  by destruct (default_dedupe_key t _ _ _ _) eqn:E; simpl; rewrite ?E.
Qed.

Lemma post_init_valid e e' :
  json_wf (JObj (ev_payload e)) → post_init e = Ok e' → Valid e' ∧ e' = normalize e.
Proof.
  intros Hw. rewrite post_init_wf by done. intros H'. inv_ok. subst. destruct a.
  split; [split|]; auto using normalize_canonical, normalize_idemp.
Qed.

Lemma post_init_of_valid e : Valid e → post_init e = Ok e.
Proof.
  intros [Hc Hn Hv]. rewrite post_init_wf by (by apply canonical_wf). by rewrite Hn, Hv.
Qed.

Lemma normalize_set_seal e seq prev hash :
  normalize (set_seal e seq prev hash) = set_seal (normalize e) seq prev hash.
Proof. by destruct e as [? ? ? ? ? ? ? ? ? [k|] ? ? ? ?]. Qed.

(** The journal's own fields play no part in validity. *)
Lemma valid_set_seal e seq prev hash : Valid e → Valid (set_seal e seq prev hash).
Proof.
  intros [Hc Hn Hv]. split; [done| |done]. by rewrite normalize_set_seal, Hn.
Qed.

Lemma chain_hash_set_hash e seq prev h t :
  chain_hash (set_seal e seq prev h) t = chain_hash (set_seal e seq prev None) t.
Proof. done. Qed.

Lemma sealed_spec e seq prev s :
  Valid e → sealed e seq prev = Ok s ↔
  ∃ h, chain_hash (set_seal e (Some seq) (Some prev) None) None = Ok h
       ∧ s = set_seal e (Some seq) (Some prev) (Some h).
Proof.
  intros Hv. unfold sealed. rewrite post_init_of_valid by (by apply valid_set_seal). simpl.
  destruct (chain_hash _ _) as [h|] eqn:E; simpl; [|naive_solver].
  change (set_seal _ (Some seq) (Some prev) (Some h)) with (set_seal e (Some seq) (Some prev) (Some h)).
  rewrite post_init_of_valid by (by apply valid_set_seal). naive_solver.
Qed.

Lemma sealed_valid e seq prev s : Valid e → sealed e seq prev = Ok s → Valid s.
Proof. intros Hv (h & _ & ->)%sealed_spec; [|done]. by apply valid_set_seal. Qed.

Lemma type_of_type_value t : type_of_value (type_value t) = Some t.
Proof. by destruct t. Qed.

#[global] Instance type_value_inj : Inj (=) (=) type_value.
Proof. intros a b E. apply (f_equal type_of_value) in E. rewrite !type_of_type_value in E. congruence. Qed.

(** A stored row reads back as the event it was written from. *)
Lemma from_row_event_row e seq prev h :
  Valid e → ev_seq e = Some seq → ev_prev_hash e = Some prev → ev_hash e = Some h →
  from_row (event_row e) = Ok e.
Proof.
  intros Hv Hs Hp Hh. unfold from_row, event_row, payload_json. simpl.
  rewrite loads_canonical_json by (apply canonical_wf, Hv).
  rewrite (canon_id _ (valid_canonical _ Hv)). simpl. rewrite type_of_type_value.
  rewrite Hs, Hp, Hh. simpl. rewrite <- (post_init_of_valid e Hv). f_equal.
  destruct e; simpl in *; congruence.
Qed.

(** ** What validation guarantees, for the code that reads payloads *)

Lemma reject_if_Ok b msg : reject_if b msg = Ok tt ↔ b = false.
Proof. apply raise_if_Ok. Qed.

Lemma check_id_Ok name j u :
  _check_id name j = Ok u → ∃ s, j = JStr s ∧ s ≠ "" ∧ py_len s ≤ MAX_ID_LENGTH.
Proof.
  destruct j as [| | | |s| |]; try done. unfold _check_id, reject_if. intros Hc.
  inv_ok. bool_hyps. eauto.
Qed.

Lemma check_pos_Ok name j up u :
  _check_positive_int name j up = Ok u →
  ∃ z, j = JInt z ∧ 1 ≤ z ∧ (∀ b, up = Some b → z ≤ b).
Proof.
  destruct j as [| |z| | | |]; try done. unfold _check_positive_int, reject_if. intros Hc.
  inv_ok. bool_hyps. exists z. split_and!; [done|lia|]. intros b ->. bool_hyps. lia.
Qed.

Lemma json_in_strs_Ok j l b :
  json_in_strs j l = Ok b → b = true → ∃ s, j = JStr s ∧ s ∈ l.
Proof.
  unfold json_in_strs. destruct (json_hashable j); [|done]. intros [= <-].
  destruct j; try done. intros. bool_hyps. eauto.
Qed.

(** The pieces of a successful [validate]. *)
Record Validated (e : Event) : Prop := {
  vd_event_id : ev_event_id e ≠ "" ∧ py_len (ev_event_id e) ≤ MAX_ID_LENGTH;
  vd_ts : ends_with "Z" (ev_ts_utc e) = true;
  vd_dedupe : ∀ k, ev_dedupe_key e = Some k → k ≠ "" ∧ py_len k ≤ MAX_ID_LENGTH;
  vd_fields : ∀ n, n ∈ (REQUIRED (ev_type e)).1 → field_missing e n = false;
  vd_system : SYSTEM_EVENTS (ev_type e) = true → ev_task_id e = None;
  vd_task_id : ∀ s, ev_task_id e = Some s → s ≠ "" ∧ py_len s ≤ MAX_ID_LENGTH;
  vd_attempt : ∀ n, ev_attempt e = Some n → 1 ≤ n ≤ MAX_ATTEMPTS_LIMIT;
  vd_keys : ∀ k, k ∈ (REQUIRED (ev_type e)).2 → ∃ v, jget k (ev_payload e) = Some v;
  vd_type : validate_type_payload e = Ok tt;
  vd_actor : HUMAN_DECISIONS (ev_type e) = true ∨ jhas "actor" (ev_payload e) = true →
    ∃ a, jget "actor" (ev_payload e) = Some (JStr a) ∧ a ≠ "";
  vd_reason : HUMAN_DECISIONS (ev_type e) = true →
    ∃ r, jget "reason" (ev_payload e) = Some (JStr r) ∧ py_blank r = false;
}.

Lemma jget_none_str k kvs s : jget_none k kvs = JStr s → jget k kvs = Some (JStr s).
Proof. unfold jget_none. destruct (jget k kvs) as [j|]; simpl; [by intros ->|done]. Qed.

Lemma check_id_opt_Ok name o u :
  check_id_opt name o = Ok u → ∀ s, o = Some s → s ≠ "" ∧ py_len s ≤ MAX_ID_LENGTH.
Proof.
  intros Hc s ->. cbn [check_id_opt] in Hc. apply check_id_Ok in Hc as (s' & [= ->] & ?). done.
Qed.

Lemma validated e : validate e = Ok tt → Validated e.
Proof.
  unfold validate, _validate_payload. intros Hv.
  repeat (apply bind_Ok in Hv as ([] & ? & Hv)). rewrite ?reject_if_Ok in *.
  repeat match goal with H : (_ ≫= _) = Ok tt |- _ => apply bind_Ok in H as ([] & ? & H) end.
  split; try done.
  - match goal with H : _check_id "event_id" _ = _ |- _ =>
      apply check_id_Ok in H as (? & [= <-] & ?) end. done.
  - by apply negb_false_iff.
  - by eapply check_id_opt_Ok.
  - intros n Hn. match goal with H : existsb _ _ = false |- _ => rename H into He end.
    apply not_true_iff_false. intros Hm. apply not_true_iff_false in He. apply He, existsb_exists.
    exists n. by rewrite <- list_elem_of_In.
  - intros Hs. match goal with H : (SYSTEM_EVENTS _ && _)%bool = false |- _ => rename H into He end.
    rewrite Hs in He. simpl in He. apply negb_false_iff, andb_true_iff in He as [He _].
    unfold field_missing in He. simpl in He. by destruct (ev_task_id e).
  - by eapply check_id_opt_Ok.
  - intros n Hn. rewrite Hn in *.
    match goal with H : _check_positive_int _ _ _ = _ |- _ =>
      apply check_pos_Ok in H as (z & [= <-] & ? & Hb) end.
    specialize (Hb _ eq_refl). lia.
  - intros k Hk. match goal with H : negb (forallb _ _) = false |- _ => rename H into He end.
    apply negb_false_iff in He. rewrite forallb_forall in He.
    specialize (He k). rewrite <- list_elem_of_In in He. specialize (He Hk).
    unfold jhas in He. destruct (jget k _); [eauto|done].
  - intros Ha. match goal with H : (if (_ || _)%bool then _ else _) = _ |- _ => rename H into He end.
    assert (HUMAN_DECISIONS (ev_type e) || jhas "actor" (ev_payload e) = true)%bool as E
      by (by apply orb_true_iff).
    rewrite E in He. apply check_id_Ok in He as (a & Ha' & ? & _). apply jget_none_str in Ha'. eauto.
  - intros Hh. rewrite Hh in Hv. destruct (jget_none "reason" _) as [| | | |r| |] eqn:E; try done.
    apply reject_if_Ok in Hv. apply jget_none_str in E. eauto.
Qed.

Lemma valid_validated e : Valid e → Validated e.
Proof. intros Hv. apply validated, Hv. Qed.

(** ** The hash chain's material is unambiguous *)

Lemma chain_material_canonical e t : canonical (chain_material e t).
Proof.
  apply canonical_arr. unfold chain_material, jopt, jopt_int.
  repeat (apply Forall_cons; split); [..|by apply Forall_nil]; repeat case_match; exact I.
Qed.

Definition sha256_collision : Prop :=
  ∃ a b : list ascii, a ≠ b ∧ sha256_hex a = sha256_hex b.

(** Two equal chain hashes come from equal columns, or SHA-256 collides. *)
Lemma chain_hash_inj e e' t t' h :
  chain_hash e t = Ok h → chain_hash e' t' = Ok h →
  chain_material e t = chain_material e' t' ∨ sha256_collision.
Proof.
  unfold chain_hash, encode_utf8. intros H1 H2.
  do 2 (destruct (has_surrogate _); [done|]). cbn [mbind result_bind mret result_ret] in *.
  apply (inj Ok) in H1, H2. unfold canonical_json in *.
  rewrite (canon_id _ (chain_material_canonical _ _)) in H1.
  rewrite (canon_id _ (chain_material_canonical _ _)) in H2.
  destruct (decide (String.list_ascii_of_string (print (chain_material e t))
                    = String.list_ascii_of_string (print (chain_material e' t')))) as [E|E].
  - left. apply print_inj; [apply chain_material_canonical..|].
    apply (f_equal String.string_of_list_ascii) in E.
    by rewrite !String.string_of_list_ascii_of_string in E.
  - right. eexists _, _. split; [done|congruence].
Qed.

End events.

#[export] Hint Resolve valid_set_seal sealed_valid post_init_of_valid chain_material_canonical : courier.
