(* ===== verification/StateMachine.v ===== *)
(** * Task state machine ([courier_core/state_machine.py])

    The pure fold from events to the state of one task.  [apply] returns the
    next state or raises [TransitionError]; live appends and replay call the
    same function. *)

From S2P Require Import Prelude PyText Json Events.

Inductive TaskStatus :=
  | QUEUED | CLAIMED | RUNNING | VERIFYING | ACCEPTED | RETRY_PENDING
  | COMPLETE | FAILED | BLOCKED | CANCELLED.

#[export] Instance TaskStatus_eq_dec : EqDecision TaskStatus.
Proof. solve_decision. Defined.

Definition all_statuses : list TaskStatus :=
  [QUEUED; CLAIMED; RUNNING; VERIFYING; ACCEPTED; RETRY_PENDING; COMPLETE; FAILED; BLOCKED;
   CANCELLED].

Definition status_value (s : TaskStatus) : string :=
  match s with
  | QUEUED => "QUEUED" | CLAIMED => "CLAIMED" | RUNNING => "RUNNING" | VERIFYING => "VERIFYING"
  | ACCEPTED => "ACCEPTED" | RETRY_PENDING => "RETRY_PENDING" | COMPLETE => "COMPLETE"
  | FAILED => "FAILED" | BLOCKED => "BLOCKED" | CANCELLED => "CANCELLED"
  end.
Definition status_of_value (v : string) : option TaskStatus :=
  list_find (λ s, status_value s = v) all_statuses ≫= λ p, Some p.2.

Definition TERMINAL (s : TaskStatus) : bool :=
  match s with COMPLETE | FAILED | CANCELLED => true | _ => false end.
Definition ACTIVE_LEASE (s : TaskStatus) : bool :=
  match s with CLAIMED | RUNNING => true | _ => false end.

Definition RESOLVED_VERIFIED : string := "verified".
Definition RESOLVED_EFFECT_CONFIRMED : string := "effect_confirmed".
Definition RESOLVED_CANCELLED_EFFECT_UNKNOWN : string := "cancelled_effect_unknown".

Inductive Decision := D_RETRY | D_FAIL | D_BLOCK | D_CANCEL.
#[export] Instance Decision_eq_dec : EqDecision Decision.
Proof. solve_decision. Defined.

(** [retryable] is a JSON value because a state read back from the database
    holds 0 or 1 where the event held a boolean; [input] is null or an object. *)
Record TaskState := mkTask {
  ts_task_id : string;
  ts_status : TaskStatus;
  ts_adapter : string;
  ts_params : json;
  ts_effect_class : string;
  ts_max_attempts : Z;
  ts_lease_ttl_s : Z;
  ts_timeout_s : option Z;
  ts_attempt : Z;
  ts_dispatch_id : option string;
  ts_worker_id : option string;
  ts_started : bool;
  ts_pending_result_id : option string;
  ts_accepted_result_id : option string;
  ts_cancel_requested : bool;
  ts_failure_kind : option string;
  ts_retryable : json;
  ts_last_reason : option string;
  ts_late_results : Z;
  ts_resolution : option string;
  ts_decided_by : option string;
  ts_depends_on : option string;
  ts_input : json;
  ts_created_seq : option Z;
  ts_updated_seq : option Z;
}.

#[export] Instance TaskState_eq_dec : EqDecision TaskState.
Proof. solve_decision. Defined.

(** [dataclasses.replace(state, ...)], one updater per group of fields the
    transitions change together. *)
Definition with_status (s : TaskState) (st : TaskStatus) : TaskState :=
  mkTask (ts_task_id s) st (ts_adapter s) (ts_params s) (ts_effect_class s) (ts_max_attempts s)
    (ts_lease_ttl_s s) (ts_timeout_s s) (ts_attempt s) (ts_dispatch_id s) (ts_worker_id s)
    (ts_started s) (ts_pending_result_id s) (ts_accepted_result_id s) (ts_cancel_requested s)
    (ts_failure_kind s) (ts_retryable s) (ts_last_reason s) (ts_late_results s) (ts_resolution s)
    (ts_decided_by s) (ts_depends_on s) (ts_input s) (ts_created_seq s) (ts_updated_seq s).
Definition with_dispatch (s : TaskState) (attempt : Z) (dispatch worker : option string)
    (started : bool) : TaskState :=
  mkTask (ts_task_id s) (ts_status s) (ts_adapter s) (ts_params s) (ts_effect_class s)
    (ts_max_attempts s) (ts_lease_ttl_s s) (ts_timeout_s s) attempt dispatch worker
    started (ts_pending_result_id s) (ts_accepted_result_id s) (ts_cancel_requested s)
    (ts_failure_kind s) (ts_retryable s) (ts_last_reason s) (ts_late_results s) (ts_resolution s)
    (ts_decided_by s) (ts_depends_on s) (ts_input s) (ts_created_seq s) (ts_updated_seq s).
Definition with_result (s : TaskState) (pending accepted : option string) : TaskState :=
  mkTask (ts_task_id s) (ts_status s) (ts_adapter s) (ts_params s) (ts_effect_class s)
    (ts_max_attempts s) (ts_lease_ttl_s s) (ts_timeout_s s) (ts_attempt s) (ts_dispatch_id s)
    (ts_worker_id s) (ts_started s) pending accepted (ts_cancel_requested s)
    (ts_failure_kind s) (ts_retryable s) (ts_last_reason s) (ts_late_results s) (ts_resolution s)
    (ts_decided_by s) (ts_depends_on s) (ts_input s) (ts_created_seq s) (ts_updated_seq s).
Definition with_failure (s : TaskState) (kind : option string) (retryable : json)
    (reason : option string) : TaskState :=
  mkTask (ts_task_id s) (ts_status s) (ts_adapter s) (ts_params s) (ts_effect_class s)
    (ts_max_attempts s) (ts_lease_ttl_s s) (ts_timeout_s s) (ts_attempt s) (ts_dispatch_id s)
    (ts_worker_id s) (ts_started s) (ts_pending_result_id s) (ts_accepted_result_id s)
    (ts_cancel_requested s) kind retryable reason (ts_late_results s) (ts_resolution s)
    (ts_decided_by s) (ts_depends_on s) (ts_input s) (ts_created_seq s) (ts_updated_seq s).
Definition with_resolution (s : TaskState) (resolution decided_by : option string) : TaskState :=
  mkTask (ts_task_id s) (ts_status s) (ts_adapter s) (ts_params s) (ts_effect_class s)
    (ts_max_attempts s) (ts_lease_ttl_s s) (ts_timeout_s s) (ts_attempt s) (ts_dispatch_id s)
    (ts_worker_id s) (ts_started s) (ts_pending_result_id s) (ts_accepted_result_id s)
    (ts_cancel_requested s) (ts_failure_kind s) (ts_retryable s) (ts_last_reason s)
    (ts_late_results s) resolution decided_by (ts_depends_on s) (ts_input s) (ts_created_seq s)
    (ts_updated_seq s).
Definition with_flags (s : TaskState) (max_attempts : Z) (cancel : bool) (late : Z) (input : json)
    (updated : option Z) : TaskState :=
  mkTask (ts_task_id s) (ts_status s) (ts_adapter s) (ts_params s) (ts_effect_class s)
    max_attempts (ts_lease_ttl_s s) (ts_timeout_s s) (ts_attempt s) (ts_dispatch_id s)
    (ts_worker_id s) (ts_started s) (ts_pending_result_id s) (ts_accepted_result_id s)
    cancel (ts_failure_kind s) (ts_retryable s) (ts_last_reason s) late (ts_resolution s)
    (ts_decided_by s) (ts_depends_on s) input (ts_created_seq s) updated.
Definition with_reason (s : TaskState) (reason : option string) : TaskState :=
  with_failure s (ts_failure_kind s) (ts_retryable s) reason.
Definition with_cancel_requested (s : TaskState) : TaskState :=
  with_flags s (ts_max_attempts s) true (ts_late_results s) (ts_input s) (ts_updated_seq s).
Definition with_late (s : TaskState) : TaskState :=
  with_flags s (ts_max_attempts s) (ts_cancel_requested s) (ts_late_results s + 1) (ts_input s)
    (ts_updated_seq s).
Definition with_max_attempts (s : TaskState) (n : Z) : TaskState :=
  with_flags s n (ts_cancel_requested s) (ts_late_results s) (ts_input s) (ts_updated_seq s).
Definition with_input (s : TaskState) (i : json) : TaskState :=
  with_flags s (ts_max_attempts s) (ts_cancel_requested s) (ts_late_results s) i (ts_updated_seq s).
Definition with_updated_seq (s : TaskState) (n : option Z) : TaskState :=
  with_flags s (ts_max_attempts s) (ts_cancel_requested s) (ts_late_results s) (ts_input s) n.

Definition tfail {A} (why : string) : result A := raise TransitionError why.
Definition tfail_if (b : bool) (why : string) : result unit := raise_if b (Exn TransitionError why).

(** Only an explicitly idempotent effect is ever retried blindly. *)
Definition may_auto_retry (effect_class : string) : bool :=
  bool_decide (effect_class = RETRY_SAFE_EFFECT_CLASS).

Definition _fence (s : TaskState) (e : Event) (check_worker : bool) : result unit :=
  tfail_if (negb (bool_decide (ev_attempt e = Some (ts_attempt s)))) "not the current attempt";;
  tfail_if (negb (bool_decide (ev_dispatch_id e = ts_dispatch_id s)))
    "dispatch_id is not the current dispatch";;
  tfail_if (check_worker && match ev_worker_id e with
                            | Some _ => negb (bool_decide (ev_worker_id e = ts_worker_id s))
                            | None => false
                            end) "worker_id does not hold the lease".

(** [payload[k]] where the source uses the value as text, a number or a boolean. *)
Definition payload_at (p : list (string * json)) (k : string) : result json :=
  of_option (Exn KeyError k) (jget k p).
Definition as_str (j : json) : result string :=
  match j with JStr s => Ok s | _ => raise TypeError "str" end.
Definition as_int (j : json) : result Z :=
  match j with JInt z => Ok z | _ => raise TypeError "int" end.
Definition opt_str (j : json) : result (option string) :=
  match j with JNull => Ok None | JStr s => Ok (Some s) | _ => raise TypeError "str" end.
Definition opt_int (j : json) : result (option Z) :=
  match j with JNull => Ok None | JInt z => Ok (Some z) | _ => raise TypeError "int" end.

Section machine.
Context `{PyPlatform}.

(** The retry decision of a failed attempt, whatever the status. *)
Definition decision_of (s : TaskState) : Decision :=
  let reason_lower := py_lower (default "" (ts_last_reason s)) in
  let rejected := bool_decide (ts_failure_kind s = Some "rejected") in
  let lease_lost := bool_decide (ts_failure_kind s = Some "lease_lost") in
  let uncertain_rejection :=
    (rejected && (py_in "timeout" reason_lower || py_in "lease-lost" reason_lower
                  || py_in "lease_lost" reason_lower))%bool in
  if ((lease_lost || uncertain_rejection) && ts_started s
      && negb (may_auto_retry (ts_effect_class s)))%bool then D_BLOCK
  else if ts_cancel_requested s then D_CANCEL
  else if (rejected && negb (py_truthy (ts_retryable s)))%bool then D_FAIL
  else if ts_max_attempts s <=? ts_attempt s then D_FAIL
  else D_RETRY.

(** What the controller must journal next for a task in RETRY_PENDING. *)
Definition decide_after_failure (s : TaskState) : result Decision :=
  match ts_status s with
  | RETRY_PENDING => Ok (decision_of s)
  | _ => raise ValueError "not RETRY_PENDING"
  end.

Definition _human_decision (s : TaskState) (e : Event) : result TaskState :=
  tfail_if (negb (bool_decide (ts_status s = BLOCKED)))
    "only a blocked task takes this human decision";;
  tfail_if (negb (bool_decide (ev_attempt e = Some (ts_attempt s)))) "not the blocked attempt";;
  actor ← (payload_at (ev_payload e) "actor" ≫= as_str);
  reason ← (payload_at (ev_payload e) "reason" ≫= λ r, mret (py_str r));
  if decide (ev_type e = EFFECT_CONFIRMED) then
    mret (with_reason (with_resolution (with_status s COMPLETE) (Some RESOLVED_EFFECT_CONFIRMED)
                         (Some actor)) (Some reason))
  else
    tfail_if (ts_cancel_requested s) "cancellation was requested";;
    tfail_if (MAX_ATTEMPTS_LIMIT <=? ts_attempt s) "attempt limit reached";;
    mret (with_resolution
            (with_failure
               (with_dispatch
                  (with_max_attempts (with_status s QUEUED)
                     (Z.max (ts_max_attempts s) (ts_attempt s + 1)))
                  (ts_attempt s) None None false)
               None JNull (Some reason))
            (ts_resolution s) (Some actor)).

(** TASK_CLAIMED: the next attempt, with the input a dependency requires. *)
Definition t_claimed (s : TaskState) (e : Event) : result TaskState :=
  tfail_if (negb (bool_decide (ts_status s = QUEUED))) "only a queued task can be claimed";;
  tfail_if (ts_cancel_requested s) "cancellation was requested";;
  tfail_if (negb (bool_decide (ev_attempt e = Some (ts_attempt s + 1)))) "not the next attempt";;
  tfail_if (ts_max_attempts s <? default 0 (ev_attempt e)) "max_attempts exhausted";;
  let bound := jget_none "input" (ev_payload e) in
  (match ts_depends_on s with
   | None => tfail_if (negb (is_null bound)) "only a task with depends_on is given an input"
   | Some d =>
       ok ← match bound with
            | JNull => Ok false
            | JObj kvs => Ok (bool_decide (jget_none "task_id" kvs = JStr d))
            | _ => raise AttributeError "get"
            end;
       tfail_if (negb ok) "a dependent task is claimed only with the result of its dependency"
   end);;
  mret (with_input
          (with_failure
             (with_result
                (with_dispatch (with_status s CLAIMED) (default 0 (ev_attempt e))
                   (ev_dispatch_id e) (ev_worker_id e) false)
                None (ts_accepted_result_id s))
             None JNull None)
          bound).

(** RESULT_ACCEPTED and RESULT_REJECTED: the verdict on the pending result. *)
Definition t_verdict (s : TaskState) (e : Event) : result TaskState :=
  tfail_if (negb (bool_decide (ts_status s = VERIFYING))) "no result is being verified";;
  _fence s e false;;
  tfail_if (negb (bool_decide (ev_result_id e = ts_pending_result_id s)))
    "verdict is for another result";;
  if decide (ev_type e = RESULT_ACCEPTED) then
    mret (with_resolution (with_result (with_status s ACCEPTED) None (ev_result_id e))
            (Some RESOLVED_VERIFIED) (ts_decided_by s))
  else
    retryable ← payload_at (ev_payload e) "retryable";
    reason ← payload_at (ev_payload e) "reason";
    mret (with_failure (with_result (with_status s RETRY_PENDING) None (ts_accepted_result_id s))
            (Some "rejected") retryable (Some (py_str reason))).

(** RETRY_PENDING whose required decision is BLOCK. *)
Definition must_block (s : TaskState) : bool :=
  bool_decide (ts_status s = RETRY_PENDING ∧ decision_of s = D_BLOCK).

(** TASK_CANCELLED: of a blocked task it is a human decision. *)
Definition t_cancelled (s : TaskState) (e : Event) : result TaskState :=
  tfail_if (negb (ts_cancel_requested s)) "cancellation was not requested";;
  tfail_if (bool_decide (ts_status s = VERIFYING ∨ ts_status s = ACCEPTED))
    "a result is already being verified or accepted";;
  tfail_if (must_block s) "an uncertain outcome must be BLOCKED before it can be cancelled";;
  if decide (ts_status s = BLOCKED) then
    actor ← opt_str (jget_none "actor" (ev_payload e));
    match actor with
    | None => tfail "cancelling a blocked task needs an actor"
    | Some _ => mret (with_resolution (with_status s CANCELLED)
                        (Some RESOLVED_CANCELLED_EFFECT_UNKNOWN) actor)
    end
  else
    by_ ← match jget "actor" (ev_payload e) with
          | None => Ok (ts_decided_by s)
          | Some a => opt_str a
          end;
    mret (with_resolution (with_status s CANCELLED) (ts_resolution s) by_).

Definition _transition (s : TaskState) (e : Event) : result TaskState :=
  let st := ts_status s in
  if decide (ev_type e = LATE_RESULT_DISCARDED) then
    tfail_if (ACTIVE_LEASE st && bool_decide (ev_dispatch_id e = ts_dispatch_id s))
      "result belongs to the active dispatch";;
    mret (with_late s)
  else
  tfail_if (TERMINAL st) "task is terminal";;
  tfail_if (bool_decide (st = BLOCKED)
            && negb (bool_decide (ev_type e ∈ [TASK_CANCEL_REQUESTED; TASK_CANCELLED;
                                               EFFECT_CONFIRMED; RETRY_AUTHORIZED])))
    "a blocked task needs a human decision";;
  match ev_type e with
  | EFFECT_CONFIRMED | RETRY_AUTHORIZED => _human_decision s e
  | TASK_CLAIMED => t_claimed s e
  | TASK_STARTED =>
      tfail_if (negb (bool_decide (st = CLAIMED))) "only a claimed attempt can start";;
      _fence s e true;;
      mret (with_dispatch (with_status s RUNNING) (ts_attempt s) (ts_dispatch_id s)
              (ts_worker_id s) true)
  | TASK_PROGRESS =>
      tfail_if (negb (bool_decide (st = RUNNING))) "progress requires a running attempt";;
      _fence s e true;; mret s
  | RESULT_READY =>
      tfail_if (negb (bool_decide (st = RUNNING))) "a result requires a running attempt";;
      _fence s e true;;
      mret (with_result (with_status s VERIFYING) (ev_result_id e) (ts_accepted_result_id s))
  | RESULT_ACCEPTED | RESULT_REJECTED => t_verdict s e
  | TASK_COMPLETE =>
      tfail_if (negb (bool_decide (st = ACCEPTED))) "only an accepted result completes a task";;
      _fence s e false;;
      tfail_if (negb (bool_decide (ev_result_id e = ts_accepted_result_id s)))
        "completion names a result that was not accepted";;
      mret (with_status s COMPLETE)
  | LEASE_EXPIRED =>
      tfail_if (negb (ACTIVE_LEASE st)) "no active lease";;
      _fence s e true;;
      reason ← payload_at (ev_payload e) "reason";
      mret (with_failure (with_status s RETRY_PENDING) (Some "lease_lost") JNull
              (Some ("lease_expired:" +:+ py_str reason)))
  | TASK_RETRY_SCHEDULED =>
      tfail_if (negb (bool_decide (st = RETRY_PENDING))) "nothing to retry";;
      tfail_if (negb (bool_decide (ev_attempt e = Some (ts_attempt s))))
        "retry must name the failed attempt";;
      tfail_if (negb (bool_decide (decision_of s = D_RETRY))) "retry forbidden";;
      mret (with_dispatch (with_status s QUEUED) (ts_attempt s) None None false)
  | TASK_FAILED =>
      tfail_if (negb (bool_decide (st = RETRY_PENDING ∨ st = QUEUED)))
        "only a queued or failed attempt can fail the task";;
      tfail_if (must_block s) "an uncertain outcome must be BLOCKED, not FAILED";;
      reason ← payload_at (ev_payload e) "reason";
      mret (with_reason (with_status s FAILED) (Some (py_str reason)))
  | TASK_BLOCKED =>
      tfail_if (negb (bool_decide (st = RETRY_PENDING ∨ st = QUEUED)))
        "only a queued or failed attempt can be blocked";;
      reason ← payload_at (ev_payload e) "reason";
      mret (with_reason (with_status s BLOCKED) (Some (py_str reason)))
  | TASK_CANCEL_REQUESTED =>
      tfail_if (ts_cancel_requested s) "cancellation already requested";;
      mret (with_cancel_requested s)
  | TASK_CANCELLED => t_cancelled s e
  | _ => tfail "unhandled event type"
  end.

(** The state a TASK_CREATED event creates. *)
Definition create (e : Event) : result TaskState :=
  let p := ev_payload e in
  task_id ← of_option (Exn TypeError "task_id") (ev_task_id e);
  adapter ← (payload_at p "adapter" ≫= as_str);
  params ← payload_at p "params";
  effect_class ← (payload_at p "effect_class" ≫= as_str);
  max_attempts ← (payload_at p "max_attempts" ≫= as_int);
  lease_ttl_s ← (payload_at p "lease_ttl_s" ≫= as_int);
  timeout_s ← opt_int (jget_none "timeout_s" p);
  depends_on ← opt_str (jget_none "depends_on" p);
  mret (mkTask task_id QUEUED adapter params effect_class max_attempts lease_ttl_s timeout_s
          0 None None false None None false None JNull None 0 None None depends_on JNull
          (ev_seq e) (ev_seq e)).

Definition apply (state : option TaskState) (e : Event) : result (option TaskState) :=
  if SYSTEM_EVENTS (ev_type e) then Ok state
  else if decide (ev_type e = TASK_CREATED) then
    match state with
    | Some _ => tfail "task already exists"
    | None => s ← create e; mret (Some s)
    end
  else match state with
  | None => tfail "unknown task"
  | Some s =>
      tfail_if (negb (bool_decide (ev_task_id e = Some (ts_task_id s))))
        "event belongs to another task";;
      new ← _transition s e;
      mret (Some (with_updated_seq new (ev_seq e)))
  end.

(** The fold of [apply] over the events of one task. *)
Fixpoint run (state : option TaskState) (es : list Event) : result (option TaskState) :=
  match es with
  | [] => Ok state
  | e :: es => s ← apply state e; run s es
  end.

End machine.
