(* ===== verification/Lifecycle.v ===== *)
(** * The life cycle of a task

    [step] is the specification of the state machine: one rule per legal
    transition, with its guard and its effect.  [apply] implements exactly
    these rules; the invariants and the history theorems are proved over
    the rules. *)

From S2P Require Import Prelude PyText Json Events StateMachine.

Section lifecycle.
Context `{PyPlatform}.

(** The event carries the current attempt and dispatch. *)
Definition fenced (s : TaskState) (e : Event) : Prop :=
  ev_attempt e = Some (ts_attempt s) ∧ ev_dispatch_id e = ts_dispatch_id s.
Definition holds_lease (s : TaskState) (e : Event) : Prop :=
  fenced s e ∧ (ev_worker_id e = None ∨ ev_worker_id e = ts_worker_id s).

(** The input a claim binds: none without a dependency, else one naming it. *)
Definition input_for (depends_on : option string) (bound : json) : Prop :=
  match depends_on with
  | None => bound = JNull
  | Some d => ∃ kvs, bound = JObj kvs ∧ jget "task_id" kvs = Some (JStr d)
  end.

Inductive step (s : TaskState) (e : Event) : TaskState → Prop :=
  | step_late :
      ev_type e = LATE_RESULT_DISCARDED →
      ¬ (ACTIVE_LEASE (ts_status s) = true ∧ ev_dispatch_id e = ts_dispatch_id s) →
      step s e (with_late s)
  | step_claimed :
      ev_type e = TASK_CLAIMED → ts_status s = QUEUED → ts_cancel_requested s = false →
      ev_attempt e = Some (ts_attempt s + 1) → ts_attempt s + 1 ≤ ts_max_attempts s →
      input_for (ts_depends_on s) (jget_none "input" (ev_payload e)) →
      step s e
        (with_input
           (with_failure
              (with_result
                 (with_dispatch (with_status s CLAIMED) (ts_attempt s + 1)
                    (ev_dispatch_id e) (ev_worker_id e) false)
                 None (ts_accepted_result_id s))
              None JNull None)
           (jget_none "input" (ev_payload e)))
  | step_started :
      ev_type e = TASK_STARTED → ts_status s = CLAIMED → holds_lease s e →
      step s e (with_dispatch (with_status s RUNNING) (ts_attempt s) (ts_dispatch_id s)
                  (ts_worker_id s) true)
  | step_progress :
      ev_type e = TASK_PROGRESS → ts_status s = RUNNING → holds_lease s e → step s e s
  | step_ready :
      ev_type e = RESULT_READY → ts_status s = RUNNING → holds_lease s e →
      step s e (with_result (with_status s VERIFYING) (ev_result_id e) (ts_accepted_result_id s))
  | step_accepted :
      ev_type e = RESULT_ACCEPTED → ts_status s = VERIFYING → fenced s e →
      ev_result_id e = ts_pending_result_id s →
      step s e (with_resolution (with_result (with_status s ACCEPTED) None (ev_result_id e))
                  (Some RESOLVED_VERIFIED) (ts_decided_by s))
  | step_rejected retryable reason :
      ev_type e = RESULT_REJECTED → ts_status s = VERIFYING → fenced s e →
      ev_result_id e = ts_pending_result_id s →
      jget "retryable" (ev_payload e) = Some retryable →
      jget "reason" (ev_payload e) = Some reason →
      step s e (with_failure (with_result (with_status s RETRY_PENDING) None
                                (ts_accepted_result_id s))
                  (Some "rejected") retryable (Some (py_str reason)))
  | step_complete :
      ev_type e = TASK_COMPLETE → ts_status s = ACCEPTED → fenced s e →
      ev_result_id e = ts_accepted_result_id s →
      step s e (with_status s COMPLETE)
  | step_expired reason :
      ev_type e = LEASE_EXPIRED → ACTIVE_LEASE (ts_status s) = true → holds_lease s e →
      jget "reason" (ev_payload e) = Some reason →
      step s e (with_failure (with_status s RETRY_PENDING) (Some "lease_lost") JNull
                  (Some ("lease_expired:" +:+ py_str reason)))
  | step_retry :
      ev_type e = TASK_RETRY_SCHEDULED → ts_status s = RETRY_PENDING →
      ev_attempt e = Some (ts_attempt s) → decision_of s = D_RETRY →
      step s e (with_dispatch (with_status s QUEUED) (ts_attempt s) None None false)
  | step_failed reason :
      ev_type e = TASK_FAILED → ts_status s = RETRY_PENDING ∨ ts_status s = QUEUED →
      must_block s = false → jget "reason" (ev_payload e) = Some reason →
      step s e (with_reason (with_status s FAILED) (Some (py_str reason)))
  | step_blocked reason :
      ev_type e = TASK_BLOCKED → ts_status s = RETRY_PENDING ∨ ts_status s = QUEUED →
      jget "reason" (ev_payload e) = Some reason →
      step s e (with_reason (with_status s BLOCKED) (Some (py_str reason)))
  | step_cancel_requested :
      ev_type e = TASK_CANCEL_REQUESTED → TERMINAL (ts_status s) = false →
      ts_cancel_requested s = false →
      step s e (with_cancel_requested s)
  | step_cancelled_blocked actor :
      ev_type e = TASK_CANCELLED → ts_status s = BLOCKED → ts_cancel_requested s = true →
      jget "actor" (ev_payload e) = Some (JStr actor) →
      step s e (with_resolution (with_status s CANCELLED)
                  (Some RESOLVED_CANCELLED_EFFECT_UNKNOWN) (Some actor))
  | step_cancelled by_ :
      ev_type e = TASK_CANCELLED → ts_cancel_requested s = true → must_block s = false →
      ts_status s ∈ [QUEUED; CLAIMED; RUNNING; RETRY_PENDING] →
      match jget "actor" (ev_payload e) with
      | None => by_ = ts_decided_by s
      | Some JNull => by_ = None
      | Some (JStr a) => by_ = Some a
      | Some _ => False
      end →
      step s e (with_resolution (with_status s CANCELLED) (ts_resolution s) by_)
  | step_effect_confirmed actor reason :
      ev_type e = EFFECT_CONFIRMED → ts_status s = BLOCKED → ev_attempt e = Some (ts_attempt s) →
      jget "actor" (ev_payload e) = Some (JStr actor) →
      jget "reason" (ev_payload e) = Some reason →
      step s e (with_reason (with_resolution (with_status s COMPLETE)
                               (Some RESOLVED_EFFECT_CONFIRMED) (Some actor))
                  (Some (py_str reason)))
  | step_retry_authorized actor reason :
      ev_type e = RETRY_AUTHORIZED → ts_status s = BLOCKED → ev_attempt e = Some (ts_attempt s) →
      ts_cancel_requested s = false → ts_attempt s < MAX_ATTEMPTS_LIMIT →
      jget "actor" (ev_payload e) = Some (JStr actor) →
      jget "reason" (ev_payload e) = Some reason →
      step s e (with_resolution
                  (with_failure
                     (with_dispatch
                        (with_max_attempts (with_status s QUEUED)
                           (Z.max (ts_max_attempts s) (ts_attempt s + 1)))
                        (ts_attempt s) None None false)
                     None JNull (Some (py_str reason)))
                  (ts_resolution s) (Some actor)).

(** ** [apply] implements the rules *)

Lemma tfail_if_Ok b why u : tfail_if b why = Ok u ↔ b = false.
Proof. apply raise_if_Ok. Qed.

Lemma fence_Ok s e w u :
  _fence s e w = Ok u ↔
  fenced s e ∧ (w = true → ev_worker_id e = None ∨ ev_worker_id e = ts_worker_id s).
Proof.
  unfold _fence, fenced. split.
  - intros Hf. inv_ok. rewrite tfail_if_Ok in *. bool_hyps. split; [done|]. intros ->.
    simpl in *. destruct (ev_worker_id e); bool_hyps; auto.
  - intros [[Ha Hd] Hw]. unfold tfail_if. rewrite (bool_decide_eq_true_2 (ev_attempt e = _)) by done.
    rewrite (bool_decide_eq_true_2 (ev_dispatch_id e = _)) by done.
    destruct u, w; simpl; [|done].
    destruct (Hw eq_refl) as [E|E]; rewrite E; [done|].
    rewrite (bool_decide_eq_true_2 (ts_worker_id s = _)) by done. by destruct (ts_worker_id s).
Qed.

Lemma as_str_Ok j s : as_str j = Ok s ↔ j = JStr s.
Proof. destruct j; naive_solver. Qed.

Lemma payload_at_Ok p k v : payload_at p k = Ok v ↔ jget k p = Some v.
Proof. apply of_option_Ok. Qed.

Lemma opt_str_Some j a : opt_str j = Ok (Some a) → j = JStr a.
Proof. destruct j; naive_solver. Qed.

(** Inverts the guards of a transition. *)
Ltac inv_guards :=
  inv_ok; rewrite ?tfail_if_Ok, ?fence_Ok, ?as_str_Ok, ?payload_at_Ok in *; bool_hyps.

Lemma transition_step s e s' :
  Validated e → _transition s e = Ok s' → step s e s'.
Proof.
  intros Hv Ht. unfold _transition in Ht. case_decide as Hlate.
  { inv_guards. subst. apply step_late; [done|]. intros [Hact Hd]. rewrite Hact in *. simpl in *.
    by bool_hyps. }
  apply bind_Ok in Ht as (? & Hterm & Ht). apply bind_Ok in Ht as (? & Hblk & Ht).
  apply tfail_if_Ok in Hterm, Hblk.
  destruct (ev_type e) eqn:Ety; try done.
  - unfold t_claimed in Ht. inv_guards. subst. repeat match goal with H : ev_attempt e = _ |- _ => rewrite H in * end.
    simpl in *. apply step_claimed; try done.
    unfold input_for. destruct (ts_depends_on s) as [d|].
    + inv_guards. destruct (jget_none "input" (ev_payload e)) as [| | | | | |kvs] eqn:Ei; inv_guards.
      exists kvs. split; [done|]. by apply jget_none_str.
    + inv_guards. by destruct (jget_none "input" (ev_payload e)).
  - inv_guards. subst. destruct_and?. apply step_started; try done. split; auto.
  - inv_guards. subst. destruct_and?. apply step_progress; try done. split; auto.
  - inv_guards. subst. destruct_and?. apply step_ready; try done. split; auto.
  - unfold t_verdict in Ht. rewrite Ety in Ht. simpl in Ht. inv_guards. destruct_and?. subst.
    by apply step_accepted.
  - unfold t_verdict in Ht. rewrite Ety in Ht. simpl in Ht. inv_guards. destruct_and?. subst.
    by apply step_rejected.
  - inv_guards. destruct_and?. subst. by apply step_complete.
  - inv_guards. destruct_and?. subst. apply step_expired; try done. split; auto.
  - inv_guards. subst. by apply step_retry.
  - inv_guards. subst. by apply step_blocked.
  - inv_guards. subst. by apply step_failed.
  - inv_guards. subst. by apply step_cancel_requested.
  - unfold t_cancelled in Ht. inv_guards. case_decide as Eb.
    + apply bind_Ok in Ht as ([actor|] & Hact & Ht); [|done]. inv_ok. subst.
      apply opt_str_Some in Hact. apply step_cancelled_blocked; try done. by apply jget_none_str.
    + inv_guards. subst. apply step_cancelled; try done.
      * destruct (ts_status s); try discriminate; try (exfalso; tauto); set_solver.
      * destruct (jget "actor" (ev_payload e)) as [j|] eqn:Ea; [|by simplify_eq]. unfold raise in *. by destruct j; simpl in *; simplify_eq.
  - unfold _human_decision in Ht. inv_guards. rewrite Ety in Ht. simpl in Ht. inv_ok. subst.
    by apply step_effect_confirmed.
  - unfold _human_decision in Ht. inv_guards. rewrite Ety in Ht. simpl in Ht. inv_guards. subst.
    apply step_retry_authorized; try done.
Qed.

Lemma tfail_if_false {A} b why (k : () → result A) :
  b = false → (tfail_if b why ≫= k) = k tt.
Proof. by intros ->. Qed.

Lemma fence_pass {A} s e w (k : () → result A) :
  fenced s e → (w = true → ev_worker_id e = None ∨ ev_worker_id e = ts_worker_id s) →
  (_fence s e w ≫= k) = k tt.
Proof. intros Hf Hw. by rewrite (proj2 (fence_Ok s e w tt) (conj Hf Hw)). Qed.

Lemma must_block_other s : ts_status s ≠ RETRY_PENDING → must_block s = false.
Proof. intros Hs. apply bool_decide_eq_false_2. tauto. Qed.

(** Passes one guard whose condition the hypotheses decide. *)
Ltac pass_guard :=
  first
    [ rewrite tfail_if_false;
      [|first [by rewrite ?bool_decide_eq_false_2, ?bool_decide_eq_true_2 by (congruence || tauto)
              |by repeat match goal with H : ?x = _ |- context [?x] => rewrite H end]]
    | rewrite fence_pass by first [done|unfold holds_lease in *; tauto] ].

Lemma step_transition s e s' : step s e s' → _transition s e = Ok s'.
Proof.
  intros Hs. unfold _transition.
  destruct Hs as [E Hl|E St Hc Ha Hm Hi|E St Hl|E St Hl|E St Hl|E St Hf Hr|rt rs E St Hf Hr Hrt Hrs
    |E St Hf Hr|rs E St Hl Hrs|E St Ha Hd|rs E St Hb Hrs|rs E St Hrs|E Ht Hc|a E St Hc Ha
    |b E Hc Hb St Hby|a rs E St Ha Hac Hrs|a rs E St Ha Hc Hlt Hac Hrs];
    rewrite E; simpl.
  - rewrite tfail_if_false; [done|]. destruct (ACTIVE_LEASE _); simpl; [|done].
    apply bool_decide_eq_false_2. intros Hd. by apply Hl.
  - do 2 pass_guard. unfold t_claimed. rewrite Ha. simpl. do 3 pass_guard.
    rewrite tfail_if_false by lia. unfold input_for in Hi. destruct (ts_depends_on s) as [d|].
    + destruct Hi as (kvs & -> & Hk). unfold jget_none. simpl. rewrite Hk. simpl.
      by rewrite bool_decide_eq_true_2.
    + by rewrite Hi.
  - repeat pass_guard. done.
  - repeat pass_guard. done.
  - repeat pass_guard. done.
  - do 2 pass_guard. unfold t_verdict. repeat pass_guard. by rewrite E.
  - do 2 pass_guard. unfold t_verdict. repeat pass_guard. rewrite E. simpl.
    unfold payload_at. by rewrite Hrt, Hrs.
  - repeat pass_guard. done.
  - assert (TERMINAL (ts_status s) = false ∧ ts_status s ≠ BLOCKED) as [Ht Hb]
      by (by destruct (ts_status s)).
    repeat pass_guard. unfold payload_at. by rewrite Hrs.
  - repeat pass_guard. done.
  - assert (TERMINAL (ts_status s) = false ∧ ts_status s ≠ BLOCKED) as [Ht Hb'].
    { destruct St as [-> | ->]; done. }
    repeat pass_guard. unfold payload_at. by rewrite Hrs.
  - assert (TERMINAL (ts_status s) = false ∧ ts_status s ≠ BLOCKED) as [Ht Hb'].
    { destruct St as [-> | ->]; done. }
    repeat pass_guard. unfold payload_at. by rewrite Hrs.
  - pass_guard. rewrite tfail_if_false by (apply andb_false_iff; by right). by pass_guard.
  - pass_guard. rewrite tfail_if_false by (apply andb_false_iff; by right). unfold t_cancelled.
    repeat pass_guard. rewrite tfail_if_false by (apply must_block_other; congruence).
    rewrite St. unfold jget_none. by rewrite Ha.
  - assert (TERMINAL (ts_status s) = false ∧ ts_status s ≠ BLOCKED
            ∧ ¬ (ts_status s = VERIFYING ∨ ts_status s = ACCEPTED)) as (Ht & Hb' & Hv).
    { rewrite !elem_of_cons, elem_of_nil in St. destruct (ts_status s); naive_solver. }
    do 2 pass_guard. unfold t_cancelled. repeat pass_guard.
    rewrite decide_False by done.
    destruct (jget "actor" (ev_payload e)) as [[]|]; try done; by subst b.
  - pass_guard. rewrite tfail_if_false by (apply andb_false_iff; by right). unfold _human_decision.
    repeat pass_guard. unfold payload_at. rewrite Hac, Hrs. simpl. by rewrite E.
  - pass_guard. rewrite tfail_if_false by (apply andb_false_iff; by right). unfold _human_decision.
    repeat pass_guard. unfold payload_at. rewrite Hac, Hrs. simpl. rewrite E. simpl.
    repeat pass_guard. rewrite tfail_if_false by lia. done.
Qed.

Lemma apply_step s e s' :
  Validated e → SYSTEM_EVENTS (ev_type e) = false →
  apply (Some s) e = Ok s' ↔
  ev_task_id e = Some (ts_task_id s) ∧
  ∃ s0, step s e s0 ∧ s' = Some (with_updated_seq s0 (ev_seq e)).
Proof.
  intros Hv Hsys. unfold apply. rewrite Hsys. case_decide as Ec.
  { split; [done|]. intros (_ & s0 & Hs & _). by destruct Hs; congruence. }
  split.
  - intros Ha. inv_guards. subst. split; [done|]. eexists. split; [by apply transition_step|done].
  - intros (Ht & s0 & Hs & ->). rewrite tfail_if_false by (by rewrite bool_decide_eq_true_2).
    by rewrite (step_transition _ _ _ Hs).
Qed.

(** ** Type safety: on a constructed event only [TransitionError] is raised *)

Lemma vd_key e k : Validated e → k ∈ (REQUIRED (ev_type e)).2 → is_Some (jget k (ev_payload e)).
Proof. intros Hv Hk. destruct (vd_keys e Hv k Hk) as [v ->]. done. Qed.

Lemma vd_field_task e : Validated e → "task_id" ∈ (REQUIRED (ev_type e)).1 → is_Some (ev_task_id e).
Proof. intros Hv Hk. pose proof (vd_fields e Hv _ Hk) as Hf. revert Hf. unfold field_missing.
  repeat (case_decide; try congruence). by destruct (ev_task_id e). Qed.
Lemma vd_field_dispatch e :
  Validated e → "dispatch_id" ∈ (REQUIRED (ev_type e)).1 → is_Some (ev_dispatch_id e).
Proof. intros Hv Hk. pose proof (vd_fields e Hv _ Hk) as Hf. revert Hf. unfold field_missing.
  repeat (case_decide; try congruence). by destruct (ev_dispatch_id e). Qed.
Lemma vd_field_worker e :
  Validated e → "worker_id" ∈ (REQUIRED (ev_type e)).1 → is_Some (ev_worker_id e).
Proof. intros Hv Hk. pose proof (vd_fields e Hv _ Hk) as Hf. revert Hf. unfold field_missing.
  repeat (case_decide; try congruence). by destruct (ev_worker_id e). Qed.
Lemma vd_field_result e :
  Validated e → "result_id" ∈ (REQUIRED (ev_type e)).1 → is_Some (ev_result_id e).
Proof. intros Hv Hk. pose proof (vd_fields e Hv _ Hk) as Hf. revert Hf. unfold field_missing.
  repeat (case_decide; try congruence). by destruct (ev_result_id e). Qed.

(** What a TASK_CREATED event makes. *)
Lemma create_total e :
  Validated e → ev_type e = TASK_CREATED →
  ∃ s, create e = Ok s ∧ ts_status s = QUEUED ∧ ts_attempt s = 0
       ∧ 1 ≤ ts_max_attempts s ≤ MAX_ATTEMPTS_LIMIT ∧ 1 ≤ ts_lease_ttl_s s
       ∧ ts_task_id s = fmt (ev_task_id e) ∧ ts_depends_on s ≠ Some (ts_task_id s)
       ∧ ts_created_seq s = ev_seq e ∧ ts_updated_seq s = ev_seq e.
Proof.
  intros Hv E. pose proof (vd_type e Hv) as Ht. unfold validate_type_payload in Ht. rewrite E in Ht.
  apply bind_Ok in Ht as (? & (ad & Had & _ & _)%check_id_Ok & Ht).
  apply bind_Ok in Ht as (? & _ & Ht).
  apply bind_Ok in Ht as (known & Hkn & Ht). apply bind_Ok in Ht as (? & Hk2 & Ht).
  apply bind_Ok in Ht as (? & (mx & Hmx & ? & Hmx')%check_pos_Ok & Ht).
  apply bind_Ok in Ht as (? & (ttl & Httl & ? & _)%check_pos_Ok & Ht).
  apply bind_Ok in Ht as (? & Hto & Hdep).
  destruct known; [|discriminate Hk2].
  apply json_in_strs_Ok in Hkn as (ec & Hec & _); [|done].
  specialize (Hmx' _ eq_refl).
  apply jget_none_str in Had, Hec.
  assert (∀ k z, jget_none k (ev_payload e) = JInt z → jget k (ev_payload e) = Some (JInt z)) as Hi.
  { intros k z. unfold jget_none. destruct (jget k _); simpl; [by intros ->|done]. }
  apply Hi in Hmx, Httl. clear Hi.
  destruct (vd_field_task e Hv) as [tid Htid]; [rewrite E; set_solver|].
  destruct (vd_key e "params" Hv) as [params Hp]; [rewrite E; set_solver|].
  assert (∃ t, opt_int (jget_none "timeout_s" (ev_payload e)) = Ok t) as [t Ht].
  { destruct (jget_none "timeout_s" (ev_payload e)); simpl in *; try discriminate; by eexists. }
  assert (∃ d, opt_str (jget_none "depends_on" (ev_payload e)) = Ok d ∧ d ≠ Some tid) as (d & Hd & Hne).
  { destruct (jget_none "depends_on" (ev_payload e)) as [| | | |d| |]; simpl in *; try discriminate.
    - by eexists.
    - exists (Some d). split; [done|]. intros [= ->]. rewrite Htid in Hdep. simpl in Hdep.
      apply bind_Ok in Hdep as (? & _ & Hdep). apply reject_if_Ok, bool_decide_eq_false in Hdep.
      by apply Hdep. }
  unfold create. rewrite Htid. simpl. unfold payload_at.
  rewrite Had; simpl. rewrite Hp; simpl. rewrite Hec; simpl. rewrite Hmx; simpl. rewrite Httl; simpl.
  rewrite Ht; simpl. rewrite Hd; simpl.
  eexists. split; [done|]. simpl. by split_and!.
Qed.

(** Computations that fail with [TransitionError] only. *)
Definition only_transition_error {A} (r : result A) : Prop :=
  ∀ x, r = Err x → exn_cls x = TransitionError.

Lemma ote_Ok {A} (a : A) : only_transition_error (Ok a).
Proof. by intros x. Qed.
Lemma ote_tfail {A} why : only_transition_error (tfail (A:=A) why).
Proof. by intros x [= <-]. Qed.
Lemma ote_tfail_if b why : only_transition_error (tfail_if b why).
Proof. destruct b; [|apply ote_Ok]. by intros x [= <-]. Qed.
Lemma ote_bind {A B} (m : result A) (f : A → result B) :
  only_transition_error m → (∀ a, m = Ok a → only_transition_error (f a)) →
  only_transition_error (m ≫= f).
Proof.
  intros Hm Hf x. destruct m as [a|err]; [exact (Hf a eq_refl x)|].
  intros [= <-]. by apply (Hm err).
Qed.
Lemma ote_fence s e w : only_transition_error (_fence s e w).
Proof. unfold _fence. do 2 (apply ote_bind; [apply ote_tfail_if|intros ? ?]). apply ote_tfail_if. Qed.
Lemma ote_some {A} (r : result A) a : r = Ok a → only_transition_error r.
Proof. intros ->. apply ote_Ok. Qed.

Ltac ote :=
  repeat first
    [ apply ote_tfail_if | apply ote_fence | apply ote_tfail | apply ote_Ok
    | apply ote_bind; [|intros ? ?] ].

Lemma ote_key e k :
  Validated e → k ∈ (REQUIRED (ev_type e)).2 → only_transition_error (payload_at (ev_payload e) k).
Proof. intros Hv Hk. destruct (vd_key e k Hv Hk) as [v Hg]. eapply ote_some. by apply payload_at_Ok. Qed.

(** An actor in a payload is a string. *)
Lemma ote_actor e :
  Validated e → only_transition_error (opt_str (jget_none "actor" (ev_payload e))).
Proof.
  intros Hv. unfold jget_none. destruct (jget "actor" _) eqn:Ea; [|apply ote_Ok].
  destruct (vd_actor e Hv) as (a & Ha & _); [right; unfold jhas; by rewrite Ea|].
  rewrite Ha in Ea. injection Ea as <-. apply ote_Ok.
Qed.

Lemma claimed_input_shape e :
  Validated e → ev_type e = TASK_CLAIMED →
  jget_none "input" (ev_payload e) = JNull ∨ ∃ kvs, jget_none "input" (ev_payload e) = JObj kvs.
Proof.
  intros Hv E. pose proof (vd_type e Hv) as Ht. unfold validate_type_payload in Ht. rewrite E in Ht.
  apply bind_Ok in Ht as (_ & _ & Ht).
  destruct (jget_none "input" (ev_payload e)); simpl in Ht; try discriminate; eauto.
Qed.

Lemma ote_human_decision s e :
  Validated e → HUMAN_DECISIONS (ev_type e) = true → only_transition_error (_human_decision s e).
Proof.
  intros Hv Hh. destruct (vd_actor e Hv) as (a & Ha & _); [by left|].
  destruct (vd_reason e Hv Hh) as (r & Hr & _).
  unfold _human_decision, payload_at. rewrite Ha, Hr. simpl. ote.
  destruct (decide _); ote.
Qed.

Lemma transition_error_class s e : Validated e → only_transition_error (_transition s e).
Proof.
  intros Hv. unfold _transition. case_decide; [by ote|].
  apply ote_bind; [apply ote_tfail_if|intros ? ?]. apply ote_bind; [apply ote_tfail_if|intros ? ?].
  assert (∀ k, k ∈ (REQUIRED (ev_type e)).2 → only_transition_error (payload_at (ev_payload e) k)) as Hk.
  { intros. by apply ote_key. }
  destruct (ev_type e) eqn:E; try (by ote); unfold t_claimed, t_verdict, t_cancelled.
  - ote. destruct (ts_depends_on s); ote.
    destruct (claimed_input_shape e Hv E) as [-> | [kvs ->]]; ote.
  - ote. rewrite E. simpl. ote.
  - ote. rewrite E. simpl. ote; apply Hk; set_solver.
  - ote. apply Hk. set_solver.
  - ote. apply Hk. set_solver.
  - ote. apply Hk. set_solver.
  - ote. destruct (decide (ts_status s = BLOCKED)); ote; [by apply ote_actor|by case_match; ote|].
    pose proof (ote_actor e Hv) as Ha. unfold jget_none in Ha.
    destruct (jget "actor" (ev_payload e)); [exact Ha|apply ote_Ok].
  - apply ote_human_decision; [done|by rewrite E].
  - apply ote_human_decision; [done|by rewrite E].
Qed.

(** ** The state invariant *)

Definition unresolved (s : TaskState) : Prop :=
  ts_pending_result_id s = None ∧ ts_accepted_result_id s = None ∧ ts_resolution s = None.
Definition has_dispatch (s : TaskState) : Prop :=
  is_Some (ts_dispatch_id s) ∧ is_Some (ts_worker_id s) ∧ 1 ≤ ts_attempt s.

Definition status_inv (s : TaskState) : Prop :=
  match ts_status s with
  | QUEUED =>
      ts_dispatch_id s = None ∧ ts_worker_id s = None ∧ ts_started s = false ∧ unresolved s
  | CLAIMED => has_dispatch s ∧ ts_started s = false ∧ unresolved s
  | RUNNING => has_dispatch s ∧ ts_started s = true ∧ unresolved s
  | VERIFYING =>
      has_dispatch s ∧ ts_started s = true ∧ is_Some (ts_pending_result_id s)
      ∧ ts_accepted_result_id s = None ∧ ts_resolution s = None
  | ACCEPTED =>
      has_dispatch s ∧ ts_started s = true ∧ ts_pending_result_id s = None
      ∧ is_Some (ts_accepted_result_id s) ∧ ts_resolution s = Some RESOLVED_VERIFIED
  | RETRY_PENDING =>
      has_dispatch s ∧ unresolved s
      ∧ (ts_failure_kind s = Some "lease_lost"
         ∨ ts_failure_kind s = Some "rejected" ∧ ts_started s = true)
  | COMPLETE =>
      ts_pending_result_id s = None
      ∧ (ts_resolution s = Some RESOLVED_VERIFIED ∧ is_Some (ts_accepted_result_id s)
         ∧ is_Some (ts_dispatch_id s)
         ∨ ts_resolution s = Some RESOLVED_EFFECT_CONFIRMED ∧ ts_accepted_result_id s = None
           ∧ is_Some (ts_decided_by s))
  | FAILED | BLOCKED => unresolved s
  | CANCELLED =>
      ts_cancel_requested s = true ∧ ts_pending_result_id s = None
      ∧ ts_accepted_result_id s = None
      ∧ (ts_resolution s = None
         ∨ ts_resolution s = Some RESOLVED_CANCELLED_EFFECT_UNKNOWN ∧ is_Some (ts_decided_by s))
  end.

Record TaskInv (s : TaskState) : Prop := {
  inv_attempt : 0 ≤ ts_attempt s ≤ ts_max_attempts s;
  inv_max : 1 ≤ ts_max_attempts s ≤ MAX_ATTEMPTS_LIMIT;
  inv_input : if decide (ts_attempt s = 0) then ts_input s = JNull
              else input_for (ts_depends_on s) (ts_input s);
  inv_late : 0 ≤ ts_late_results s;
  inv_status : status_inv s;
}.

Lemma create_inv e s :
  Validated e → ev_type e = TASK_CREATED → create e = Ok s → TaskInv s.
Proof.
  intros Hv E Hc. destruct (create_total e Hv E) as (s' & Hc' & Hq & Ha & Hm & _).
  rewrite Hc in Hc'. injection Hc' as <-. unfold create in Hc. inv_ok. subst. simpl in *.
  split; simpl; try done; lia.
Qed.

Lemma step_inv s e s' : Validated e → TaskInv s → step s e s' → TaskInv s'.
Proof.
  intros Hv [Ha Hm Hi Hl Hs] Hst. pose proof (vd_attempt e Hv) as Hat.
  pose proof (vd_field_dispatch e Hv) as Hfd. pose proof (vd_field_worker e Hv) as Hfw.
  pose proof (vd_field_result e Hv) as Hfr. unfold status_inv, unresolved, has_dispatch in Hs.
  destruct Hst as [E Hnl|E St Hc Hat' Hmx Hin|E St Hle|E St Hle|E St Hle|E St Hf Hr|rt rs E St Hf Hr Hrt Hrs
    |E St Hf Hr|rs E St Hle Hrs|E St Hat' Hd|rs E St Hb Hrs|rs E St Hrs|E Ht Hc|a E St Hc Hac
    |b E Hc Hb St Hby|a rs E St Hat' Hac Hrs|a rs E St Hat' Hc Hlt Hac Hrs];
    rewrite E in Hfd, Hfw, Hfr; try rewrite St in Hs;
    (split; [simpl; lia|simpl; lia|simpl; try done|simpl; try done; lia|];
     unfold status_inv, unresolved, has_dispatch; simpl; rewrite ?St; try done);
    try (destruct_and?; split_and!; auto; done).
  - rewrite decide_False by lia. done.
  - destruct_and?. split_and!; try done; [apply Hfd; set_solver|apply Hfw; set_solver|lia].
  - destruct_and?. split_and!; try done. apply Hfr. set_solver.
  - destruct_and?. split_and!; try done. apply Hfr. set_solver.
  - destruct (ts_status s); try done; destruct_and?; split_and!; auto.
  - destruct St as [St|St]; rewrite St in Hs; by destruct_and?.
  - destruct St as [St|St]; rewrite St in Hs; by destruct_and?.
  - destruct (ts_status s); try done; destruct_and?; split_and!; auto.
  - rewrite !elem_of_cons, elem_of_nil in St.
    destruct St as [St|[St|[St|[St|[]]]]]; rewrite St in Hs; destruct_and?; split_and!; auto.
Qed.

End lifecycle.
