(* ===== verification/History.v ===== *)
(** * Histories of a task

    What holds of every legal sequence of events: each theorem is about
    [run], the fold of [apply], from the absent task. *)

From S2P Require Import Prelude PyText Json Events StateMachine Lifecycle.

Section history.
Context `{PyPlatform}.

Definition of_type (t : EventType) (es : list Event) : list Event :=
  filter (λ e, ev_type e = t) es.
Definition count (t : EventType) (es : list Event) : Z := Z.of_nat (length (of_type t es)).
Definition claims (es : list Event) : list Event := of_type TASK_CLAIMED es.

Lemma of_type_app t es es' : of_type t (es ++ es') = of_type t es ++ of_type t es'.
Proof. apply filter_app. Qed.
Lemma count_app t es es' : count t (es ++ es') = count t es + count t es'.
Proof. unfold count. rewrite of_type_app, length_app. lia. Qed.
Lemma of_type_one t e : of_type t [e] = if decide (ev_type e = t) then [e] else [].
Proof. unfold of_type. by rewrite filter_cons, filter_nil. Qed.
Lemma count_one t e : count t [e] = if decide (ev_type e = t) then 1 else 0.
Proof. unfold count. rewrite of_type_one. by case_decide. Qed.

(** A task in a dispatch: from its claim until it is queued again or ends. *)
Definition dispatched (s : TaskStatus) : bool :=
  match s with CLAIMED | RUNNING | VERIFYING | ACCEPTED | RETRY_PENDING => true | _ => false end.

(** The event counts of a history against the state it leads to; [m0] is the
    attempt budget the task was created with. *)
Record Hist (m0 : Z) (es : list Event) (s : TaskState) : Prop := {
  h_inv : TaskInv s;
  h_attempts : map ev_attempt (claims es)
               = map (λ n, Some (Z.of_nat n)) (seq 1 (Z.to_nat (ts_attempt s)));
  h_created : count TASK_CREATED es = 1;
  h_accepted : count RESULT_ACCEPTED es = if ts_accepted_result_id s is Some _ then 1 else 0;
  h_complete : count TASK_COMPLETE es + count EFFECT_CONFIRMED es
               = if decide (ts_status s = COMPLETE) then 1 else 0;
  h_budget : ts_max_attempts s ≤ m0 + count RETRY_AUTHORIZED es;
  h_lease : dispatched (ts_status s) = true →
    ∃ c, last (claims es) = Some c ∧ ev_attempt c = Some (ts_attempt s)
         ∧ ev_dispatch_id c = ts_dispatch_id s ∧ ev_worker_id c = ts_worker_id s;
}.

Lemma hist_updated_seq m0 es s n : Hist m0 es s → Hist m0 es (with_updated_seq s n).
Proof. intros [[]]. by split; [split|..]. Qed.

Lemma seq_S_Z a : 0 ≤ a →
  map (λ n, Some (Z.of_nat n)) (seq 1 (Z.to_nat (a + 1)))
  = map (λ n, Some (Z.of_nat n)) (seq 1 (Z.to_nat a)) ++ [Some (a + 1)].
Proof.
  intros Ha. replace (Z.to_nat (a + 1)) with (S (Z.to_nat a)) by lia.
  rewrite seq_S, map_app. simpl. repeat f_equal. lia.
Qed.

Lemma step_hist m0 es s e s' :
  Validated e → Hist m0 es s → step s e s' → Hist m0 (es ++ [e]) s'.
Proof.
  intros Hv [Hinv Hat Hcr Hacc Hcomp Hb Hle] Hst.
  pose proof (step_inv s e s' Hv Hinv Hst) as Hinv'.
  pose proof (inv_status s Hinv) as Hs. pose proof (inv_attempt s Hinv) as Hatt.
  unfold status_inv, unresolved in Hs.
  destruct Hst as [E Hnl|E St Hc Hat' Hmx Hin|E St Hl|E St Hl|E St Hl|E St Hf Hr|rt rs E St Hf Hr Hrt Hrs
    |E St Hf Hr|rs E St Hl Hrs|E St Hat' Hd|rs E St Hb' Hrs|rs E St Hrs|E Ht Hc|a E St Hc Hac
    |b E Hc Hb' St Hby|a rs E St Hat' Hac Hrs|a rs E St Hat' Hc Hlt Hac Hrs];
    (split; [done|..]; unfold claims in *;
     rewrite ?count_app, ?of_type_app, ?count_one, ?of_type_one, ?E; simpl;
     rewrite ?app_nil_r, ?Z.add_0_r; try rewrite St in *; simpl in *; try done; try lia).
  - rewrite map_app, Hat, seq_S_Z by lia. simpl. by rewrite Hat'.
  - intros _. exists e. by rewrite last_snoc.
  - destruct Hs as (_ & _ & [r Hp] & Ha & _). rewrite Hr, Hp, Ha in *. lia.
  - rewrite decide_False in Hcomp by (by destruct (ts_status s)). lia.
  - intros _. apply Hle. by destruct (ts_status s).
  - rewrite decide_False in Hcomp by (destruct St as [-> | ->]; done). lia.
  - rewrite decide_False in Hcomp by (destruct St as [-> | ->]; done). lia.
  - rewrite decide_False in Hcomp; [lia|]. rewrite !elem_of_cons, elem_of_nil in St.
    intros Es. rewrite Es in St. naive_solver.
Qed.

Lemma count_system t es :
  SYSTEM_EVENTS t = false → Forall (λ e, SYSTEM_EVENTS (ev_type e) = true) es → count t es = 0.
Proof.
  intros Ht. induction 1 as [|e es He _ IH]; [done|].
  change (e :: es) with ([e] ++ es). rewrite count_app, count_one, IH.
  case_decide; [congruence|lia].
Qed.

Lemma hist_create m0 pre e s :
  Validated e → Forall (λ e, SYSTEM_EVENTS (ev_type e) = true) pre →
  ev_type e = TASK_CREATED → create e = Ok s → ts_max_attempts s = m0 →
  Hist m0 (pre ++ [e]) s.
Proof.
  intros Hv Hpre E Hc Hm. pose proof (create_inv e s Hv E Hc) as Hinv.
  unfold create in Hc. inv_ok. subst.
  assert (claims pre = []) as Hcl.
  { pose proof (count_system TASK_CLAIMED pre eq_refl Hpre) as Hz. unfold count in Hz.
    by destruct (of_type TASK_CLAIMED pre) eqn:?; [|simpl in Hz; lia]. }
  unfold claims in *. split; [done|..]; unfold claims;
    rewrite ?count_app, ?of_type_app, ?count_one, ?of_type_one, ?E, ?Hcl; simpl;
    rewrite ?(count_system _ pre) by done; done || lia.
Qed.

Lemma run_app st es es' : run st (es ++ es') = (st' ← run st es; run st' es').
Proof.
  revert st. induction es as [|e es IH]; intros st; simpl; [done|].
  destruct (apply st e); simpl; [apply IH|done].
Qed.

Lemma hist_system m0 es s e :
  SYSTEM_EVENTS (ev_type e) = true → Hist m0 es s → Hist m0 (es ++ [e]) s.
Proof.
  intros Hs [Hinv Hat Hcr Hacc Hcomp Hb Hle].
  assert (∀ t, SYSTEM_EVENTS t = false → of_type t (es ++ [e]) = of_type t es) as Ho.
  { intros t Ht. rewrite of_type_app, of_type_one.
    destruct (decide (ev_type e = t)); [congruence|by rewrite app_nil_r]. }
  by split; unfold claims, count in *; rewrite ?Ho by done.
Qed.

Lemma apply_some_inv s e st :
  apply (Some s) e = Ok st → ∃ s', st = Some s'.
Proof.
  unfold apply. destruct (SYSTEM_EVENTS _); [intros; inv_ok; by eexists|].
  case_decide; [done|]. intros. inv_ok. subst. by eexists.
Qed.

Lemma apply_hist m0 es s e s' :
  Validated e → Hist m0 es s → apply (Some s) e = Ok (Some s') → Hist m0 (es ++ [e]) s'.
Proof.
  intros Hv Hh Ha. destruct (SYSTEM_EVENTS (ev_type e)) eqn:Hsys.
  - unfold apply in Ha. rewrite Hsys in Ha. inv_ok. by apply hist_system.
  - apply apply_step in Ha as (_ & s0 & Hst & [= ->]); [|done..].
    apply hist_updated_seq. by eapply step_hist.
Qed.

Lemma run_some_hist m0 es pre s st :
  Forall Validated es → Hist m0 pre s → run (Some s) es = Ok st →
  ∃ s', st = Some s' ∧ Hist m0 (pre ++ es) s'.
Proof.
  intros Hv. revert pre s. induction Hv as [|e es Hv _ IH]; intros pre s Hh Hr; simpl in Hr.
  - inv_ok. rewrite app_nil_r. eauto.
  - apply bind_Ok in Hr as (st1 & Ha & Hr). destruct (apply_some_inv _ _ _ Ha) as [s1 ->].
    rewrite cons_middle, app_assoc. eapply IH; [|done]. by eapply apply_hist.
Qed.

(** The attempt budget a history starts with. *)
Definition created_budget (es : list Event) : Z :=
  match of_type TASK_CREATED es with
  | e :: _ => match jget "max_attempts" (ev_payload e) with Some (JInt n) => n | _ => 0 end
  | [] => 0
  end.

Lemma run_none_prefix es pre st :
  Forall Validated es → Forall (λ e, SYSTEM_EVENTS (ev_type e) = true) pre →
  run None es = Ok st →
  st = None ∧ Forall (λ e, SYSTEM_EVENTS (ev_type e) = true) (pre ++ es) ∨
  ∃ s, st = Some s ∧ Hist (created_budget (pre ++ es)) (pre ++ es) s.
Proof.
  intros Hv. revert pre. induction Hv as [|e es Hv Hes IH]; intros pre Hpre Hr; simpl in Hr.
  - inv_ok. rewrite app_nil_r. auto.
  - rewrite cons_middle, app_assoc. apply bind_Ok in Hr as (st1 & Ha & Hr). unfold apply in Ha.
    destruct (SYSTEM_EVENTS (ev_type e)) eqn:Hsys.
    { inv_ok. subst. apply IH; [|done]. apply Forall_app; auto. }
    case_decide as E; [|done]. apply bind_Ok in Ha as (s & Hc & Ha). inv_ok. subst. right.
    assert (created_budget ((pre ++ [e]) ++ es) = ts_max_attempts s) as ->.
    { unfold created_budget. rewrite !of_type_app, of_type_one, decide_True by done.
      assert (of_type TASK_CREATED pre = []) as ->.
      { pose proof (count_system TASK_CREATED pre eq_refl Hpre) as Hz. unfold count in Hz.
        by destruct (of_type TASK_CREATED pre); [|simpl in Hz; lia]. }
      simpl. unfold create in Hc. inv_ok. subst. simpl. unfold payload_at in *. inv_ok.
      match goal with H : as_int ?j = Ok ?n, H' : jget "max_attempts" _ = Some ?j |- _ =>
        rewrite H'; destruct j; try discriminate H; by injection H end. }
    eapply run_some_hist; [done| |done]. by apply hist_create.
Qed.

(** Every history that leads to a task state satisfies [Hist]. *)
Lemma run_hist es s :
  Forall Validated es → run None es = Ok (Some s) → Hist (created_budget es) es s.
Proof.
  intros Hv Hr. destruct (run_none_prefix es [] _ Hv (Forall_nil_2 _) Hr) as [[? _]|(s' & [= <-] & Hh)].
  - done.
  - exact Hh.
Qed.

(** ** The theorems of the life cycle *)

Lemma apply_absent e x :
  Validated e → apply None e = Err x → exn_cls x = TransitionError.
Proof.
  intros Hv. unfold apply. destruct (SYSTEM_EVENTS _); [done|]. case_decide as E.
  - destruct (create_total e Hv E) as (s & -> & _). done.
  - by intros [= <-].
Qed.

Lemma apply_error_class st e x :
  Valid e → apply st e = Err x → exn_cls x = TransitionError.
Proof.
  intros Hv%valid_validated Ha. destruct st as [s|]; [|by eapply apply_absent].
  unfold apply in Ha. destruct (SYSTEM_EVENTS _); [done|]. case_decide.
  { by injection Ha as <-. }
  revert Ha. apply (ote_bind (tfail_if _ _)); [apply ote_tfail_if|intros _ _].
  apply ote_bind; [by apply transition_error_class|intros; apply ote_Ok].
Qed.

(** C32: the state machine implements the transition rules: on a constructed
    task event [apply] succeeds exactly when the event names the task and a
    rule of [step] applies, and then gives that rule's state (stamped with the
    event's sequence number). *)
Theorem apply_implements_step s e s' :
  Valid e → SYSTEM_EVENTS (ev_type e) = false →
  apply (Some s) e = Ok s' ↔
  ev_task_id e = Some (ts_task_id s) ∧
  ∃ s0, step s e s0 ∧ s' = Some (with_updated_seq s0 (ev_seq e)).
Proof. intros Hv%valid_validated Hs. by apply apply_step. Qed.

(** Folding a constructed event never fails in any other way than by
    [TransitionError]: no missing key, no value of the wrong type. *)
Theorem apply_raises_only_transition_error st e x :
  Valid e → apply st e = Err x → exn_cls x = TransitionError.
Proof. apply apply_error_class. Qed.

Lemma forall_validated es : Forall Valid es → Forall Validated es.
Proof. intros Hv. eapply Forall_impl; [exact Hv|apply valid_validated]. Qed.
#[local] Hint Resolve forall_validated : core.

(** Every state a legal history leads to satisfies the state invariant:
    the attempt stays within the budget and the budget within 100, the fields
    of a dispatch, a pending and an accepted result are set exactly in the
    statuses that own them, and a completed task says how it was resolved. *)
Theorem run_invariant es s :
  Forall Valid es → run None es = Ok (Some s) → TaskInv s.
Proof. intros. by eapply h_inv, run_hist; [apply forall_validated|]. Qed.

(** C1: exactly-once completion: in a legal history a result is accepted at
    most once, the task completes at most once (by its accepted result or by a
    human confirmation, never both), and it has completed exactly when its
    status says so. *)
Theorem exactly_once_completion es s :
  Forall Valid es → run None es = Ok (Some s) →
  count RESULT_ACCEPTED es ≤ 1
  ∧ count TASK_COMPLETE es + count EFFECT_CONFIRMED es ≤ 1
  ∧ (count TASK_COMPLETE es + count EFFECT_CONFIRMED es = 1 ↔ ts_status s = COMPLETE)
  ∧ (count RESULT_ACCEPTED es = 1 ↔ is_Some (ts_accepted_result_id s)).
Proof.
  intros Hv Hr. destruct (run_hist es s) as [_ _ _ Ha Hc _ _]; [auto|done|].
  rewrite Ha, Hc. destruct (ts_accepted_result_id s); case_decide;
    (split_and!; [lia|lia|split; congruence || done|]); split; intros; done || lia.
Qed.

(** C34: attempts are claimed strictly in order 1, 2, 3, ... and never beyond
    the budget: each claim past the one the task was created with was
    authorised by a human, and there are at most 100 in all. *)
Theorem attempts_in_order_and_bounded es s :
  Forall Valid es → run None es = Ok (Some s) →
  map ev_attempt (claims es)
  = map (λ n, Some (Z.of_nat n)) (seq 1 (length (claims es)))
  ∧ count TASK_CLAIMED es = ts_attempt s
  ∧ count TASK_CLAIMED es ≤ created_budget es + count RETRY_AUTHORIZED es
  ∧ count TASK_CLAIMED es ≤ MAX_ATTEMPTS_LIMIT.
Proof.
  intros Hv Hr. destruct (run_hist es s) as [[Hat Hmax _ _ _] Hm _ _ _ Hb _]; [auto|done|].
  assert (length (claims es) = Z.to_nat (ts_attempt s)) as Hl.
  { apply (f_equal length) in Hm. by rewrite !length_map, length_seq in Hm. }
  rewrite Hl. unfold count, claims in *. rewrite Hl. split_and!; [done|lia..].
Qed.

Definition lease_event (t : EventType) : bool :=
  match t with TASK_STARTED | TASK_PROGRESS | RESULT_READY | LEASE_EXPIRED => true | _ => false end.

(** C33: dispatch fencing: a start, a progress report, a result or a lease
    expiry is accepted only if it carries the attempt, the dispatch id and the
    worker id of the latest claim of the task; a progress report may leave the
    worker out. *)
Theorem dispatch_fencing es s e st :
  Forall Valid es → Valid e → run None es = Ok (Some s) →
  lease_event (ev_type e) = true → apply (Some s) e = Ok st →
  ∃ c, last (claims es) = Some c ∧ ev_attempt e = ev_attempt c
       ∧ ev_dispatch_id e = ev_dispatch_id c
       ∧ (ev_worker_id e = ev_worker_id c ∨ ev_type e = TASK_PROGRESS ∧ ev_worker_id e = None).
Proof.
  intros Hv Hve Hr Ht Ha. destruct (run_hist es s) as [_ _ _ _ _ _ Hl]; [auto|done|].
  apply apply_step in Ha as (_ & s0 & Hst & _);
    [|by apply valid_validated|by destruct (ev_type e)].
  assert (holds_lease s e ∧ dispatched (ts_status s) = true) as [[[Hea Hed] Hew] Hd].
  { destruct Hst; try (by rewrite H0 in Ht); (split; [done|]); try by rewrite H1.
    by destruct (ts_status s). }
  destruct (Hl Hd) as (c & Hc & E1 & E2 & E3). exists c. rewrite E1, E2, E3. split_and!; [done..|].
  destruct Hew as [Hnone|]; [right|by left]. split; [|done].
  pose proof (vd_fields _ (valid_validated _ Hve) "worker_id") as Hw.
  destruct (ev_type e); try done; exfalso; unfold field_missing in Hw; cbn in Hw; rewrite Hnone in Hw;
    specialize (Hw ltac:(set_solver)); done.
Qed.

(** What an uncertain outcome leaves behind until a human decides. *)
Definition awaits_human (s : TaskState) : Prop :=
  ts_status s = BLOCKED ∨ TERMINAL (ts_status s) = true ∨ must_block s = true.

Lemma must_block_true s :
  must_block s = true ↔ ts_status s = RETRY_PENDING ∧ decision_of s = D_BLOCK.
Proof. apply bool_decide_eq_true. Qed.

Lemma decision_block_cancel s :
  decision_of s = D_BLOCK → decision_of (with_cancel_requested s) = D_BLOCK.
Proof. unfold decision_of. simpl. repeat case_match; done. Qed.

Lemma step_awaits_human s e s' :
  awaits_human s → step s e s' → ev_type e ≠ RETRY_AUTHORIZED → awaits_human s'.
Proof.
  unfold awaits_human. rewrite !must_block_true. intros Hw Hst Hne.
  destruct Hst; simpl in *; try (by right; left); try (by left); try done;
    try (by exfalso; rewrite H1 in Hw; simpl in Hw; naive_solver).
  - exfalso. destruct Hw as [Hw|[Hw|[Hw _]]]; [rewrite Hw in H1; done| |rewrite Hw in H1; done].
    by destruct (ts_status s).
  - exfalso. rewrite H1 in Hw. simpl in Hw. destruct Hw as [Hw|[Hw|[_ Hw]]]; congruence.
  - destruct Hw as [->|[Hw|[-> Hw]]]; [by left|congruence|].
    right; right. split; [done|]. by apply decision_block_cancel.
Qed.

Lemma run_awaits_human es s s' :
  Forall Validated es → awaits_human s → run (Some s) es = Ok (Some s') →
  Forall (λ e, ev_type e ≠ RETRY_AUTHORIZED) es → awaits_human s'.
Proof.
  intros Hv. revert s. induction Hv as [|e es Hv _ IH]; intros s Hw Hr Hne; simpl in Hr.
  - by inv_ok.
  - apply Forall_cons in Hne as [Hne Hnes]. apply bind_Ok in Hr as (st1 & Ha & Hr).
    destruct (SYSTEM_EVENTS (ev_type e)) eqn:Hs.
    + unfold apply in Ha. rewrite Hs in Ha. inv_ok. by apply (IH s).
    + apply apply_step in Ha as (_ & s0 & Hst & ->); [|done..].
      eapply IH; [|done|done]. by eapply (step_awaits_human s e s0).
Qed.

(** C22: no blind replay: once the lease of a started attempt of a task that is
    not classified idempotent is lost, the task is claimed again only after a
    human authorised the retry. *)
Theorem no_blind_replay s x s1 mid sm c st :
  Valid x → Forall Valid mid → Valid c →
  apply (Some s) x = Ok (Some s1) → ev_type x = LEASE_EXPIRED →
  ts_started s = true → may_auto_retry (ts_effect_class s) = false →
  run (Some s1) mid = Ok (Some sm) →
  apply (Some sm) c = Ok st → ev_type c = TASK_CLAIMED →
  Exists (λ e, ev_type e = RETRY_AUTHORIZED) mid.
Proof.
  intros Hvx Hvm Hvc Hx Ex Hstart Hne Hr Hc Ec.
  destruct (decide (Exists (λ e, ev_type e = RETRY_AUTHORIZED) mid)) as [|Hno]; [done|].
  exfalso. apply not_Exists_Forall in Hno; [|solve_decision].
  apply apply_step in Hx as (_ & s0 & Hst & [= ->]); [|by apply valid_validated|by rewrite Ex].
  apply apply_step in Hc as (_ & s2 & Hst2 & _); [|by apply valid_validated|by rewrite Ec].
  assert (awaits_human (with_updated_seq s0 (ev_seq x))) as Hw.
  { right; right. apply must_block_true. destruct Hst; try congruence. simpl. split; [done|].
    unfold decision_of. simpl. by rewrite Hstart, Hne. }
  apply (run_awaits_human mid _ sm) in Hw; [|auto|done|done].
  unfold awaits_human in Hw. rewrite must_block_true in Hw.
  destruct Hst2; try congruence. rewrite H1 in Hw. simpl in Hw. naive_solver.
Qed.

(** A terminal task accepts nothing but late results: whatever legal
    events follow, its status, resolution, accepted result and attempt stay,
    and every one of them is a discarded late result or a system event. *)
Theorem terminal_absorbing es s s' :
  Forall Valid es → TERMINAL (ts_status s) = true → run (Some s) es = Ok (Some s') →
  ts_status s' = ts_status s ∧ ts_resolution s' = ts_resolution s
  ∧ ts_accepted_result_id s' = ts_accepted_result_id s ∧ ts_attempt s' = ts_attempt s
  ∧ Forall (λ e, ev_type e = LATE_RESULT_DISCARDED ∨ SYSTEM_EVENTS (ev_type e) = true) es.
Proof.
  intros Hv. revert s. induction Hv as [|e es Hv _ IH]; intros s Ht Hr; simpl in Hr.
  - by inv_ok.
  - apply bind_Ok in Hr as (st1 & Ha & Hr). destruct (SYSTEM_EVENTS (ev_type e)) eqn:Hs.
    + unfold apply in Ha. rewrite Hs in Ha. inv_ok. destruct (IH s) as (?&?&?&?&?); auto 10.
    + apply apply_step in Ha as (_ & s0 & Hst & ->); [|by apply valid_validated|done].
      assert (s0 = with_late s ∧ ev_type e = LATE_RESULT_DISCARDED) as [-> E].
      { destruct Hst; try done; try (by rewrite H1 in Ht); try congruence;
          try (by destruct (ts_status s)); try (by destruct H1 as [H1|H1]; rewrite H1 in Ht).
        rewrite !elem_of_cons, elem_of_nil in H3. destruct (ts_status s); naive_solver. }
      destruct (IH (with_updated_seq (with_late s) (ev_seq e))) as (?&?&?&?&?); auto 10.
Qed.

Lemma step_leaves_blocked s e s' :
  ts_status s = BLOCKED → step s e s' → ts_status s' ≠ BLOCKED →
  ev_type e ∈ [EFFECT_CONFIRMED; RETRY_AUTHORIZED; TASK_CANCELLED]
  ∧ (HUMAN_DECISIONS (ev_type e) = true ∨ jhas "actor" (ev_payload e) = true).
Proof.
  intros Hb Hst Hnb. rewrite !elem_of_cons, elem_of_nil. unfold jhas.
  destruct Hst as [E Hnl|E St|E St|E St|E St|E St|? ? E St|E St|? E St|E St|? E [St|St]|? E [St|St]|E Ht
    |a E St Hc Hac|b E Hc Hb' St|? ? E St|? ? E St]; simpl in Hnb; try congruence; rewrite E.
  - by rewrite Hb in St.
  - rewrite Hac. auto.
  - by rewrite Hb, !elem_of_cons, elem_of_nil in St; destruct St as [|[|[|[|]]]].
  - auto.
  - auto.
Qed.

(** A decision on a blocked task that names who took it. *)
Definition human_decision (e : Event) : Prop :=
  ev_type e ∈ [EFFECT_CONFIRMED; RETRY_AUTHORIZED; TASK_CANCELLED]
  ∧ ∃ actor, jget "actor" (ev_payload e) = Some (JStr actor) ∧ actor ≠ "".

(** A BLOCKED task leaves BLOCKED only by a human decision: a legal
    continuation that ends in another status contains a confirmation, an
    authorised retry or a cancellation that names a non-empty actor. *)
Theorem blocked_needs_human es s s' :
  Forall Valid es → ts_status s = BLOCKED → run (Some s) es = Ok (Some s') →
  ts_status s' ≠ BLOCKED → Exists human_decision es.
Proof.
  intros Hv. revert s. induction Hv as [|e es Hv _ IH]; intros s Hb Hr Hne; simpl in Hr.
  - by inv_ok.
  - apply bind_Ok in Hr as (st1 & Ha & Hr). destruct (SYSTEM_EVENTS (ev_type e)) eqn:Hs.
    + unfold apply in Ha. rewrite Hs in Ha. inv_ok. subst. right. by apply (IH s).
    + apply apply_step in Ha as (_ & s0 & Hst & ->); [|by apply valid_validated|done].
      destruct (decide (ts_status s0 = BLOCKED)) as [Hb0|Hnb].
      { right. by apply (IH (with_updated_seq s0 (ev_seq e))). }
      left. destruct (step_leaves_blocked s e s0 Hb Hst Hnb) as [Hin Hk].
      split; [done|]. destruct (vd_actor e (valid_validated _ Hv)) as (a & Ha & ?); eauto.
Qed.

(** The event type the controller journals for a decision. *)
Definition decision_event (d : Decision) : EventType :=
  match d with
  | D_RETRY => TASK_RETRY_SCHEDULED | D_FAIL => TASK_FAILED
  | D_BLOCK => TASK_BLOCKED | D_CANCEL => TASK_CANCELLED
  end.
Definition decision_status (d : Decision) : TaskStatus :=
  match d with D_RETRY => QUEUED | D_FAIL => FAILED | D_BLOCK => BLOCKED | D_CANCEL => CANCELLED end.

(** The decision after a failure is always a legal next step, and the only
    legal retry: for a task in RETRY_PENDING the event of its decision is
    accepted and leads to the decided status, and a retry is accepted only
    when the decision is to retry. *)
Theorem decision_is_legal s e :
  Valid e → ts_status s = RETRY_PENDING → ev_task_id e = Some (ts_task_id s) →
  (ev_type e = decision_event (decision_of s) →
   (decision_of s = D_RETRY → ev_attempt e = Some (ts_attempt s)) →
   ∃ s', apply (Some s) e = Ok (Some s') ∧ ts_status s' = decision_status (decision_of s))
  ∧ (∀ s', ev_type e = TASK_RETRY_SCHEDULED → apply (Some s) e = Ok s' → decision_of s = D_RETRY).
Proof.
  intros Hv%valid_validated St Hid. split.
  - intros E Hat. assert (∀ s', step s e s' → ts_status s' = decision_status (decision_of s) →
      ∃ s'', apply (Some s) e = Ok (Some s'') ∧ ts_status s'' = decision_status (decision_of s)) as Hk.
    { intros s' Hst Hs'. exists (with_updated_seq s' (ev_seq e)). split; [|done].
      apply apply_step; [done|by rewrite E; destruct (decision_of s)|eauto]. }
    assert (decision_of s ≠ D_BLOCK → must_block s = false) as Hmb.
    { intros Hd. apply bool_decide_eq_false_2. tauto. }
    assert (∀ d, decision_of s = d → d ≠ D_RETRY → d ≠ D_CANCEL →
            is_Some (jget "reason" (ev_payload e))) as Hre.
    { intros d Hd ??. apply vd_key; [done|]. rewrite E, Hd. destruct d; simpl; set_solver. }
    destruct (decision_of s) eqn:Ed; simpl in *.
    + by eapply Hk; [apply step_retry; auto|].
    + destruct (Hre D_FAIL) as [r Hr]; [done..|].
      by eapply Hk; [apply (step_failed s e r); auto|].
    + destruct (Hre D_BLOCK) as [r Hr]; [done..|].
      by eapply Hk; [apply (step_blocked s e r); auto|].
    + assert (ts_cancel_requested s = true) as Hc.
      { revert Ed. unfold decision_of. repeat case_match; done. }
      assert (ts_status s ∈ [QUEUED; CLAIMED; RUNNING; RETRY_PENDING]) as Hin by (rewrite St; set_solver).
      destruct (jget "actor" (ev_payload e)) as [j|] eqn:Ej.
      * destruct (vd_actor e Hv) as (a & Ha & _); [right; unfold jhas; by rewrite Ej|].
        rewrite Ha in Ej. injection Ej as <-.
        by eapply Hk; [apply (step_cancelled s e (Some a)); auto; by rewrite Ha|].
      * by eapply Hk; [apply (step_cancelled s e (ts_decided_by s)); auto; by rewrite Ej|].
  - intros s' E Ha. apply apply_step in Ha as (_ & s0 & Hst & _); [|done|by rewrite E].
    by destruct Hst; congruence.
Qed.

End history.
