(* ===== verification/Projection.v ===== *)
(** * Projections ([courier_core/projection.py])

    The [tasks] table as SQLite holds it, the conversions between a state and
    its row, the fold of one sealed event into the table, the pure in-memory
    replay it must match, and the fingerprint of the table. *)

From Stdlib Require Import Ascii.
From S2P Require Import Prelude PyText Json Sha256 Events StateMachine Lifecycle History.

Definition PROJECTION_VERSION : string := "3".

(** One row of [tasks]: JSON columns hold text, boolean columns 0 or 1. *)
Record TaskRow := mkTaskRow {
  tr_task_id : string;
  tr_status : string;
  tr_adapter : string;
  tr_params : string;
  tr_effect_class : string;
  tr_max_attempts : Z;
  tr_lease_ttl_s : Z;
  tr_timeout_s : option Z;
  tr_attempt : Z;
  tr_dispatch_id : option string;
  tr_worker_id : option string;
  tr_started : Z;
  tr_pending_result_id : option string;
  tr_accepted_result_id : option string;
  tr_cancel_requested : Z;
  tr_failure_kind : option string;
  tr_retryable : json;
  tr_last_reason : option string;
  tr_late_results : Z;
  tr_resolution : option string;
  tr_decided_by : option string;
  tr_depends_on : option string;
  tr_input : string;
  tr_created_seq : option Z;
  tr_updated_seq : option Z;
}.

#[export] Instance TaskRow_eq_dec : EqDecision TaskRow.
Proof. solve_decision. Defined.

(** The projection tables: [tasks], and [projection_meta]'s version and
    last_seq. *)
Record Projection := mkProjection {
  p_tasks : gmap string TaskRow;
  p_version : string;
  p_last_seq : Z;
}.

Definition z_of_bool (b : bool) : Z := if b then 1 else 0.

(** SQLite's adapter stores a bool as an integer and refuses a list or a dict. *)
Definition sql_value (j : json) : result json :=
  match j with
  | JBool b => Ok (JInt (z_of_bool b))
  | JArr _ | JObj _ => raise OperationalError "type is not supported"
  | _ => Ok j
  end.

Definition int64_max : Z := 9223372036854775807.
Definition sql_int_ok (z : Z) : bool := (- int64_max - 1 <=? z) && (z <=? int64_max).
Definition sql_opt_int_ok (o : option Z) : bool :=
  match o with Some z => sql_int_ok z | None => true end.

Section projection.
Context `{PyPlatform}.

Definition _to_row (s : TaskState) : TaskRow :=
  mkTaskRow (ts_task_id s) (status_value (ts_status s)) (ts_adapter s)
    (canonical_json (ts_params s)) (ts_effect_class s) (ts_max_attempts s) (ts_lease_ttl_s s)
    (ts_timeout_s s) (ts_attempt s) (ts_dispatch_id s) (ts_worker_id s) (z_of_bool (ts_started s))
    (ts_pending_result_id s) (ts_accepted_result_id s) (z_of_bool (ts_cancel_requested s))
    (ts_failure_kind s) (ts_retryable s) (ts_last_reason s) (ts_late_results s) (ts_resolution s)
    (ts_decided_by s) (ts_depends_on s) (canonical_json (ts_input s)) (ts_created_seq s)
    (ts_updated_seq s).

(** Binding the row's values as SQL parameters. *)
Definition bind_row (r : TaskRow) : result TaskRow :=
  raise_if (negb (forallb sql_int_ok [tr_max_attempts r; tr_lease_ttl_s r; tr_attempt r; tr_late_results r]
                  && forallb sql_opt_int_ok [tr_timeout_s r; tr_created_seq r; tr_updated_seq r]))
    (Exn OverflowError "Python int too large to convert to SQLite INTEGER");;
  retryable ← sql_value (tr_retryable r);
  mret (mkTaskRow (tr_task_id r) (tr_status r) (tr_adapter r) (tr_params r) (tr_effect_class r)
          (tr_max_attempts r) (tr_lease_ttl_s r) (tr_timeout_s r) (tr_attempt r)
          (tr_dispatch_id r) (tr_worker_id r) (tr_started r) (tr_pending_result_id r)
          (tr_accepted_result_id r) (tr_cancel_requested r) (tr_failure_kind r) retryable
          (tr_last_reason r) (tr_late_results r) (tr_resolution r) (tr_decided_by r)
          (tr_depends_on r) (tr_input r) (tr_created_seq r) (tr_updated_seq r)).

Definition _from_row (r : TaskRow) : result TaskState :=
  params ← loads (tr_params r);
  input ← loads (tr_input r);
  status ← of_option (Exn ValueError "not a valid TaskStatus") (status_of_value (tr_status r));
  mret (mkTask (tr_task_id r) status (tr_adapter r) params (tr_effect_class r)
          (tr_max_attempts r) (tr_lease_ttl_s r) (tr_timeout_s r) (tr_attempt r)
          (tr_dispatch_id r) (tr_worker_id r) (negb (tr_started r =? 0))
          (tr_pending_result_id r) (tr_accepted_result_id r) (negb (tr_cancel_requested r =? 0))
          (tr_failure_kind r) (tr_retryable r) (tr_last_reason r) (tr_late_results r)
          (tr_resolution r) (tr_decided_by r) (tr_depends_on r) input (tr_created_seq r)
          (tr_updated_seq r)).

(** [CREATE TABLE IF NOT EXISTS] and [INSERT OR IGNORE]. *)
Definition create_schema (o : option Projection) : Projection :=
  match o with Some p => p | None => mkProjection ∅ PROJECTION_VERSION 0 end.

Definition is_current (o : option Projection) : bool :=
  match o with Some p => bool_decide (p_version p = PROJECTION_VERSION) | None => false end.

Definition load_task (p : Projection) (task_id : option string) : result (option TaskState) :=
  match task_id with
  | None => Ok None
  | Some k => match p_tasks p !! k with
              | None => Ok None
              | Some r => s ← _from_row r; mret (Some s)
              end
  end.

(** [ORDER BY created_seq, task_id] *)
Definition row_le (a b : TaskRow) : Prop :=
  let k r := match tr_created_seq r with Some z => z | None => - int64_max - 2 end in
  k a < k b ∨ k a = k b ∧ String.le (tr_task_id a) (tr_task_id b).
#[global] Instance row_le_dec a b : base.Decision (row_le a b).
Proof. unfold row_le. apply _. Defined.

Definition rows (p : Projection) : list TaskRow := (map_to_list (p_tasks p)).*2.

Definition load_tasks (p : Projection) (status : option string) : result (list TaskState) :=
  let selected := match status with
                  | None => rows p
                  | Some v => filter (λ r, tr_status r = v) (rows p)
                  end in
  mapM _from_row (merge_sort row_le selected).

(** [INSERT OR REPLACE] of the row and the update of last_seq. *)
Definition store (p : Projection) (state : option TaskState) (seq : Z) : result Projection :=
  tasks ← match state with
          | None => Ok (p_tasks p)
          | Some s => r ← bind_row (_to_row s); mret (<[tr_task_id r := r]> (p_tasks p))
          end;
  mret (mkProjection tasks (p_version p) seq).

Definition apply_event (p : Projection) (e : Event) : result (Projection * option TaskState) :=
  match ev_seq e with
  | None => raise ProjectionError "only sealed events can be projected"
  | Some seq =>
      if SYSTEM_EVENTS (ev_type e) then
        p' ← store p None seq; mret (p', None)
      else
        old ← load_task p (ev_task_id e);
        new ← apply old e;
        p' ← store p new seq;
        mret (p', new)
  end.

Definition last_seq (o : option Projection) : Z :=
  match o with Some p => p_last_seq p | None => 0 end.

(** [except ValueError as exc: raise ProjectionError] *)
Definition as_projection_error {A} (r : result A) : result A :=
  match r with
  | Err x => if is_value_error x then raise ProjectionError (exn_msg x) else Err x
  | Ok a => Ok a
  end.

(** The tables dropped, made again and filled from the events; an event that
    cannot be read from its row stops the iteration with its own error. *)
Fixpoint replay (p : Projection) (es : list (result Event)) : result Projection :=
  match es with
  | [] => Ok p
  | r :: es =>
      e ← r;
      '(p', _) ← as_projection_error (apply_event p e);
      replay p' es
  end.
Definition rebuild_in_place (es : list (result Event)) : result Projection :=
  replay (create_schema None) es.

(** Replay of every journal event into a fresh database. *)
Definition rebuild (es : list (result Event)) : result Projection :=
  replay (create_schema None) es.

(** [canonical_json(list(row))] of a stored row. *)
Definition row_json (r : TaskRow) : json :=
  JArr [JStr (tr_task_id r); JStr (tr_status r); JStr (tr_adapter r); JStr (tr_params r);
        JStr (tr_effect_class r); JInt (tr_max_attempts r); JInt (tr_lease_ttl_s r);
        jopt_int (tr_timeout_s r); JInt (tr_attempt r); jopt (tr_dispatch_id r);
        jopt (tr_worker_id r); JInt (tr_started r); jopt (tr_pending_result_id r);
        jopt (tr_accepted_result_id r); JInt (tr_cancel_requested r); jopt (tr_failure_kind r);
        tr_retryable r; jopt (tr_last_reason r); JInt (tr_late_results r);
        jopt (tr_resolution r); jopt (tr_decided_by r); jopt (tr_depends_on r);
        JStr (tr_input r); jopt_int (tr_created_seq r); jopt_int (tr_updated_seq r)].

Definition id_le (a b : TaskRow) : Prop := String.le (tr_task_id a) (tr_task_id b).
#[global] Instance id_le_dec a b : base.Decision (id_le a b).
Proof. unfold id_le. apply _. Defined.

Definition newline : string := String "010" "".

Definition projection_hash (p : Projection) : result string :=
  lines ← mapM (λ r, encode_utf8 (canonical_json (row_json r) +:+ newline))
            (merge_sort id_le (rows p));
  mret (sha256_hex (String.list_ascii_of_string
                      ("courier-projection-v" +:+ PROJECTION_VERSION +:+ newline)
                    ++ mjoin lines)).

(** The pure replay: the reference the SQL projection must match. *)
Fixpoint fold_from (tasks : gmap string TaskState) (es : list Event)
    : result (gmap string TaskState) :=
  match es with
  | [] => Ok tasks
  | e :: es =>
      if SYSTEM_EVENTS (ev_type e) then fold_from tasks es
      else
        let k := fmt (ev_task_id e) in
        new ← as_projection_error (apply (tasks !! k) e);
        fold_from (match new with Some s => <[k := s]> tasks | None => tasks end) es
  end.
Definition fold (es : list Event) : result (gmap string TaskState) := fold_from ∅ es.

(** Equality of two states as the dataclass defines it. *)
Definition strip_json (s : TaskState) : TaskState :=
  mkTask (ts_task_id s) (ts_status s) (ts_adapter s) JNull (ts_effect_class s)
    (ts_max_attempts s) (ts_lease_ttl_s s) (ts_timeout_s s) (ts_attempt s) (ts_dispatch_id s)
    (ts_worker_id s) (ts_started s) (ts_pending_result_id s) (ts_accepted_result_id s)
    (ts_cancel_requested s) (ts_failure_kind s) JNull (ts_last_reason s)
    (ts_late_results s) (ts_resolution s) (ts_decided_by s) (ts_depends_on s) JNull
    (ts_created_seq s) (ts_updated_seq s).
Definition state_py_eq (a b : TaskState) : bool :=
  (bool_decide (strip_json a = strip_json b) && py_eq (ts_params a) (ts_params b)
   && py_eq (ts_input a) (ts_input b) && py_eq (ts_retryable a) (ts_retryable b)).

(** Equality of two dicts of states. *)
Definition tasks_py_eq (a b : gmap string TaskState) : bool :=
  (bool_decide (dom a = dom b)
   && forallb (λ kv, match b !! kv.1 with Some s => state_py_eq kv.2 s | None => false end)
        (map_to_list a)).

(** ** States up to what a database round trip changes

    A stored boolean [retryable] comes back as 0 or 1 and nothing else
    changes; [norm] makes that change, and the machine cannot see it. *)

Definition retry_norm (j : json) : json :=
  match j with JBool b => JInt (z_of_bool b) | _ => j end.
Definition norm (s : TaskState) : TaskState :=
  with_failure s (ts_failure_kind s) (retry_norm (ts_retryable s)) (ts_last_reason s).

Lemma retry_norm_idemp j : retry_norm (retry_norm j) = retry_norm j.
Proof. by destruct j. Qed.

Lemma norm_idemp s : norm (norm s) = norm s.
Proof. unfold norm. destruct s; simpl. unfold with_failure; simpl. by rewrite retry_norm_idemp. Qed.
Lemma truthy_norm j : py_truthy (retry_norm j) = py_truthy j.
Proof. by destruct j as [|[]| | | | |]. Qed.

Lemma decision_norm s : decision_of (norm s) = decision_of s.
Proof. unfold decision_of. simpl. by rewrite truthy_norm. Qed.

Lemma must_block_norm s : must_block (norm s) = must_block s.
Proof. unfold must_block. by rewrite decision_norm. Qed.

(** Two computations that make the same checks agree when their ends do. *)
Lemma norm_bind {A} (m : result A) (f g : A → result TaskState) :
  (∀ a, norm <$> f a = norm <$> g a) → norm <$> (m ≫= f) = norm <$> (m ≫= g).
Proof. intros E. destruct m; [apply E | done]. Qed.

Ltac norm_step :=
  lazymatch goal with
  | |- norm <$> (_ ≫= _) = norm <$> (_ ≫= _) => apply norm_bind; intros ?
  | |- norm <$> (if decide ?P then _ else _) = _ => destruct (decide P)
  | |- norm <$> match ?x with Some _ => _ | None => _ end = _ => destruct x
  | |- norm <$> mret ?x = _ =>
      cbn; unfold norm, with_failure; cbn; rewrite ?retry_norm_idemp; reflexivity
  | |- _ => reflexivity
  end.

Lemma transition_norm s e : norm <$> _transition (norm s) e = norm <$> _transition s e.
Proof.
  unfold _transition, t_claimed, t_verdict, t_cancelled, _human_decision.
  rewrite decision_norm, must_block_norm. change (ts_status (norm s)) with (ts_status s).
  destruct (ev_type e) eqn:Et; repeat norm_step.
Qed.

Lemma apply_norm s e :
  (λ o : option TaskState, norm <$> o) <$> apply (Some (norm s)) e
  = (λ o : option TaskState, norm <$> o) <$> apply (Some s) e.
Proof.
  unfold apply. destruct (SYSTEM_EVENTS _); [simpl; by rewrite norm_idemp|]. case_decide; [done|].
  change (ts_task_id (norm s)) with (ts_task_id s). destruct (tfail_if _ _); [simpl|done].
  pose proof (transition_norm s e) as E.
  destruct (_transition (norm s) e) as [x|x], (_transition s e) as [y|y]; try discriminate E.
  - apply (inj Ok) in E. simpl. do 2 f_equal. exact (f_equal (λ s, with_updated_seq s (ev_seq e)) E).
  - injection E as ->. done.
Qed.

(** A stored row reads back as the normalised state. *)
Lemma from_row_to_row s :
  canonical (ts_params s) → canonical (ts_input s) → _from_row (_to_row s) = Ok s.
Proof.
  intros Hp Hi. unfold _from_row, _to_row. simpl.
  rewrite !loads_canonical_json by (by apply canonical_wf). simpl.
  rewrite !canon_id by done. destruct s as [? st ? ? ? ? ? ? ? ? ? [] ? ? []]; by destruct st.
Qed.

Definition scalar (j : json) : Prop :=
  match j with JNull | JBool _ | JInt _ => True | _ => False end.

Lemma bind_row_Ok s r : bind_row (_to_row s) = Ok r → r = _to_row (norm s).
Proof.
  unfold bind_row. simpl. intros Hb. inv_ok. subst.
  destruct (ts_retryable s) eqn:E; simpl in *; inv_ok; subst; unfold _to_row, norm; simpl; by rewrite E.
Qed.

Lemma bind_row_norm s : bind_row (_to_row (norm s)) = bind_row (_to_row s).
Proof. unfold bind_row. simpl. by destruct (ts_retryable s). Qed.

Lemma bind_row_scalar s x :
  scalar (ts_retryable s) → bind_row (_to_row s) = Err x → exn_cls x = OverflowError.
Proof.
  intros Hs. unfold bind_row. destruct (negb _); simpl; [by intros [= <-]|].
  by destruct (ts_retryable s).
Qed.

End projection.
