(* ===== verification/Replay.v ===== *)
(** * The projection refines the pure replay

    The [tasks] table, kept by [Projection.apply_event] one event at a time or
    filled by a rebuild, always holds the rows of the states that the
    in-memory [fold] computes; and the fold gives every task exactly the run
    of its own events. *)

From Stdlib Require Import Ascii DecimalString.
From S2P Require Import Prelude PyText Json Sha256 Events StateMachine Lifecycle History Projection.

Section replay.
Context `{PyPlatform}.

(** ** States that a table row can hold *)

Record Storable (k : string) (s : TaskState) : Prop := {
  so_id : ts_task_id s = k;
  so_params : canonical (ts_params s);
  so_input : canonical (ts_input s);
  so_retryable : scalar (ts_retryable s);
  so_inv : TaskInv s;
}.

Lemma payload_canonical e k v : Valid e → jget k (ev_payload e) = Some v → canonical v.
Proof. intros Hv. apply jget_canonical, Hv. Qed.

Lemma jget_none_canonical e k : Valid e → canonical (jget_none k (ev_payload e)).
Proof.
  intros Hv. unfold jget_none. destruct (jget k _) eqn:E; [|done]. by eapply payload_canonical.
Qed.

Lemma rejected_retryable e r :
  Valid e → ev_type e = RESULT_REJECTED → jget "retryable" (ev_payload e) = Some r → scalar r.
Proof.
  intros Hv%valid_validated E Hr. pose proof (vd_type e Hv) as Ht.
  unfold validate_type_payload, jget_none in Ht. rewrite E, Hr in Ht. by destruct r.
Qed.

Lemma storable_create e s :
  Valid e → ev_type e = TASK_CREATED → create e = Ok s → Storable (fmt (ev_task_id e)) s.
Proof.
  intros Hv E Hc. pose proof (create_inv e s (valid_validated e Hv) E Hc) as Hi.
  unfold create in Hc. inv_ok. subst. split; simpl; try done.
  - by match goal with H : ev_task_id e = _ |- _ => rewrite H end.
  - unfold payload_at in *. inv_ok. by eapply payload_canonical.
Qed.

Lemma storable_step k s e s' : Valid e → Storable k s → step s e s' → Storable k s'.
Proof.
  intros Hv [Hid Hp Hi Hr Hinv] Hst.
  pose proof (step_inv s e s' (valid_validated e Hv) Hinv Hst) as Hinv'.
  destruct Hst; split; simpl; try done; [by apply jget_none_canonical|by eapply rejected_retryable].
Qed.

Lemma storable_updated k s n : Storable k s → Storable k (with_updated_seq s n).
Proof. intros [? ? ? ? []]. by split; [..|split]. Qed.

Lemma task_id_some e :
  Validated e → SYSTEM_EVENTS (ev_type e) = false → ev_task_id e = Some (fmt (ev_task_id e)).
Proof.
  intros Hv Hs. destruct (vd_field_task e Hv) as [k ->]; [|done].
  by destruct (ev_type e); try discriminate Hs; simpl; set_solver.
Qed.

Lemma storable_apply e s s' :
  Valid e → Storable (fmt (ev_task_id e)) s → apply (Some s) e = Ok (Some s') →
  Storable (fmt (ev_task_id e)) s'.
Proof.
  intros Hv Hs Ha. destruct (SYSTEM_EVENTS (ev_type e)) eqn:E.
  - unfold apply in Ha. rewrite E in Ha. by inv_ok.
  - apply apply_step in Ha as (_ & s0 & Hst & [= ->]); [|by apply valid_validated|done].
    by eapply storable_updated, storable_step.
Qed.

(** The table against the states of the fold. *)
Record Agrees (p : Projection) (m : gmap string TaskState) : Prop := {
  ag_rows : p_tasks p = (_to_row ∘ norm) <$> m;
  ag_ok : map_Forall Storable m;
  ag_version : p_version p = PROJECTION_VERSION;
}.

Lemma agrees_empty : Agrees (create_schema None) ∅.
Proof. split; [by rewrite fmap_empty|apply map_Forall_empty|done]. Qed.

Lemma norm_canonical k s :
  Storable k s → canonical (ts_params (norm s)) ∧ canonical (ts_input (norm s)).
Proof. by intros []. Qed.

Lemma load_agrees p m k :
  Agrees p m → load_task p (Some k) = Ok (norm <$> m !! k).
Proof.
  intros [Hr Ho _]. simpl. rewrite Hr, lookup_fmap. destruct (m !! k) as [s|] eqn:E; simpl; [|done].
  pose proof (norm_canonical k s (Ho k s E)) as [??]. by rewrite from_row_to_row.
Qed.

(** The state after an event, in the table and in the fold. *)
Lemma apply_agrees o e :
  (λ o : option TaskState, norm <$> o) <$> apply (norm <$> o) e
  = (λ o : option TaskState, norm <$> o) <$> apply o e.
Proof. destruct o as [s|]; [apply apply_norm|done]. Qed.

Lemma apply_task_total o e st :
  Validated e → SYSTEM_EVENTS (ev_type e) = false → apply o e = Ok st → is_Some st.
Proof.
  intros Hv Hs Ha. destruct o as [s|].
  - by apply apply_some_inv in Ha as [s' ->].
  - unfold apply in Ha. rewrite Hs in Ha. case_decide; [|done]. inv_ok. subst. by eexists.
Qed.

Lemma norm_some_inv (o : option TaskState) s : norm <$> o = Some s → ∃ s0, o = Some s0 ∧ s = norm s0.
Proof. destruct o; naive_solver. Qed.

(** What [fold] does on one event. *)
Lemma fold_from_app m es es' : fold_from m (es ++ es') = (m' ← fold_from m es; fold_from m' es').
Proof.
  revert m. induction es as [|e es IH]; intros m; simpl; [done|].
  destruct (SYSTEM_EVENTS _); [apply IH|].
  destruct (as_projection_error _); simpl; [apply IH|done].
Qed.

Lemma storable_new (m : gmap string TaskState) e s :
  map_Forall Storable m → Valid e → SYSTEM_EVENTS (ev_type e) = false →
  apply (m !! fmt (ev_task_id e)) e = Ok (Some s) → Storable (fmt (ev_task_id e)) s.
Proof.
  intros Ho Hv Hs Ha. destruct (m !! fmt (ev_task_id e)) as [s0|] eqn:E.
  - eapply storable_apply; [done| |done]. by apply Ho.
  - unfold apply in Ha. rewrite Hs in Ha. case_decide; [|done]. inv_ok. simplify_eq.
    by apply storable_create.
Qed.

(** One event, projected into the table and folded into the states: both
    succeed and still agree, or both fail with the same message; only a number
    that SQLite cannot hold stops the table alone. *)
Lemma apply_event_fold p m e seq :
  Agrees p m → Valid e → ev_seq e = Some seq →
  match apply_event p e with
  | Ok (p', o) =>
      ∃ m', fold_from m [e] = Ok m' ∧ Agrees p' m' ∧ p_last_seq p' = seq
            ∧ (SYSTEM_EVENTS (ev_type e) = false → norm <$> o = norm <$> m' !! fmt (ev_task_id e))
  | Err x =>
      exn_cls x = OverflowError
      ∨ exn_cls x = TransitionError ∧ fold_from m [e] = Err (Exn ProjectionError (exn_msg x))
  end.
Proof.
  intros Hag Hv Hseq. unfold apply_event, store. rewrite Hseq. simpl.
  destruct (SYSTEM_EVENTS (ev_type e)) eqn:Hs.
  { simpl. exists m. split_and!; [done| |done|done]. by destruct Hag. }
  pose proof (valid_validated e Hv) as Hvd.
  assert (load_task p (ev_task_id e) = Ok (norm <$> m !! fmt (ev_task_id e))) as ->.
  { rewrite <- (load_agrees p m _ Hag). f_equal. by apply task_id_some. }
  cbn [mbind result_bind].
  pose proof (apply_agrees (m !! fmt (ev_task_id e)) e) as Heq.
  destruct (apply (norm <$> m !! fmt (ev_task_id e)) e) as [new|x] eqn:Ea;
    destruct (apply (m !! fmt (ev_task_id e)) e) as [new'|x'] eqn:Eb; try discriminate Heq; simpl.
  - apply (inj Ok) in Heq.
    destruct (apply_task_total _ _ _ Hvd Hs Ea) as [s ->].
    destruct (apply_task_total _ _ _ Hvd Hs Eb) as [s' ->]. simpl in Heq.
    assert (norm s = norm s') as En by congruence. clear Heq.
    pose proof (storable_new m e s' (ag_ok p m Hag) Hv Hs Eb) as Hst.
    destruct (bind_row (_to_row s)) as [r|x] eqn:Er; simpl.
    + apply bind_row_Ok in Er as ->. exists (<[fmt (ev_task_id e):=s']> m).
      split_and!; [done| |done|intros _; rewrite lookup_insert_eq; simpl; by rewrite En].
      destruct Hag as [Hr Ho Hver]. split; [|by apply map_Forall_insert_2|done].
      cbn [p_tasks]. rewrite fmap_insert, <- Hr, En. f_equal. apply Hst.
    + left. rewrite <- bind_row_norm, En, bind_row_norm in Er.
      by eapply bind_row_scalar; [apply Hst|].
  - injection Heq as ->. right.
    assert (exn_cls x' = TransitionError) as Hx by (by eapply apply_error_class).
    split; [done|]. unfold is_value_error. by rewrite Hx.
Qed.

(** ** Numbers that fit SQLite's integers *)

Definition fits_int (j : json) : bool := match j with JInt z => sql_int_ok z | _ => true end.
(** The two durations a task is created with have no upper bound of their own. *)
Definition event_fits (e : Event) : bool :=
  if decide (ev_type e = TASK_CREATED) then
    (fits_int (jget_none "lease_ttl_s" (ev_payload e))
     && fits_int (jget_none "timeout_s" (ev_payload e)))%bool
  else true.

Record Bounded (n : Z) (s : TaskState) : Prop := {
  bd_ttl : sql_int_ok (ts_lease_ttl_s s) = true;
  bd_timeout : sql_opt_int_ok (ts_timeout_s s) = true;
  bd_late : 0 ≤ ts_late_results s ≤ n;
  bd_created : ∃ c, ts_created_seq s = Some c ∧ 0 ≤ c ≤ n;
  bd_updated : ∃ u, ts_updated_seq s = Some u ∧ 0 ≤ u ≤ n;
}.

Lemma bounded_mono n n' s : n ≤ n' → Bounded n s → Bounded n' s.
Proof. intros Hn [? ? ? (c & ? & ?) (u & ? & ?)]. split; [done|done|lia|exists c|exists u]; (split; [done|lia]). Qed.

(** What no transition changes, or changes by one. *)
Lemma step_frame s e s' :
  step s e s' →
  ts_lease_ttl_s s' = ts_lease_ttl_s s ∧ ts_timeout_s s' = ts_timeout_s s
  ∧ ts_created_seq s' = ts_created_seq s
  ∧ ts_late_results s ≤ ts_late_results s' ≤ ts_late_results s + 1.
Proof. destruct 1; simpl; split_and!; done || lia. Qed.

Lemma bounded_apply n e s s' :
  Validated e → ev_seq e = Some (n + 1) → SYSTEM_EVENTS (ev_type e) = false →
  Bounded n s → 0 ≤ n → apply (Some s) e = Ok (Some s') → Bounded (n + 1) s'.
Proof.
  intros Hv Hq Hs [Ht Hto Hl (c & Hc & ?) _] Hn Ha.
  apply apply_step in Ha as (_ & s0 & Hst & [= ->]); [|done..].
  apply step_frame in Hst as (E1 & E2 & E3 & Hlt).
  split; simpl; rewrite ?E1, ?E2, ?E3; [done|done|lia|exists c|exists (n + 1)]; (split; [done|lia]).
Qed.

Lemma bounded_create n e s :
  ev_type e = TASK_CREATED → event_fits e = true → ev_seq e = Some (n + 1) → 0 ≤ n →
  create e = Ok s → Bounded (n + 1) s.
Proof.
  unfold event_fits, create. intros -> Hf Hq Hn Hc. simpl in Hf. inv_ok. bool_hyps. subst.
  split; simpl; [| |lia|exists (n + 1); split; [done|lia]..].
  - unfold payload_at, jget_none in *. inv_ok.
    repeat match goal with H : jget "lease_ttl_s" _ = _ |- _ => rewrite H in * end. simpl in *.
    match goal with H : as_int ?j = Ok _, H' : fits_int ?j = true |- _ => destruct j; by simplify_eq/= end.
  - destruct (jget_none "timeout_s" _); simplify_eq/=; done.
Qed.

Lemma bind_row_total n s :
  TaskInv s → scalar (ts_retryable s) → Bounded n s → n ≤ int64_max →
  ∃ r, bind_row (_to_row s) = Ok r.
Proof.
  intros [Ha Hm _ _ _] Hr [Ht Hto Hl (c & Hc & ?) (u & Hu & ?)] Hn.
  unfold bind_row, _to_row. cbn [forallb tr_max_attempts tr_lease_ttl_s tr_attempt tr_late_results
    tr_timeout_s tr_created_seq tr_updated_seq tr_retryable]. rewrite Ht, Hto, Hc, Hu.
  assert (∀ z, 0 ≤ z ≤ int64_max → sql_int_ok z = true) as Hok.
  { intros z Hz. unfold sql_int_ok. apply andb_true_iff. rewrite !Z.leb_le. unfold int64_max in *. lia. }
  unfold MAX_ATTEMPTS_LIMIT in Hm. unfold sql_opt_int_ok.
  rewrite !Hok by (unfold int64_max in *; lia). simpl.
  by destruct (ts_retryable s); try done; eexists.
Qed.

(** Sequence numbers n+1, n+2, ... *)
Fixpoint contiguous (n : Z) (es : list Event) : Prop :=
  match es with
  | [] => True
  | e :: es => ev_seq e = Some (n + 1) ∧ contiguous (n + 1) es
  end.

Lemma contiguous_app n es es' :
  contiguous n (es ++ es') ↔ contiguous n es ∧ contiguous (n + Z.of_nat (length es)) es'.
Proof.
  revert n. induction es as [|e es IH]; intros n; cbn [contiguous app length].
  - rewrite Z.add_0_r. tauto.
  - rewrite IH. replace (n + 1 + Z.of_nat (length es)) with (n + Z.of_nat (S (length es))) by lia. tauto.
Qed.

Lemma bounded_new (m : gmap string TaskState) n e s :
  map_Forall (λ _, Bounded n) m → Valid e → SYSTEM_EVENTS (ev_type e) = false →
  event_fits e = true → ev_seq e = Some (n + 1) → 0 ≤ n →
  apply (m !! fmt (ev_task_id e)) e = Ok (Some s) → Bounded (n + 1) s.
Proof.
  intros Hb Hv Hs Hf Hq Hn Ha. destruct (m !! fmt (ev_task_id e)) as [s0|] eqn:E.
  - eapply bounded_apply; [by apply valid_validated|done..| |done|done]. by eapply Hb.
  - unfold apply in Ha. rewrite Hs in Ha. case_decide; [|done]. inv_ok. simplify_eq.
    by eapply bounded_create.
Qed.

(** Within those bounds the table follows the fold on every event. *)
Lemma apply_event_total p (m : gmap string TaskState) n e m' :
  Agrees p m → map_Forall (λ _, Bounded n) m → Valid e → ev_seq e = Some (n + 1) →
  event_fits e = true → 0 ≤ n → n + 1 ≤ int64_max → fold_from m [e] = Ok m' →
  map_Forall (λ _, Bounded (n + 1)) m' ∧ ∃ p' o, apply_event p e = Ok (p', o).
Proof.
  intros Hag Hb Hv Hq Hf Hn Hmax Hfold.
  assert (map_Forall (λ _, Bounded (n + 1)) m) as Hb'.
  { eapply map_Forall_impl; [exact Hb|]. intros ? ?. apply bounded_mono. lia. }
  unfold apply_event, store. rewrite Hq. simpl in *.
  destruct (SYSTEM_EVENTS (ev_type e)) eqn:Hs; [inv_ok; subst; eauto|].
  pose proof (valid_validated e Hv) as Hvd.
  assert (load_task p (ev_task_id e) = Ok (norm <$> m !! fmt (ev_task_id e))) as ->.
  { rewrite <- (load_agrees p m _ Hag). f_equal. by apply task_id_some. }
  cbn [mbind result_bind].
  pose proof (apply_agrees (m !! fmt (ev_task_id e)) e) as Heq.
  destruct (apply (m !! fmt (ev_task_id e)) e) as [new'|x'] eqn:Eb;
    [|simpl in Hfold; by destruct (is_value_error _)].
  destruct (apply (norm <$> _) e) as [new|x] eqn:Ea; [|discriminate Heq]. apply (inj Ok) in Heq.
  destruct (apply_task_total _ _ _ Hvd Hs Ea) as [s ->].
  destruct (apply_task_total _ _ _ Hvd Hs Eb) as [s' ->].
  assert (norm s = norm s') as En by (by apply (inj Some)). clear Heq.
  apply (inj Ok) in Hfold as <-.
  pose proof (bounded_new m n e s' Hb Hv Hs Hf Hq Hn Eb) as Hbs.
  pose proof (storable_new m e s' (ag_ok p m Hag) Hv Hs Eb) as Hst.
  split; [by apply map_Forall_insert_2|].
  destruct (bind_row_total (n + 1) s') as [r Hr]; [apply Hst|apply Hst|done|done|].
  rewrite <- bind_row_norm, <- En, bind_row_norm in Hr. simpl. rewrite Hr. simpl. eauto.
Qed.

(** ** Whole histories *)

Lemma fold_from_one m e es :
  fold_from m (e :: es) = (m' ← fold_from m [e]; fold_from m' es).
Proof. apply (fold_from_app m [e]). Qed.

Lemma replay_fold es p m n :
  Agrees p m → map_Forall (λ _, Bounded n) m → Forall Valid es → contiguous n es →
  Forall (λ e, event_fits e = true) es → 0 ≤ n → n + Z.of_nat (length es) ≤ int64_max →
  match replay p (map Ok es) with
  | Ok p' => ∃ m', fold_from m es = Ok m' ∧ Agrees p' m'
                   ∧ (p_last_seq p = n → p_last_seq p' = n + Z.of_nat (length es))
  | Err x => fold_from m es = Err x
  end.
Proof.
  revert p m n. induction es as [|e es IH]; intros p m n Hag Hb Hv Hc Hf Hn Hmax.
  - simpl. exists m. split_and!; [done|done|lia].
  - apply Forall_cons in Hv as [Hv Hvs]. apply Forall_cons in Hf as [Hf Hfs].
    destruct Hc as [Hq Hc]. rewrite fold_from_one. cbn [length] in Hmax.
    cbn [map replay mbind result_bind].
    pose proof (apply_event_fold p m e _ Hag Hv Hq) as Hae.
    pose proof (apply_event_total p m n e) as Htot.
    destruct (apply_event p e) as [[p' o]|x] eqn:Ea; cbn [as_projection_error mbind result_bind].
    + destruct Hae as (m' & Hm & Hag' & Hl & _). rewrite Hm. cbn [mbind result_bind].
      destruct (Htot m' Hag Hb Hv Hq Hf Hn ltac:(lia) Hm) as [Hb' _].
      specialize (IH p' m' (n + 1) Hag' Hb' Hvs Hc Hfs ltac:(lia) ltac:(lia)).
      destruct (replay p' _) as [p''|]; [|done]. destruct IH as (m'' & ? & ? & Hl').
      exists m''. cbn [length]. split_and!; [done|done|]. intros _. rewrite Hl' by done. lia.
    + destruct Hae as [Ho|[Hx Hm]].
      * destruct (fold_from m [e]) as [m'|y] eqn:Hm.
        { destruct (Htot m' Hag Hb Hv Hq Hf Hn ltac:(lia) eq_refl) as (_ & p' & o & Hp). congruence. }
        exfalso. cbn [fold_from] in Hm. unfold apply_event in Ea. rewrite Hq in Ea.
        destruct (SYSTEM_EVENTS _) eqn:Hs; [done|].
        pose proof (valid_validated e Hv) as Hvd.
        assert (load_task p (ev_task_id e) = Ok (norm <$> m !! fmt (ev_task_id e))) as Hlt.
        { rewrite <- (load_agrees p m _ Hag). f_equal. by apply task_id_some. }
        rewrite Hlt in Ea. cbn [mbind result_bind] in Ea.
        pose proof (apply_agrees (m !! fmt (ev_task_id e)) e) as Heq.
        destruct (apply (m !! _) e) as [?|x'] eqn:Eb; [discriminate Hm|].
        destruct (apply (norm <$> _) e) eqn:Ec; [discriminate Heq|]. simpl in Heq, Ea.
        apply apply_error_class in Eb; [|done]. congruence.
      * rewrite Hm. unfold as_projection_error, is_value_error. by rewrite Hx.
Qed.

(** The events of one task. *)
Definition events_of (k : string) (es : list Event) : list Event :=
  filter (λ e, ev_task_id e = Some k) es.

Lemma fold_from_runs es (m m' : gmap string TaskState) :
  Forall Valid es → fold_from m es = Ok m' → ∀ k, run (m !! k) (events_of k es) = Ok (m' !! k).
Proof.
  intros Hv. revert m. induction Hv as [|e es Hv _ IH]; intros m Hf k; [by simpl in *; inv_ok|].
  pose proof (valid_validated e Hv) as Hvd. cbn [fold_from] in Hf. unfold events_of.
  rewrite filter_cons. destruct (SYSTEM_EVENTS (ev_type e)) eqn:Hs.
  { rewrite decide_False by (by rewrite vd_system). by apply IH. }
  pose proof (task_id_some e Hvd Hs) as Ht.
  destruct (apply (m !! fmt (ev_task_id e)) e) as [st|x] eqn:Ea;
    [|cbn [as_projection_error] in Hf; by destruct (is_value_error _)].
  destruct (apply_task_total _ _ _ Hvd Hs Ea) as [s ->]. cbn in Hf.
  specialize (IH _ Hf k). destruct (decide (ev_task_id e = Some k)) as [E|E].
  - assert (fmt (ev_task_id e) = k) as Hk by (by rewrite E). rewrite Hk in *. cbn [run].
    rewrite Ea. by rewrite lookup_insert_eq in IH.
  - rewrite lookup_insert_ne in IH; [done|]. congruence.
Qed.

Lemma fold_from_total es (m : gmap string TaskState) :
  Forall Valid es → (∀ k, ∃ st, run (m !! k) (events_of k es) = Ok st) →
  ∃ m', fold_from m es = Ok m'.
Proof.
  intros Hv. revert m. induction Hv as [|e es Hv _ IH]; intros m Hr; [by eexists|].
  pose proof (valid_validated e Hv) as Hvd. cbn [fold_from]. unfold events_of in Hr.
  destruct (SYSTEM_EVENTS (ev_type e)) eqn:Hs.
  { apply IH. intros k. specialize (Hr k).
    by rewrite filter_cons, decide_False in Hr by (by rewrite vd_system). }
  pose proof (task_id_some e Hvd Hs) as Ht.
  destruct (Hr (fmt (ev_task_id e))) as [st Hst]. rewrite filter_cons, decide_True in Hst by done.
  cbn [run] in Hst. apply bind_Ok in Hst as (st1 & Ha & Hst). rewrite Ha. cbn.
  destruct (apply_task_total _ _ _ Hvd Hs Ha) as [s ->]. apply IH. intros k.
  destruct (decide (fmt (ev_task_id e) = k)) as [<-|Hne].
  - rewrite lookup_insert_eq. eauto.
  - rewrite lookup_insert_ne by done. specialize (Hr k).
    by rewrite filter_cons, decide_False in Hr by congruence.
Qed.

(** C14: the table is the fold: rebuilding the projection from a valid journal
    (sequence numbers 1, 2, 3, ..., durations SQLite can hold) succeeds exactly
    when the pure replay does and fails with the same error; the table it
    makes holds one row for each state of the replay, with the boolean
    [retryable] as 0 or 1, and remembers the last sequence number. *)
Theorem rebuild_refines_fold es :
  Forall Valid es → contiguous 0 es → Forall (λ e, event_fits e = true) es →
  Z.of_nat (length es) ≤ int64_max →
  match rebuild (map Ok es) with
  | Ok p => ∃ m, fold es = Ok m ∧ p_tasks p = (_to_row ∘ norm) <$> m
                 ∧ p_last_seq p = Z.of_nat (length es)
  | Err x => fold es = Err x
  end.
Proof.
  intros Hv Hc Hf Hmax.
  pose proof (replay_fold es (create_schema None) ∅ 0 agrees_empty) as Hr.
  specialize (Hr ltac:(apply map_Forall_empty) Hv Hc Hf ltac:(done) Hmax).
  unfold rebuild, fold. destruct (replay _ _) as [p|]; [|done].
  destruct Hr as (m & ? & [] & Hl). exists m. split_and!; [done..|by apply Hl].
Qed.

(** Tasks do not interfere: in the replay of a journal the state of every
    task is the run of that task's own events, and a journal whose tasks are
    all legal one by one is legal as a whole. *)
Theorem fold_is_per_task_run es :
  Forall Valid es →
  (∀ m, fold es = Ok m → ∀ k, run None (events_of k es) = Ok (m !! k))
  ∧ ((∀ k, ∃ st, run None (events_of k es) = Ok st) → ∃ m, fold es = Ok m).
Proof.
  intros Hv. split.
  - intros m Hm k. rewrite <- (lookup_empty (M:=gmap string) (A:=TaskState) k). by apply fold_from_runs.
  - intros Hr. apply fold_from_total; [done|]. intros k. by rewrite lookup_empty.
Qed.

Lemma storable_of_canonical (s : TaskState) k : Storable k s → Storable (ts_task_id s) s.
Proof. by intros []. Qed.

Lemma apply_storable st e s' :
  Valid e → (∀ s, st = Some s → Storable (ts_task_id s) s) → apply st e = Ok (Some s') →
  Storable (ts_task_id s') s'.
Proof.
  intros Hv Hst Ha. destruct (SYSTEM_EVENTS (ev_type e)) eqn:Hs.
  { unfold apply in Ha. rewrite Hs in Ha. inv_ok. by apply Hst. }
  destruct st as [s|].
  - pose proof (Hst s eq_refl) as Hs'. pose proof Ha as Ha'.
    apply apply_step in Ha' as (Ht & _); [|by apply valid_validated|done].
    eapply storable_of_canonical, storable_apply; [done| |done]. by rewrite Ht.
  - unfold apply in Ha. rewrite Hs in Ha. case_decide; [|done]. inv_ok. simplify_eq.
    by eapply storable_of_canonical, storable_create.
Qed.

Lemma run_storable es st s' :
  Forall Valid es → (∀ s, st = Some s → Storable (ts_task_id s) s) → run st es = Ok (Some s') →
  Storable (ts_task_id s') s'.
Proof.
  intros Hv. revert st. induction Hv as [|e es Hv _ IH]; intros st Hst Hr; cbn [run] in Hr.
  - apply (inj Ok) in Hr. by apply Hst.
  - apply bind_Ok in Hr as (st1 & Ha & Hr). eapply IH; [|done]. intros s ->. by eapply apply_storable.
Qed.

(** The row of a task reads back as its state: what [store] writes for a
    state that a legal history leads to, [load_task] returns, a boolean
    [retryable] as 0 or 1 and everything else unchanged. *)
Theorem stored_task_reads_back es s p seq p' :
  Forall Valid es → run None es = Ok (Some s) → store p (Some s) seq = Ok p' →
  load_task p' (Some (ts_task_id s)) = Ok (Some (norm s)) ∧ p_last_seq p' = seq
  ∧ ∀ k, k ≠ ts_task_id s → load_task p' (Some k) = load_task p (Some k).
Proof.
  intros Hv Hr Hst.
  destruct (run_storable es None s) as [_ Hp Hi _ _]; [done..|].
  unfold store in Hst. apply bind_Ok in Hst as (tasks & Ht & Hst).
  apply bind_Ok in Ht as (r & Hb & Ht). inv_ok. subst.
  apply bind_row_Ok in Hb as ->. unfold load_task. cbn [p_tasks p_last_seq].
  split_and!; [|done|].
  - change (tr_task_id (_to_row (norm s))) with (ts_task_id s).
    by rewrite lookup_insert_eq, from_row_to_row.
  - intros k Hk. by rewrite lookup_insert_ne.
Qed.

(** ** The fingerprint identifies the table *)

Definition nl : ascii := "010"%char.
Definition no_nl (s : string) : Prop := nl ∉ String.list_ascii_of_string s.

(** Decides [no_nl] of a literal. *)
Ltac no_nl_literal :=
  lazymatch goal with
  | |- no_nl ?s => exact (bool_decide_unpack (nl ∉ String.list_ascii_of_string s) I)
  end.

Lemma no_nl_app a b : no_nl a → no_nl b → no_nl (a +:+ b).
Proof. unfold no_nl. rewrite list_ascii_app, elem_of_app. tauto. Qed.

Lemma no_nl_escape_char a : no_nl (escape_char a).
Proof. destruct a as [[] [] [] [] [] [] [] []]; no_nl_literal. Qed.

Lemma no_nl_quote s : no_nl (quote s).
Proof.
  assert (no_nl (escape s)) as He.
  { induction s as [|a s IH]; [no_nl_literal|]. by apply no_nl_app; [apply no_nl_escape_char|]. }
  apply no_nl_app; [no_nl_literal|]. apply no_nl_app; [done|no_nl_literal].
Qed.

Lemma no_nl_uint u : no_nl (NilEmpty.string_of_uint u).
Proof.
  induction u; simpl; [no_nl_literal|..];
    (intros [E|E]%elem_of_cons; [discriminate E|by apply IHu]).
Qed.

Lemma no_nl_int z : no_nl (str_of_Z z).
Proof.
  unfold str_of_Z, str_of_N. destruct (z <? 0); [|apply no_nl_uint].
  apply (no_nl_app "-"); [no_nl_literal|apply no_nl_uint].
Qed.

Lemma no_nl_join l : Forall no_nl l → no_nl (join "," l).
Proof.
  induction 1 as [|x l Hx Hl IH]; [no_nl_literal|].
  destruct l as [|y l]; [done|]. apply no_nl_app; [done|]. apply no_nl_app; [no_nl_literal|done].
Qed.

(** A value of a table cell. *)
Definition cell (j : json) : Prop :=
  match j with JNull | JBool _ | JInt _ | JStr _ => True | _ => False end.

Lemma no_nl_cell j : cell j → no_nl (print j).
Proof.
  destruct j as [|[]| | | | |]; try done; intros _; simpl;
    [..|apply no_nl_int|apply no_nl_quote]; no_nl_literal.
Qed.

Lemma row_json_cells r :
  scalar (tr_retryable r) → ∃ l, row_json r = JArr l ∧ Forall cell l.
Proof.
  intros Hr. eexists. split; [done|]. unfold jopt, jopt_int.
  repeat (apply Forall_cons; split); [..|by apply Forall_nil]; repeat case_match; try done.
  by destruct (tr_retryable r).
Qed.

Lemma row_json_canonical r : scalar (tr_retryable r) → canonical (row_json r).
Proof.
  intros (l & -> & Hl)%row_json_cells. apply canonical_arr. eapply Forall_impl; [exact Hl|].
  by intros [].
Qed.

Lemma row_line_no_nl r : scalar (tr_retryable r) → no_nl (canonical_json (row_json r)).
Proof.
  intros Hr. unfold canonical_json. rewrite canon_id by (by apply row_json_canonical).
  destruct (row_json_cells r Hr) as (l & -> & Hl).
  change (print (JArr l)) with ("[" +:+ join "," (map print l) +:+ "]").
  apply no_nl_app; [no_nl_literal|]. apply no_nl_app; [|no_nl_literal].
  apply no_nl_join, Forall_map. eapply Forall_impl; [exact Hl|]. apply no_nl_cell.
Qed.

#[global] Instance jopt_inj : Inj (=) (=) jopt.
Proof. intros [] []; simpl; congruence. Qed.
#[global] Instance jopt_int_inj : Inj (=) (=) jopt_int.
Proof. intros [] []; simpl; congruence. Qed.

#[global] Instance row_json_inj : Inj (=) (=) row_json.
Proof.
  intros [] [] E. unfold row_json in E. simpl in E. injection E as E. subst.
  repeat match goal with H : jopt _ = jopt _ |- _ => apply (inj jopt) in H; subst
                       | H : jopt_int _ = jopt_int _ |- _ => apply (inj jopt_int) in H; subst end.
  done.
Qed.

(** Newline-terminated lines can be told apart. *)
Lemma terminated_inj (a b x y : list ascii) :
  nl ∉ a → nl ∉ b → a ++ nl :: x = b ++ nl :: y → a = b ∧ x = y.
Proof.
  revert b. induction a as [|c a IH]; intros [|d b] Ha Hb E; simplify_eq/=.
  - done.
  - by exfalso; apply Hb; left.
  - by exfalso; apply Ha; left.
  - destruct (IH b) as [-> ->]; [set_solver..|done|done].
Qed.

Lemma lines_inj (la lb : list (list ascii)) :
  Forall (λ l, nl ∉ l) la → Forall (λ l, nl ∉ l) lb →
  mjoin (map (λ l, l ++ [nl]) la) = mjoin (map (λ l, l ++ [nl]) lb) → la = lb.
Proof.
  intros Ha. revert lb. induction Ha as [|a la Ha _ IH]; intros lb Hb E.
  - by destruct Hb as [|[|] ? _ _].
  - destruct Hb as [|b lb Hb Hlb]; [by destruct a|]. simpl in E. rewrite <- !app_assoc in E.
    apply terminated_inj in E as [-> E]; [|done..]. f_equal. by apply IH.
Qed.

Definition row_line (r : TaskRow) : list ascii :=
  String.list_ascii_of_string (canonical_json (row_json r)).

Lemma hash_lines l ls :
  mapM (λ r, encode_utf8 (canonical_json (row_json r) +:+ newline)) l = Ok ls →
  ls = map (λ x, x ++ [nl]) (map row_line l).
Proof.
  revert ls. induction l as [|r l IH]; intros ls E; simpl in E; inv_ok; [done|]. subst.
  simpl. f_equal; [|by apply IH]. unfold encode_utf8 in *.
  destruct (has_surrogate _); [done|]. inv_ok. by rewrite list_ascii_app.
Qed.

Lemma row_line_inj la lb :
  Forall (λ r, scalar (tr_retryable r)) la → Forall (λ r, scalar (tr_retryable r)) lb →
  map row_line la = map row_line lb → la = lb.
Proof.
  intros Ha. revert lb. induction Ha as [|a la Ha _ IH]; intros [|b lb] Hb E; try done.
  apply Forall_cons in Hb as [Hb Hlb]. cbn [map] in E. apply cons_eq_inj in E as [E1 E2].
  f_equal; [|by apply IH]. apply (inj row_json), print_inj; [by apply row_json_canonical..|].
  unfold row_line, canonical_json in E1.
  rewrite !canon_id in E1 by (by apply row_json_canonical).
  apply (f_equal String.string_of_list_ascii) in E1.
  by rewrite !String.string_of_list_ascii_of_string in E1.
Qed.

(** A table whose keys are its rows' task ids, with plain cells. *)
Definition table_ok (t : gmap string TaskRow) : Prop :=
  map_Forall (λ k r, tr_task_id r = k ∧ scalar (tr_retryable r)) t.

Lemma agrees_table_ok p m : Agrees p m → table_ok (p_tasks p).
Proof.
  intros [-> Ho _] k r Hk. rewrite lookup_fmap in Hk. destruct (m !! k) as [s|] eqn:E; [|done].
  injection Hk as <-. destruct (Ho k s E) as [? _ _ Hr _]. split; [done|].
  simpl. by destruct (ts_retryable s).
Qed.

Lemma rows_lookup p k r :
  table_ok (p_tasks p) → p_tasks p !! k = Some r ↔ r ∈ rows p ∧ tr_task_id r = k.
Proof.
  intros Ht. unfold rows. split.
  - intros Hk. destruct (Ht k r Hk) as [Hid _]. split; [|done].
    apply list_elem_of_fmap. exists (k, r). split; [done|]. by apply elem_of_map_to_list.
  - intros [([k' r'] & -> & Hin)%list_elem_of_fmap Hid]. apply elem_of_map_to_list in Hin.
    destruct (Ht k' r' Hin) as [Hid' _]. simpl in *. congruence.
Qed.

Lemma rows_scalar p :
  table_ok (p_tasks p) → Forall (λ r, scalar (tr_retryable r)) (merge_sort id_le (rows p)).
Proof.
  intros Ht. rewrite merge_sort_Permutation. apply Forall_forall. intros r Hr.
  assert (p_tasks p !! tr_task_id r = Some r) as E by (by apply rows_lookup).
  by apply Ht in E as [_ ?].
Qed.

(** The fingerprint identifies the table: two projections of valid
    journals that hash alike hold the same rows, or SHA-256 collides. *)
Theorem projection_hash_identifies_table p m p' m' h :
  Agrees p m → Agrees p' m' → projection_hash p = Ok h → projection_hash p' = Ok h →
  p_tasks p = p_tasks p' ∨ sha256_collision.
Proof.
  intros Hp%agrees_table_ok Hp'%agrees_table_ok Hh Hh'. unfold projection_hash in *. inv_ok.
  repeat match goal with H : mapM _ _ = _ |- _ => apply hash_lines in H end. subst.
  match goal with H : sha256_hex ?x = sha256_hex ?y |- _ =>
    destruct (decide (x = y)) as [E|E]; [|right; by exists x, y] end.
  left. apply app_inv_head, lines_inj in E;
    [|apply Forall_map; eapply Forall_impl; [by apply rows_scalar|apply row_line_no_nl]..].
  apply row_line_inj in E; [|by apply rows_scalar..].
  assert (rows p ≡ₚ rows p') as Hperm.
  { by rewrite <- (merge_sort_Permutation id_le (rows p)), E, merge_sort_Permutation. }
  apply map_eq. intros k. apply option_eq. intros r. by rewrite !rows_lookup, Hperm by done.
Qed.

End replay.
