(* ===== verification/Journal.v ===== *)
(** * The journal ([courier_core/journal.py])

    The append-only, hash-chained [events] table with its one write path.
    SQLite's transactions are modelled by [transaction]: the database is the
    old one unless the body commits. *)

From S2P Require Import Prelude PyText Json Sha256 Events StateMachine Lifecycle History Projection Replay.

Definition DB_SCHEMA_VERSION : Z := 1.

(** The journal file: the rows of [events] in primary-key order, the names of
    the table's triggers, [PRAGMA user_version], and the projection tables
    when they exist. *)
Record Db := mkDb {
  db_events : list Row;
  db_triggers : list string;
  db_user_version : Z;
  db_projection : option Projection;
}.

Definition empty_db : Db := mkDb [] [] 0 None.
Definition GUARDS : list string := ["events_no_update"; "events_no_delete"].

(** [executescript(EVENTS_SCHEMA)]: creates what is missing and commits. *)
Definition events_schema (db : Db) : Db :=
  mkDb (db_events db)
    (db_triggers db ++ filter (λ g, g ∉ db_triggers db) GUARDS)
    (db_user_version db) (db_projection db).

Definition with_projection (db : Db) (p : Projection) : Db :=
  mkDb (db_events db) (db_triggers db) (db_user_version db) (Some p).
Definition with_user_version (db : Db) (v : Z) : Db :=
  mkDb (db_events db) (db_triggers db) v (db_projection db).
Definition with_events (db : Db) (rows : list Row) : Db :=
  mkDb rows (db_triggers db) (db_user_version db) (db_projection db).

(** BEGIN IMMEDIATE ... COMMIT, with ROLLBACK when the body raises. *)
Definition transaction {A} (db : Db) (body : result (A * Db)) : result A * Db :=
  match body with Ok (a, db') => (Ok a, db') | Err x => (Err x, db) end.

Record AppendResult := mkAppend {
  ar_event : Event;
  ar_duplicate : bool;
  ar_state : option TaskState;
}.

Record ChainReport := mkReport {
  cr_ok : bool;
  cr_count : Z;
  cr_head_seq : Z;
  cr_head_hash : string;
  cr_first_bad_seq : option Z;
  cr_reason : option string;
}.

(** A journal object: its mode, whether a connection is open, and the file. *)
Record Journal := mkJournal {
  j_readonly : bool;
  j_conn : bool;
  j_db : Db;
}.

Section journal.
Context `{PyPlatform}.

Definition tables (db : Db) : result Projection :=
  of_option (Exn OperationalError "no such table: tasks") (db_projection db).

(** [open]: [file] is the file's content, or None when it does not exist. *)
Definition open_db (db : Db) : result unit * Db :=
  if negb ((db_user_version db =? 0) || (db_user_version db =? DB_SCHEMA_VERSION)) then
    (raise JournalError "unsupported journal schema version", db)
  else
    let db := events_schema db in
    let '(r, db') := transaction db (
      p ← (if is_current (db_projection db) then mret (db_projection db)
           else p ← rebuild_in_place (map from_row (db_events db)); mret (Some p));
      mret (tt, with_user_version (with_projection db (create_schema p)) DB_SCHEMA_VERSION)) in
    (match r with
     | Err x =>
         if (is_value_error x || bool_decide (exn_cls x = ProjectionError))%bool
         then raise JournalError "projection cannot be rebuilt" else Err x
     | Ok _ => Ok tt
     end, db').

Definition open (readonly : bool) (file : option Db) : result Journal * option Db :=
  if readonly then
    match file with
    | None => (raise JournalError "no journal to inspect", None)
    | Some db => (Ok (mkJournal true true db), Some db)
    end
  else
    let '(r, db) := open_db (default empty_db file) in
    ('(_) ← r; mret (mkJournal false true db), Some db).

(** ** Reads *)
Definition head (db : Db) : Z * string :=
  match last (db_events db) with
  | Some r => (r_seq r, r_hash r)
  | None => (0, GENESIS_HASH)
  end.

(** The generator of [events]: one result per row, read lazily in order. *)
Definition events (db : Db) (after_seq : Z) (task_id : option string) : list (result Event) :=
  map from_row
    (filter (λ r, after_seq < r_seq r ∧ (task_id = None ∨ r_task_id r = task_id)) (db_events db)).

Definition get_event_by_dedupe_key (db : Db) (key : string) : result (option Event) :=
  match list_find (λ r, r_dedupe_key r = Some key) (db_events db) with
  | Some (_, r) => e ← from_row r; mret (Some e)
  | None => Ok None
  end.

Definition claim_for_dispatch (db : Db) (dispatch_id : string) : result (option Event) :=
  match list_find (λ r, r_dispatch_id r = Some dispatch_id ∧ r_type r = "TASK_CLAIMED")
          (db_events db) with
  | Some (_, r) => e ← from_row r; mret (Some e)
  | None => Ok None
  end.

Definition task (db : Db) (task_id : string) : result (option TaskState) :=
  p ← tables db; load_task p (Some task_id).

Definition tasks (db : Db) (status : option string) : result (list TaskState) :=
  p ← tables db; load_tasks p status.

(** ** The only write path *)

(** INSERT INTO events: [seq], [event_id] and [dedupe_key] are unique. *)
Definition insert_event (db : Db) (e : Event) : result Db :=
  let row := event_row e in
  raise_if (negb (sql_int_ok (r_seq row))) (Exn OverflowError "Python int too large");;
  raise_if (existsb (λ r, (r_seq r =? r_seq row)
                          || bool_decide (r_event_id r = r_event_id row)
                          || bool_decide (is_Some (r_dedupe_key row) ∧
                                          r_dedupe_key r = r_dedupe_key row))%bool (db_events db))
    (Exn IntegrityError "UNIQUE constraint failed");;
  mret (with_events db (db_events db ++ [row])).

(** A nonempty string is true. *)
Definition truthy_id (o : option string) : option string :=
  match o with Some "" => None | _ => o end.

Definition find_existing (db : Db) (e : Event) : result (option Event) :=
  match ev_dedupe_key e with
  | Some key => get_event_by_dedupe_key db key
  | None => Ok None
  end.

Definition append_new (db : Db) (e : Event) : result (AppendResult * Db) :=
  let '(seq, prev_hash) := head db in
  s ← sealed e (seq + 1) prev_hash;
  p ← tables db;
  '(p', state) ← apply_event p s;
  db' ← insert_event (with_projection db p') s;
  mret (mkAppend s false state, db').

Definition append_body (db : Db) (e : Event) : result (AppendResult * Db) :=
  existing ← find_existing db e;
  match existing with
  | Some x =>
      raise_if (negb (bool_decide (content x = content e)))
        (Exn DedupeConflict "dedupe_key already used with different content");;
      state ← match truthy_id (ev_task_id x) with
              | Some k => task db k
              | None => Ok None
              end;
      mret (mkAppend x true state, db)
  | None => append_new db e
  end.

Definition append (j : Journal) (e : Event) : result AppendResult * Journal :=
  if j_readonly j then (raise JournalError "journal is open read-only", j)
  else if (match ev_seq e with Some _ => true | None => false end
           || match ev_hash e with Some _ => true | None => false end)%bool then
    (raise JournalError "event is already sealed", j)
  else if negb (j_conn j) then (raise JournalError "journal is not open", j)
  else
    let '(r, db) := transaction (j_db j) (append_body (j_db j) e) in
    (r, mkJournal (j_readonly j) (j_conn j) db).

(** ** Integrity *)

Definition chain_defect_error (x : exn) : bool :=
  (is_value_error x || bool_decide (exn_cls x = TypeError))%bool.

Definition _row_defect (r : Row) (expected_seq : Z) (prev_hash : string)
    : result (option string) :=
  if negb (r_seq r =? expected_seq) then Ok (Some "sequence gap")
  else if negb (bool_decide (r_prev_hash r = prev_hash)) then
    Ok (Some "prev_hash does not link to the previous event")
  else match from_row r with
       | Err x => if chain_defect_error x then Ok (Some "stored event is invalid") else Err x
       | Ok e =>
           h ← chain_hash e (Some (r_payload r));
           mret (if bool_decide (h = r_hash r) then None
                 else Some "hash mismatch: stored event was modified")
       end.

Fixpoint verify_rows (rows : list Row) (expected_seq : Z) (prev_hash : string) (count : Z)
    : result ChainReport :=
  match rows with
  | [] => Ok (mkReport true count (expected_seq - 1) prev_hash None None)
  | r :: rows =>
      reason ← _row_defect r expected_seq prev_hash;
      match reason with
      | Some why => Ok (mkReport false count (expected_seq - 1) prev_hash (Some (r_seq r)) (Some why))
      | None => verify_rows rows (expected_seq + 1) (r_hash r) (count + 1)
      end
  end.
Definition verify_chain (db : Db) : result ChainReport :=
  verify_rows (db_events db) 1 GENESIS_HASH 0.

Definition guards_present (db : Db) : bool :=
  forallb (λ g, bool_decide (g ∈ db_triggers db)) GUARDS.

Definition projection_current (db : Db) : bool := is_current (db_projection db).

(** [projection.fold] over the events as they are read. *)
Fixpoint fold_iter (m : gmap string TaskState) (es : list (result Event))
    : result (gmap string TaskState) :=
  match es with
  | [] => Ok m
  | r :: es => e ← r; m' ← fold_from m [e]; fold_iter m' es
  end.

Definition by_task_id (l : list TaskState) : gmap string TaskState :=
  fold_left (λ m s, <[ts_task_id s := s]> m) l ∅.

Definition verify_projection (db : Db) : result bool :=
  expected ← fold_iter ∅ (events db 0 None);
  actual ← tasks db None;
  mret (tasks_py_eq expected (by_task_id actual)).

End journal.
