(* ===== verification/Ledger.v ===== *)
(** * What the journal promises

    [Sound db es m]: the file holds exactly the sealed events [es], chained
    and numbered, and the projection of their fold [m].  Every operation of
    the journal is related to this abstract ledger. *)

From S2P Require Import Prelude PyText Json Sha256 Events StateMachine Lifecycle History Projection Replay Journal.

Section ledger.
Context `{PyPlatform}.

(** Each event links to the hash of the one before and carries its own. *)
Fixpoint chained (prev : string) (es : list Event) : Prop :=
  match es with
  | [] => True
  | e :: es =>
      ev_prev_hash e = Some prev ∧ ∃ h, ev_hash e = Some h ∧ chain_hash e None = Ok h ∧ chained h es
  end.

Definition last_hash (prev : string) (es : list Event) : string :=
  match last es with Some e => default "" (ev_hash e) | None => prev end.

Lemma last_hash_cons prev e es h :
  ev_hash e = Some h → last_hash prev (e :: es) = last_hash h es.
Proof.
  intros Hh. unfold last_hash. destruct es as [|e' es]; simpl; [by rewrite Hh|].
  by destruct (last (e' :: es)) eqn:E; [|apply last_None in E].
Qed.

Lemma chained_app prev es es' :
  chained prev (es ++ es') ↔ chained prev es ∧ chained (last_hash prev es) es'.
Proof.
  revert prev. induction es as [|e es IH]; intros prev; [unfold last_hash; simpl; tauto|].
  cbn [chained app]. split.
  - intros (Hp & h & Hh & Hc & Hr). apply IH in Hr as [? ?].
    rewrite (last_hash_cons prev e es h) by done. eauto 10.
  - intros [(Hp & h & Hh & Hc & Hr) Hs]. rewrite (last_hash_cons prev e es h) in Hs by done.
    split; [done|]. exists h. split_and!; [done..|]. by apply IH.
Qed.

(** The recorded history, without the derived tables. *)
Record Recorded (db : Db) (es : list Event) (m : gmap string TaskState) : Prop := {
  rc_rows : db_events db = map event_row es;
  rc_valid : Forall Valid es;
  rc_contig : contiguous 0 es;
  rc_chain : chained GENESIS_HASH es;
  rc_ids : NoDup (map ev_event_id es);
  rc_dedupe : NoDup (omap ev_dedupe_key es);
  rc_fits : Forall (λ e, event_fits e = true) es;
  rc_length : Z.of_nat (length es) ≤ int64_max;
  rc_fold : fold es = Ok m;
  rc_bounded : map_Forall (λ _, Bounded (Z.of_nat (length es))) m;
}.

Record Sound (db : Db) (es : list Event) (m : gmap string TaskState) : Prop := {
  sd_recorded :> Recorded db es m;
  sd_projection : ∃ p, db_projection db = Some p ∧ Agrees p m
                       ∧ p_last_seq p = Z.of_nat (length es);
  sd_guards : guards_present db = true ∧ db_user_version db = DB_SCHEMA_VERSION;
}.

(** ** Rows read back *)

Definition Stored (e : Event) : Prop :=
  Valid e ∧ is_Some (ev_seq e) ∧ is_Some (ev_prev_hash e) ∧ is_Some (ev_hash e).

Lemma stored_from_row e : Stored e → from_row (event_row e) = Ok e.
Proof. intros (Hv & [s Hs] & [p Hp] & [h Hh]). by eapply from_row_event_row. Qed.

Lemma stored_all n prev es :
  Forall Valid es → contiguous n es → chained prev es → Forall Stored es.
Proof.
  intros Hv. revert n prev. induction Hv as [|e es Hv _ IH]; intros n prev Hq Hc; [done|].
  destruct Hq as [Hq Hqs], Hc as (Hp & h & Hh & _ & Hcs). apply Forall_cons. split; [|by eapply IH].
  split_and!; [done|by eexists..].
Qed.

Lemma recorded_stored db es m : Recorded db es m → Forall Stored es.
Proof. intros []. by eapply stored_all. Qed.

Lemma map_from_row es : Forall Stored es → map from_row (map event_row es) = map Ok es.
Proof. induction 1 as [|e es He _ IH]; [done|]. simpl. by rewrite stored_from_row, IH. Qed.

Lemma contiguous_last n es e :
  contiguous n es → last es = Some e → ev_seq e = Some (n + Z.of_nat (length es)).
Proof.
  revert n. induction es as [|x es IH]; [done|]. intros n [Hx Hc] Hl.
  destruct es as [|y es].
  - injection Hl as <-. rewrite Hx. f_equal.
  - rewrite (IH (n + 1)) by done. f_equal. cbn [length]. lia.
Qed.

Lemma head_recorded db es m :
  Recorded db es m → head db = (Z.of_nat (length es), last_hash GENESIS_HASH es).
Proof.
  intros Hr. unfold head, last_hash. rewrite (rc_rows _ _ _ Hr).
  change (map event_row es) with (event_row <$> es). rewrite fmap_last.
  destruct (last es) as [e|] eqn:El; simpl.
  - rewrite (contiguous_last 0 es e (rc_contig _ _ _ Hr) El). done.
  - by apply last_None in El as ->.
Qed.

(** The stored event under a dedupe key. *)
Definition keyed (es : list Event) (key : string) : option Event :=
  snd <$> list_find (λ e, ev_dedupe_key e = Some key) es.

Lemma get_event_keyed db es m key :
  Recorded db es m → get_event_by_dedupe_key db key = Ok (keyed es key).
Proof.
  intros Hr. unfold get_event_by_dedupe_key, keyed. rewrite (rc_rows _ _ _ Hr).
  pose proof (recorded_stored _ _ _ Hr) as Hs. clear Hr.
  induction Hs as [|e es He _ IH]; [done|]. simpl. case_decide as E; simpl.
  - by rewrite stored_from_row.
  - destruct (list_find _ (map event_row es)) as [[i r]|] eqn:F;
      destruct (list_find _ es) as [[j x]|] eqn:G; simpl in *; done.
Qed.

Lemma keyed_Some es key x : keyed es key = Some x → x ∈ es ∧ ev_dedupe_key x = Some key.
Proof.
  unfold keyed. destruct (list_find _ es) as [[i y]|] eqn:F; [|done]. intros [= <-].
  apply list_find_Some in F as (Hl & Hk & _). split; [|done]. by eapply list_elem_of_lookup_2.
Qed.

Lemma keyed_None es key x : keyed es key = None → x ∈ es → ev_dedupe_key x ≠ Some key.
Proof.
  unfold keyed. destruct (list_find _ es) eqn:F; [done|]. intros _ Hx.
  apply list_find_None in F. rewrite Forall_forall in F. by apply F.
Qed.

Lemma keyed_app es es' key x : keyed es key = Some x → keyed (es ++ es') key = Some x.
Proof.
  unfold keyed. destruct (list_find _ es) as [[i y]|] eqn:F; [|done]. intros [= <-].
  by rewrite (list_find_app_l _ _ _ _ _ F).
Qed.

Lemma keyed_new es e key :
  keyed es key = None → ev_dedupe_key e = Some key → keyed (es ++ [e]) key = Some e.
Proof.
  unfold keyed. destruct (list_find _ es) eqn:F; [done|]. intros _ Hk.
  rewrite list_find_app_r by done. simpl. by rewrite decide_True.
Qed.

Lemma task_sound db es m k :
  Sound db es m → task db k = Ok (norm <$> m !! k).
Proof. intros [_ (p & Hp & Ha & _) _]. unfold task, tables. rewrite Hp. by apply load_agrees. Qed.

(** ** Appending *)

Lemma bind_row_ints r r' :
  bind_row r = Ok r' → sql_int_ok (tr_lease_ttl_s r) = true ∧ sql_opt_int_ok (tr_timeout_s r) = true.
Proof. unfold bind_row. intros Hb. inv_ok. simpl in *. by bool_hyps. Qed.

Lemma event_fits_of_apply p e p' o : apply_event p e = Ok (p', o) → event_fits e = true.
Proof.
  unfold apply_event, event_fits. case_decide as E; [|done].
  destruct (ev_seq e); [|done]. rewrite E. simpl. intros Ha. inv_ok.
  match goal with H : apply ?st e = Ok _ |- _ => unfold apply in H; rewrite E in H; simpl in H;
    destruct st; [done|] end. inv_ok. subst.
  unfold store in *. inv_ok.
  match goal with H : bind_row _ = _ |- _ => apply bind_row_ints in H as [H1 H2] end.
  unfold create in *. inv_ok. subst. simpl in *. unfold jget_none, payload_at in *. inv_ok.
  apply andb_true_iff. split.
  - repeat match goal with H : jget "lease_ttl_s" _ = _ |- _ => rewrite H; clear H end. simpl.
    by match goal with H : as_int ?j = Ok _ |- fits_int ?j = _ => destruct j; simplify_eq/= end.
  - by destruct (default JNull (jget "timeout_s" _)); simplify_eq/=.
Qed.

Lemma insert_event_Ok db e db' :
  insert_event db e = Ok db' →
  sql_int_ok (r_seq (event_row e)) = true
  ∧ (ev_event_id e ∉ map r_event_id (db_events db))
  ∧ db' = with_events db (db_events db ++ [event_row e]).
Proof.
  unfold insert_event. intros Hi. inv_ok. bool_hyps. subst. split_and!; [done| |done].
  intros (r & Hr & Hin)%list_elem_of_fmap.
  match goal with H : existsb _ _ = false |- _ =>
    apply not_true_iff_false in H; apply H, existsb_exists end.
  exists r. split; [by apply list_elem_of_In|]. apply orb_true_iff. left. apply orb_true_iff. right.
  by apply bool_decide_eq_true.
Qed.

Lemma recorded_extend db es m s m' h :
  Recorded db es m → Valid s → event_fits s = true →
  ev_seq s = Some (Z.of_nat (length es) + 1) →
  ev_prev_hash s = Some (last_hash GENESIS_HASH es) → ev_hash s = Some h → chain_hash s None = Ok h →
  ev_event_id s ∉ map ev_event_id es →
  (∀ k, ev_dedupe_key s = Some k → keyed es k = None) →
  Z.of_nat (length es) + 1 ≤ int64_max →
  fold_from m [s] = Ok m' → map_Forall (λ _, Bounded (Z.of_nat (length es) + 1)) m' →
  Recorded (with_events db (db_events db ++ [event_row s])) (es ++ [s]) m'.
Proof.
  intros [Hrows Hv Hq Hc Hi Hd Hf Hl Hm Hb] Hvs Hfs Hqs Hps Hhs Hcs His Hds Hmax Hm' Hb'.
  assert (Z.of_nat (length (es ++ [s])) = Z.of_nat (length es) + 1) as Hlen
    by (rewrite length_app; simpl; lia).
  split; rewrite ?Hlen.
  - simpl. by rewrite Hrows, map_app.
  - by apply Forall_app; split; [|apply Forall_singleton].
  - apply contiguous_app. split; [done|]. by split.
  - apply chained_app. split; [done|]. split; [done|]. by exists h.
  - rewrite map_app. apply NoDup_app. split_and!; [done| |apply NoDup_singleton].
    intros x Hx ->%list_elem_of_singleton. done.
  - rewrite omap_app. simpl. destruct (ev_dedupe_key s) as [k|]; [|by rewrite app_nil_r].
    apply NoDup_app. split_and!; [done| |apply NoDup_singleton].
    intros x (e & He & Hk)%list_elem_of_omap ->%list_elem_of_singleton.
    by eapply keyed_None; [apply Hds| |].
  - by apply Forall_app; split; [|apply Forall_singleton].
  - done.
  - unfold fold in *. rewrite fold_from_app, Hm. exact Hm'.
  - done.
Qed.

Lemma guards_with db p rows :
  guards_present (with_events (with_projection db p) rows) = guards_present db.
Proof. done. Qed.

Lemma seal_keeps e seq prev hash :
  event_fits (set_seal e seq prev hash) = event_fits e
  ∧ SYSTEM_EVENTS (ev_type (set_seal e seq prev hash)) = SYSTEM_EVENTS (ev_type e).
Proof. done. Qed.

(** A successful append of a new event. *)
Lemma append_new_Ok db es m e r db' :
  Sound db es m → Valid e → (∀ k, ev_dedupe_key e = Some k → keyed es k = None) →
  append_new db e = Ok (r, db') →
  ∃ s m' h,
    r = mkAppend s false (ar_state r)
    ∧ s = set_seal e (Some (Z.of_nat (length es) + 1)) (Some (last_hash GENESIS_HASH es)) (Some h)
    ∧ fold_from m [s] = Ok m' ∧ Sound db' (es ++ [s]) m'
    ∧ (SYSTEM_EVENTS (ev_type e) = false →
       norm <$> ar_state r = norm <$> m' !! fmt (ev_task_id e)).
Proof.
  intros [Hrec (p & Hp & Hag & _) Hg] Hv Hk. unfold append_new, tables.
  rewrite (head_recorded _ _ _ Hrec), Hp. intros Ha.
  apply bind_Ok in Ha as (s & (h & Hh & Hs)%sealed_spec & Ha); [|done].
  apply bind_Ok in Ha as (p0 & [= <-] & Ha). apply bind_Ok in Ha as ([p' st] & Hap & Ha).
  apply bind_Ok in Ha as (db1 & Hins & Ha). apply (inj Ok) in Ha. injection Ha as <- <-.
  assert (Valid s) as Hvs by (subst s; by apply valid_set_seal).
  pose proof (event_fits_of_apply _ _ _ _ Hap) as Hfit.
  pose proof (apply_event_fold p m s (Z.of_nat (length es) + 1) Hag Hvs) as Hfold.
  rewrite Hap in Hfold.
  destruct Hfold as (m' & Hm' & Hag' & Hlast & Hst); [by subst s|].
  apply insert_event_Ok in Hins as (Hint & Hid & ->). simpl in Hint.
  assert (Z.of_nat (length es) + 1 ≤ int64_max) as Hmax.
  { rewrite Hs in Hint. unfold sql_int_ok in Hint. simpl in Hint. by bool_hyps. }
  destruct (apply_event_total p m (Z.of_nat (length es)) s m') as [Hb _];
    [done|apply Hrec|done|by subst s|done|lia|done|done|].
  exists s, m', h. split_and!; [done|done|done| |by subst s].
  split; [|exists p'; split_and!; [done|done|]|done].
  - apply (recorded_extend (with_projection db p') es m s m' h); try done; try by subst s.
    + by destruct Hrec.
    + simpl in Hid. rewrite (rc_rows _ _ _ Hrec), map_map in Hid. exact Hid.
  - rewrite Hlast, length_app. simpl. lia.
Qed.

Lemma append_body_keyed db es m e key x :
  Sound db es m → ev_dedupe_key e = Some key → keyed es key = Some x →
  append_body db e =
    if bool_decide (content x = content e) then
      Ok (mkAppend x true (match truthy_id (ev_task_id x) with
                           | Some k => norm <$> m !! k
                           | None => None
                           end), db)
    else raise DedupeConflict "dedupe_key already used with different content".
Proof.
  intros Hs Hk Hx. unfold append_body, find_existing.
  rewrite Hk, (get_event_keyed db es m key (sd_recorded _ _ _ Hs)), Hx. simpl.
  destruct (bool_decide (content x = content e)) eqn:E; simpl; [|done].
  destruct (truthy_id _); [|done]. by rewrite (task_sound db es m).
Qed.

Lemma append_body_new db es m e :
  Recorded db es m → (∀ k, ev_dedupe_key e = Some k → keyed es k = None) →
  append_body db e = append_new db e.
Proof.
  intros Hr Hk. unfold append_body, find_existing. destruct (ev_dedupe_key e) as [k|]; [|done].
  by rewrite (get_event_keyed db es m k Hr), Hk.
Qed.

Lemma append_unfold j e :
  j_readonly j = false → j_conn j = true → ev_seq e = None → ev_hash e = None →
  append j e = match append_body (j_db j) e with
               | Ok (r, db) => (Ok r, mkJournal false true db)
               | Err x => (Err x, j)
               end.
Proof.
  destruct j as [ro co db]. simpl. intros -> -> Hs Hh. unfold append. rewrite Hs, Hh. simpl.
  by destruct (append_body db e) as [[r db']|x].
Qed.

Lemma key_cases es e :
  (∃ key x, ev_dedupe_key e = Some key ∧ keyed es key = Some x)
  ∨ (∀ k, ev_dedupe_key e = Some k → keyed es k = None).
Proof.
  destruct (ev_dedupe_key e) as [k|]; [|by right].
  destruct (keyed es k) eqn:E; [left; eauto|right]. by intros ? [= <-].
Qed.

(** C2: an append is atomic: on a sound journal it either raises and leaves
    the file as it was, or finds the same effect already recorded under its
    dedupe key and leaves the file as it was, or seals the event at the next
    sequence number over the last hash and adds exactly it, keeping the
    journal sound; the state it returns is the task's new state. *)
Theorem append_is_atomic j e es m :
  j_readonly j = false → j_conn j = true → Sound (j_db j) es m →
  Valid e → ev_seq e = None → ev_hash e = None →
  match append j e with
  | (Err _, j') => j' = j
  | (Ok r, j') =>
      let n := Z.of_nat (length es) + 1 in
      if ar_duplicate r then
        j_db j' = j_db j ∧ ar_event r ∈ es ∧ content (ar_event r) = content e
        ∧ ev_dedupe_key (ar_event r) = ev_dedupe_key e ∧ is_Some (ev_dedupe_key e)
      else
        (∃ h, ar_event r = set_seal e (Some n) (Some (last_hash GENESIS_HASH es)) (Some h))
        ∧ ∃ m', fold_from m [ar_event r] = Ok m' ∧ Sound (j_db j') (es ++ [ar_event r]) m'
                ∧ (SYSTEM_EVENTS (ev_type e) = false →
                   norm <$> ar_state r = norm <$> m' !! fmt (ev_task_id e))
  end.
Proof.
  intros Hro Hco Hs Hv Hseq Hh. rewrite append_unfold by done.
  destruct (key_cases es e) as [(key & x & Hk & Hx)|Hk].
  - rewrite (append_body_keyed _ es m e key x) by done. case_bool_decide; simpl; [|done].
    destruct (keyed_Some _ _ _ Hx) as [Hin Hkx]. rewrite Hk, Hkx. eauto 10.
  - rewrite (append_body_new _ es m) by (done || apply Hs).
    destruct (append_new (j_db j) e) as [[r db]|x] eqn:E; [|done].
    apply (append_new_Ok _ es m) in E as (s & m' & h & -> & Es & Hm' & Hsnd & Hst); [|done..].
    simpl. split; [by exists h|]. by exists m'.
Qed.

(** A repetition of a recorded effect. *)
Lemma append_duplicate db es m e key x :
  Sound db es m → ev_seq e = None → ev_hash e = None → ev_dedupe_key e = Some key →
  keyed es key = Some x → content x = content e →
  ∃ st, append (mkJournal false true db) e = (Ok (mkAppend x true st), mkJournal false true db).
Proof.
  intros Hs Hseq Hh Hkey Hx Hc. rewrite append_unfold by done. simpl.
  rewrite (append_body_keyed db es m e key x) by done.
  rewrite bool_decide_eq_true_2 by done. eauto.
Qed.

Lemma fold_keeps_tasks es (m m' : gmap string TaskState) k :
  fold_from m es = Ok m' → is_Some (m !! k) → is_Some (m' !! k).
Proof.
  revert m. induction es as [|e es IH]; intros m Hf Hk; cbn [fold_from] in Hf.
  - by apply (inj Ok) in Hf as <-.
  - destruct (SYSTEM_EVENTS _); [by eapply IH|].
    apply bind_Ok in Hf as ([s|] & _ & Hf); [|by eapply IH].
    eapply IH; [exact Hf|]. destruct (decide (fmt (ev_task_id e) = k)) as [<-|].
    + by rewrite lookup_insert_eq.
    + by rewrite lookup_insert_ne.
Qed.

(** After any accepted append the effect is recorded under its key. *)
Lemma append_records db es m e key r j' :
  Sound db es m → Valid e → ev_seq e = None → ev_hash e = None → ev_dedupe_key e = Some key →
  append (mkJournal false true db) e = (Ok r, j') →
  j' = mkJournal false true (j_db j') ∧ content (ar_event r) = content e
  ∧ ∃ es' m', Sound (j_db j') es' m' ∧ keyed es' key = Some (ar_event r)
              ∧ (∀ k, is_Some (m !! k) → is_Some (m' !! k)) ∧ es `prefix_of` es'.
Proof.
  intros Hs Hv Hseq Hh Hkey. rewrite append_unfold by done. simpl.
  destruct (keyed es key) as [x|] eqn:Hx.
  - rewrite (append_body_keyed _ es m e key x) by done. case_bool_decide as Hc; [|done].
    intros [= <- <-]. simpl. split_and!; [done..|]. by exists es, m; split_and!.
  - rewrite (append_body_new _ es m); [|apply Hs|congruence].
    destruct (append_new db e) as [[r' db']|y] eqn:E; [|done]. intros [= <- <-].
    apply (append_new_Ok _ es m) in E as (s & m' & h & -> & Es & Hm' & Hsnd & Hst); [|done..|congruence].
    simpl. split_and!; [done|by subst s|]. exists (es ++ [s]), m'. split_and!; [done| | |].
    + by apply keyed_new; [|subst s].
    + intros k. by eapply fold_keeps_tasks.
    + by apply prefix_app_r.
Qed.

(** Appending is idempotent: once an event with a dedupe key was accepted
    (as new or as a repetition), appending it again returns the recorded event
    as a duplicate and changes nothing. *)
Theorem append_is_idempotent j e es m key r j' :
  j_readonly j = false → j_conn j = true → Sound (j_db j) es m →
  Valid e → ev_seq e = None → ev_hash e = None → ev_dedupe_key e = Some key →
  append j e = (Ok r, j') →
  ∃ st, append j' e = (Ok (mkAppend (ar_event r) true st), j').
Proof.
  destruct j as [ro co db]. simpl. intros -> -> Hs Hv Hseq Hh Hkey Ha.
  destruct (append_records _ _ _ _ _ _ _ Hs Hv Hseq Hh Hkey Ha) as (-> & Hc & es' & m' & Hs' & Hk & _).
  by eapply append_duplicate.
Qed.

(** ** Why an append is refused *)

Lemma contiguous_seq n es e q :
  contiguous n es → e ∈ es → ev_seq e = Some q → n < q ≤ n + Z.of_nat (length es).
Proof.
  revert n. induction es as [|x es IH]; intros n Hc Hin Hq; [by apply elem_of_nil in Hin|].
  destruct Hc as [Hx Hc]. apply elem_of_cons in Hin as [->|Hin]; cbn [length].
  - rewrite Hq in Hx. simplify_eq. lia.
  - specialize (IH (n + 1) Hc Hin Hq). lia.
Qed.

Lemma insert_event_Err db es m p s x :
  Recorded db es m → (∀ k, ev_dedupe_key s = Some k → keyed es k = None) →
  ev_seq s = Some (Z.of_nat (length es) + 1) →
  insert_event (with_projection db p) s = Err x →
  exn_cls x = OverflowError ∨ exn_cls x = IntegrityError ∧ ∃ y, y ∈ es ∧ ev_event_id y = ev_event_id s.
Proof.
  intros Hr Hk Hq. unfold insert_event. simpl. rewrite Hq. simpl.
  destruct (negb _); simpl; [intros [= <-]; by left|].
  destruct (existsb _ _) eqn:Ex; simpl; [|done]. intros [= <-]. right. split; [done|].
  apply existsb_exists in Ex as (r & Hin & Hor). rewrite (rc_rows _ _ _ Hr) in Hin.
  apply list_elem_of_In, list_elem_of_fmap in Hin as (y & -> & Hy).
  apply orb_true_iff in Hor as [[Hor|Hor]%orb_true_iff|Hor]; simpl in Hor; bool_hyps.
  - pose proof (recorded_stored _ _ _ Hr) as Hst. rewrite Forall_forall in Hst.
    destruct (Hst y Hy) as (_ & [q Hqy] & _). rewrite Hqy in Hor. simpl in Hor.
    pose proof (contiguous_seq _ _ _ _ (rc_contig _ _ _ Hr) Hy Hqy). lia.
  - eauto.
  - destruct Hor as [[k Hks] Hyk]. exfalso. eapply keyed_None; [by apply Hk| |]; [exact Hy|congruence].
Qed.

(** An append is refused only for a reason: a dedupe key already used by
    an event with another content, text that cannot be encoded, an event the
    task's state machine rejects, an event id already in the journal, or a
    number SQLite cannot hold. *)
Theorem append_refusals j e es m x :
  j_readonly j = false → j_conn j = true → Sound (j_db j) es m →
  Valid e → ev_seq e = None → ev_hash e = None → (append j e).1 = Err x →
  match exn_cls x with
  | DedupeConflict =>
      ∃ y, y ∈ es ∧ ev_dedupe_key y = ev_dedupe_key e ∧ content y ≠ content e
  | UnicodeEncodeError =>
      chain_hash (set_seal e (Some (Z.of_nat (length es) + 1))
                    (Some (last_hash GENESIS_HASH es)) None) None = Err x
  | TransitionError =>
      ∃ s, (∃ h, s = set_seal e (Some (Z.of_nat (length es) + 1))
                       (Some (last_hash GENESIS_HASH es)) (Some h))
           ∧ fold_from m [s] = Err (Exn ProjectionError (exn_msg x))
  | IntegrityError => ∃ y, y ∈ es ∧ ev_event_id y = ev_event_id e
  | OverflowError => True
  | _ => False
  end.
Proof.
  intros Hro Hco Hs Hv Hseq Hh. rewrite append_unfold by done.
  destruct (key_cases es e) as [(key & y & Hk & Hy)|Hk].
  { rewrite (append_body_keyed _ es m e key y) by done. case_bool_decide as Hc; simpl; [done|].
    intros [= <-]. simpl. destruct (keyed_Some _ _ _ Hy). exists y. split_and!; congruence. }
  rewrite (append_body_new _ es m) by (done || apply Hs). destruct Hs as [Hrec (p & Hp & Hag & _) _].
  unfold append_new, tables. rewrite (head_recorded _ _ _ Hrec), Hp. cbn [of_option].
  destruct (sealed e _ _) as [s|z] eqn:Es; cbn [mbind result_bind].
  - apply sealed_spec in Es as (h & Hch & Es); [|done].
    assert (Valid s) as Hvs by (subst s; by apply valid_set_seal).
    pose proof (apply_event_fold p m s (Z.of_nat (length es) + 1) Hag Hvs) as Hfold.
    destruct (apply_event p s) as [[p' st]|y]; cbn [mbind result_bind].
    + destruct (insert_event _ s) as [db'|y] eqn:Ei; simpl; [done|]. intros [= <-].
      eapply insert_event_Err in Ei; [|exact Hrec|subst s; exact Hk|by subst s].
      destruct Ei as [->|[-> Hid]]; [done|]. subst s. exact Hid.
    + intros [= <-]. destruct Hfold as [->|[-> Hf]]; [by subst s|done|]. eauto.
  - intros [= <-]. unfold sealed in Es. rewrite post_init_of_valid in Es by (by apply valid_set_seal).
    cbn [mbind result_bind] in Es. destruct (chain_hash _ None) as [h|w] eqn:Ech; cbn in Es.
    + rewrite post_init_of_valid in Es; [done|]. by apply (valid_set_seal e).
    + injection Es as <-. assert (exn_cls w = UnicodeEncodeError) as ->; [|done].
      unfold chain_hash, encode_utf8 in Ech. destruct (has_surrogate _); [|done].
      by injection Ech as <-.
Qed.

(** ** Reading *)

(** The events of a task read back from the file replay to its state: what
    [task] returns is the run of exactly the events that [events] yields. *)
Theorem task_is_the_run_of_its_events db es m k :
  Sound db es m →
  events db 0 (Some k) = map Ok (events_of k es)
  ∧ ∃ st, run None (events_of k es) = Ok st ∧ task db k = Ok (norm <$> st).
Proof.
  intros Hs. pose proof (sd_recorded _ _ _ Hs) as Hr. split.
  - unfold events. rewrite (rc_rows _ _ _ Hr), <- map_from_row.
    + f_equal. pose proof (rc_contig _ _ _ Hr) as Hc. unfold events_of.
      assert (∀ n, 0 ≤ n → contiguous n es →
        filter (λ r, 0 < r_seq r ∧ (Some k = None ∨ r_task_id r = Some k)) (map event_row es)
        = map event_row (filter (λ e, ev_task_id e = Some k) es)) as Hg; [|by apply (Hg 0)].
      clear. induction es as [|e es IH]; intros n Hn Hc; [done|]. destruct Hc as [Hq Hc].
      cbn [map]. rewrite !filter_cons, (IH (n + 1)) by (done || lia). simpl. rewrite Hq. simpl.
      destruct (decide (ev_task_id e = Some k)) as [E|E].
      * rewrite decide_True; [done|]. split; [lia|by right].
      * rewrite decide_False; [done|]. intros [_ [?|?]]; done.
    + pose proof (recorded_stored _ _ _ Hr) as Hst. rewrite Forall_forall in Hst.
      apply Forall_forall. intros x [_ Hx]%list_elem_of_filter. by apply Hst.
  - exists (m !! k). split; [|by eapply task_sound].
    rewrite <- (lookup_empty (M:=gmap string) (A:=TaskState) k).
    apply fold_from_runs; apply Hr.
Qed.

(** ** The chain of hashes *)

Lemma row_defect_stored e n prev :
  Stored e → ev_seq e = Some n → ev_prev_hash e = Some prev →
  chain_hash e None = Ok (default "" (ev_hash e)) → _row_defect (event_row e) n prev = Ok None.
Proof.
  intros Hs Hq Hp Hc. unfold _row_defect. rewrite stored_from_row by done. simpl.
  rewrite Hq, Hp. simpl. rewrite Z.eqb_refl. simpl. rewrite bool_decide_eq_true_2 by done. simpl.
  change (chain_hash e (Some (payload_json e))) with (chain_hash e None). rewrite Hc. simpl.
  by rewrite bool_decide_eq_true_2.
Qed.

Lemma verify_rows_stored es n prev c :
  Forall Valid es → contiguous n es → chained prev es →
  verify_rows (map event_row es) (n + 1) prev c
  = Ok (mkReport true (c + Z.of_nat (length es)) (n + Z.of_nat (length es)) (last_hash prev es)
          None None).
Proof.
  intros Hv. revert n prev c. induction Hv as [|e es Hv Hvs IH]; intros n prev c Hq Hc.
  - simpl. do 2 f_equal; lia.
  - pose proof (stored_all n prev (e :: es) (Forall_cons_2 _ _ _ Hv Hvs) Hq Hc) as [Hst _]%Forall_cons.
    destruct Hq as [Hq Hqs], Hc as (Hp & h & Hh & Hch & Hcs). cbn [map verify_rows].
    rewrite (row_defect_stored e (n + 1) prev Hst Hq Hp) by (by rewrite Hh).
    cbn [mbind result_bind]. simpl r_hash. rewrite Hh. change (default "" (Some h)) with h.
    rewrite (IH (n + 1) h (c + 1) Hqs Hcs), (last_hash_cons prev e es h) by done. cbn [length].
    do 2 f_equal; lia.
Qed.

(** A journal that only [append] wrote verifies: the integrity check reports
    no defect, the number of events, and the hash of the last one. *)
Theorem sound_chain_verifies db es m :
  Sound db es m →
  verify_chain db = Ok (mkReport true (Z.of_nat (length es)) (Z.of_nat (length es))
                          (last_hash GENESIS_HASH es) None None).
Proof.
  intros [[Hrows Hv Hq Hc] _ _]. unfold verify_chain. rewrite Hrows.
  by apply (verify_rows_stored es 0 GENESIS_HASH 0).
Qed.

(** Rows that the check accepted. *)
Definition row_accepted (n : Z) (prev : string) (r : Row) : Prop :=
  r_seq r = n ∧ r_prev_hash r = prev
  ∧ ∃ e, from_row r = Ok e ∧ chain_hash e (Some (r_payload r)) = Ok (r_hash r).

Fixpoint rows_accepted (n : Z) (prev : string) (rows : list Row) : Prop :=
  match rows with
  | [] => True
  | r :: rows => row_accepted n prev r ∧ rows_accepted (n + 1) (r_hash r) rows
  end.

Definition last_row_hash (prev : string) (rows : list Row) : string :=
  match last rows with Some r => r_hash r | None => prev end.

Lemma row_defect_None r n prev : _row_defect r n prev = Ok None → row_accepted n prev r.
Proof.
  unfold _row_defect. destruct (negb (r_seq r =? n)) eqn:E1; [done|].
  destruct (negb (bool_decide _)) eqn:E2; [done|]. bool_hyps.
  destruct (from_row r) as [e|x] eqn:Ef; [|by destruct (chain_defect_error x)].
  intros Hd. inv_ok. case_bool_decide; [|done]. subst. split_and!; [done..|]. eauto.
Qed.

Lemma last_row_hash_cons prev r rows : last_row_hash prev (r :: rows) = last_row_hash (r_hash r) rows.
Proof.
  unfold last_row_hash. destruct rows as [|x rows]; [done|]. simpl.
  by destruct (last (x :: rows)) eqn:E; [|apply last_None in E].
Qed.

Lemma verify_rows_accepted rows n prev c rep :
  verify_rows rows n prev c = Ok rep → cr_ok rep = true →
  rows_accepted n prev rows ∧ cr_count rep = c + Z.of_nat (length rows)
  ∧ cr_head_hash rep = last_row_hash prev rows.
Proof.
  revert n prev c. induction rows as [|r rows IH]; intros n prev c Hv Hok; cbn [verify_rows] in Hv.
  - injection Hv as <-. simpl. split_and!; [done|lia|done].
  - apply bind_Ok in Hv as ([why|] & Hd & Hv); [by injection Hv as <-|].
    apply row_defect_None in Hd. destruct (IH _ _ _ Hv Hok) as (Hr & Hc & Hh).
    rewrite last_row_hash_cons. cbn [length]. split_and!; [done|lia|done].
Qed.

Lemma rows_accepted_snoc n prev rows r :
  rows_accepted n prev (rows ++ [r]) ↔
  rows_accepted n prev rows
  ∧ row_accepted (n + Z.of_nat (length rows)) (last_row_hash prev rows) r.
Proof.
  revert n prev. induction rows as [|x rows IH]; intros n prev.
  - cbn [app rows_accepted length]. unfold last_row_hash. simpl. rewrite Z.add_0_r. tauto.
  - cbn [app rows_accepted length]. rewrite IH, last_row_hash_cons.
    replace (n + Z.of_nat (S (length rows))) with (n + 1 + Z.of_nat (length rows)) by lia. tauto.
Qed.

(** The dedupe key an event read from a row gets: the column, or the default. *)
Definition effective_key (r : Row) : option string :=
  match r_dedupe_key r with
  | Some k => Some k
  | None => t ← type_of_value (r_type r);
            default_dedupe_key t (r_task_id r) (r_attempt r) (r_dispatch_id r) (r_result_id r)
  end.
Definition set_key (r : Row) (k : option string) : Row :=
  mkRow (r_seq r) (r_event_id r) (r_schema_v r) (r_type r) (r_task_id r) (r_attempt r)
    (r_dispatch_id r) (r_worker_id r) (r_result_id r) k (r_ts_utc r) (r_payload r)
    (r_prev_hash r) (r_hash r).

(** The same row, up to a dedupe key left to its default. *)
Definition same_row (r r' : Row) : Prop :=
  set_key r None = set_key r' None ∧ effective_key r = effective_key r'.

Lemma post_init_fields e e' :
  post_init e = Ok e' →
  ∃ p, e' = set_dedupe_key (set_payload e p)
              (match ev_dedupe_key e with
               | Some k => Some k
               | None => default_dedupe_key (ev_type e) (ev_task_id e) (ev_attempt e)
                           (ev_dispatch_id e) (ev_result_id e)
               end).
Proof.
  unfold post_init. destruct (loads _) as [[| | | | | |p]|]; try done. intros Hp. inv_ok. subst.
  exists p. destruct e as [? ? ? ? ? ? ? ? ? [k|] ? ? ? ?]; done.
Qed.

Lemma type_of_value_Some v t : type_of_value v = Some t → v = type_value t.
Proof.
  unfold type_of_value. destruct (list_find _ _) as [[i x]|] eqn:F; [|done]. intros [= <-].
  by apply list_find_Some in F as (_ & <- & _).
Qed.

(** The hashed material of a row's event is the row without its hash. *)
Lemma from_row_material r e :
  from_row r = Ok e →
  chain_material e (Some (r_payload r))
  = JArr [JInt (r_schema_v r); JInt (r_seq r); JStr (r_event_id r); JStr (r_type r);
          jopt (r_task_id r); jopt_int (r_attempt r); jopt (r_dispatch_id r);
          jopt (r_worker_id r); jopt (r_result_id r); jopt (effective_key r);
          JStr (r_ts_utc r); JStr (r_payload r); JStr (r_prev_hash r)].
Proof.
  unfold from_row. intros Hf. apply bind_Ok in Hf as (payload & _ & Hf).
  destruct (type_of_value (r_type r)) as [t|] eqn:Et; [|done].
  destruct payload as [| | | | | |p]; try done. apply post_init_fields in Hf as [p' ->].
  unfold effective_key. rewrite Et. apply type_of_value_Some in Et. rewrite Et.
  by destruct (r_dedupe_key r).
Qed.

Lemma accepted_same_hash n prev n' prev' r r' :
  row_accepted n prev r → row_accepted n' prev' r' → r_hash r = r_hash r' →
  same_row r r' ∨ sha256_collision.
Proof.
  intros (_ & _ & e & He & Hc) (_ & _ & e' & He' & Hc') Hh. rewrite Hh in Hc.
  destruct (chain_hash_inj _ _ _ _ _ Hc Hc') as [Hm|]; [|by right]. left.
  rewrite (from_row_material r e He), (from_row_material r' e' He') in Hm.
  injection Hm as E1 E2 E3 E4 E5 E6 E7 E8 E9 E10 E11 E12 E13.
  apply (inj jopt) in E5, E7, E8, E9, E10. apply (inj jopt_int) in E6.
  split; [|done]. unfold set_key. by rewrite E1, E2, E3, E4, E5, E6, E7, E8, E9, E11, E12, E13, Hh.
Qed.

Lemma rows_accepted_same rows rows' n n' prev prev' :
  rows_accepted n prev rows → rows_accepted n' prev' rows' → length rows = length rows' →
  last_row_hash prev rows = last_row_hash prev' rows' →
  Forall2 same_row rows rows' ∨ sha256_collision.
Proof.
  revert rows'. induction rows as [|r rows IH] using rev_ind; intros rows' Ha Ha' Hl Hh.
  { destruct rows'; [left; constructor|done]. }
  destruct rows' as [|r' rows' _] using rev_ind; [rewrite length_app in Hl; simpl in Hl; lia|].
  rewrite !length_app in Hl. simpl in Hl. apply rows_accepted_snoc in Ha as [Ha Hr], Ha' as [Ha' Hr'].
  unfold last_row_hash in Hh at 1 2. rewrite !last_snoc in Hh.
  destruct (accepted_same_hash _ _ _ _ _ _ Hr Hr' Hh) as [Hs|]; [|by right].
  assert (r_prev_hash r = r_prev_hash r') as Hp by (destruct Hs as [Hs _]; exact (f_equal r_prev_hash Hs)).
  destruct Hr as (_ & Hp1 & _), Hr' as (_ & Hp2 & _).
  destruct (IH rows') as [Hf|]; [done|done|lia|congruence| |by right].
  left. by apply Forall2_app; [|apply Forall2_cons].
Qed.

(** C25: the chain is tamper-evident: two files, however they were made, whose
    checks succeed with the same count and the same head hash hold the same
    rows (up to dedupe keys equal to the default, see below), or exhibit a
    SHA-256 collision. *)
Theorem chain_is_tamper_evident db db' rep rep' :
  verify_chain db = Ok rep → verify_chain db' = Ok rep' →
  cr_ok rep = true → cr_ok rep' = true →
  cr_count rep = cr_count rep' → cr_head_hash rep = cr_head_hash rep' →
  Forall2 same_row (db_events db) (db_events db') ∨ sha256_collision.
Proof.
  unfold verify_chain. intros Hv Hv' Ho Ho' Hc Hh.
  destruct (verify_rows_accepted _ _ _ _ _ Hv Ho) as (Ha & Hn & Hl).
  destruct (verify_rows_accepted _ _ _ _ _ Hv' Ho') as (Ha' & Hn' & Hl').
  eapply rows_accepted_same; [done|done|lia|congruence].
Qed.

(** Dedupe keys that are the default one, set to NULL. *)
Definition erase_default_key (r : Row) : Row :=
  if decide (r_dedupe_key r = effective_key (set_key r None)) then set_key r None else r.

Lemma from_row_erase r : from_row (erase_default_key r) = from_row r.
Proof.
  unfold erase_default_key. case_decide as E; [|done]. unfold effective_key in E. simpl in E.
  unfold from_row. simpl. destruct (loads (r_payload r)) as [payload|]; [|done]. simpl.
  destruct (type_of_value (r_type r)) as [t|] eqn:Et; [|done].
  destruct payload; try done. rewrite E. cbn [option_bind mbind]. unfold post_init. simpl.
  destruct (loads _) as [[| | | | | |p]|]; try done.
  by destruct (default_dedupe_key t _ _ _ _) eqn:Ek; simpl; rewrite ?Ek.
Qed.

(** The one thing the chain does not cover: setting the dedupe key of any
    rows to NULL, where it is the default key of their event, goes unnoticed
    by the check, although the key is what refuses a second copy of the effect. *)
Theorem erased_default_keys_unnoticed db :
  verify_chain (with_events db (map erase_default_key (db_events db))) = verify_chain db.
Proof.
  unfold verify_chain. simpl.
  assert (∀ rows n prev c, verify_rows (map erase_default_key rows) n prev c = verify_rows rows n prev c)
    as Hg; [|apply Hg].
  induction rows as [|r rows IH]; intros n prev c; [done|]. cbn [map verify_rows].
  assert (_row_defect (erase_default_key r) n prev = _row_defect r n prev
          ∧ r_seq (erase_default_key r) = r_seq r ∧ r_hash (erase_default_key r) = r_hash r)
    as (-> & -> & ->).
  { unfold _row_defect. rewrite from_row_erase. unfold erase_default_key. by case_decide. }
  destruct (_row_defect r n prev) as [[why|]|]; [done|apply IH|done].
Qed.

(** ** The projection against the replay *)

Lemma py_eq_norm j : scalar j → py_eq j (retry_norm j) = true.
Proof. destruct j as [|[]|z| | | |]; try done. intros _. by apply py_eq_refl. Qed.

Lemma state_py_eq_norm k s : Storable k s → state_py_eq s (norm s) = true.
Proof.
  intros [_ Hp Hi Hr _]. unfold state_py_eq. rewrite bool_decide_eq_true_2 by done. simpl.
  rewrite !py_eq_refl by (by apply canonical_wf). simpl. by apply py_eq_norm.
Qed.

Lemma by_task_id_lookup l (m0 : gmap string TaskState) k s :
  NoDup (map ts_task_id l) →
  fold_left (λ m s, <[ts_task_id s := s]> m) l m0 !! k = Some s ↔
  s ∈ l ∧ ts_task_id s = k ∨ m0 !! k = Some s ∧ k ∉ map ts_task_id l.
Proof.
  revert m0. induction l as [|x l IH]; intros m0 Hnd; cbn [fold_left map].
  - rewrite !elem_of_nil. naive_solver.
  - cbn [map] in Hnd. apply NoDup_cons in Hnd as [Hx Hnd]. rewrite IH, !elem_of_cons by done.
    destruct (decide (ts_task_id x = k)) as [<-|Hne].
    + rewrite lookup_insert_eq. split.
      * intros [[Hin E]|[[= <-] _]]; [|by left; auto]. exfalso. apply Hx. rewrite <- E.
        by apply list_elem_of_fmap_2.
      * intros [[[->|Hin] E]|[_ []]]; [right; by split|left; by split|by left].
    + rewrite lookup_insert_ne by done. naive_solver.
Qed.

Lemma by_task_id_map (m : gmap string TaskState) l :
  map_Forall (λ k s, ts_task_id s = k) m → l ≡ₚ (map_to_list m).*2 → by_task_id l = m.
Proof.
  intros Hid Hp. assert (map ts_task_id l ≡ₚ (map_to_list m).*1) as Hk.
  { rewrite Hp. change (map ts_task_id (map_to_list m).*2) with (ts_task_id <$> (map_to_list m).*2).
    rewrite <- list_fmap_compose. apply reflexive_eq, list_fmap_ext. intros i [k s] Hks. simpl.
    apply Hid, elem_of_map_to_list. by eapply list_elem_of_lookup_2. }
  apply map_eq. intros k. apply option_eq. intros s. unfold by_task_id.
  rewrite by_task_id_lookup by (rewrite Hk; apply NoDup_fst_map_to_list).
  rewrite lookup_empty, Hp. split.
  - intros [[([k' s'] & -> & Hin)%list_elem_of_fmap Ek]|[? _]]; [|done].
    apply elem_of_map_to_list in Hin. simpl in *. specialize (Hid _ _ Hin). simpl in Hid. congruence.
  - intros Hk'. left. split; [|by apply Hid]. apply list_elem_of_fmap. exists (k, s).
    split; [done|]. by apply elem_of_map_to_list.
Qed.

Lemma from_rows ls :
  Forall (λ s, canonical (ts_params s) ∧ canonical (ts_input s)) ls →
  mapM _from_row (map _to_row ls) = Ok ls.
Proof.
  induction 1 as [|s ls [Hp Hi] _ IH]; [done|]. cbn [map mapM].
  rewrite from_row_to_row by done. cbn [mbind result_bind]. by rewrite IH.
Qed.

(** The states [tasks] reads are those of the fold. *)
Lemma tasks_sound db es m :
  Sound db es m → ∃ l, tasks db None = Ok l ∧ l ≡ₚ (map_to_list (norm <$> m)).*2.
Proof.
  intros [_ (p & Hp & [Hr Ho _] & _) _]. unfold tasks, tables, load_tasks. rewrite Hp.
  cbn [of_option mbind result_bind]. unfold rows. rewrite Hr, map_fmap_compose.
  rewrite (map_to_list_fmap _ (norm <$> m)), <- list_fmap_compose.
  replace (snd ∘ prod_map id _to_row <$> map_to_list (norm <$> m))
    with (map _to_row (map_to_list (norm <$> m)).*2)
    by (transitivity (_to_row <$> (map_to_list (norm <$> m)).*2);
        [done|by rewrite <- !list_fmap_compose]).
  set (ls := (map_to_list (norm <$> m)).*2).
  pose proof (merge_sort_Permutation row_le (map _to_row ls)) as Hperm.
  apply Permutation_map_inv in Hperm as (ls' & E & Hls). rewrite E. exists ls'.
  split; [|done]. apply from_rows. rewrite <- Hls. unfold ls. apply Forall_forall.
  intros s ([k s'] & -> & Hin)%list_elem_of_fmap. apply elem_of_map_to_list in Hin. simpl.
  apply lookup_fmap_Some in Hin as (s & <- & Hk). by eapply norm_canonical, Ho.
Qed.

Lemma fold_iter_map m es : fold_iter m (map Ok es) = fold_from m es.
Proof.
  revert m. induction es as [|e es IH]; intros m; [done|]. symmetry.
  etransitivity; [apply fold_from_one|]. cbn [map fold_iter mbind result_bind].
  destruct (fold_from m [e]); [symmetry; apply IH|done].
Qed.

Lemma events_all db es m : Recorded db es m → events db 0 None = map Ok es.
Proof.
  intros Hr. rewrite <- (map_from_row es) by (by eapply recorded_stored). unfold events.
  rewrite <- (rc_rows _ _ _ Hr). f_equal. apply filter_all.
  apply Forall_forall. rewrite (rc_rows _ _ _ Hr). intros r (e & -> & He)%list_elem_of_fmap.
  split; [|by left]. pose proof (recorded_stored _ _ _ Hr) as Hst. rewrite Forall_forall in Hst.
  destruct (Hst e He) as (_ & [q Hq] & _). simpl. rewrite Hq. simpl.
  pose proof (contiguous_seq _ _ _ _ (rc_contig _ _ _ Hr) He Hq). lia.
Qed.

(** On a sound journal the stored projection always passes its own check
    against the in-memory replay. *)
Theorem sound_projection_verifies db es m : Sound db es m → verify_projection db = Ok true.
Proof.
  intros Hs. pose proof (sd_recorded _ _ _ Hs) as Hr. unfold verify_projection.
  rewrite (events_all db es m Hr), fold_iter_map. change (fold_from ∅ es) with (fold es).
  rewrite (rc_fold _ _ _ Hr). destruct (tasks_sound db es m Hs) as (l & -> & Hl).
  cbn [mbind result_bind]. destruct Hs as [_ (p & _ & [_ Ho _] & _) _].
  rewrite (by_task_id_map (norm <$> m) l); [|by intros k s (s0 & <- & Hk)%lookup_fmap_Some; apply (Ho k s0)|done].
  unfold tasks_py_eq. rewrite bool_decide_eq_true_2 by (by rewrite dom_fmap_L). simpl.
  apply (f_equal Ok), forallb_forall. intros [k s] Hin%list_elem_of_In%elem_of_map_to_list. simpl.
  rewrite lookup_fmap, Hin. simpl. by eapply state_py_eq_norm, Ho.
Qed.

(** ** Opening *)

Lemma guards_schema db : guards_present (events_schema db) = true.
Proof.
  unfold guards_present. apply forallb_forall. intros g Hg%list_elem_of_In.
  apply bool_decide_eq_true. simpl. apply elem_of_app.
  destruct (decide (g ∈ db_triggers db)); [by left|right]. by apply list_elem_of_filter.
Qed.

Lemma open_db_sound db es m :
  Recorded db es m → db_user_version db = 0 ∨ db_user_version db = DB_SCHEMA_VERSION →
  (∀ p, db_projection db = Some p → p_version p = PROJECTION_VERSION →
        Agrees p m ∧ p_last_seq p = Z.of_nat (length es)) →
  ∃ db', open_db db = (Ok tt, db') ∧ Sound db' es m ∧ db_events db' = db_events db.
Proof.
  intros Hr Hver Hproj. unfold open_db.
  replace ((db_user_version db =? 0) || (db_user_version db =? DB_SCHEMA_VERSION))%bool with true
    by (by destruct Hver as [-> | ->]). cbn [negb].
  assert (∃ p, (if is_current (db_projection (events_schema db)) then mret (db_projection db)
                else p ← rebuild_in_place (map from_row (db_events (events_schema db))); mret (Some p))
               = Ok (Some p) ∧ Agrees p m ∧ p_last_seq p = Z.of_nat (length es)) as (p & Hp & Hag & Hl).
  { simpl. destruct (db_projection db) as [p|] eqn:E; simpl.
    1: destruct (bool_decide _) eqn:Eb; bool_hyps.
    { exists p. destruct (Hproj p eq_refl Eb). by split_and!. }
    all: pose proof (replay_fold es (create_schema None) ∅ 0 agrees_empty) as Hrep;
      specialize (Hrep ltac:(apply map_Forall_empty) (rc_valid _ _ _ Hr) (rc_contig _ _ _ Hr)
        (rc_fits _ _ _ Hr) ltac:(done) (rc_length _ _ _ Hr));
      unfold rebuild_in_place;
      rewrite (rc_rows _ _ _ Hr), map_from_row by (by eapply recorded_stored);
      change (fold_from ∅ es) with (fold es) in Hrep; rewrite (rc_fold _ _ _ Hr) in Hrep;
      destruct (replay _ _) as [q|]; [|done]; destruct Hrep as (m' & Hm & Hag & Hl);
      apply (inj Ok) in Hm as <-; exists q; split_and!; [done|done|by apply Hl]. }
  change (db_projection (events_schema db)) with (db_projection db) in *. rewrite Hp. simpl.
  eexists. split_and!; [done| |done]. split.
  - by destruct Hr.
  - by exists p.
  - split; [|done]. apply (guards_schema db).
Qed.

(** Reopening rebuilds: whatever the projection tables of a recorded
    journal hold - none, those of another projection version, or the current
    ones - a writable open succeeds, touches no event, reinstalls the
    append-only triggers and leaves the projection of the recorded history. *)
Theorem reopening_restores_projection db es m :
  Recorded db es m → db_user_version db = 0 ∨ db_user_version db = DB_SCHEMA_VERSION →
  (∀ p, db_projection db = Some p → p_version p = PROJECTION_VERSION →
        Agrees p m ∧ p_last_seq p = Z.of_nat (length es)) →
  ∃ j', open false (Some db) = (Ok j', Some (j_db j')) ∧ Sound (j_db j') es m
        ∧ db_events (j_db j') = db_events db
        ∧ ∀ k, task (j_db j') k = Ok (norm <$> m !! k).
Proof.
  intros Hr Hv Hp. destruct (open_db_sound db es m Hr Hv Hp) as (db' & Ho & Hs & He).
  unfold open. simpl. rewrite Ho. exists (mkJournal false true db'). split_and!; [done|done|done|].
  intros k. by eapply task_sound.
Qed.

(** ** Reachable journals *)

(** What a process does with the file: append constructed events, reopen. *)
Inductive journal_step (db : Db) : Db → Prop :=
  | js_append e r j' :
      Valid e → append (mkJournal false true db) e = (r, j') → journal_step db (j_db j')
  | js_reopen r db' : open_db db = (r, db') → journal_step db db'.

Lemma append_sound db es m e r j' :
  Sound db es m → Valid e → append (mkJournal false true db) e = (r, j') →
  ∃ ext m', Sound (j_db j') (es ++ ext) m'.
Proof.
  intros Hs Hv Ha. destruct (ev_seq e) as [q|] eqn:Hq, (ev_hash e) as [h|] eqn:Hh.
  1-3: unfold append in Ha; rewrite Hq, Hh in Ha; simpl in Ha; injection Ha as <- <-;
    exists [], m; by rewrite app_nil_r.
  rewrite append_unfold in Ha by done. simpl in Ha.
  destruct (key_cases es e) as [(key & x & Hk & Hx)|Hk].
  - rewrite (append_body_keyed _ es m e key x) in Ha by done. exists [], m. rewrite app_nil_r.
    by case_bool_decide; injection Ha as <- <-.
  - rewrite (append_body_new _ es m) in Ha by (done || apply Hs).
    destruct (append_new db e) as [[r' db']|x] eqn:E; injection Ha as <- <-.
    + apply (append_new_Ok _ es m) in E as (s & m' & h & _ & _ & _ & Hsnd & _); [|done..]. eauto.
    + exists [], m. by rewrite app_nil_r.
Qed.

Lemma reopen_sound db es m r db' :
  Sound db es m → open_db db = (r, db') → Sound db' es m.
Proof.
  intros [Hr (p & Hp & Hag & Hl) [Hg Hv]] Ho.
  destruct (open_db_sound db es m) as (db2 & Ho2 & Hs & _);
    [done|by right|by intros p' ? _; simplify_eq|]. rewrite Ho2 in Ho. by simplify_eq.
Qed.

(** Every reachable journal is sound and only grows: from a fresh file,
    through any sequence of appends (accepted or refused) and reopenings, the
    file is always the recorded history of legal events with its projection,
    and every earlier history is a prefix of every later one. *)
Theorem reachable_journals_grow db0 db db' :
  open_db empty_db = (Ok tt, db0) → rtc journal_step db0 db → rtc journal_step db db' →
  ∃ es m ext m', Sound db es m ∧ Sound db' (es ++ ext) m'
                 ∧ db_events db' = db_events db ++ map event_row ext.
Proof.
  intros Ho H1 H2.
  assert (∀ d d', rtc journal_step d d' → ∀ es m, Sound d es m →
          ∃ ext m', Sound d' (es ++ ext) m') as Hgen.
  { clear. induction 1 as [d|d d1 d2 Hst _ IH]; intros es m Hs.
    - exists [], m. by rewrite app_nil_r.
    - destruct Hst as [e r j' Hv Ha|r d1 Ho].
      + destruct (append_sound _ _ _ _ _ _ Hs Hv Ha) as (ext & m' & Hs').
        destruct (IH _ _ Hs') as (ext' & m'' & Hs''). exists (ext ++ ext'), m''. by rewrite app_assoc.
      + eapply IH, reopen_sound; done. }
  assert (Sound db0 [] ∅) as Hs0.
  { destruct (open_db_sound empty_db [] ∅) as (d & Hd & Hs & _); [|by left|done|].
    - split; try done; try constructor.
    - rewrite Hd in Ho. by injection Ho as <-. }
  destruct (Hgen _ _ H1 _ _ Hs0) as (es & m & Hs). destruct (Hgen _ _ H2 _ _ Hs) as (ext & m' & Hs').
  exists ([] ++ es), m, ext, m'. split_and!; [done|done|].
  rewrite (rc_rows _ _ _ (sd_recorded _ _ _ Hs)), (rc_rows _ _ _ (sd_recorded _ _ _ Hs')).
  by rewrite map_app.
Qed.

End ledger.
