(* ===== verification/Verification.v ===== *)
(** * Verification ([courier_core/verification.py])

    The fail-closed rules around an adapter's verdict.  Adapter modules are
    not under the core: a resolver and its verifiers are parameters, each a
    function that raises (with the name of the exception's class) or returns. *)

From Stdlib Require Import Ascii.
From S2P Require Import Prelude PyText Json Events StateMachine.

Definition is_lower (a : ascii) : bool := ((97 <=? code a) && (code a <=? 122))%bool.
Definition is_name_char (a : ascii) : bool :=
  (is_lower a || is_digit a || (code a =? 95))%bool.

(** At most [n] name characters, then the end or a final line feed. *)
Fixpoint name_then_end (n : nat) (s : string) : bool :=
  match s with
  | "" => true
  | String a r =>
      ((code a =? 10) && match r with "" => true | _ => false end
       || match n with O => false | S n => is_name_char a && name_then_end n r end)%bool
  end.

(** [re.compile("^[a-z][a-z0-9_]{0,63}$").match] *)
Definition ADAPTER_NAME_match (s : string) : bool :=
  match s with
  | "" => false
  | String a r => (is_lower a && name_then_end 63 r)%bool
  end.

Record Verdict := mkVerdict {
  vt_accepted : bool;
  vt_reason : string;
  vt_retryable : bool;
  vt_verifier : json;
}.

(** What a verifier hands back: a [Verdict] with whatever its fields hold, or
    some other object. *)
Inductive Returned :=
  | RVerdict (accepted reason retryable : json)
  | ROther.

(** A computation of foreign code: an exception's class name, or a value. *)
Inductive foreign (A : Type) :=
  | Raised (class : string)
  | Returned_ (a : A).
Arguments Raised {A} class.
Arguments Returned_ {A} a.

(** A verifier with its identity (module, version, source digest). *)
Record Verifier := mkVerifier {
  vf_identity : json;
  vf_verify : TaskState → Event → foreign Returned;
}.

Definition _rule (name adapter : string) : json :=
  JObj [("kind", JStr "courier_rule"); ("name", JStr name); ("adapter", JStr adapter)].

Section verification.
Context `{PyPlatform}.

(** [adapter_verifier] over the import system's answer for a module name. *)
Definition adapter_verifier (import : string → foreign (option Verifier)) (adapter : string)
    : foreign (option Verifier) :=
  if ADAPTER_NAME_match adapter then import ("adapters." +:+ adapter) else Returned_ None.

Definition reported_failure (task : TaskState) (result : Event) : Verdict :=
  let reason_value := jget_none "reason" (ev_payload result) in
  let reason := if py_truthy reason_value then py_str reason_value
                else "worker reported failure" in
  let raw_retryable := default (JBool (may_auto_retry (ts_effect_class task)))
                         (jget "retryable" (ev_payload result)) in
  let retryable :=
    if (py_in "timeout" (py_lower reason) && negb (may_auto_retry (ts_effect_class task)))%bool
    then false else py_truthy raw_retryable in
  mkVerdict false (py_take 500 reason) retryable
    (_rule "worker_reported_failure" (ts_adapter task)).

Definition run_verifier (resolve : string → foreign (option Verifier)) (task : TaskState)
    (result : Event) : Verdict :=
  if negb (bool_decide (jget "outcome" (ev_payload result) = Some (JStr "success"))) then
    reported_failure task result
  else match resolve (ts_adapter task) with
  | Raised cls =>
      mkVerdict false ("verifier for adapter " +:+ repr_str (ts_adapter task)
                       +:+ " failed to load: " +:+ cls) false
        (_rule "verifier_load_failed" (ts_adapter task))
  | Returned_ None =>
      mkVerdict false ("no verifier registered for adapter " +:+ repr_str (ts_adapter task)) false
        (_rule "no_verifier" (ts_adapter task))
  | Returned_ (Some v) =>
      match vf_verify v task result with
      | Raised cls => mkVerdict false ("verifier raised " +:+ cls) false (vf_identity v)
      | Returned_ ROther => mkVerdict false "verifier returned an invalid verdict" false (vf_identity v)
      | Returned_ (RVerdict accepted reason retryable) =>
          match accepted with
          | JBool ok =>
              let allowed_retry :=
                if (py_in "timeout" (py_lower (py_str reason))
                    && negb (may_auto_retry (ts_effect_class task)))%bool
                then false else py_truthy retryable in
              mkVerdict ok (py_take 500 (py_str reason)) allowed_retry (vf_identity v)
          | _ => mkVerdict false "verifier returned an invalid verdict" false (vf_identity v)
          end
      end
  end.

(** Verification fails closed: a verdict accepts only when the worker
    reported success, the adapter's verifier loaded, ran without an exception
    and itself returned a verdict that accepts; whatever else happens -
    failure reported, no verifier, a broken one, an exception, an object that
    is not a verdict - the result is not accepted. *)
Theorem run_verifier_fails_closed resolve task result :
  vt_accepted (run_verifier resolve task result) = true ↔
  jget "outcome" (ev_payload result) = Some (JStr "success")
  ∧ ∃ v reason retryable,
      resolve (ts_adapter task) = Returned_ (Some v)
      ∧ vf_verify v task result = Returned_ (RVerdict (JBool true) reason retryable).
Proof.
  unfold run_verifier. case_bool_decide as Ho; simpl; [|split; [done|by intros [? _]]].
  destruct (resolve (ts_adapter task)) as [cls|[v|]] eqn:Er; simpl.
  - split; [done|]. by intros (_ & v & ? & ? & ? & _).
  - split.
    + destruct (vf_verify v task result) as [cls|[acc rs rt|]] eqn:Ev; [done| |done].
      destruct acc as [|[]| | | | |]; try done. intros _. split; [done|]. by exists v, rs, rt.
    + intros (_ & v' & rs & rt & [= <-] & ->). done.
  - split; [done|]. by intros (_ & v & ? & ? & ? & _).
Qed.

(** A verdict never allows a blind retry of an uncertain effect: for a task
    that is not classified idempotent, a verdict that may be retried has a
    reason (as the worker or the verifier gave it, before it is cut to 500
    characters) that does not mention a timeout. *)
Theorem retryable_verdict_is_certain resolve task result :
  may_auto_retry (ts_effect_class task) = false →
  vt_retryable (run_verifier resolve task result) = true →
  ∃ reason, vt_reason (run_verifier resolve task result) = py_take 500 reason
            ∧ py_in "timeout" (py_lower reason) = false.
Proof.
  intros He. unfold run_verifier, reported_failure. rewrite He. simpl. rewrite !andb_true_r.
  case_bool_decide; simpl.
  - destruct (resolve _) as [cls|[v|]]; [done| |done].
    destruct (vf_verify _ _ _) as [cls|[acc rs rt|]]; [done| |done].
    destruct acc; try done. simpl. rewrite andb_true_r.
    destruct (py_in _ _) eqn:E; [done|]. eauto.
  - destruct (py_in _ _) eqn:E; [done|]. eauto.
Qed.

End verification.
