(* ===== verification/Controller.v ===== *)
(** * The controller ([courier_core/controller.py])

    The only writer of the journal: its durable state is the journal file, its
    memory the leases and the verification queue.  Every operation is a
    computation that may raise and keeps the state it had reached when it
    does.  Time, fresh identifiers, the lock's availability, SQLite's own
    structural check and the adapters are the [World]. *)

From Stdlib Require Import Qminmax.
From S2P Require Import Prelude PyText Json Sha256 Events StateMachine Lifecycle History Projection Replay Journal Ledger Verification.

Inductive Mode := BOOTING | NORMAL | DEGRADED.
#[export] Instance Mode_eq_dec : EqDecision Mode.
Proof. solve_decision. Defined.

Definition MAX_LEASE_TTL_S : Z := 3600.
Definition MAX_TIMEOUT_S : Z := 7 * 24 * 3600.
Definition MAX_HEARTBEAT_DISPATCHES : nat := 256.
Definition MAX_ARTIFACTS : nat := 1000.
Definition SUSPEND_GAP_S : Q := 5.
Definition MAX_REASON_CHARS : Z := 2000.

Definition TASK_FIELDS : list string :=
  ["adapter"; "params"; "effect_class"; "max_attempts"; "lease_ttl_s"; "timeout_s";
   "idempotency_key"; "depends_on"].
Definition RESULT_FIELDS : list string :=
  ["dispatch_id"; "result_id"; "artifacts"; "outcome"; "retryable"; "reason"].
Definition RESOLVE_DECISIONS : list (string * EventType) :=
  [("effect_confirmed", EFFECT_CONFIRMED); ("retry_authorized", RETRY_AUTHORIZED);
   ("cancel", TASK_CANCELLED)].

Record Lease := mkLease {
  l_task_id : string;
  l_dispatch_id : string;
  l_worker_id : string;
  l_ttl_s : Z;
  l_deadline : Q;
  l_reason : string;
}.

(** The controller object and the journal file it owns.  [c_leases] is a dict
    keyed by dispatch id, in insertion order; [c_journal] is the open journal
    object's read-only flag; [c_calls] numbers the calls to the world. *)
Record Ctl := mkCtl {
  c_mode : Mode;
  c_first_bad_seq : option Z;
  c_degraded_reason : option string;
  c_file : option Db;
  c_journal : option bool;
  c_leases : list Lease;
  c_queue : list string;
  c_head_seq : Z;
  c_stopping : bool;
  c_last_tick : option Q;
  c_projection_readable : bool;
  c_calls : nat;
}.

(** What the controller asks of its environment: the n-th answer. *)
Class World := {
  w_uuid : nat → string;
  w_utc_now : nat → string;
  w_clock : nat → Q;
  w_lock : nat → bool;
  w_pid : Z;
  w_build : json;
  w_quick_check : Db → string;
  w_verifier : string → foreign (option Verifier);
}.

Definition set_memory (c : Ctl) (leases : list Lease) (queue : list string) : Ctl :=
  mkCtl (c_mode c) (c_first_bad_seq c) (c_degraded_reason c) (c_file c) (c_journal c) leases queue
    (c_head_seq c) (c_stopping c) (c_last_tick c) (c_projection_readable c) (c_calls c).
Definition set_leases (c : Ctl) (l : list Lease) : Ctl := set_memory c l (c_queue c).
Definition set_queue (c : Ctl) (q : list string) : Ctl := set_memory c (c_leases c) q.
Definition set_file (c : Ctl) (file : option Db) (journal : option bool) : Ctl :=
  mkCtl (c_mode c) (c_first_bad_seq c) (c_degraded_reason c) file journal (c_leases c) (c_queue c)
    (c_head_seq c) (c_stopping c) (c_last_tick c) (c_projection_readable c) (c_calls c).
Definition set_head_seq (c : Ctl) (n : Z) : Ctl :=
  mkCtl (c_mode c) (c_first_bad_seq c) (c_degraded_reason c) (c_file c) (c_journal c) (c_leases c)
    (c_queue c) n (c_stopping c) (c_last_tick c) (c_projection_readable c) (c_calls c).
Definition set_mode (c : Ctl) (m : Mode) (reason : option string) (bad : option Z) : Ctl :=
  mkCtl m bad reason (c_file c) (c_journal c) (c_leases c) (c_queue c)
    (c_head_seq c) (c_stopping c) (c_last_tick c) (c_projection_readable c) (c_calls c).
Definition set_readable (c : Ctl) (b : bool) : Ctl :=
  mkCtl (c_mode c) (c_first_bad_seq c) (c_degraded_reason c) (c_file c) (c_journal c) (c_leases c)
    (c_queue c) (c_head_seq c) (c_stopping c) (c_last_tick c) b (c_calls c).
Definition set_last_tick (c : Ctl) (t : option Q) : Ctl :=
  mkCtl (c_mode c) (c_first_bad_seq c) (c_degraded_reason c) (c_file c) (c_journal c) (c_leases c)
    (c_queue c) (c_head_seq c) (c_stopping c) t (c_projection_readable c) (c_calls c).
Definition set_stopping (c : Ctl) : Ctl :=
  mkCtl (c_mode c) (c_first_bad_seq c) (c_degraded_reason c) (c_file c) (c_journal c) (c_leases c)
    (c_queue c) (c_head_seq c) true (c_last_tick c) (c_projection_readable c) (c_calls c).
Definition count_call (c : Ctl) : Ctl :=
  mkCtl (c_mode c) (c_first_bad_seq c) (c_degraded_reason c) (c_file c) (c_journal c) (c_leases c)
    (c_queue c) (c_head_seq c) (c_stopping c) (c_last_tick c) (c_projection_readable c)
    (S (c_calls c)).

(** [Controller.__init__] over the file found at its path. *)
Definition new_controller (file : option Db) (calls : nat) : Ctl :=
  mkCtl BOOTING None None file None [] [] 0 false None true calls.

(** ** The controller's computations *)
Definition C (A : Type) : Type := Ctl → result A * Ctl.
#[export] Instance C_ret : MRet C := λ A a c, (Ok a, c).
#[export] Instance C_bind : MBind C := λ A B f m c,
  match m c with (Ok a, c') => f a c' | (Err x, c') => (Err x, c') end.

Definition get : C Ctl := λ c, (Ok c, c).
Definition modify (f : Ctl → Ctl) : C unit := λ c, (Ok tt, f c).
Definition lift {A} (r : result A) : C A := λ c, (r, c).
Definition throw {A} (cls : exn_class) (msg : string) : C A := lift (raise cls msg).
Definition api {A} (status : Z) (code : string) : C A := throw (ApiError status code) code.
Definition api_if (b : bool) (status : Z) (code : string) : C unit :=
  if b then api status code else mret tt.
Definition ask {A} (f : nat → A) : C A := λ c, (Ok (f (c_calls c)), count_call c).

(** [try: m except ...: handler] for the exceptions [handler] knows. *)
Definition try_except {A} (m : C A) (handler : exn → option (C A)) : C A := λ c,
  match m c with
  | (Err x, c') => match handler x with Some h => h c' | None => (Err x, c') end
  | r => r
  end.

(** [for x in l: body(x)] *)
Fixpoint for_each {A} (l : list A) (body : A → C unit) : C unit :=
  match l with [] => mret tt | x :: l => body x;; for_each l body end.

(** Reading an attribute of None. *)
Definition attr {A} (o : option A) : C A :=
  match o with Some a => mret a | None => throw AttributeError "NoneType" end.

Definition bad_request {A} : result A := raise (ApiError 400 "invalid_request") "invalid_request".
Definition bad_if (b : bool) : result unit := if b then bad_request else Ok tt.

(** ** Request fields *)
Definition _require_id (body : list (string * json)) (name : string) : result string :=
  match jget name body with
  | Some (JStr s) => bad_if (bool_decide (s = "") || (MAX_ID_LENGTH <? py_len s));; mret s
  | _ => bad_request
  end.

Definition _require_int (body : list (string * json)) (name : string) (low high : Z)
    (required : bool) : result (option Z) :=
  match jget_none name body with
  | JNull => if required then bad_request else Ok None
  | JInt z => bad_if (negb ((low <=? z) && (z <=? high)));; mret (Some z)
  | _ => bad_request
  end.

Definition _require_reason (body : list (string * json)) (required : bool) : result (option string) :=
  match jget_none "reason" body with
  | JNull => if required then bad_request else Ok None
  | JStr s => bad_if (py_blank s || (MAX_REASON_CHARS <? py_len s));; mret (Some s)
  | _ => bad_request
  end.

Definition _only_fields (body : json) (allowed : list string) : result (list (string * json)) :=
  match body with
  | JObj kvs => bad_if (negb (forallb (λ k, bool_decide (k ∈ allowed)) (keys kvs)));; mret kvs
  | _ => bad_request
  end.

(** A field that may be absent or null. *)
Definition optional_id (body : list (string * json)) (name : string) : result (option string) :=
  match jget_none name body with
  | JNull => Ok None
  | _ => s ← _require_id body name; mret (Some s)
  end.

Definition heartbeat_interval (ttl_s : Z) : Q := Qmax (1 # 2) (inject_Z ttl_s / 3).

Definition find_lease (leases : list Lease) (dispatch_id : string) : option Lease :=
  snd <$> list_find (λ l, l_dispatch_id l = dispatch_id) leases.
(** [leases[l.dispatch_id] = l] keeps the place of an existing key. *)
Fixpoint put_lease (leases : list Lease) (l : Lease) : list Lease :=
  match leases with
  | [] => [l]
  | x :: r => if decide (l_dispatch_id x = l_dispatch_id l) then l :: r else x :: put_lease r l
  end.
Definition del_lease (leases : list Lease) (dispatch_id : string) : list Lease :=
  filter (λ l, l_dispatch_id l ≠ dispatch_id) leases.
Definition with_deadline (l : Lease) (t : Q) (reason : string) : Lease :=
  mkLease (l_task_id l) (l_dispatch_id l) (l_worker_id l) (l_ttl_s l) t reason.

Section controller.
Context `{PyPlatform} `{World}.

(** ** Primitives *)
Definition _locked {A} (m : C A) : C A :=
  acquired ← ask w_lock;
  if (acquired : bool) then m else api 503 "busy".

Definition _require_writable : C unit :=
  c ← get;
  api_if (c_stopping c) 503 "stopping";;
  api_if (negb (bool_decide (c_mode c = NORMAL))) 503 "degraded_readonly".

(** The database behind [self.journal]. *)
Definition the_db : C Db :=
  c ← get;
  match c_journal c, c_file c with
  | Some _, Some db => mret db
  | _, _ => throw AttributeError "NoneType"
  end.

(** [self.journal.f(...)] for a read. *)
Definition read {A} (f : Db → result A) : C A := db ← the_db; lift (f db).

Definition task_of (db : Db) (task_id : option string) : result (option TaskState) :=
  p ← tables db; load_task p task_id.

Definition append_file (e : Event) : C AppendResult := λ c,
  match c_journal c, c_file c with
  | Some readonly, Some db =>
      let '(r, j) := append (mkJournal readonly true db) e in
      (r, set_file c (Some (j_db j)) (c_journal c))
  | _, _ => (raise AttributeError "NoneType", c)
  end.

Definition _append (e : Event) : C AppendResult :=
  r ← append_file e;
  (if ar_duplicate r then mret tt
   else modify (λ c, set_head_seq c (default 0 (ev_seq (ar_event r)))));;
  mret r.

(** [Event(...)] with a fresh id and timestamp. *)
Definition make_event (t : EventType) (task_id : option string) (attempt : option Z)
    (dispatch_id worker_id result_id : option string) (payload : list (string * json))
    (dedupe_key : option string) : C Event :=
  event_id ← ask w_uuid;
  ts_utc ← ask w_utc_now;
  lift (new_event t task_id attempt dispatch_id worker_id result_id payload event_id ts_utc dedupe_key).

Definition append_ (t : EventType) (task_id : option string) (attempt : option Z)
    (dispatch_id worker_id result_id : option string) (payload : list (string * json)) : C unit :=
  e ← make_event t task_id attempt dispatch_id worker_id result_id payload None;
  _append e;; mret tt.

(** [self._append(self._task_event(type, task, payload=...))] *)
Definition append_task_event (t : EventType) (task : TaskState) (payload : list (string * json))
    : C unit :=
  append_ t (Some (ts_task_id task)) None None None None payload.

Definition _complete (task : TaskState) : C unit :=
  append_ TASK_COMPLETE (Some (ts_task_id task)) (Some (ts_attempt task)) (ts_dispatch_id task) None
    (ts_accepted_result_id task) [].

(** [task.last_reason or "attempt failed"] *)
Definition or_text (o : option string) (d : string) : string :=
  match o with Some s => if decide (s = "") then d else s | None => d end.

Definition _decide (task : TaskState) : C unit :=
  decision ← lift (decide_after_failure task);
  let reason := or_text (ts_last_reason task) "attempt failed" in
  match decision with
  | D_RETRY =>
      append_ TASK_RETRY_SCHEDULED (Some (ts_task_id task)) (Some (ts_attempt task)) None None None
        [("reason", JStr reason)]
  | D_FAIL => append_task_event TASK_FAILED task [("reason", JStr reason)]
  | D_BLOCK =>
      append_task_event TASK_BLOCKED task
        [("reason", JStr ("outcome of " +:+ ts_effect_class task +:+ " attempt "
                          +:+ str_of_Z (ts_attempt task) +:+ " is unknown (" +:+ reason
                          +:+ "); needs a human decision"))]
  | D_CANCEL => append_task_event TASK_CANCELLED task [("reason", JStr "cancelled")]
  end.

(** ** Boot *)

Definition inspection_error (x : exn) : bool :=
  (is_database_error x || bool_decide (exn_cls x = ProjectionError)
   || is_value_error x)%bool.

(** The problem found with an existing journal, and its first bad row. *)
Definition inspect (db : Db) : result (option (string * option Z)) :=
  let quick := w_quick_check db in
  if negb (bool_decide (quick = "ok")) then
    Ok (Some ("sqlite quick_check failed: " +:+ py_take 300 quick, None))
  else
    report ← verify_chain db;
    if negb (cr_ok report) then
      Ok (Some ("hash chain broken: " +:+ fmt (cr_reason report), cr_first_bad_seq report))
    else if negb (guards_present db) then Ok (Some ("append-only guard triggers are missing", None))
    else if projection_current db then
      same ← verify_projection db;
      mret (if same : bool then None else Some ("stored projection differs from journal replay", None))
    else Ok None.

Definition _inspect_existing (file : option Db) : result (option (string * option Z)) :=
  match open true file with
  | (Err x, _) =>
      if (is_database_error x || is_journal_error x)%bool
      then Ok (Some ("journal cannot be opened", None)) else Err x
  | (Ok j, _) =>
      match inspect (j_db j) with
      | Err x => if inspection_error x then Ok (Some ("journal inspection failed", None)) else Err x
      | Ok p => Ok p
      end
  end.

Definition _enter_degraded (reason : string) (first_bad_seq : option Z) : C unit :=
  modify (λ c, set_mode c DEGRADED (Some reason) first_bad_seq);;
  c ← get;
  match open true (c_file c) with
  | (Ok j, _) =>
      modify (λ c, set_readable
                     (set_head_seq (set_file c (c_file c) (Some true)) (head (j_db j)).1)
                     (projection_current (j_db j)))
  | (Err x, _) =>
      if (is_database_error x || is_journal_error x)%bool
      then modify (λ c, set_file c (c_file c) None) else lift (Err x)
  end.

(** What a restart owes one task. *)
Definition recover_task (now : Q) (task : TaskState) : C unit :=
  let st := ts_status task in
  if ACTIVE_LEASE st then
    dispatch_id ← attr (ts_dispatch_id task);
    worker_id ← attr (ts_worker_id task);
    modify (λ c, set_leases c (put_lease (c_leases c)
      (mkLease (ts_task_id task) dispatch_id worker_id (ts_lease_ttl_s task)
         (now + inject_Z (ts_lease_ttl_s task)) "restart_grace")))
  else if decide (st = VERIFYING) then
    modify (λ c, set_queue c (c_queue c ++ [ts_task_id task]))
  else if decide (st = ACCEPTED) then _complete task
  else if decide (st = RETRY_PENDING) then _decide task
  else if (ts_cancel_requested task && bool_decide (st = QUEUED))%bool then
    append_task_event TASK_CANCELLED task []
  else mret tt.

Definition _recover : C unit :=
  now ← ask w_clock;
  l ← read (λ db, tasks db None);
  for_each l (recover_task now).

(** The writable open and what follows it. *)
Definition boot_normal : C unit :=
  modify (λ c, set_mode c NORMAL None None);;
  _locked (
    n ← read (λ db, Ok (head db).1);
    modify (λ c, set_head_seq c n);;
    append_ CONTROLLER_STARTED None None None None None
      [("pid", JInt w_pid); ("build", w_build)];;
    _recover).

Definition boot : C unit :=
  c ← get;
  problem ← (match c_file c with Some _ => lift (_inspect_existing (c_file c)) | None => mret None end);
  match problem with
  | Some (reason, first_bad) => _enter_degraded reason first_bad
  | None =>
      let '(r, file) := open false (c_file c) in
      match r with
      | Ok _ => modify (λ c, set_file c file (Some false));; boot_normal
      | Err x =>
          modify (λ c, set_file c file None);;
          if (is_database_error x || is_journal_error x)%bool
          then _enter_degraded "journal cannot be opened" None
          else lift (Err x)
      end
  end.

(** ** The API *)

Record Health := mkHealth {
  h_mode : Mode;
  h_head_seq : Z;
  h_active_leases : nat;
  h_degraded : option (option Z * option string);
}.

Definition health : C Health :=
  c ← get;
  mret (mkHealth (c_mode c) (c_head_seq c) (length (c_leases c))
          (if decide (c_mode c = DEGRADED) then Some (c_first_bad_seq c, c_degraded_reason c)
           else None)).

Definition task_view (task_id : string) : C (TaskState * string) :=
  c ← get;
  api_if (c_stopping c) 503 "stopping";;
  api_if (negb (c_projection_readable c)) 503 "degraded_readonly";;
  task ← _locked (c ← get;
                  match c_journal c with
                  | Some _ => read (λ db, task db task_id)
                  | None => mret None
                  end);
  match task with
  | None => api 404 "unknown_task"
  | Some t => key ← lift (effect_key (ts_task_id t)); mret (t, key)
  end.

(** The checked fields of a task request, as the event's payload. *)
Definition task_payload (body : list (string * json)) : result (list (string * json)) :=
  adapter ← _require_id body "adapter";
  bad_if (negb (ADAPTER_NAME_match adapter));;
  bad_if (negb (is_dict (jget_none "params" body)));;
  known ← json_in_strs (jget_none "effect_class" body) EFFECT_CLASSES;
  bad_if (negb known);;
  _require_int body "max_attempts" 1 MAX_ATTEMPTS_LIMIT true;;
  _require_int body "lease_ttl_s" 1 MAX_LEASE_TTL_S true;;
  timeout_s ← _require_int body "timeout_s" 1 MAX_TIMEOUT_S false;
  let field k := (k, jget_none k body) in
  mret (map field ["adapter"; "params"; "effect_class"; "max_attempts"; "lease_ttl_s"]
        ++ match timeout_s with Some z => [("timeout_s", JInt z)] | None => [] end).

Definition task_id_for (key : option string) : C string :=
  match key with
  | Some k => data ← lift (encode_utf8 k); mret ("task-" +:+ py_take 32 (sha256_hex data))
  | None => u ← ask w_uuid; mret ("task-" +:+ u)
  end.

(** [except EventValidationError: raise ApiError(400, ...)] *)
Definition as_bad_request {A} (m : C A) : C A :=
  try_except m (λ x, if decide (exn_cls x = EventValidationError)
                     then Some (lift bad_request) else None).

(** The dependency must exist before the task is recorded. *)
Definition check_dependency (depends_on : option string) : C unit :=
  match depends_on with
  | Some d => dep ← read (λ db, task db d); api_if (bool_decide (dep = None)) 400 "unknown_dependency"
  | None => mret tt
  end.

(** The part of [create_task] under the lock. *)
Definition create_locked (depends_on : option string) (event : Event) : C AppendResult :=
  check_dependency depends_on;;
  try_except (_append event) (λ x, if decide (exn_cls x = DedupeConflict)
                                   then Some (api 409 "idempotency_conflict") else None).

Definition create_task (request : json) : C (Z * string * bool) :=
  _require_writable;;
  body ← lift (_only_fields request TASK_FIELDS);
  payload ← lift (task_payload body);
  key ← lift (optional_id body "idempotency_key");
  task_id ← task_id_for key;
  depends_on ← lift (optional_id body "depends_on");
  let payload := payload ++ match depends_on with
                            | Some d => [("depends_on", JStr d)]
                            | None => []
                            end in
  event ← as_bad_request (make_event TASK_CREATED (Some task_id) None None None None payload None);
  result ← _locked (create_locked depends_on event);
  mret (if ar_duplicate result then 200 else 201, task_id, ar_duplicate result).

(** [{"path": a["path"], "sha256": a["sha256"]}] of each artifact. *)
Definition artifact_refs (artifacts : json) : result json :=
  match artifacts with
  | JArr l =>
      refs ← mapM (λ a, match a with
                        | JObj kvs =>
                            p ← of_option (Exn KeyError "path") (jget "path" kvs);
                            s ← of_option (Exn KeyError "sha256") (jget "sha256" kvs);
                            mret (JObj [("path", p); ("sha256", s)])
                        | _ => raise TypeError "artifact"
                        end) l;
      mret (JArr refs)
  | _ => raise TypeError "artifacts"
  end.

Definition result_key (dispatch_id result_id : option string) : string :=
  "result:" +:+ fmt dispatch_id +:+ ":" +:+ fmt result_id.

(** The verified result a dependent task may run on; a dependency that will
    never have one fails the task. *)
Definition _verified_input (task : TaskState) : C (option json) :=
  dep ← read (λ db, task_of db (ts_depends_on task));
  let never (why : string) : C (option json) :=
    append_task_event TASK_FAILED task
      [("reason", JStr ("dependency " +:+ fmt (ts_depends_on task)
                        +:+ " cannot provide an input: " +:+ why))];;
    mret None in
  match dep with
  | None => never "it is missing"
  | Some d =>
      if bool_decide (ts_status d = COMPLETE ∧ ts_resolution d = Some RESOLVED_VERIFIED) then
        found ← read (λ db, get_event_by_dedupe_key db
                              (result_key (ts_dispatch_id d) (ts_accepted_result_id d)));
        let artifacts := match found with
                         | Some e => jget_none "artifacts" (ev_payload e)
                         | None => JNull
                         end in
        if py_truthy artifacts then
          refs ← lift (artifact_refs artifacts);
          mret (Some (JObj [("task_id", JStr (ts_task_id d)); ("dispatch_id", jopt (ts_dispatch_id d));
                            ("result_id", jopt (ts_accepted_result_id d)); ("artifacts", refs)]))
        else never "its verified result names no artifact"
      else if TERMINAL (ts_status d) then
        never ("it ended " +:+ status_value (ts_status d) +:+ " without a verified result")
      else mret None
  end.

Record Claim := mkClaim {
  cl_task : TaskState;
  cl_attempt : Z;
  cl_dispatch_id : string;
  cl_worker_id : string;
  cl_heartbeat_s : Q;
  cl_effect_key : string;
  cl_input : option json;
}.

Definition issue_claim (worker_id : string) (task : TaskState) (bound : option json) : C Claim :=
  u ← ask w_uuid;
  let dispatch_id := "dsp-" +:+ u in
  let attempt := ts_attempt task + 1 in
  append_ TASK_CLAIMED (Some (ts_task_id task)) (Some attempt) (Some dispatch_id) (Some worker_id) None
    (("ttl_s", JInt (ts_lease_ttl_s task))
     :: match bound with Some b => [("input", b)] | None => [] end);;
  now ← ask w_clock;
  modify (λ c, set_leases c (put_lease (c_leases c)
    (mkLease (ts_task_id task) dispatch_id worker_id (ts_lease_ttl_s task)
       (now + inject_Z (ts_lease_ttl_s task)) "ttl")));;
  key ← lift (effect_key (ts_task_id task));
  mret (mkClaim task attempt dispatch_id worker_id (heartbeat_interval (ts_lease_ttl_s task)) key bound).

Fixpoint claim_first (worker_id : string) (queued : list TaskState) : C (option Claim) :=
  match queued with
  | [] => mret None
  | task :: rest =>
      if ts_cancel_requested task then claim_first worker_id rest
      else match ts_depends_on task with
      | None => cl ← issue_claim worker_id task None; mret (Some cl)
      | Some _ =>
          bound ← _verified_input task;
          match bound with
          | None => claim_first worker_id rest
          | Some b => cl ← issue_claim worker_id task (Some b); mret (Some cl)
          end
      end
  end.

Definition claim (request : json) : C (option Claim) :=
  _require_writable;;
  body ← lift (_only_fields request ["worker_id"; "resource_state"]);
  worker_id ← lift (_require_id body "worker_id");
  _locked (
    queued ← read (λ db, tasks db (Some (status_value QUEUED)));
    claim_first worker_id queued).

Definition _claim_of (dispatch_id : string) : C Event :=
  cl ← read (λ db, claim_for_dispatch db dispatch_id);
  match cl with Some e => mret e | None => api 404 "unknown_dispatch" end.

Definition start (request : json) : C (string * string) :=
  _require_writable;;
  body ← lift (_only_fields request ["dispatch_id"; "worker_id"]);
  dispatch_id ← lift (_require_id body "dispatch_id");
  let worker_id := jget_none "worker_id" body in
  _locked (
    cl ← _claim_of dispatch_id;
    api_if (negb (is_null worker_id) && negb (py_eq worker_id (jopt (ev_worker_id cl)))) 409 "wrong_worker";;
    task ← (read (λ db, task_of db (ev_task_id cl)) ≫= attr);
    api_if (negb (bool_decide (ts_dispatch_id task = Some dispatch_id)) || negb (ACTIVE_LEASE (ts_status task)))
      409 "stale_dispatch";;
    api_if (ts_cancel_requested task) 409 "cancel_requested";;
    if decide (ts_status task = RUNNING) then mret ("ALREADY_STARTED", ts_task_id task)
    else
      append_ TASK_STARTED (Some (ts_task_id task)) (ev_attempt cl) (Some dispatch_id) (ev_worker_id cl) None [];;
      mret ("STARTED", ts_task_id task)).

(** One reported dispatch: stop it, or keep its lease and maybe cancel it. *)
Definition beat (worker_id : string) (now : Q) (acc : list string * list string) (dispatch_id : string)
    : C (list string * list string) :=
  c ← get;
  let '(stop, cancel) := acc in
  match find_lease (c_leases c) dispatch_id with
  | Some lease =>
      if decide (l_worker_id lease = worker_id) then
        task ← read (λ db, task db (l_task_id lease));
        modify (λ c, set_leases c (put_lease (c_leases c)
                  (with_deadline lease (now + inject_Z (l_ttl_s lease)) "ttl")));;
        task ← attr task;
        mret (if ts_cancel_requested task then (stop, cancel ++ [dispatch_id]) else (stop, cancel))
      else mret (stop ++ [dispatch_id], cancel)
  | None => mret (stop ++ [dispatch_id], cancel)
  end.

Fixpoint fold_beats (worker_id : string) (now : Q) (acc : list string * list string)
    (ids : list string) : C (list string * list string) :=
  match ids with
  | [] => mret acc
  | d :: ids => acc ← beat worker_id now acc d; fold_beats worker_id now acc ids
  end.

(** A lease the worker holds and did not report: the stop of a cancelled
    dispatch is thereby confirmed. *)
Definition confirm_stop (reported : list string) (lease : Lease) : C unit :=
  if decide (l_dispatch_id lease ∈ reported) then mret tt
  else
    task ← (read (λ db, task db (l_task_id lease)) ≫= attr);
    if (ts_cancel_requested task && ACTIVE_LEASE (ts_status task)
        && bool_decide (ts_dispatch_id task = Some (l_dispatch_id lease)))%bool then
      append_task_event TASK_CANCELLED task [("reason", JStr "worker confirmed stop")];;
      modify (λ c, set_leases c (del_lease (c_leases c) (l_dispatch_id lease)))
    else mret tt.

Definition dispatch_ids_of (body : list (string * json)) : result (list string) :=
  match jget "dispatch_ids" body with
  | Some (JArr l) =>
      bad_if (MAX_HEARTBEAT_DISPATCHES <? length l)%nat;;
      mapM (λ d, match d with
                 | JStr s => bad_if (negb ((0 <? py_len s) && (py_len s <=? MAX_ID_LENGTH)));; mret s
                 | _ => bad_request
                 end) l
  | _ => bad_request
  end.

Definition heartbeat (request : json) : C (list string * list string) :=
  _require_writable;;
  body ← lift (_only_fields request ["worker_id"; "dispatch_ids"; "resource_state"]);
  worker_id ← lift (_require_id body "worker_id");
  reported ← lift (dispatch_ids_of body);
  _locked (
    now ← ask w_clock;
    acc ← fold_beats worker_id now ([], []) (merge_sort String.le (remove_dups reported));
    c ← get;
    for_each (filter (λ l, l_worker_id l = worker_id) (c_leases c)) (confirm_stop reported);;
    mret acc).

(** The checked fields of a result report, as the event's payload. *)
Definition result_payload (body : list (string * json)) : result (list (string * json)) :=
  let artifacts := jget_none "artifacts" body in
  bad_if (match artifacts with JArr l => (MAX_ARTIFACTS <? length l)%nat | _ => true end);;
  known ← json_in_strs (jget_none "outcome" body) RESULT_OUTCOMES;
  bad_if (negb known);;
  reason ← match jget "reason" body with
           | None => Ok []
           | Some (JStr s) => bad_if (MAX_REASON_CHARS <? py_len s);; mret [("reason", JStr s)]
           | Some _ => bad_request
           end;
  mret ([("artifacts", artifacts); ("outcome", jget_none "outcome" body)]
        ++ match jget "retryable" body with Some r => [("retryable", r)] | None => [] end ++ reason).

Definition late_payload (payload : list (string * json)) (attempt : option Z) (status : string)
    : list (string * json) :=
  jset "reason" (JStr ("dispatch is not the active attempt (task " +:+ status +:+ ")"))
    (jset "attempt" (jopt_int attempt)
       (jset "reported_reason" (jget_none "reason" payload) payload)).

(** [except (TransitionError, DedupeConflict): pass] *)
Definition ignore_late (x : exn) : option (C unit) :=
  if decide (exn_cls x = TransitionError ∨ exn_cls x = DedupeConflict) then Some (mret tt) else None.

(** A report of a dispatch that is not recorded yet. *)
Definition report_new (cl candidate : Event) (dispatch_id result_id : string) (payload : list (string * json))
    : C (string * string * Z) :=
  task ← (read (λ db, task_of db (ev_task_id cl)) ≫= attr);
  if bool_decide (ts_dispatch_id task = Some dispatch_id ∧ ts_status task = RUNNING) then
    api_if (ts_cancel_requested task) 409 "cancel_requested";;
    appended ← _append candidate;
    modify (λ c, set_memory c (del_lease (c_leases c) dispatch_id) (c_queue c ++ [ts_task_id task]));;
    mret ("ACCEPTED_FOR_VERIFY", ts_task_id task, default 0 (ev_seq (ar_event appended)))
  else if bool_decide (ts_dispatch_id task = Some dispatch_id ∧ ts_status task = CLAIMED) then
    api 409 "not_started"
  else
    late ← make_event LATE_RESULT_DISCARDED (Some (ts_task_id task)) None (Some dispatch_id) None
             (Some result_id) (late_payload payload (ev_attempt cl) (status_value (ts_status task)))
             (Some ("late:" +:+ dispatch_id +:+ ":" +:+ result_id));
    try_except (_append late;; mret tt) ignore_late;;
    api 409 "stale_dispatch".

(** The answer to a report, by what is recorded under its key. *)
Definition report_keyed (cl candidate : Event) (dispatch_id result_id : string) (payload : list (string * json))
    : C (string * string * Z) :=
  existing ← read (λ db, get_event_by_dedupe_key db (fmt (ev_dedupe_key candidate)));
  match existing with
  | Some x =>
      if bool_decide (content x = content candidate)
      then mret ("ACK_DUPLICATE", fmt (ev_task_id cl), default 0 (ev_seq x))
      else api 409 "result_conflict"
  | None => report_new cl candidate dispatch_id result_id payload
  end.

(** The part of [result] under the lock. *)
Definition report_locked (dispatch_id result_id : string) (payload : list (string * json)) : C (string * string * Z) :=
  cl ← _claim_of dispatch_id;
  candidate ← as_bad_request (make_event RESULT_READY (ev_task_id cl) (ev_attempt cl)
                (Some dispatch_id) (ev_worker_id cl) (Some result_id) payload None);
  report_keyed cl candidate dispatch_id result_id payload.

(** The checked fields of a report. *)
Definition report_args (request : json) : result (string * string * list (string * json)) :=
  body ← _only_fields request RESULT_FIELDS;
  dispatch_id ← _require_id body "dispatch_id";
  result_id ← _require_id body "result_id";
  payload ← result_payload body;
  mret (dispatch_id, result_id, payload).

Definition result_report (request : json) : C (string * string * Z) :=
  _require_writable;;
  '(dispatch_id, result_id, payload) ← lift (report_args request);
  _locked (report_locked dispatch_id result_id payload).

Definition who (actor : option string) : list (string * json) :=
  match actor with Some a => [("actor", JStr a)] | None => [] end.

Definition _cancel (task0 : TaskState) (actor reason : option string) : C string :=
  api_if (TERMINAL (ts_status task0)) 409 "terminal";;
  api_if (bool_decide (ts_status task0 = BLOCKED ∧ actor = None)) 409 "actor_required";;
  task ← (if ts_cancel_requested task0 then mret task0
          else
            append_task_event TASK_CANCEL_REQUESTED task0
              (("reason", JStr (or_text reason "requested via API")) :: who actor);;
            read (λ db, task db (ts_task_id task0)) ≫= attr);
  (if bool_decide (ts_status task = QUEUED ∨ ts_status task = BLOCKED) then
     append_task_event TASK_CANCELLED task (("reason", JStr (or_text reason "cancelled")) :: who actor)
   else if decide (ts_status task = RETRY_PENDING) then _decide task
   else mret tt);;
  now ← (read (λ db, Journal.task db (ts_task_id task)) ≫= attr);
  mret (status_value (ts_status now)).

Definition cancel (task_id : string) (request : option json) : C string :=
  _require_writable;;
  (** [body or {}] *)
  let body := match request with Some j => if py_truthy j then j else JObj [] | None => JObj [] end in
  body ← lift (_only_fields body ["actor"; "reason"]);
  actor ← lift (optional_id body "actor");
  reason ← lift (_require_reason body false);
  _locked (
    task ← read (λ db, task db task_id);
    match task with
    | None => api 404 "unknown_task"
    | Some t => _cancel t actor reason
    end).

Definition decision_type (body : list (string * json)) : result EventType :=
  known ← json_in_strs (jget_none "decision" body) (map fst RESOLVE_DECISIONS);
  bad_if (negb known);;
  match jget "decision" body with
  | Some (JStr d) => of_option (Exn KeyError d)
                       (snd <$> list_find (λ p, p.1 = d) RESOLVE_DECISIONS ≫= λ p, Some p.2)
  | _ => bad_request
  end.

(** The candidate decision, or the reply to a repeated one. *)
Definition resolve_candidate (event_type : EventType) (task : TaskState) (task_id actor reason : string)
    (attempt : Z) : C (Event * bool) :=
  candidate ← make_event event_type (Some task_id) (Some attempt) None None None
                [("actor", JStr actor); ("reason", JStr reason)] None;
  existing ← (match ev_dedupe_key candidate with
              | Some k => read (λ db, get_event_by_dedupe_key db k)
              | None => mret None
              end);
  match existing with
  | Some x =>
      api_if (negb (bool_decide (content x = content candidate))) 409 "decision_conflict";;
      mret (candidate, true)
  | None => mret (candidate, false)
  end.

Definition resolve (task_id : string) (request : json) : C (string * bool) :=
  _require_writable;;
  body ← lift (_only_fields request ["decision"; "actor"; "attempt"; "reason"]);
  event_type ← lift (decision_type body);
  actor ← lift (_require_id body "actor");
  attempt ← lift (_require_int body "attempt" 1 MAX_ATTEMPTS_LIMIT true);
  reason ← lift (_require_reason body true);
  let attempt := default 0 attempt in
  let reason := fmt reason in
  _locked (
    found ← read (λ db, task db task_id);
    match found with
    | None => api 404 "unknown_task"
    | Some task =>
        candidate ← (if decide (event_type = TASK_CANCELLED) then mret None
                     else cd ← resolve_candidate event_type task task_id actor reason attempt;
                          mret (Some cd));
        match candidate with
        | Some (_, true) => mret (status_value (ts_status task), true)
        | _ =>
            api_if (negb (bool_decide (ts_status task = BLOCKED))) 409 "not_blocked";;
            api_if (negb (attempt =? ts_attempt task)) 409 "stale_decision";;
            match candidate with
            | None => st ← _cancel task (Some actor) (Some reason); mret (st, false)
            | Some (event, _) =>
                api_if (bool_decide (event_type = RETRY_AUTHORIZED) && ts_cancel_requested task)
                  409 "cancel_requested";;
                api_if (bool_decide (event_type = RETRY_AUTHORIZED) && (MAX_ATTEMPTS_LIMIT <=? ts_attempt task))
                  409 "attempt_limit";;
                _append event;;
                now ← (read (λ db, Journal.task db task_id) ≫= attr);
                mret (status_value (ts_status now), false)
            end
        end
    end).

(** ** Background work *)

Definition due (now : Q) (l : Lease) : bool := Qle_bool (l_deadline l) now.

(** Deadlines move by the time the machine slept. *)
Definition extend_for_gap (now : Q) (c : Ctl) : Ctl :=
  match c_last_tick c with
  | Some last =>
      if Qle_bool (now - last) SUSPEND_GAP_S then c
      else set_leases c (map (λ l, with_deadline l (l_deadline l + (now - last)) (l_reason l)) (c_leases c))
  | None => c
  end.

Definition expire_lease (lease : Lease) : C unit :=
  modify (λ c, set_leases c (del_lease (c_leases c) (l_dispatch_id lease)));;
  found ← read (λ db, task db (l_task_id lease));
  match found with
  | None => mret tt
  | Some task =>
      if (negb (bool_decide (ts_dispatch_id task = Some (l_dispatch_id lease)))
          || negb (ACTIVE_LEASE (ts_status task)))%bool then mret tt
      else
        append_ LEASE_EXPIRED (Some (ts_task_id task)) (Some (ts_attempt task)) (ts_dispatch_id task)
          (ts_worker_id task) None [("reason", JStr (l_reason lease))];;
        after ← (read (λ db, Journal.task db (ts_task_id task)) ≫= attr);
        _decide after
  end.

Definition tick : C unit :=
  c ← get;
  if negb (bool_decide (c_mode c = NORMAL)) || c_stopping c then mret tt
  else _locked (
    now ← ask w_clock;
    modify (λ c, set_last_tick (extend_for_gap now c) (Some now));;
    c ← get;
    for_each (List.filter (due now) (c_leases c)) expire_lease).

(** The first half of [verify_next]: what to verify, read under the lock. *)
Definition verify_begin : C (option (option (TaskState * option Event))) :=
  c ← get;
  match c_queue c with
  | [] => mret None
  | task_id :: rest =>
      modify (λ c, set_queue c rest);;
      _locked (
        found ← read (λ db, task db task_id);
        match found with
        | None => mret (Some None)
        | Some t =>
            if decide (ts_status t = VERIFYING) then
              result ← read (λ db, get_event_by_dedupe_key db
                                     (result_key (ts_dispatch_id t) (ts_pending_result_id t)));
              mret (Some (Some (t, result)))
            else mret (Some None)
        end)
  end.

(** The second half: the verdict is journaled if it is still wanted. *)
Definition verify_finish (task : TaskState) (verdict : Verdict) : C unit :=
  _locked (
    c ← get;
    if c_stopping c then mret tt
    else
      let task_id := ts_task_id task in
      current ← (read (λ db, Journal.task db task_id) ≫= attr);
      if (negb (bool_decide (ts_status current = VERIFYING))
          || negb (bool_decide (ts_pending_result_id current = ts_pending_result_id task))
          || negb (bool_decide (ts_dispatch_id current = ts_dispatch_id task)))%bool then mret tt
      else
        let journal t payload :=
          append_ t (Some task_id) (Some (ts_attempt current)) (ts_dispatch_id current) None
            (ts_pending_result_id current) payload in
        let after := read (λ db, Journal.task db task_id) ≫= attr in
        if vt_accepted verdict then
          journal RESULT_ACCEPTED [("reason", JStr (vt_reason verdict)); ("verifier", vt_verifier verdict)];;
          t ← after; _complete t
        else
          journal RESULT_REJECTED
            [("reason", JStr (or_text (Some (vt_reason verdict)) "rejected"));
             ("retryable", JBool (vt_retryable verdict)); ("verifier", vt_verifier verdict)];;
          t ← after; _decide t).

Definition verify_next : C bool :=
  work ← verify_begin;
  match work with
  | None => mret false
  | Some None => mret true
  | Some (Some (task, result)) =>
      result ← attr result;
      verify_finish task (run_verifier w_verifier task result);;
      mret true
  end.

(** [while self.verify_next(): pass], at most [fuel] times. *)
Fixpoint drain (fuel : nat) : C unit :=
  match fuel with
  | O => mret tt
  | S fuel => more ← verify_next; if (more : bool) then drain fuel else mret tt
  end.

(** Committed events after a sequence number, up to the first unreadable row. *)
Fixpoint readable (l : list (result Event)) : result (list Event) :=
  match l with
  | [] => Ok []
  | Ok e :: l => es ← readable l; mret (e :: es)
  | Err x :: l => if is_value_error x then Ok [] else Err x
  end.

Definition events_after (after_seq : Z) (limit : nat) : C (list Event) :=
  c ← get;
  match c_file c with
  | None => mret []
  | Some db =>
      lift (raise_if (negb (sql_int_ok after_seq))
              (Exn OverflowError "Python int too large to convert to SQLite INTEGER"));;
      lift (readable (take limit (events db after_seq None)))
  end.

Definition stop : C unit :=
  modify set_stopping;;
  c ← get;
  match c_journal c with
  | None => mret tt
  | Some _ =>
      try_except
        (_locked (
           (if decide (c_mode c = NORMAL)
            then append_ CONTROLLER_STOPPED None None None None None [("pid", JInt w_pid)]
            else mret tt)))
        (λ x, match exn_cls x with ApiError _ _ => Some (mret tt) | _ => None end);;
      modify (λ c, set_file c (c_file c) None)
  end.

End controller.
