(* ===== verification/Service.v ===== *)
(** * What the controller guarantees

    Theorems about whole requests: the journal stays sound and only grows
    through any of them, a degraded controller never writes, leases and the
    verification queue are emptied as promised. *)

From S2P Require Import Prelude PyText Json Sha256 Events StateMachine Lifecycle History Projection Replay Journal Ledger Verification Controller.

#[local] Arguments open : simpl never.
#[local] Arguments _inspect_existing : simpl never.

(** The calls a controller serves. *)
Inductive Request :=
  | RCreate (body : json) | RClaim (body : json) | RStart (body : json) | RHeartbeat (body : json)
  | RResult (body : json) | RCancel (task_id : string) (body : option json)
  | RResolve (task_id : string) (body : json) | RView (task_id : string)
  | RTick | RVerify | RStop.

Section service.
Context `{PyPlatform} `{World}.

Definition request_wf (r : Request) : Prop :=
  match r with
  | RCreate b | RClaim b | RStart b | RHeartbeat b | RResult b | RResolve _ b => json_wf b
  | RCancel _ (Some b) => json_wf b
  | _ => True
  end.

Definition serve (r : Request) : C unit :=
  match r with
  | RCreate b => create_task b;; mret tt
  | RClaim b => claim b;; mret tt
  | RStart b => start b;; mret tt
  | RHeartbeat b => heartbeat b;; mret tt
  | RResult b => result_report b;; mret tt
  | RCancel t b => cancel t b;; mret tt
  | RResolve t b => resolve t b;; mret tt
  | RView t => task_view t;; mret tt
  | RTick => tick
  | RVerify => verify_next;; mret tt
  | RStop => stop
  end.

(** Requests one after the other, whatever each of them raises. *)
Fixpoint serve_all (rs : list Request) (c : Ctl) : Ctl :=
  match rs with [] => c | r :: rs => serve_all rs (serve r c).2 end.

(** ** Well-formed payloads *)

Lemma wf_obj kvs : NoDup (keys kvs) → Forall (λ kv, json_wf kv.2) kvs → json_wf (JObj kvs).
Proof. intros Hn Hf. by apply json_ok_obj. Qed.

Lemma jget_wf k kvs v : json_wf (JObj kvs) → jget k kvs = Some v → json_wf v.
Proof.
  intros [Hn Hf]%json_ok_obj Hg. apply jget_elem in Hg; [|done].
  rewrite Forall_forall in Hf. by apply (Hf (k, v)).
Qed.

Lemma jget_none_wf k kvs : json_wf (JObj kvs) → json_wf (jget_none k kvs).
Proof. intros Hw. unfold jget_none. destruct (jget k kvs) eqn:E; [by eapply jget_wf|done]. Qed.

Lemma keys_jset k v kvs : keys (jset k v kvs) = keys kvs ∨ (k ∉ keys kvs) ∧ keys (jset k v kvs) = keys kvs ++ [k].
Proof.
  induction kvs as [|[k' v'] kvs IH]; simpl.
  - right. split; [set_solver|done].
  - case_decide as E; simpl; [by left; subst|]. destruct IH as [->|[Hn ->]]; [by left|right].
    split; [set_solver|done].
Qed.

Lemma jset_wf k v kvs : json_wf (JObj kvs) → json_wf v → json_wf (JObj (jset k v kvs)).
Proof.
  intros [Hn Hf]%json_ok_obj Hv. apply wf_obj.
  - destruct (keys_jset k v kvs) as [->|[Hk ->]]; [done|]. apply NoDup_app.
    split_and!; [done| |apply NoDup_singleton]. intros x Hx ->%list_elem_of_singleton. done.
  - clear Hn. induction Hf as [|[k' v'] kvs Hx Hf IH]; simpl; [by constructor|].
    case_decide; constructor; done.
Qed.

(** Objects written out with distinct literal keys. *)
Ltac wf_literal :=
  apply wf_obj; [apply (bool_decide_unpack _); vm_compute; exact I|];
  repeat (apply Forall_cons; split); try apply Forall_nil; simpl; try done.

Lemma task_payload_json body payload (d : option string) :
  task_payload body = Ok payload → json_wf (JObj body) →
  json_wf (JObj (payload ++ match d with Some x => [("depends_on", JStr x)] | None => [] end)).
Proof.
  intros Hp Hb. unfold task_payload in Hp.
  do 7 (apply bind_Ok in Hp as (? & _ & Hp)). apply bind_Ok in Hp as (timeout & _ & Hp).
  apply (inj Ok) in Hp as <-. destruct timeout, d; simpl; wf_literal; by apply jget_none_wf.
Qed.

(** ** A logic of what computations do to the state

    [does R m P]: from every state of [R]'s domain, running [m] relates the
    states by [R], and a returned value satisfies [P]. *)
Section logic.
Variable Pre : Ctl → Prop.
Variable R : Ctl → Ctl → Prop.
Context (R_refl : ∀ c, R c c) (R_trans : ∀ a b c, R a b → R b c → R a c)
  (R_pre : ∀ a b, Pre a → R a b → Pre b).

Definition does {A} (m : C A) (P : A → Prop) : Prop :=
  ∀ c, Pre c → R c (m c).2 ∧ ∀ a, (m c).1 = Ok a → P a.

Lemma does_ret {A} (a : A) (P : A → Prop) : P a → does (mret a) P.
Proof. intros Ha c Hc. split; [done|]. by intros ? [= <-]. Qed.

Lemma does_bind {A B} (m : C A) (f : A → C B) P Q :
  does m P → (∀ a, P a → does (f a) Q) → does (m ≫= f) Q.
Proof.
  intros Hm Hf c Hc. destruct (Hm c Hc) as [Hr Hp]. unfold mbind, C_bind.
  destruct (m c) as [[a|x] c'] eqn:E; simpl in *; [|done].
  destruct (Hf a (Hp a eq_refl) c' (R_pre _ _ Hc Hr)) as [Hr' Hp']. split; [by eapply R_trans|done].
Qed.

Lemma does_weaken {A} (m : C A) (P Q : A → Prop) : (∀ a, P a → Q a) → does m P → does m Q.
Proof. intros Hpq Hm c Hc. destruct (Hm c Hc). split; [done|auto]. Qed.

Lemma does_lift {A} (r : result A) (P : A → Prop) : (∀ a, r = Ok a → P a) → does (lift r) P.
Proof. intros Hp c Hc. split; [done|]. simpl. auto. Qed.

Lemma does_api {A} st code (P : A → Prop) : does (api st code) P.
Proof. by apply does_lift. Qed.

Lemma does_api_if b st code : does (api_if b st code) (λ _, True).
Proof. destruct b; [apply does_api|by apply does_ret]. Qed.

Lemma does_try {A} (m : C A) h (P : A → Prop) :
  does m P → (∀ x k, h x = Some k → does k P) → does (try_except m h) P.
Proof.
  intros Hm Hh c Hc. destruct (Hm c Hc) as [Hr Hp]. unfold try_except.
  destruct (m c) as [[a|x] c'] eqn:E; simpl in *; [auto|].
  destruct (h x) as [k|] eqn:Ex; [|auto].
  destruct (Hh x k Ex c' (R_pre _ _ Hc Hr)). split; [by eapply R_trans|done].
Qed.

Lemma does_for_each {A} (l : list A) body :
  (∀ x, x ∈ l → does (body x) (λ _, True)) → does (for_each l body) (λ _, True).
Proof.
  induction l as [|x l IH]; intros Hb; [by apply does_ret|]. cbn [for_each].
  eapply does_bind; [apply Hb; by left|]. intros _ _. apply IH. intros. apply Hb. by right.
Qed.

(** *** The controller's primitives

    [strict] asks that constructed events are valid, which needs payloads
    that are proper JSON and a sound file to read events from. *)
Variable strict : bool.
Context
  (R_memory : ∀ c c', c_file c' = c_file c → c_journal c' = c_journal c → R c c')
  (Pre_sound : ∀ c db, Pre c → c_file c = Some db → strict = true → ∃ es m, Sound db es m)
  (R_append : ∀ e c, Pre c → (strict = true → Valid e) → R c (append_file e c).2)
  (W_build : strict = true → json_wf w_build)
  (W_verifier : ∀ a v, w_verifier a = Returned_ (Some v) → strict = true → json_wf (vf_identity v)).

Definition good (e : Event) : Prop := strict = true → Valid e.
Definition wf (j : json) : Prop := strict = true → json_wf j.

Lemma does_memory f P :
  P tt → (∀ c, c_file (f c) = c_file c ∧ c_journal (f c) = c_journal c) → does (modify f) P.
Proof. intros Hp Hf c Hc. destruct (Hf c). split; [by apply R_memory|]. by intros [] _. Qed.

Lemma does_get P : (∀ c, Pre c → P c) → does get P.
Proof. intros Hp c Hc. split; [apply R_refl|]. intros ? [= <-]. auto. Qed.

Lemma does_ask {A} (f : nat → A) (P : A → Prop) : (∀ n, P (f n)) → does (ask f) P.
Proof. intros Hp c Hc. split; [by apply R_memory|]. intros ? [= <-]. auto. Qed.

Lemma does_attr {A} (o : option A) (P : A → Prop) : (∀ a, o = Some a → P a) → does (attr o) P.
Proof. intros Hp. destruct o; [by apply does_ret, Hp|]. by apply does_lift. Qed.

Lemma does_locked {A} (m : C A) P : does m P → does (_locked m) P.
Proof.
  intros Hm. unfold _locked. eapply (does_bind _ _ (λ _, True)); [by apply does_ask|].
  intros [] _; [done|apply does_api].
Qed.

Lemma does_read {A} (f : Db → result A) (P : A → Prop) :
  (∀ db a, (strict = true → ∃ es m, Sound db es m) → f db = Ok a → P a) → does (read f) P.
Proof.
  intros Hp c Hc. unfold read, the_db, get, mbind, C_bind. simpl.
  destruct (c_journal c) as [ro|]; [|by split].
  destruct (c_file c) as [db|] eqn:E; [|by split]. simpl. split; [done|].
  intros a Ha. eapply Hp; [|done]. intros Hs. by eapply Pre_sound.
Qed.

Lemma does_read_any {A} (f : Db → result A) : does (read f) (λ _, True).
Proof. by apply does_read. Qed.

Lemma does_append e P : (∀ r, P r) → good e → does (_append e) P.
Proof.
  intros Hp Hg. unfold _append. eapply (does_bind _ _ (λ _, True)).
  - intros c Hc. split; [by apply R_append|done].
  - intros r _. eapply (does_bind _ _ (λ _, True)); [|intros _ _; by apply does_ret].
    destruct (ar_duplicate r); [by apply does_ret|]. by apply does_memory.
Qed.

Lemma does_make_event t tid att d w rid payload k :
  wf (JObj payload) → does (make_event t tid att d w rid payload k) good.
Proof.
  intros Hw. unfold make_event.
  eapply (does_bind _ _ (λ _, True)); [by apply does_ask|]. intros id _.
  eapply (does_bind _ _ (λ _, True)); [by apply does_ask|]. intros ts _.
  apply does_lift. intros e He Hs. unfold new_event in He. by apply post_init_valid in He as [? _]; [|by apply Hw].
Qed.

Lemma does_append_ t tid att d w rid payload :
  wf (JObj payload) → does (append_ t tid att d w rid payload) (λ _, True).
Proof.
  intros Hw. unfold append_. eapply does_bind; [by apply does_make_event|]. intros e He.
  eapply (does_bind _ _ (λ _, True)); [by apply does_append|]. intros _ _. by apply does_ret.
Qed.

(** *** Every operation *)

Tactic Notation "bind_any" := eapply (does_bind _ _ (λ _, True)); [|intros ? _].
Tactic Notation "bind_any" simple_intropattern(p) := eapply (does_bind _ _ (λ _, True)); [|intros p _].

Lemma does_task_event t task payload :
  wf (JObj payload) → does (append_task_event t task payload) (λ _, True).
Proof. intros Hw. unfold append_task_event. by apply does_append_. Qed.

Lemma does_complete task : does (_complete task) (λ _, True).
Proof. unfold _complete. apply does_append_. intros _. wf_literal. Qed.

Lemma does_decide task : does (_decide task) (λ _, True).
Proof.
  unfold _decide. bind_any d; [by apply does_lift|].
  destruct d; [apply does_append_|apply does_task_event..]; intros _; wf_literal.
Qed.

Lemma does_recover : does _recover (λ _, True).
Proof.
  unfold _recover. bind_any; [by apply does_ask|]. bind_any; [apply does_read_any|].
  apply does_for_each. intros task _. unfold recover_task.
  destruct (ACTIVE_LEASE _).
  { bind_any; [by apply does_attr|]. bind_any; [by apply does_attr|]. by apply does_memory. }
  destruct (decide _); [by apply does_memory|].
  destruct (decide _); [apply does_complete|].
  destruct (decide _); [apply does_decide|].
  destruct (_ && _)%bool; [|by apply does_ret]. apply does_task_event. intros _. wf_literal.
Qed.

Lemma does_writable : does _require_writable (λ _, True).
Proof.
  unfold _require_writable. bind_any; [by apply does_get|].
  bind_any; [apply does_api_if|]. apply does_api_if.
Qed.

Lemma does_as_bad {A} (m : C A) P : does m P → does (as_bad_request m) P.
Proof.
  intros Hm. apply does_try; [done|]. intros x k. case_decide; [|done]. intros [= <-].
  by apply does_lift.
Qed.

Lemma only_fields_wf request allowed body :
  _only_fields request allowed = Ok body → wf request → wf (JObj body).
Proof.
  destruct request as [| | | | | |kvs]; try done. unfold _only_fields, bad_if.
  destruct (negb _); [done|]. by intros [= <-].
Qed.

Lemma task_payload_wf body payload d :
  task_payload body = Ok payload → wf (JObj body) →
  wf (JObj (payload ++ match d with Some x => [("depends_on", JStr x)] | None => [] end)).
Proof. intros Hp Hb Hs. by eapply task_payload_json, Hb. Qed.

Lemma does_create request : wf request → does (create_task request) (λ _, True).
Proof.
  intros Hr. unfold create_task. bind_any; [apply does_writable|].
  eapply (does_bind _ _ (λ b, wf (JObj b))); [apply does_lift; by eauto using only_fields_wf|].
  intros body Hb.
  eapply (does_bind _ _ (λ p, ∀ d : option string,
    wf (JObj (p ++ match d with Some x => [("depends_on", JStr x)] | None => [] end))));
    [apply does_lift; by eauto using task_payload_wf|]. intros payload Hp.
  bind_any key; [by apply does_lift|]. bind_any task_id.
  { unfold task_id_for. destruct key; (bind_any; [|by apply does_ret]); [by apply does_lift|by apply does_ask]. }
  bind_any depends_on; [by apply does_lift|].
  eapply does_bind; [by apply does_as_bad, does_make_event|]. intros e He. cbv beta.
  bind_any; [|by apply does_ret]. apply does_locked.
  unfold create_locked, check_dependency. bind_any.
  { destruct depends_on; [|by apply does_ret]. bind_any; [apply does_read_any|]. apply does_api_if. }
  apply does_try; [by apply does_append|]. intros x k. case_decide; [|done]. intros [= <-].
  apply does_api.
Qed.

Lemma keyed_wf db key e :
  (strict = true → ∃ es m, Sound db es m) → get_event_by_dedupe_key db key = Ok (Some e) →
  wf (JObj (ev_payload e)).
Proof.
  intros Hs Hg Hst. destruct (Hs Hst) as (es & m & Hsd).
  rewrite (get_event_keyed db es m) in Hg by apply Hsd. apply (inj Ok) in Hg.
  apply keyed_Some in Hg as [Hin _]. pose proof (rc_valid _ _ _ (sd_recorded _ _ _ Hsd)) as Hv.
  rewrite Forall_forall in Hv. by apply canonical_wf, Hv.
Qed.

Lemma artifact_refs_wf j refs : json_wf j → artifact_refs j = Ok refs → json_wf refs.
Proof.
  destruct j as [| | | | |l|]; try done. intros Hw Hr. cbn [artifact_refs] in Hr. apply json_ok_arr in Hw.
  apply bind_Ok in Hr as (rs & Hm & Hr). apply (inj Ok) in Hr as <-.
  apply json_ok_arr. revert rs Hm. induction Hw as [|a l Ha Hl IH]; intros rs Hm; cbn [mapM] in Hm.
  - apply (inj Ok) in Hm as <-. constructor.
  - apply bind_Ok in Hm as (r & Hr & Hm). apply bind_Ok in Hm as (rs' & Hm & E).
    apply (inj Ok) in E as <-. constructor; [|by apply IH].
    destruct a as [| | | | | |kvs]; try done. inv_ok. subst.
    wf_literal; by eapply jget_wf.
Qed.

Definition input_wf (o : option json) : Prop := ∀ b, o = Some b → wf b.

Lemma does_verified_input task : does (_verified_input task) input_wf.
Proof.
  assert (∀ why : string, does (append_task_event TASK_FAILED task
      [("reason", JStr ("dependency " +:+ fmt (ts_depends_on task)
                        +:+ " cannot provide an input: " +:+ why))];; mret None) input_wf) as Hnever.
  { intros why. bind_any; [apply does_task_event; intros _; wf_literal|]. by apply does_ret. }
  unfold _verified_input. bind_any dep; [apply does_read_any|]. cbv zeta.
  destruct dep as [d|]; [|apply Hnever]. destruct (bool_decide _).
  - eapply (does_bind _ _ (λ o : option Event, ∀ e, o = Some e → wf (JObj (ev_payload e)))).
    { apply does_read. intros db o Hs Hg e ->. by eapply keyed_wf. }
    intros found Hf. destruct (py_truthy _); [|apply Hnever].
    eapply (does_bind _ _ wf).
    { apply does_lift. intros refs Hr Hst. eapply artifact_refs_wf; [|exact Hr].
      destruct found as [e|]; [|done]. by apply jget_none_wf, (Hf e). }
    intros refs Hw. apply does_ret. intros b [= <-] Hst. wf_literal.
    all: first [by apply Hw | by destruct (ts_dispatch_id d) | by destruct (ts_accepted_result_id d)].
  - destruct (TERMINAL _); [apply Hnever|]. by apply does_ret.
Qed.

Lemma does_issue w task bound :
  input_wf bound → does (issue_claim w task bound) (λ _, True).
Proof.
  intros Hb. unfold issue_claim. bind_any; [by apply does_ask|]. cbv zeta. bind_any.
  { apply does_append_. intros Hst. destruct bound as [b|]; wf_literal. by apply Hb. }
  bind_any; [by apply does_ask|]. bind_any; [by apply does_memory|].
  bind_any; [by apply does_lift|]. by apply does_ret.
Qed.

Lemma does_claim request : does (claim request) (λ _, True).
Proof.
  unfold claim. bind_any; [apply does_writable|]. bind_any; [by apply does_lift|].
  bind_any w; [by apply does_lift|]. apply does_locked. bind_any l; [apply does_read_any|].
  induction l as [|task l IH]; [by apply does_ret|]. cbn [claim_first].
  destruct (ts_cancel_requested task); [exact IH|]. destruct (ts_depends_on task).
  - eapply does_bind; [apply does_verified_input|]. intros [b|] Hb; [|exact IH].
    bind_any; [by apply does_issue|]. by apply does_ret.
  - bind_any; [by apply does_issue|]. by apply does_ret.
Qed.

Lemma does_claim_of d : does (_claim_of d) (λ _, True).
Proof.
  unfold _claim_of. bind_any cl; [apply does_read_any|]. destruct cl; [by apply does_ret|apply does_api].
Qed.

Lemma does_read_attr {A} (f : Db → result (option A)) : does (read f ≫= attr) (λ _, True).
Proof. bind_any; [apply does_read_any|]. by apply does_attr. Qed.

Lemma does_start request : does (start request) (λ _, True).
Proof.
  unfold start. bind_any; [apply does_writable|]. bind_any body; [by apply does_lift|].
  bind_any; [by apply does_lift|]. cbv zeta. apply does_locked. bind_any; [apply does_claim_of|].
  bind_any; [apply does_api_if|]. bind_any; [apply does_read_attr|]. bind_any; [apply does_api_if|].
  bind_any; [apply does_api_if|]. destruct (decide _); [by apply does_ret|].
  bind_any; [apply does_append_; intros _; wf_literal|]. by apply does_ret.
Qed.

Lemma does_heartbeat request : does (heartbeat request) (λ _, True).
Proof.
  unfold heartbeat. bind_any; [apply does_writable|]. bind_any; [by apply does_lift|].
  bind_any w; [by apply does_lift|]. bind_any rep; [by apply does_lift|]. apply does_locked.
  bind_any now; [by apply does_ask|]. bind_any acc.
  { generalize (([], []) : list string * list string). generalize (merge_sort String.le (remove_dups rep)).
    intros ids. induction ids as [|d ids IH]; intros acc; [by apply does_ret|]. cbn [fold_beats].
    bind_any; [|apply IH]. unfold beat. bind_any c; [by apply does_get|]. destruct acc as [st ca].
    destruct (find_lease _ _) as [lease|]; [|by apply does_ret]. destruct (decide _); [|by apply does_ret].
    bind_any; [apply does_read_any|]. bind_any; [by apply does_memory|].
    bind_any; [by apply does_attr|]. by apply does_ret. }
  bind_any c; [by apply does_get|]. bind_any; [|by apply does_ret].
  apply does_for_each. intros lease _. unfold confirm_stop.
  destruct (decide _); [by apply does_ret|]. bind_any; [apply does_read_attr|].
  destruct (_ && _)%bool; [|by apply does_ret].
  bind_any; [apply does_task_event; intros _; wf_literal|]. by apply does_memory.
Qed.

Lemma result_payload_wf body payload :
  result_payload body = Ok payload → wf (JObj body) → wf (JObj payload).
Proof.
  intros Hp Hb Hs. specialize (Hb Hs). unfold result_payload in Hp.
  apply bind_Ok in Hp as (_ & _ & Hp). apply bind_Ok in Hp as (known & _ & Hp).
  apply bind_Ok in Hp as (_ & _ & Hp). apply bind_Ok in Hp as (reason & Hr & Hp).
  apply (inj Ok) in Hp as <-.
  assert (reason = [] ∨ ∃ s, reason = [("reason", JStr s)]) as Hreason.
  { destruct (jget "reason" body) as [[]|]; try discriminate Hr; [|left; by injection Hr as <-].
    right. inv_ok. eauto. }
  destruct (jget "retryable" body) as [r|] eqn:Er; destruct Hreason as [->|[s ->]]; simpl; wf_literal;
    first [by apply jget_none_wf | by eapply jget_wf].
Qed.

Lemma late_payload_wf payload att st : wf (JObj payload) → wf (JObj (late_payload payload att st)).
Proof.
  intros Hp Hs. specialize (Hp Hs). unfold late_payload.
  repeat apply jset_wf; try done; [by apply jget_none_wf|by destruct att].
Qed.

Lemma report_args_wf request a : wf request → report_args request = Ok a → wf (JObj a.2).
Proof.
  intros Hr Ha. unfold report_args in Ha. inv_ok. simpl.
  eapply result_payload_wf; [eassumption|]. eapply only_fields_wf; eassumption.
Qed.

Lemma does_result request : wf request → does (result_report request) (λ _, True).
Proof.
  intros Hr. unfold result_report. bind_any; [apply does_writable|].
  eapply (does_bind _ _ (λ a, wf (JObj a.2))); [apply does_lift; by eauto using report_args_wf|].
  intros [[d rid] payload] Hp. apply does_locked. unfold report_locked. bind_any cl; [apply does_claim_of|].
  eapply does_bind; [by apply does_as_bad, does_make_event|]. intros cand Hc.
  unfold report_keyed. bind_any ex; [apply does_read_any|]. destruct ex as [x|].
  { destruct (bool_decide _); [by apply does_ret|apply does_api]. }
  unfold report_new. bind_any task; [apply does_read_attr|]. destruct (bool_decide _).
  - bind_any; [apply does_api_if|]. bind_any; [by apply does_append|].
    bind_any; [by apply does_memory|]. by apply does_ret.
  - destruct (bool_decide _); [apply does_api|].
    eapply does_bind; [by apply does_make_event, late_payload_wf|]. intros late Hl.
    bind_any; [|apply does_api]. apply does_try.
    + bind_any; [by apply does_append|]. by apply does_ret.
    + intros x k. unfold ignore_late. case_decide; [|done]. intros [= <-]. by apply does_ret.
Qed.

Lemma does_cancel_task task actor reason : does (_cancel task actor reason) (λ _, True).
Proof.
  unfold _cancel. bind_any; [apply does_api_if|]. bind_any; [apply does_api_if|]. bind_any now.
  { destruct (ts_cancel_requested task); [by apply does_ret|].
    bind_any; [|apply does_read_attr]. apply does_task_event. intros _. destruct actor; wf_literal. }
  bind_any.
  { destruct (bool_decide _); [apply does_task_event; intros _; destruct actor; wf_literal|].
    destruct (decide _); [apply does_decide|by apply does_ret]. }
  bind_any; [apply does_read_attr|]. by apply does_ret.
Qed.

Lemma does_cancel task_id request : does (cancel task_id request) (λ _, True).
Proof.
  unfold cancel. bind_any; [apply does_writable|]. cbv zeta. bind_any; [by apply does_lift|].
  bind_any act; [by apply does_lift|]. bind_any r; [by apply does_lift|]. apply does_locked.
  bind_any t; [apply does_read_any|]. destruct t; [apply does_cancel_task|apply does_api].
Qed.

Lemma does_resolve task_id request : does (resolve task_id request) (λ _, True).
Proof.
  unfold resolve. bind_any; [apply does_writable|]. bind_any; [by apply does_lift|].
  bind_any ty; [by apply does_lift|]. bind_any act; [by apply does_lift|].
  bind_any n; [by apply does_lift|]. bind_any r; [by apply does_lift|]. cbv zeta. apply does_locked.
  bind_any f; [apply does_read_any|]. destruct f as [task|]; [|apply does_api].
  eapply (does_bind _ _ (λ o : option (Event * bool), ∀ e b, o = Some (e, b) → good e)).
  { destruct (decide _); [by apply does_ret|]. eapply (does_bind _ _ (λ p : Event * bool, good p.1));
      [|intros [e b] He; apply does_ret; by intros ? ? [= <- <-]].
    unfold resolve_candidate.
    eapply does_bind; [apply does_make_event; intros _; wf_literal|]. intros cand Hc.
    bind_any ex. { destruct (ev_dedupe_key cand); [apply does_read_any|by apply does_ret]. }
    destruct ex.
    - bind_any; [apply does_api_if|]. by apply does_ret.
    - by apply does_ret. }
  intros cand Hc.
  destruct cand as [[e []]|]; [by apply does_ret| |];
    (bind_any; [apply does_api_if|]; bind_any; [apply does_api_if|]).
  - bind_any; [apply does_api_if|]. bind_any; [apply does_api_if|].
    bind_any; [apply does_append; [done|by eapply Hc]|]. bind_any; [apply does_read_attr|]. by apply does_ret.
  - bind_any; [apply does_cancel_task|]. by apply does_ret.
Qed.

Lemma does_tick : does tick (λ _, True).
Proof.
  unfold tick. bind_any c; [by apply does_get|]. destruct (_ || _)%bool; [by apply does_ret|].
  apply does_locked. bind_any now; [by apply does_ask|]. bind_any.
  { apply does_memory; [done|]. intros c'. unfold extend_for_gap. destruct (c_last_tick c'); [|done].
    by destruct (Qle_bool _ _). }
  bind_any c'; [by apply does_get|]. apply does_for_each. intros lease _. unfold expire_lease.
  bind_any; [by apply does_memory|]. bind_any t; [apply does_read_any|].
  destruct t as [task|]; [|by apply does_ret]. destruct (_ || _)%bool; [by apply does_ret|].
  bind_any; [apply does_append_; intros _; wf_literal|]. bind_any; [apply does_read_attr|]. apply does_decide.
Qed.

Lemma does_verify_finish task v :
  (strict = true → json_wf (vt_verifier v)) → does (verify_finish task v) (λ _, True).
Proof.
  intros Hw. unfold verify_finish. apply does_locked. bind_any c; [by apply does_get|].
  destruct (c_stopping c); [by apply does_ret|]. bind_any cur; [apply does_read_attr|].
  destruct (_ || _)%bool; [by apply does_ret|]. cbv zeta. destruct (vt_accepted v).
  - bind_any; [apply does_append_; intros Hs; wf_literal; by apply Hw|].
    bind_any; [apply does_read_attr|]. apply does_complete.
  - bind_any; [apply does_append_; intros Hs; wf_literal; by apply Hw|].
    bind_any; [apply does_read_attr|]. apply does_decide.
Qed.

Lemma run_verifier_wf task result :
  strict = true → json_wf (vt_verifier (run_verifier w_verifier task result)).
Proof.
  intros Hs. unfold run_verifier, reported_failure.
  destruct (negb _); [wf_literal|].
  destruct (w_verifier (ts_adapter task)) as [cls|[v|]] eqn:Ev; [wf_literal| |wf_literal].
  pose proof (W_verifier _ _ Ev Hs). destruct (vf_verify v task result) as [|[acc ? ?|]]; try done.
  by destruct acc.
Qed.

Lemma does_verify_next : does verify_next (λ _, True).
Proof.
  unfold verify_next. bind_any work.
  { unfold verify_begin. bind_any c; [by apply does_get|]. destruct (c_queue c); [by apply does_ret|].
    bind_any; [by apply does_memory|]. apply does_locked. bind_any t; [apply does_read_any|].
    destruct t; [|by apply does_ret]. destruct (decide _); [|by apply does_ret].
    bind_any; [apply does_read_any|]. by apply does_ret. }
  destruct work as [[[task result]|]|]; [|by apply does_ret..].
  bind_any r; [by apply does_attr|]. bind_any; [|by apply does_ret].
  apply does_verify_finish, run_verifier_wf.
Qed.

Lemma does_view task_id : does (task_view task_id) (λ _, True).
Proof.
  unfold task_view. bind_any c; [by apply does_get|]. bind_any; [apply does_api_if|].
  bind_any; [apply does_api_if|]. bind_any t.
  { apply does_locked. bind_any c'; [by apply does_get|].
    destruct (c_journal c'); [apply does_read_any|by apply does_ret]. }
  destruct t; [|apply does_api]. bind_any; [by apply does_lift|]. by apply does_ret.
Qed.

Lemma does_boot_normal : does boot_normal (λ _, True).
Proof.
  unfold boot_normal. bind_any; [by apply does_memory|]. apply does_locked.
  bind_any; [apply does_read_any|]. bind_any; [by apply does_memory|]. bind_any; [|apply does_recover].
  apply does_append_. intros Hs. wf_literal. by apply W_build.
Qed.

(** The journal object may be closed. *)
Context (R_close : ∀ c, R c (set_file c (c_file c) None)).

Lemma does_stop : does stop (λ _, True).
Proof.
  unfold stop. bind_any; [by apply does_memory|]. bind_any c; [by apply does_get|].
  destruct (c_journal c); [|by apply does_ret]. bind_any.
  - apply does_try.
    + apply does_locked. destruct (decide _); [|by apply does_ret].
      apply does_append_. intros _. wf_literal.
    + intros x k. destruct (exn_cls x); try done. intros [= <-]. by apply does_ret.
  - intros c' Hc'. split; [apply R_close|done].
Qed.

Lemma does_serve r : (strict = true → request_wf r) → does (serve r) (λ _, True).
Proof.
  intros Hw. destruct r; simpl in *; try (bind_any; [|by apply does_ret]).
  - by apply does_create.
  - apply does_claim.
  - apply does_start.
  - apply does_heartbeat.
  - by apply does_result.
  - apply does_cancel.
  - apply does_resolve.
  - apply does_view.
  - apply does_tick.
  - apply does_verify_next.
  - apply does_stop.
Qed.

End logic.

(** ** The journal stays sound and grows *)

Definition file_ok (file : option Db) : Prop :=
  ∀ db, file = Some db → ∃ es m, Sound db es m.

(** The file is kept, or its history extended. *)
Definition grows (c c' : Ctl) : Prop :=
  match c_file c with
  | Some db => ∃ db', c_file c' = Some db'
                      ∧ ∀ es m, Sound db es m → ∃ ext m', Sound db' (es ++ ext) m'
  | None => c_file c' = None
  end.

Lemma grows_same c c' : c_file c' = c_file c → grows c c'.
Proof.
  intros E. unfold grows. rewrite E. destruct (c_file c) as [db|]; [|done]. exists db.
  split; [done|]. intros es m Hs. exists [], m. by rewrite app_nil_r.
Qed.

Lemma grows_trans a b c : grows a b → grows b c → grows a c.
Proof.
  unfold grows. destruct (c_file a) as [db|]; [|by intros ->].
  intros (db' & -> & H1) (db'' & -> & H2). exists db''. split; [done|]. intros es m Hs.
  destruct (H1 es m Hs) as (x & m' & Hs'). destruct (H2 _ _ Hs') as (y & m'' & Hs'').
  exists (x ++ y), m''. by rewrite app_assoc.
Qed.

Lemma grows_ok a b : file_ok (c_file a) → grows a b → file_ok (c_file b).
Proof.
  unfold grows. intros Ha Hg db Hb. destruct (c_file a) as [da|] eqn:E; [|congruence].
  destruct Hg as (db' & Hb' & Hg). rewrite Hb in Hb'. injection Hb' as <-.
  destruct (Ha da eq_refl) as (es & m & Hs). destruct (Hg es m Hs) as (x & m' & ?). by eexists _, _.
Qed.

Lemma grows_append e c : Valid e → grows c (append_file e c).2.
Proof.
  intros Hv. unfold append_file. destruct (c_journal c) as [ro|]; [|by apply grows_same].
  destruct (c_file c) as [db|] eqn:E; [|by apply grows_same].
  destruct (append (mkJournal ro true db) e) as [r j] eqn:Ea. simpl. unfold grows. rewrite E. simpl.
  exists (j_db j). split; [done|]. intros es m Hs. destruct ro.
  - injection Ea as <- <-. exists [], m. by rewrite app_nil_r.
  - by eapply append_sound.
Qed.

(** What the environment hands to the journal is proper JSON. *)
Record WorldWf : Prop := {
  ww_build : json_wf w_build;
  ww_verifier : ∀ a v, w_verifier a = Returned_ (Some v) → json_wf (vf_identity v);
}.

Definition Pre_grow (c : Ctl) : Prop := file_ok (c_file c).

Lemma serve_grows r c :
  WorldWf → request_wf r → Pre_grow c → grows c (serve r c).2.
Proof.
  intros [Hb Hv] Hw Hc.
  refine (proj1 (does_serve Pre_grow grows _ grows_trans grows_ok true _ _ _ _ _ _ r (λ _, Hw) c Hc)).
  - intros ?. by apply grows_same.
  - intros. by apply grows_same.
  - intros c' db Hc' Hf _. by apply Hc'.
  - intros e c' _ He. by apply grows_append, He.
  - done.
  - intros a v Ha _. by eapply Hv.
  - intros ?. by apply grows_same.
Qed.

Lemma boot_normal_grows c : WorldWf → Pre_grow c → grows c (boot_normal c).2.
Proof.
  intros [Hb Hv] Hc.
  refine (proj1 (does_boot_normal Pre_grow grows _ grows_trans grows_ok true _ _ _ _ c Hc)).
  - intros ?. by apply grows_same.
  - intros. by apply grows_same.
  - intros c' db Hc' Hf _. by apply Hc'.
  - intros e c' _ He. by apply grows_append, He.
  - done.
Qed.

Lemma degraded_file reason bad c : c_file (_enter_degraded reason bad c).2 = c_file c.
Proof.
  unfold _enter_degraded, modify, get, lift, mbind, C_bind. simpl.
  by destruct (c_file c) eqn:E; simpl; rewrite ?E.
Qed.

Lemma serve_all_grows rs c :
  WorldWf → Forall request_wf rs → Pre_grow c → grows c (serve_all rs c).
Proof.
  intros Hw Hrs. revert c. induction Hrs as [|r rs Hr _ IH]; intros c Hc; [by apply grows_same|].
  cbn [serve_all]. pose proof (serve_grows r c Hw Hr Hc) as Hg.
  eapply grows_trans; [exact Hg|]. apply IH. by eapply grows_ok.
Qed.

Lemma sound_empty : ∃ db, open false None = (Ok (mkJournal false true db), Some db) ∧ Sound db [] ∅.
Proof.
  destruct (open_db_sound empty_db [] ∅) as (db & Ho & Hs & _); [|by left|done|].
  - split; try done; try constructor.
  - exists db. unfold open. change (default empty_db None) with empty_db. by rewrite Ho.
Qed.

Lemma open_sound db es m :
  Sound db es m → ∃ db', open false (Some db) = (Ok (mkJournal false true db'), Some db') ∧ Sound db' es m.
Proof.
  intros Hs. destruct (open_db db) as [r db'] eqn:Ho. pose proof (reopen_sound _ _ _ _ _ Hs Ho) as Hs'.
  destruct Hs as [Hr (p & Hp & Hag & Hl) [Hg Hv]].
  destruct (open_db_sound db es m) as (db2 & Ho2 & _); [done|by right|by intros p' ? _; simplify_eq|].
  rewrite Ho in Ho2. injection Ho2 as -> ->. exists db2. unfold open.
  change (default empty_db (Some db)) with db. by rewrite Ho.
Qed.

(** C3: whatever a controller is asked to do, its journal stays sound and only
    grows: from a fresh home or any sound journal, a boot followed by any
    sequence of requests, ticks, verifications and stops - accepted, refused
    or failing half-way - leaves a sound journal of which the history found
    at boot is a prefix. *)
Theorem controller_keeps_history c rs :
  WorldWf → file_ok (c_file c) → Forall request_wf rs →
  let c' := serve_all rs (boot c).2 in
  (c_file c = None ∨ is_Some (c_file c')) ∧ file_ok (c_file c')
  ∧ ∀ db es m, c_file c = Some db → Sound db es m →
      ∃ db' ext m', c_file c' = Some db' ∧ Sound db' (es ++ ext) m'.
Proof.
  intros Hw Hc Hrs. cbv zeta.
  assert (match c_file c with
          | Some _ => grows c (boot c).2
          | None => file_ok (c_file (boot c).2)
          end) as Hb.
  { unfold boot, get, lift, mbind, C_bind. cbn. destruct (c_file c) as [db|] eqn:E.
    - destruct (_inspect_existing (Some db)) as [[[reason bad]|]|]; cbn.
      + apply grows_same. by rewrite degraded_file.
      + destruct (Hc db eq_refl) as (es & m & Hs).
        destruct (open_sound db es m Hs) as (db' & Ho & Hs'). rewrite Ho. cbn.
        assert (grows c (set_file c (Some db') (Some false))) as Hg.
        { unfold grows. rewrite E. exists db'. split; [done|]. intros es2 m2 Hs2.
          destruct (open_sound db es2 m2 Hs2) as (db3 & Ho3 & Hs3). rewrite Ho in Ho3.
          injection Ho3 as <-. exists [], m2. by rewrite app_nil_r. }
        eapply grows_trans; [exact Hg|]. apply boot_normal_grows; [done|].
        eapply grows_ok; [|exact Hg]. by rewrite E.
      + by apply grows_same.
    - destruct sound_empty as (db & Ho & Hs). rewrite Ho. cbn.
      eapply (grows_ok (set_file c (Some db) (Some false))); [|apply boot_normal_grows]; try done.
      all: intros d [= <-]; by eexists _, _. }
  assert (Pre_grow (boot c).2) as Hok.
  { destruct (c_file c) eqn:E; [|done]. eapply grows_ok; [|exact Hb]. by rewrite E. }
  pose proof (serve_all_grows rs (boot c).2 Hw Hrs Hok) as Hg.
  split_and!.
  - destruct (c_file c) as [db|] eqn:E; [right|by left].
    pose proof (grows_trans _ _ _ Hb Hg) as Ht. unfold grows in Ht. rewrite E in Ht.
    destruct Ht as (db' & -> & _). by eexists.
  - by eapply grows_ok.
  - intros db es m E Hs. rewrite E in Hb. pose proof (grows_trans _ _ _ Hb Hg) as Ht.
    unfold grows in Ht. rewrite E in Ht. destruct Ht as (db' & Hf & Hx).
    destruct (Hx es m Hs) as (ext & m' & Hs'). by exists db', ext, m'.
Qed.

(** ** Degraded controllers *)

Definition frozen (a b : Ctl) : Prop :=
  c_file b = c_file a ∧ (c_journal a ≠ Some false → c_journal b ≠ Some false).

Lemma serve_frozen r c : c_journal c ≠ Some false → frozen c (serve r c).2.
Proof.
  intros Hc.
  refine (proj1 (does_serve (λ c, c_journal c ≠ Some false) frozen _ _ _ false _ _ _ _ _ _ r _ c Hc)); try done.
  - intros a b d [E1 H1] [E2 H2]. split; [congruence|auto].
  - intros a b Ha [_ Hf]. auto.
  - intros a b E1 E2. split; [done|]. by rewrite E2.
  - intros e a Ha _. unfold append_file. destruct (c_journal a) as [[]|] eqn:Ej; [|done|done].
    destruct (c_file a) eqn:Ef; simpl; split; done.
Qed.

(** A degraded controller never writes: when the inspection at boot finds a
    problem with an existing journal - a failed structural check, a broken
    hash chain, missing guards, a projection that differs from the replay -
    the controller is degraded, reports the first bad row, and neither the
    boot nor any later request changes the file. *)
Theorem degraded_never_writes c db reason bad rs :
  c_file c = Some db → _inspect_existing (Some db) = Ok (Some (reason, bad)) →
  let c' := (boot c).2 in
  c_mode c' = DEGRADED ∧ c_first_bad_seq c' = bad ∧ c_degraded_reason c' = Some reason
  ∧ c_file (serve_all rs c') = Some db.
Proof.
  intros Hf Hi. cbv zeta.
  assert ((boot c).2 = set_readable (set_head_seq (set_file (set_mode c DEGRADED (Some reason) bad)
            (Some db) (Some true)) (head db).1) (projection_current db)) as ->.
  { unfold boot, get, lift, mbind, C_bind. cbn. rewrite Hf, Hi. cbn.
    unfold _enter_degraded, modify, get, lift, mbind, C_bind. cbn. rewrite Hf. unfold open. cbn. by rewrite Hf. }
  split_and!; [done..|]. generalize (set_readable (set_head_seq (set_file
    (set_mode c DEGRADED (Some reason) bad) (Some db) (Some true)) (head db).1) (projection_current db))
    (eq_refl : c_file (set_readable (set_head_seq (set_file (set_mode c DEGRADED (Some reason) bad)
            (Some db) (Some true)) (head db).1) (projection_current db)) = Some db)
    (ltac:(done) : c_journal (set_readable (set_head_seq (set_file (set_mode c DEGRADED (Some reason) bad)
            (Some db) (Some true)) (head db).1) (projection_current db)) ≠ Some false).
  clear. induction rs as [|r rs IH]; intros c Hf Hj; [done|]. cbn [serve_all].
  destruct (serve_frozen r c Hj) as [E Hj']. apply IH; [by rewrite E|auto].
Qed.

End service.
