(* ===== verification/Http.v ===== *)
(** * The controller's HTTP front

    [courier_core/serve.py], the request handler: what one connection sends
    and receives, the token check, the body rules, the routing of a request to
    the controller, and the stream of journal events. *)

From Stdlib Require Import Ascii.
From S2P Require Import Prelude PyText Json Sha256 Events StateMachine Lifecycle History Projection Replay Journal Ledger Verification Controller Service.

Definition MAX_BODY_BYTES : Z := 1024 * 1024.
Definition SSE_KEEPALIVE_S : Z := 15.
Definition MAX_EVENT_STREAMS : nat := 32.
Definition MAX_DISCARD_BYTES : Z := 4 * MAX_BODY_BYTES.
Definition EVENT_BATCH : nat := 500.

(** ** Digits in text

    [str.isdigit] holds of more characters than [int] can read; the Unicode
    database says which beyond ASCII. *)
Inductive DigitKind := NoDigit | DigitOnly | Decimal (d : Z).

Class UnicodeDigits := { wide_digit : string → DigitKind }.

Section digits.
Context `{UnicodeDigits}.

Definition digit_kind (c : string) : DigitKind :=
  match c with
  | String a "" => if is_digit a then Decimal (code a - 48) else NoDigit
  | _ => wide_digit c
  end.

Definition isdigit (s : string) : bool :=
  (negb (bool_decide (s = "")) &&
   forallb (λ c, match digit_kind c with NoDigit => false | _ => true end) (chars s))%bool.

Definition int_digit (acc : Z) (c : string) : result Z :=
  match digit_kind c with
  | Decimal d => Ok (10 * acc + d)
  | _ => raise ValueError "invalid literal for int()"
  end.

Fixpoint int_digits (acc : Z) (l : list string) : result Z :=
  match l with [] => Ok acc | c :: l => int_digit acc c ≫= λ a, int_digits a l end.

(** [int(s)] of a text that passed [isdigit]; more than 4300 digits are refused. *)
Definition py_int (s : string) : result Z :=
  if (4300 <? length (chars s))%nat then raise ValueError "Exceeds the limit (4300 digits)"
  else int_digits 0 (chars s).

End digits.

(** ** Requests and connections *)

Inductive Method := GET | POST | PUT | DELETE | PATCH.
#[export] Instance Method_eq_dec : EqDecision Method.
Proof. solve_decision. Defined.

(** A request as the standard library's parser hands it over: the path and
    the first non-blank [after] of the query, and the headers that matter. *)
Record HttpRequest := mkHttp {
  rq_method : Method;
  rq_path : string;
  rq_after : option string;
  rq_token : option string;
  rq_content_length : option string;
  rq_transfer_encoding : option string;
  rq_last_event_id : option string;
}.

(** What an answer's JSON body is made of. *)
Inductive Payload :=
  | PNone
  | PError (code : string)
  | PHealth (h : Health)
  | PTask (task : TaskState) (effect_key : string)
  | PCreated (task_id : string) (duplicate : bool)
  | PLease (lease : Claim)
  | PStarted (status task_id : string)
  | PBeat (stop cancel : list string)
  | PResult (status task_id : string) (seq : Z)
  | PStopping
  | PCancelled (status : string)
  | PResolved (status : string) (duplicate : bool).

Inductive Sent :=
  | Answer (status : Z) (body : Payload)
  | StreamHead
  | Frame (e : Event)
  | Padding
  | Keepalive.

(** How the readable bytes end: the client closes its side, sends nothing for
    the socket timeout, or resets the connection. *)
Inductive Ending := EndOfFile | TimesOut | ResetByPeer.

(** [cn_in] are the bytes still to be read, [cn_peer n] the error the write
    after [n] successful ones meets. *)
Record Conn := mkConn {
  cn_in : string;
  cn_end : Ending;
  cn_out : list Sent;
  cn_peer : nat → option exn_class;
  cn_close : bool;
}.

Record Server := mkServer {
  sv_token : string;
  sv_ctl : Ctl;
  sv_streams : nat;
  sv_stopping : bool;
}.

Record Io := mkIo { io_conn : Conn; io_server : Server }.

(** One round of an event stream: the controller and the stop flag as the
    other threads have left them by then. *)
Record Round := mkRound { rd_ctl : Ctl; rd_stopping : bool }.

(** ** The handler's computations *)
Definition Handler (A : Type) : Type := Io → result A * Io.
#[export] Instance Handler_ret : MRet Handler := λ A a io, (Ok a, io).
#[export] Instance Handler_bind : MBind Handler := λ A B f m io,
  match m io with (Ok a, io') => f a io' | (Err x, io') => (Err x, io') end.

Definition hlift {A} (r : result A) : Handler A := λ io, (r, io).
Definition hapi {A} (status : Z) (c : string) : Handler A := hlift (raise (ApiError status c) c).
Definition on_conn (f : Conn → Conn) : Handler unit := λ io, (Ok tt, mkIo (f (io_conn io)) (io_server io)).
Definition on_server (f : Server → Server) : Handler unit := λ io, (Ok tt, mkIo (io_conn io) (f (io_server io))).

(** A call of the controller. *)
Definition call {A} (m : C A) : Handler A := λ io,
  let s := io_server io in
  let '(r, c) := m (sv_ctl s) in
  (r, mkIo (io_conn io) (mkServer (sv_token s) c (sv_streams s) (sv_stopping s))).

Definition close_connection : Handler unit :=
  on_conn (λ c, mkConn (cn_in c) (cn_end c) (cn_out c) (cn_peer c) true).

Definition send (x : Sent) : Handler unit := λ io,
  let c := io_conn io in
  match cn_peer c (length (cn_out c)) with
  | Some cls => (Err (Exn cls "write failed"), io)
  | None => (Ok tt, mkIo (mkConn (cn_in c) (cn_end c) (cn_out c ++ [x]) (cn_peer c) (cn_close c)) (io_server io))
  end.

Fixpoint split_at (n : nat) (s : string) : string * string :=
  match n, s with
  | S n, String a r => let '(x, y) := split_at n r in (String a x, y)
  | _, _ => ("", s)
  end.

(** [self.rfile.read(n)] for a positive [n]. *)
Definition rfile_read (n : nat) : Handler string := λ io,
  let c := io_conn io in
  let '(data, rest) := split_at n (cn_in c) in
  let io' := mkIo (mkConn rest (cn_end c) (cn_out c) (cn_peer c) (cn_close c)) (io_server io) in
  if (String.length data <? n)%nat then
    match cn_end c with
    | EndOfFile => (Ok data, io')
    | TimesOut => (Err (Exn TimeoutError "timed out"), io')
    | ResetByPeer => (Err (Exn ConnectionResetError "reset"), io')
    end
  else (Ok data, io').

Definition _send (status : Z) (body : Payload) : Handler unit := send (Answer status body).

(** [OSError] and the subclasses that occur. *)
Definition is_os_error (x : exn) : bool :=
  match exn_cls x with
  | OSError | BrokenPipeError | ConnectionResetError | ConnectionAbortedError | TimeoutError => true
  | _ => false
  end.

Definition disconnected (x : exn) : bool :=
  match exn_cls x with BrokenPipeError | ConnectionResetError => true | _ => false end.

(** [s or default] *)
Definition or_str (o : option string) (d : string) : string :=
  match o with None | Some "" => d | Some s => s end.

Section handler.
Context `{UnicodeDigits}.

(** [hmac.compare_digest] of the two encodings. *)
Definition _authorized (rq : HttpRequest) (s : Server) : bool :=
  bool_decide (default "" (rq_token rq) = sv_token s).

(** The fuel is one more than the bytes there are to read: every turn but the
    last reads one. *)
Fixpoint discard (fuel : nat) (remaining : Z) : Handler unit :=
  match fuel with
  | O => mret tt
  | S fuel =>
      if 0 <? remaining then
        chunk ← rfile_read (Z.to_nat (Z.min 65536 remaining));
        if decide (chunk = "") then mret tt
        else discard fuel (remaining - Z.of_nat (String.length chunk))
      else mret tt
  end.

Definition discard_bytes (n : Z) : Handler unit := λ io,
  discard (S (String.length (cn_in (io_conn io)))) n io.

Definition _discard_body (rq : HttpRequest) : Handler unit :=
  close_connection;;
  let length_header := default "" (rq_content_length rq) in
  if isdigit length_header then
    n ← hlift (py_int length_header);
    if n <=? MAX_DISCARD_BYTES then discard_bytes n else mret tt
  else mret tt.

(** A header that is present and not empty. *)
Definition present (o : option string) : bool := match o with None | Some "" => false | _ => true end.

Definition parse_body `{PyPlatform} (raw : string) : result json :=
  if decide (raw = "") then Ok (JObj [])
  else match (if utf8_valid raw then loads raw else raise ValueError "invalid start byte") with
       | Ok j => Ok j
       | Err _ => raise (ApiError 400 "invalid_json") "invalid_json"
       end.

Definition _read_json `{PyPlatform} (rq : HttpRequest) : Handler json :=
  if (present (rq_transfer_encoding rq)
      || match rq_content_length rq with Some l => negb (isdigit l) | None => false end)%bool then
    close_connection;; hapi 411 "length_required"
  else
    match rq_content_length rq with
    | None => close_connection;; mret (JObj [])
    | Some l =>
        n ← hlift (py_int l);
        if MAX_BODY_BYTES <? n then _discard_body rq;; hapi 413 "too_large"
        else
          raw ← (if n =? 0 then mret "" else rfile_read (Z.to_nat n));
          hlift (parse_body raw)
    end.

(** ** Paths *)

Definition is_id_char (a : ascii) : bool :=
  (is_digit a || (65 <=? code a) && (code a <=? 90) || (97 <=? code a) && (code a <=? 122)
   || (code a =? 95) || (code a =? 46) || (code a =? 58) || (code a =? 45))%bool.

Fixpoint span_id (s : string) : string * string :=
  match s with
  | String a r => if is_id_char a then let '(x, y) := span_id r in (String a x, y) else ("", s)
  | "" => ("", "")
  end.

(** [^/v1/tasks/([A-Za-z0-9_.:-]{1,200})<suffix>$]; [$] also matches before a
    final line break. *)
Definition path_match (suffix path : string) : option string :=
  match strip_prefix "/v1/tasks/" path with
  | None => None
  | Some r =>
      let '(id, rest) := span_id r in
      if ((1 <=? String.length id)%nat && (String.length id <=? 200)%nat
          && (bool_decide (rest = suffix) || bool_decide (rest = suffix +:+ String LF "")))%bool
      then Some id else None
  end.

Definition _TASK_PATH : string → option string := path_match "".
Definition _CANCEL_PATH : string → option string := path_match "/cancel".
Definition _RESOLVE_PATH : string → option string := path_match "/resolve".

(** ** The event stream *)

Definition _event_json (e : Event) : json :=
  JObj [("seq", jopt_int (ev_seq e)); ("event_id", JStr (ev_event_id e));
        ("type", JStr (type_value (ev_type e))); ("task_id", jopt (ev_task_id e));
        ("attempt", jopt_int (ev_attempt e)); ("dispatch_id", jopt (ev_dispatch_id e));
        ("worker_id", jopt (ev_worker_id e)); ("result_id", jopt (ev_result_id e));
        ("ts_utc", JStr (ev_ts_utc e)); ("payload", JObj (ev_payload e)); ("hash", jopt (ev_hash e))].

Definition line_break : string := String LF "".

(** The bytes of one frame. *)
Definition sse_text (e : Event) : string :=
  "id: " +:+ dumps (jopt_int (ev_seq e)) +:+ line_break
  +:+ "event: " +:+ type_value (ev_type e) +:+ line_break
  +:+ "data: " +:+ dumps (_event_json e) +:+ line_break +:+ line_break.

Fixpoint write_frames (l : list Event) : Handler unit :=
  match l with [] => mret tt | e :: l => send (Frame e);; write_frames l end.

(** [last = event.seq] after each frame. *)
Definition last_seq (last : Z) (l : list Event) : Z :=
  match list.last l with Some e => default last (ev_seq e) | None => last end.

(** The loop of [_pump_events], one round per element; it ends when a stop flag
    is seen, or where the observation ends. *)
Fixpoint pump `{PyPlatform} (rounds : list Round) (last idle : Z) (caught_up : bool) : Handler unit :=
  match rounds with
  | [] => mret tt
  | r :: rounds =>
      if (c_stopping (rd_ctl r) || rd_stopping r)%bool then mret tt
      else
        batch ← hlift (events_after last EVENT_BATCH (rd_ctl r)).1;
        write_frames batch;;
        if decide (batch = []) then
          (if caught_up then mret tt else send Padding);;
          if SSE_KEEPALIVE_S <=? idle + 1 then send Keepalive;; pump rounds last 0 true
          else pump rounds last (idle + 1) true
        else pump rounds (last_seq last batch) 0 false
  end.

Definition try_h {A} (m : Handler A) (handler : exn → option (Handler A)) : Handler A := λ io,
  match m io with
  | (Err x, io') => match handler x with Some h => h io' | None => (Err x, io') end
  | r => r
  end.

Definition _pump_events `{PyPlatform} (rounds : list Round) (last : Z) : Handler unit :=
  send StreamHead;;
  close_connection;;
  try_h (pump rounds last 0 true) (λ x,
    match exn_cls x with
    | BrokenPipeError | ConnectionResetError | ConnectionAbortedError => Some (mret tt)
    | _ => None
    end).

(** [try: body finally: last] *)
Definition finally {A} (body : Handler A) (last : Handler unit) : Handler A := λ io,
  let '(r, io1) := body io in
  match last io1 with (Ok _, io2) => (r, io2) | (Err x, io2) => (Err x, io2) end.

Definition set_streams (f : nat → nat) (s : Server) : Server :=
  mkServer (sv_token s) (sv_ctl s) (f (sv_streams s)) (sv_stopping s).

Definition free_streams : Handler nat := λ io, (Ok (sv_streams (io_server io)), io).

Definition _stream_events `{PyPlatform} (rounds : list Round) (rq : HttpRequest) : Handler unit :=
  let raw := or_str (rq_last_event_id rq) (default "0" (rq_after rq)) in
  if negb (isdigit (py_strip raw)) then hapi 400 "invalid_request"
  else
    last ← hlift (py_int (py_strip raw));
    free ← free_streams;
    if decide (free = 0%nat) then hapi 503 "too_many_streams"
    else
      on_server (set_streams pred);;
      finally (_pump_events rounds last) (on_server (set_streams S)).

(** ** Routing *)

Definition set_stop (s : Server) : Server := mkServer (sv_token s) (sv_ctl s) (sv_streams s) true.

Definition get_route `{PyPlatform} `{World} (rounds : list Round) (rq : HttpRequest) : Handler unit :=
  if decide (rq_path rq = "/v1/health") then h ← call health; _send 200 (PHealth h)
  else if decide (rq_path rq = "/v1/events") then _stream_events rounds rq
  else match _TASK_PATH (rq_path rq) with
  | Some t => '(task, key) ← call (task_view t); _send 200 (PTask task key)
  | None => hapi 404 "not_found"
  end.

Definition post_route `{PyPlatform} `{World} (path : string) (body : json) : Handler unit :=
  if decide (path = "/v1/tasks") then
    '(status, task_id, duplicate) ← call (create_task body); _send status (PCreated task_id duplicate)
  else if decide (path = "/v1/claim") then
    lease ← call (claim body);
    match lease with None => _send 204 PNone | Some l => _send 200 (PLease l) end
  else if decide (path = "/v1/start") then
    '(status, task_id) ← call (start body); _send 200 (PStarted status task_id)
  else if decide (path = "/v1/heartbeat") then
    '(stop, cancel) ← call (heartbeat body); _send 200 (PBeat stop cancel)
  else if decide (path = "/v1/result") then
    '(status, task_id, seq) ← call (result_report body); _send 200 (PResult status task_id seq)
  else if decide (path = "/v1/shutdown") then
    _send 200 PStopping;; close_connection;; on_server set_stop
  else match _CANCEL_PATH path, _RESOLVE_PATH path with
  | Some t, _ => status ← call (cancel t (Some body)); _send 200 (PCancelled status)
  | None, Some t => '(status, duplicate) ← call (resolve t body); _send 200 (PResolved status duplicate)
  | None, None => hapi 404 "not_found"
  end.

(** The body of the [try]. *)
Definition routed `{PyPlatform} `{World} (rounds : list Round) (rq : HttpRequest) : Handler unit := λ io,
  if negb (_authorized rq (io_server io)) then (_discard_body rq;; hapi 401 "unauthorized") io
  else if decide (rq_method rq = GET) then get_route rounds rq io
  else (body ← _read_json rq; post_route (rq_path rq) body) io.

Definition on_error (x : exn) : option (Handler unit) :=
  match exn_cls x with
  | ApiError status c => Some (_send status (PError c))
  | SystemExit => None
  | _ => Some (if disconnected x then close_connection
               else try_h (_send 500 (PError "internal")) (λ y,
                 if is_os_error y then Some close_connection else None))
  end.

Definition _dispatch `{PyPlatform} `{World} (rounds : list Round) (rq : HttpRequest) : Handler unit :=
  try_h (routed rounds rq) on_error.

(** [do_GET], [do_POST], [do_PUT] and its other names. *)
Definition handle `{PyPlatform} `{World} (rounds : list Round) (rq : HttpRequest) : Handler unit :=
  match rq_method rq with
  | GET | POST => _dispatch rounds rq
  | PUT | DELETE | PATCH => _send 405 (PError "method_not_allowed")
  end.

End handler.

(** ** What the decoder yields *)

(** [repr] of a float is a JSON number that stands for itself. *)
Class FloatRepr `{PyPlatform} :=
  repr_token : ∀ t t', float_norm t = Some t' → float_token t'.

Section decoder.
Context `{PyPlatform} `{!FloatRepr}.

Lemma dict_of_pairs_wf kvs : Forall (λ kv, json_wf kv.2) kvs → json_wf (JObj (dict_of_pairs kvs)).
Proof.
  unfold dict_of_pairs. intros Hf.
  assert (json_wf (JObj [])) as Hd by (by apply wf_obj; constructor). revert Hd.
  generalize (@nil (string * json)). induction Hf as [|[k v] kvs Hv _ IH]; intros d Hd; [done|].
  simpl. by apply IH, jset_wf.
Qed.

Lemma scan_number_wf s j rest : scan_number s = Some (j, rest) → json_wf j.
Proof.
  unfold scan_number. destruct (scan_sign s) as [neg s1].
  destruct (scan_int s1) as [[i s2]|]; [|done]. cbn [mbind option_bind].
  destruct (scan_frac s2) as [f s3], (scan_exp s3) as [e s4].
  assert (∀ t, (t' ← float_norm t; Some (JFloat t', s4)) = Some (j, rest) → json_wf j) as Hfloat.
  { intros t. destruct (float_norm t) as [t'|] eqn:E; [|done]. intros [= <- _]. by eapply repr_token. }
  destruct f, e; try by apply Hfloat. by intros [= <- _].
Qed.

Lemma parse_wf n : (∀ s j rest, parse_value n s = Some (j, rest) → json_wf j)
  ∧ (∀ s l rest, parse_elems n s = Some (l, rest) → Forall json_wf l)
  ∧ (∀ s l rest, parse_members n s = Some (l, rest) → Forall (λ kv, json_wf kv.2) l).
Proof.
  induction n as [|n (IHv & IHe & IHm)]; [done|]. split_and!; intros s; cbn -[scan_number strip_prefix].
  - destruct s as [|a r]; [done|]. intros j rest Hp. case_hyp Hp; simplify_option_eq; try done.
    all: try (by eapply scan_number_wf).
    all: try (by apply wf_obj; constructor).
    all: repeat match goal with x : _ * _ |- _ => destruct x end; simplify_eq.
    all: first [apply dict_of_pairs_wf; by eapply IHm | apply json_ok_arr; by eapply IHe | done].
  - intros l rest Hp.
    destruct (parse_value n s) as [[v r]|] eqn:Ev; [|done]. cbn [mbind option_bind] in Hp.
    destruct (skip_ws r) as [|a r']; [done|]. destruct (code a =? 44).
    + destruct (parse_elems n _) as [[l' rest']|] eqn:El; [|done]. injection Hp as <- <-.
      constructor; [by eapply IHv|by eapply IHe].
    + destruct (code a =? 93); [|done]. injection Hp as <- <-. constructor; [by eapply IHv|constructor].
  - destruct s as [|q r]; [done|]. intros l rest Hp. destruct (code q =? 34); [|done].
    destruct (parse_chars r) as [[k r1]|]; [|done]. cbn [mbind option_bind] in Hp.
    destruct (strip_prefix ":" (skip_ws r1)) as [r2|]; [|done].
    destruct (parse_value n _) as [[v r3]|] eqn:Ev; [|done]. cbn [mbind option_bind] in Hp.
    destruct (skip_ws r3) as [|a r']; [done|]. destruct (code a =? 44).
    + destruct (parse_members n _) as [[l' rest']|] eqn:El; [|done]. injection Hp as <- <-.
      constructor; [by eapply IHv|by eapply IHm].
    + destruct (code a =? 125); [|done]. injection Hp as <- <-. constructor; [by eapply IHv|constructor].
Qed.

Lemma loads_wf s j : loads s = Ok j → json_wf j.
Proof.
  unfold loads. destruct (parse_value _ _) as [[v rest]|] eqn:E; [|done].
  case_decide; [|done]. intros [= <-]. by eapply parse_wf.
Qed.

Lemma parse_body_wf raw j : parse_body raw = Ok j → json_wf j.
Proof.
  unfold parse_body. case_decide; [intros [= <-]; by apply wf_obj; constructor|].
  destruct (if utf8_valid raw then loads raw else _) eqn:E; [|done]. intros [= <-].
  destruct (utf8_valid raw); [|done]. by eapply loads_wf.
Qed.

End decoder.

(** ** What a computation leaves alone

    [runs R m]: from every state, running [m] relates the states by [R]. *)
Definition runs (R : Io → Io → Prop) {A} (m : Handler A) : Prop := ∀ io, R io (m io).2.

Section runs.
Variable R : Io → Io → Prop.
Context (R_refl : ∀ a, R a a) (R_trans : ∀ a b c, R a b → R b c → R a c).

Lemma runs_ret {A} (a : A) : runs R (mret a).
Proof. intros io. apply R_refl. Qed.

Lemma runs_hlift {A} (r : result A) : runs R (hlift r).
Proof. intros io. apply R_refl. Qed.

Lemma runs_bind {A B} (m : Handler A) (f : A → Handler B) :
  runs R m → (∀ a, runs R (f a)) → runs R (m ≫= f).
Proof.
  intros Hm Hf io. specialize (Hm io). unfold mbind, Handler_bind.
  destruct (m io) as [[a|x] io1]; simpl in *; [|done]. by eapply R_trans, Hf.
Qed.

Lemma runs_try {A} (m : Handler A) h :
  runs R m → (∀ x k, h x = Some k → runs R k) → runs R (try_h m h).
Proof.
  intros Hm Hh io. specialize (Hm io). unfold try_h.
  destruct (m io) as [[a|x] io1]; simpl in *; [done|].
  destruct (h x) as [k|] eqn:E; [|done]. by eapply R_trans, Hh.
Qed.

Lemma runs_finally {A} (m : Handler A) k : runs R m → runs R k → runs R (finally m k).
Proof.
  intros Hm Hk io. specialize (Hm io). unfold finally. destruct (m io) as [r io1]. simpl in *.
  specialize (Hk io1). destruct (k io1) as [[[]|] io2]; simpl in *; by eapply R_trans.
Qed.

(** The computations that use the connection only. *)
Context (says : Sent → Prop)
  (R_send : ∀ a b x, says x → io_server b = io_server a →
     io_conn b = mkConn (cn_in (io_conn a)) (cn_end (io_conn a)) (cn_out (io_conn a) ++ [x])
                   (cn_peer (io_conn a)) (cn_close (io_conn a)) → R a b)
  (R_read : ∀ a b, io_server b = io_server a →
     (∃ i c, (c = true ∨ c = cn_close (io_conn a))
             ∧ io_conn b = mkConn i (cn_end (io_conn a)) (cn_out (io_conn a)) (cn_peer (io_conn a)) c) → R a b).

Lemma runs_send x : says x → runs R (send x).
Proof. intros Hx io. unfold send. destruct (cn_peer _ _); [apply R_refl|by eapply R_send]. Qed.

Lemma runs_close : runs R close_connection.
Proof. intros io. apply R_read; [done|]. eexists _, true. split; [by left|done]. Qed.

Lemma runs_read n : runs R (rfile_read n).
Proof.
  intros io. unfold rfile_read. destruct (split_at n _) as [d rest].
  assert (R io (mkIo (mkConn rest (cn_end (io_conn io)) (cn_out (io_conn io)) (cn_peer (io_conn io))
                        (cn_close (io_conn io))) (io_server io))) as Hr.
  { apply R_read; [done|]. eexists _, _. split; [by right|done]. }
  destruct (_ <? n)%nat; [destruct (cn_end (io_conn io))|]; exact Hr.
Qed.

Lemma runs_discard fuel n : runs R (discard fuel n).
Proof.
  revert n. induction fuel as [|fuel IH]; intros n; [apply runs_ret|]. cbn [discard].
  destruct (0 <? n); [|apply runs_ret]. apply runs_bind; [apply runs_read|]. intros chunk.
  destruct (decide _); [apply runs_ret|apply IH].
Qed.

Context `{UnicodeDigits}.

Lemma runs_discard_body rq : runs R (_discard_body rq).
Proof.
  apply runs_bind; [apply runs_close|]. intros _. cbv zeta. destruct (isdigit _); [|apply runs_ret].
  apply runs_bind; [apply runs_hlift|]. intros n. destruct (n <=? _); [|apply runs_ret].
  intros io. apply runs_discard.
Qed.

Lemma runs_read_json `{PyPlatform} rq : runs R (_read_json rq).
Proof.
  unfold _read_json. destruct (_ || _)%bool.
  - apply runs_bind; [apply runs_close|]. intros _. apply runs_hlift.
  - destruct (rq_content_length rq).
    + apply runs_bind; [apply runs_hlift|]. intros n. destruct (_ <? n).
      * apply runs_bind; [apply runs_discard_body|]. intros _. apply runs_hlift.
      * apply runs_bind; [destruct (n =? 0); [apply runs_ret|apply runs_read]|].
        intros raw. apply runs_hlift.
    + apply runs_bind; [apply runs_close|]. intros _. apply runs_ret.
Qed.

Lemma runs_on_error x k :
  (∀ st c, says (Answer st (PError c))) → on_error x = Some k → runs R k.
Proof.
  intros Hs. unfold on_error.
  assert (runs R (if disconnected x then close_connection
    else try_h (_send 500 (PError "internal")) (λ y, if is_os_error y then Some close_connection else None))) as Hd.
  { destruct (disconnected x); [apply runs_close|]. apply runs_try; [by apply runs_send|].
    intros y k'. destruct (is_os_error y); [|done]. intros [= <-]. apply runs_close. }
  destruct (exn_cls x); try done; intros [= <-]; try exact Hd. by apply runs_send.
Qed.

(** The stream itself says frames and fillers. *)
Context (says_head : says StreamHead) (says_frame : ∀ e, says (Frame e))
  (says_padding : says Padding) (says_keepalive : says Keepalive).

Lemma runs_frames l : runs R (write_frames l).
Proof.
  induction l as [|e l IH]; [apply runs_ret|]. apply runs_bind; [by apply runs_send|]. intros _. exact IH.
Qed.

Lemma runs_pump `{PyPlatform} rounds last idle cu : runs R (pump rounds last idle cu).
Proof.
  revert last idle cu. induction rounds as [|r rounds IH]; intros last idle cu; [apply runs_ret|].
  cbn [pump]. destruct (_ || _)%bool; [apply runs_ret|].
  apply runs_bind; [apply runs_hlift|]. intros batch. apply runs_bind; [apply runs_frames|]. intros _.
  destruct (decide _); [|apply IH].
  apply runs_bind; [destruct cu; [apply runs_ret|by apply runs_send]|]. intros _.
  destruct (_ <=? _); [|apply IH]. apply runs_bind; [by apply runs_send|]. intros _. apply IH.
Qed.

Lemma runs_pump_events `{PyPlatform} rounds last : runs R (_pump_events rounds last).
Proof.
  apply runs_bind; [by apply runs_send|]. intros _. apply runs_bind; [apply runs_close|]. intros _.
  apply runs_try; [apply runs_pump|]. intros x k. destruct (exn_cls x); try done; intros [= <-]; apply runs_ret.
Qed.

End runs.

(** ** Refused requests *)

Definition refusal (x : Sent) : Prop := ∃ status c, x = Answer status (PError c).

(** The server is left alone, the client only told errors, a closing
    connection stays closing. *)
Definition refuses (a b : Io) : Prop :=
  io_server b = io_server a ∧ (cn_close (io_conn a) = true → cn_close (io_conn b) = true)
  ∧ ∃ said, cn_out (io_conn b) = cn_out (io_conn a) ++ said ∧ Forall refusal said.

#[export] Instance refuses_preorder : PreOrder refuses.
Proof.
  split.
  - intros a. split_and!; [done|done|]. exists []. by rewrite app_nil_r.
  - intros a b c (E1 & C1 & s1 & O1 & F1) (E2 & C2 & s2 & O2 & F2). split_and!; [congruence|auto|].
    exists (s1 ++ s2). rewrite O2, O1, <- app_assoc. split; [done|]. by apply Forall_app.
Qed.

Lemma refuses_send a b x : refusal x → io_server b = io_server a →
  io_conn b = mkConn (cn_in (io_conn a)) (cn_end (io_conn a)) (cn_out (io_conn a) ++ [x])
                (cn_peer (io_conn a)) (cn_close (io_conn a)) → refuses a b.
Proof.
  intros Hx Hs E. unfold refuses. rewrite E. split_and!; [done..|]. exists [x]. split; [done|].
  by repeat constructor.
Qed.

Lemma refuses_read a b : io_server b = io_server a →
  (∃ i c, (c = true ∨ c = cn_close (io_conn a))
     ∧ io_conn b = mkConn i (cn_end (io_conn a)) (cn_out (io_conn a)) (cn_peer (io_conn a)) c) → refuses a b.
Proof.
  intros Hs (i & c & Hc & E). unfold refuses. rewrite E. split_and!; [done|simpl; naive_solver|].
  exists []. by rewrite app_nil_r.
Qed.

Definition refuses_refl a : refuses a a := reflexivity a.
Definition refuses_trans a b c : refuses a b → refuses b c → refuses a c :=
  PreOrder_Transitive (R := refuses) a b c.
#[local] Hint Resolve refuses_refl refuses_trans refuses_send refuses_read : core.

Lemma refusal_error st c : refusal (Answer st (PError c)).
Proof. by eexists _, _. Qed.
#[local] Hint Resolve refusal_error : core.

Section refused.
Context `{UnicodeDigits} `{PyPlatform} `{World}.

Lemma refuses_discard rq : runs refuses (_discard_body rq).
Proof. apply runs_discard_body; eauto. Qed.

Lemma discard_closes rq io : cn_close (io_conn (_discard_body rq io).2) = true.
Proof.
  unfold _discard_body, mbind, Handler_bind. simpl. destruct (isdigit _); [|done]. simpl.
  destruct (py_int _) as [n|]; [|done]. simpl. destruct (n <=? _); [|done].
  match goal with |- context [discard_bytes n ?c] =>
    enough (refuses c (discard_bytes n c).2) as (_ & Hc & _) by exact (Hc eq_refl) end.
  unfold discard_bytes.
  apply (runs_discard refuses); eauto.
Qed.

(** A request without the controller's token touches nothing: whatever the
    method, path, body and connection, neither the controller nor its journal
    nor the stream slots nor the stop flag changes, the client is told nothing
    but an error, and the connection is closed after a GET or POST. *)
Theorem unauthorized_requests_touch_nothing rounds rq io :
  default "" (rq_token rq) ≠ sv_token (io_server io) →
  let io' := (handle rounds rq io).2 in
  io_server io' = io_server io
  ∧ (∃ said, cn_out (io_conn io') = cn_out (io_conn io) ++ said ∧ Forall refusal said)
  ∧ (rq_method rq = GET ∨ rq_method rq = POST → cn_close (io_conn io') = true).
Proof.
  intros Ht. cbv zeta.
  assert (runs refuses (_send 405 (PError "method_not_allowed"))) as H405.
  { apply (runs_send refuses) with (says := refusal); eauto. }
  assert (refuses io (_dispatch rounds rq io).2 ∧ cn_close (io_conn (_dispatch rounds rq io).2) = true) as Hd.
  { assert (routed rounds rq io = (_discard_body rq;; hapi 401 "unauthorized") io) as Hr.
    { unfold routed, _authorized. by rewrite bool_decide_eq_false_2. }
    pose proof (refuses_discard rq io) as Hq. pose proof (discard_closes rq io) as Hc.
    unfold _dispatch, try_h. rewrite Hr. unfold mbind at 1, Handler_bind at 1.
    unfold mbind, Handler_bind.
    assert (∃ x, (let (r, io') := _discard_body rq io in
      match r with Ok _ => hapi (A := unit) 401 "unauthorized" io' | Err x => (Err x, io') end)
        = (Err x, (_discard_body rq io).2)) as (x & ->).
    { destruct (_discard_body rq io) as [[a|x] io1]; simpl; eauto. }
    destruct (on_error x) as [k|] eqn:E; [|done].
    assert (runs refuses k) as Hk.
    { eapply (runs_on_error refuses) with (says := refusal); eauto. }
    specialize (Hk (_discard_body rq io).2). split; [by etrans|]. by apply Hk. }
  destruct Hd as [Hd Hc]. unfold handle. specialize (H405 io).
  destruct (rq_method rq) eqn:Em; (split_and!; [by apply Hd || by apply H405|by apply Hd || by apply H405|]); try done; by intros [|].
Qed.

End refused.

(** ** Served requests *)

(** An answer, by the shape of what the call returned. *)
Ltac answered_by lemma :=
  intros a; repeat match goal with x : _ * _ |- _ => destruct x | x : option Claim |- _ => destruct x end;
  apply lemma.

(** The routing table: what a POST asks of the controller. *)
Definition asked (path : string) (body : json) : option Request :=
  if decide (path = "/v1/tasks") then Some (RCreate body)
  else if decide (path = "/v1/claim") then Some (RClaim body)
  else if decide (path = "/v1/start") then Some (RStart body)
  else if decide (path = "/v1/heartbeat") then Some (RHeartbeat body)
  else if decide (path = "/v1/result") then Some (RResult body)
  else if decide (path = "/v1/shutdown") then None
  else match _CANCEL_PATH path, _RESOLVE_PATH path with
       | Some t, _ => Some (RCancel t (Some body))
       | None, Some t => Some (RResolve t body)
       | None, None => None
       end.

(** [rq], sent with the right token, asks for [r]. *)
Definition asks `{PyPlatform} (token : string) (rq : HttpRequest) (r : Request) : Prop :=
  default "" (rq_token rq) = token
  ∧ (rq_method rq = GET ∧ (∃ t, _TASK_PATH (rq_path rq) = Some t ∧ r = RView t)
     ∨ rq_method rq = POST ∧ ∃ body, json_wf body ∧ asked (rq_path rq) body = Some r).

Definition keeps_ctl (a b : Io) : Prop :=
  sv_ctl (io_server b) = sv_ctl (io_server a) ∧ sv_token (io_server b) = sv_token (io_server a).

Lemma keeps_refl a : keeps_ctl a a.
Proof. done. Qed.
Lemma keeps_trans a b c : keeps_ctl a b → keeps_ctl b c → keeps_ctl a c.
Proof. intros [] []. split; congruence. Qed.
Lemma keeps_server a b : io_server b = io_server a → keeps_ctl a b.
Proof. intros E. split; by rewrite E. Qed.
#[local] Hint Resolve keeps_refl keeps_trans keeps_server : core.

Section served.
Context `{UnicodeDigits} `{PyPlatform} `{!FloatRepr} `{World}.

Lemma keeps_send x : runs keeps_ctl (send x).
Proof. by apply (runs_send _ keeps_refl (λ _, True)); eauto. Qed.

Lemma keeps_stream rounds rq : runs keeps_ctl (_stream_events rounds rq).
Proof.
  unfold _stream_events. cbv zeta. destruct (negb _); [by apply runs_hlift|].
  apply runs_bind; [eauto|by apply runs_hlift|]. intros last.
  apply runs_bind; [eauto|by intros io|]. intros free. destruct (decide _); [by apply runs_hlift|].
  apply runs_bind; [eauto|by intros io|]. intros _. apply runs_finally; [eauto| |by intros io].
  apply (runs_pump_events keeps_ctl keeps_refl keeps_trans (λ _, True)); eauto.
Qed.

(** One controller call and whatever is said about it. *)
Lemma call_then {A B} (m : C A) (k : A → Handler B) io :
  (∀ a, runs keeps_ctl (k a)) →
  sv_token (io_server ((call m ≫= k) io).2) = sv_token (io_server io)
  ∧ sv_ctl (io_server ((call m ≫= k) io).2) = (m (sv_ctl (io_server io))).2.
Proof.
  intros Hk. unfold mbind, Handler_bind, call. destruct (m _) as [[a|x] c]; simpl; [|done].
  destruct (Hk a (mkIo (io_conn io) (mkServer (sv_token (io_server io)) c (sv_streams (io_server io))
    (sv_stopping (io_server io))))) as [E1 E2]. by rewrite E1, E2.
Qed.

Lemma serve_state {A} (m : C A) c : ((m;; mret tt) c).2 = (m c).2.
Proof. unfold mbind, C_bind. by destruct (m c) as [[a|x] c']. Qed.

Lemma asked_wf path body r : json_wf body → asked path body = Some r → request_wf r.
Proof. intros Hb. unfold asked. intros Ha. case_hyp Ha; by injection Ha as <-. Qed.

(** What one request does to the controller. *)
Definition effect (token : string) (rq : HttpRequest) (a b : Io) : Prop :=
  sv_token (io_server b) = sv_token (io_server a)
  ∧ (sv_ctl (io_server b) = sv_ctl (io_server a)
     ∨ ∃ r, asks token rq r ∧ request_wf r ∧ sv_ctl (io_server b) = (serve r (sv_ctl (io_server a))).2).

Lemma effect_none token rq a b : keeps_ctl a b → effect token rq a b.
Proof. intros []. split; [done|by left]. Qed.

Lemma effect_call {A B} token rq r (m : C A) (k : A → Handler B) io :
  asks token rq r → request_wf r → (∀ c, (serve r c).2 = (m c).2) → (∀ a, runs keeps_ctl (k a)) →
  effect token rq io ((call m ≫= k) io).2.
Proof.
  intros Ha Hw Hs Hk. destruct (call_then m k io Hk) as [Et Ec]. split; [done|]. right.
  exists r. by rewrite Ec, Hs.
Qed.

Lemma effect_post token rq body io :
  default "" (rq_token rq) = token → rq_method rq = POST → json_wf body →
  effect token rq io (post_route (rq_path rq) body io).2.
Proof.
  intros Ht Hm Hb.
  assert (∀ r, asked (rq_path rq) body = Some r → asks token rq r ∧ request_wf r) as Hasks.
  { intros r Hr. split; [|by eapply asked_wf]. split; [done|]. right. by eauto. }
  unfold post_route. unfold asked in Hasks.
  repeat (destruct (decide _); [try (edestruct Hasks as [? ?]; [done|];
    eapply effect_call; [eassumption|eassumption|intros c; apply serve_state|];
    answered_by keeps_send)|]).
  - apply effect_none. revert io. apply runs_bind; [eauto|apply keeps_send|]. intros _.
    apply runs_bind; [eauto|by intros ?|]. intros _. by intros ?.
  - destruct (_CANCEL_PATH _) as [t|]; [|destruct (_RESOLVE_PATH _) as [t|]].
    1, 2: edestruct Hasks as [? ?]; [done|];
      eapply effect_call; [eassumption|eassumption|intros c; apply serve_state|];
      answered_by keeps_send.
    by apply effect_none.
Qed.

Lemma effect_read_json rq io :
  let m := _read_json rq in
  keeps_ctl io (m io).2 ∧ ∀ body, (m io).1 = Ok body → json_wf body.
Proof.
  cbv zeta. split; [apply (runs_read_json keeps_ctl); eauto|]. intros body.
  unfold _read_json. destruct (_ || _)%bool; [done|].
  destruct (rq_content_length rq) as [l|]; [|intros [= <-]; by apply wf_obj; constructor].
  unfold mbind, Handler_bind, hlift. destruct (py_int l) as [n|]; [|done].
  destruct (_ <? n).
  - destruct (_discard_body rq io) as [[a|x] io']; discriminate.
  - destruct (n =? 0); [apply parse_body_wf|].
    destruct (rfile_read _ io) as [[raw|x] io']; [apply parse_body_wf|done].
Qed.

Lemma effect_dispatch rounds rq io :
  rq_method rq = GET ∨ rq_method rq = POST →
  effect (sv_token (io_server io)) rq io (_dispatch rounds rq io).2.
Proof.
  intros Hm. unfold _dispatch, try_h.
  assert (effect (sv_token (io_server io)) rq io (routed rounds rq io).2) as He.
  { unfold routed, _authorized. case_bool_decide as Ht; simpl.
    - destruct (decide _) as [Hg|Hg].
      + unfold get_route. destruct (decide _).
        { apply effect_none. pose proof (call_then health (λ h, _send 200 (PHealth h)) io
            (λ a, keeps_send _)) as [E1 E2]. by split. }
        destruct (decide _); [apply effect_none, keeps_stream|].
        destruct (_TASK_PATH _) as [t|] eqn:E; [|by apply effect_none].
        apply (effect_call _ _ (RView t)); [|done|intros c; apply serve_state|answered_by keeps_send].
        split; [done|]. left. eauto.
      + destruct (effect_read_json rq io) as [Hk Hw]. cbv zeta in Hk, Hw. unfold mbind, Handler_bind.
        destruct (_read_json rq io) as [[body|x] io1]; [|by apply effect_none].
        simpl in *. destruct Hm as [|Hm]; [done|].
        destruct (effect_post (sv_token (io_server io)) rq body io1 Ht Hm (Hw _ eq_refl)) as [Et Ec].
        destruct Hk as [Kc Kt]. split; [congruence|]. by rewrite Kc in Ec.
    - apply effect_none. unfold mbind, Handler_bind.
      pose proof (runs_discard_body keeps_ctl ltac:(eauto) ltac:(eauto) ltac:(eauto) rq io) as Hk.
      by destruct (_discard_body rq io) as [[[]|] io1]. }
  destruct (routed rounds rq io) as [[[]|x] io1]; [done|]. simpl in *.
  destruct (on_error x) as [k|] eqn:Ex; [|done].
  assert (runs keeps_ctl k) as Hk.
  { eapply (runs_on_error keeps_ctl) with (says := λ _, True); eauto. }
  destruct (Hk io1) as [Kc Kt]. destruct He as [Et Ec]. split; [congruence|]. by rewrite Kc.
Qed.

Lemma effect_handle rounds rq io :
  effect (sv_token (io_server io)) rq io (handle rounds rq io).2.
Proof.
  unfold handle. destruct (rq_method rq) eqn:Em;
    [apply effect_dispatch; by left|apply effect_dispatch; by right|apply effect_none, keeps_send..].
Qed.

(** Requests one after the other, each with its connection. *)
Fixpoint serve_http (l : list (Conn * list Round * HttpRequest)) (s : Server) : Server :=
  match l with
  | [] => s
  | (conn, rounds, rq) :: l => serve_http l (io_server (handle rounds rq (mkIo conn s)).2)
  end.

(** C6: the HTTP front adds nothing to the controller: any sequence of HTTP
    requests, on any connections, acts on it as a sequence of controller
    requests, at most one for each, every one of them asked for by an HTTP
    request that carried the token; so the journal stays sound and its history
    is only extended. *)
Theorem http_serves_the_controller l s :
  ∃ rs, (length rs ≤ length l)%nat ∧ sv_ctl (serve_http l s) = serve_all rs (sv_ctl s)
        ∧ Forall (λ r, ∃ x, x ∈ l ∧ asks (sv_token s) x.2 r) rs
        ∧ (WorldWf → file_ok (c_file (sv_ctl s)) →
           grows (sv_ctl s) (sv_ctl (serve_http l s)) ∧ file_ok (c_file (sv_ctl (serve_http l s)))).
Proof.
  assert (∃ rs, (length rs ≤ length l)%nat ∧ sv_ctl (serve_http l s) = serve_all rs (sv_ctl s)
    ∧ Forall (λ r, ∃ x, x ∈ l ∧ asks (sv_token s) x.2 r) rs ∧ Forall request_wf rs) as (rs & Hl & E & Ha & Hw).
  { revert s. induction l as [|[[conn rounds] rq] l IH]; intros s; [by exists []|]. cbn [serve_http].
    pose proof (effect_handle rounds rq (mkIo conn s)) as [Et Ec]. simpl in Et, Ec.
    destruct (IH (io_server (handle rounds rq (mkIo conn s)).2)) as (rs & Hl & E & Ha & Hw).
    rewrite Et in Ha.
    assert (Forall (λ r, ∃ x, x ∈ (conn, rounds, rq) :: l ∧ asks (sv_token s) x.2 r) rs) as Ha'.
    { eapply Forall_impl; [exact Ha|]. intros r (x & ? & ?). exists x. split; [by right|done]. }
    destruct Ec as [Ec|(r & Hr & Hrw & Ec)].
    - exists rs. rewrite E, Ec. split_and!; [simpl; lia|done..].
    - exists (r :: rs). rewrite E, Ec. split_and!; [simpl; lia|done| |by constructor].
      constructor; [|done]. eexists. split; [by left|done]. }
  exists rs. split_and!; [done..|]. intros HW Hf. rewrite E.
  pose proof (serve_all_grows rs (sv_ctl s) HW Hw Hf) as Hg. split; [done|by eapply grows_ok].
Qed.

End served.

(** ** Connections that stay open *)

(** No byte is read, and a closing connection stays closing. *)
Definition steady (a b : Io) : Prop :=
  cn_in (io_conn b) = cn_in (io_conn a) ∧ (cn_close (io_conn a) = true → cn_close (io_conn b) = true).

Lemma steady_refl a : steady a a.
Proof. done. Qed.
Lemma steady_trans a b c : steady a b → steady b c → steady a c.
Proof. intros [] []. split; [congruence|auto]. Qed.

Section in_step.
Context `{UnicodeDigits} `{PyPlatform} `{World}.

Lemma steady_send x : runs steady (send x).
Proof. intros io. unfold send. by destruct (cn_peer _ _). Qed.

Lemma steady_close : runs steady close_connection.
Proof. by intros io. Qed.

Lemma steady_call {A B} (m : C A) (k : A → Handler B) :
  (∀ a, runs steady (k a)) → runs steady (call m ≫= k).
Proof.
  intros Hk. apply runs_bind; [apply steady_trans| |done]. intros io. unfold call.
  by destruct (m _) as [r c].
Qed.

Lemma steady_post path body : runs steady (post_route path body).
Proof.
  unfold post_route.
  repeat (destruct (decide _); [first
    [ apply steady_call; answered_by steady_send
    | apply runs_bind; [apply steady_trans|apply steady_send|]; intros _;
      apply runs_bind; [apply steady_trans|apply steady_close|]; by intros _ ? ]|]).
  destruct (_CANCEL_PATH _); [|destruct (_RESOLVE_PATH _)].
  1, 2: apply steady_call; answered_by steady_send.
  by intros io.
Qed.

Lemma steady_error x k : on_error x = Some k → runs steady k.
Proof.
  assert (runs steady (if disconnected x then close_connection
    else try_h (_send 500 (PError "internal")) (λ y, if is_os_error y then Some close_connection else None))) as Hd.
  { destruct (disconnected x); [apply steady_close|].
    apply runs_try; [apply steady_trans|apply steady_send|].
    intros y k'. destruct (is_os_error y); [|done]. intros [= <-]. apply steady_close. }
  unfold on_error. destruct (exn_cls x); try done; intros [= <-]; try exact Hd. apply steady_send.
Qed.

Lemma read_in n io : cn_in (io_conn (rfile_read n io).2) = (split_at n (cn_in (io_conn io))).2.
Proof.
  unfold rfile_read. destruct (split_at n _) as [d rest].
  destruct (_ <? n)%nat; [by destruct (cn_end _)|done].
Qed.

(** The body was read, or the connection is closing. *)
Definition body_read (rq : HttpRequest) (a b : Io) : Prop :=
  cn_close (io_conn b) = true
  ∨ ∃ l n, rq_content_length rq = Some l ∧ py_int l = Ok n ∧ n ≤ MAX_BODY_BYTES
           ∧ present (rq_transfer_encoding rq) = false
           ∧ cn_in (io_conn b) = (split_at (Z.to_nat n) (cn_in (io_conn a))).2.

Lemma body_read_steady rq a b c : body_read rq a b → steady b c → body_read rq a c.
Proof.
  intros [Hc|(l & n & ? & ? & ? & ? & E)] [Ei Hi]; [left; auto|right]. exists l, n. by rewrite Ei.
Qed.

Lemma read_json_in_step rq io :
  (∀ l, rq_content_length rq = Some l → isdigit l = true → is_ok (py_int l) = true) →
  body_read rq io (_read_json rq io).2.
Proof.
  intros Hint. unfold _read_json, body_read. destruct (present _) eqn:Ep; [by left|]. cbn [orb].
  destruct (rq_content_length rq) as [l|] eqn:El; [|by left].
  destruct (isdigit l) eqn:Ed; [|by left]. cbn [negb].
  specialize (Hint l eq_refl Ed). unfold mbind, Handler_bind, hlift.
  destruct (py_int l) as [n|] eqn:En; [|done]. destruct (_ <? n) eqn:Em; bool_hyps.
  - left. pose proof (discard_closes rq io) as Hc. by destruct (_discard_body rq io) as [[a|x] io'].
  - right. exists l, n. split_and!; [done..|lia|done|]. destruct (Z.eqb_spec n 0) as [->|].
    + simpl. by destruct (cn_in (io_conn io)).
    + pose proof (read_in (Z.to_nat n) io) as Hr. by destruct (rfile_read _ io) as [[raw|x] io'].
Qed.

(** Unread bytes are never taken for the next request: when a POST leaves
    its connection open, its Content-Length was a number, no transfer coding
    was sent, and exactly the announced bytes (fewer if the client sent no
    more) have been read - whatever the token, the path and the controller's
    answer, and whether or not the answer could be written.  This holds where
    [int] can read what [isdigit] accepts. *)
Theorem open_connections_stay_in_step rounds rq io :
  rq_method rq = POST →
  (∀ l, rq_content_length rq = Some l → isdigit l = true → is_ok (py_int l) = true) →
  body_read rq io (handle rounds rq io).2.
Proof.
  intros Hm Hint. unfold handle. rewrite Hm. unfold _dispatch, try_h.
  assert (body_read rq io (routed rounds rq io).2) as Hr.
  { unfold routed. destruct (negb _).
    - left. pose proof (discard_closes rq io) as Hc. unfold mbind, Handler_bind.
      by destruct (_discard_body rq io) as [[a|x] io'].
    - rewrite decide_False by (by rewrite Hm). pose proof (read_json_in_step rq io Hint) as Hb.
      unfold mbind, Handler_bind. destruct (_read_json rq io) as [[body|x] io']; [|done].
      eapply body_read_steady; [exact Hb|apply steady_post]. }
  destruct (routed rounds rq io) as [[u|x] io']; [done|].
  destruct (on_error x) as [k|] eqn:E; [|done].
  eapply body_read_steady; [exact Hr|by eapply steady_error].
Qed.

End in_step.
