(* ===== verification/EventStream.v ===== *)
(** * What an event stream delivers

    Theorems about [GET /v1/events]: across rounds in which the journal grows,
    every event after the resumption point is sent, once, in order. *)

From S2P Require Import Prelude PyText Json Sha256 Events StateMachine Lifecycle History Projection Replay Journal Ledger Verification Controller Service Http.

(** ** Rows after a sequence number *)

Lemma contiguous_filter es p q : contiguous p es →
  filter (λ r, q < r_seq r ∧ (@None string = None ∨ r_task_id r = None)) (map event_row es)
  = map event_row (drop (Z.to_nat (q - p)) es).
Proof.
  revert p. induction es as [|e es IH]; intros p Hc; [by rewrite drop_nil|].
  destruct Hc as [Hs Hc]. cbn [map]. rewrite filter_cons. specialize (IH _ Hc).
  assert (r_seq (event_row e) = p + 1) as Er by (simpl; by rewrite Hs).
  case_decide as Hd; rewrite Er in Hd.
  - assert (Z.to_nat (q - p) = 0%nat) as E by lia. rewrite E. cbn [drop map]. f_equal.
    rewrite IH. by replace (Z.to_nat (q - (p + 1))) with 0%nat by lia.
  - assert (p + 1 ≤ q) as Hq by (destruct (Z.le_gt_cases (p + 1) q); [done|]; exfalso; apply Hd; split; [lia|by left]).
    replace (Z.to_nat (q - p)) with (S (Z.to_nat (q - (p + 1)))) by lia. cbn [drop]. exact IH.
Qed.

Section stream.
Context `{PyPlatform}.

Lemma events_from db es m p :
  Recorded db es m → events db (Z.of_nat p) None = map Ok (drop p es).
Proof.
  intros Hr. unfold events. rewrite (rc_rows _ _ _ Hr), (contiguous_filter es 0) by apply Hr.
  replace (Z.to_nat (Z.of_nat p - 0)) with p by lia.
  apply map_from_row. apply Forall_drop. by eapply recorded_stored.
Qed.

Lemma readable_ok es : readable (map Ok es) = Ok es.
Proof. induction es as [|e es IH]; [done|]. cbn [map readable]. by rewrite IH. Qed.

Lemma batch_of c db es m p limit :
  c_file c = Some db → Recorded db es m → Z.of_nat p ≤ int64_max →
  (events_after (Z.of_nat p) limit c).1 = Ok (take limit (drop p es)).
Proof.
  intros Hf Hr Hp. unfold events_after, get, mbind, C_bind. rewrite Hf. unfold lift.
  assert (sql_int_ok (Z.of_nat p) = true) as -> by (unfold sql_int_ok, int64_max in *; lia).
  simpl. by rewrite (events_from _ _ _ _ Hr), firstn_map, readable_ok.
Qed.

Lemma batch_last es p n :
  contiguous 0 es → take n (drop p es) ≠ [] →
  last_seq (Z.of_nat p) (take n (drop p es)) = Z.of_nat (p + length (take n (drop p es))).
Proof.
  intros Hc Hb. unfold last_seq. destruct (last (take n (drop p es))) as [e|] eqn:El;
    [|by apply last_None in El].
  assert (contiguous (Z.of_nat p) (take n (drop p es))) as Hc'.
  { rewrite <- (take_drop p es) in Hc. apply contiguous_app in Hc as [_ Hc].
    assert (0 + Z.of_nat (length (take p es)) = Z.of_nat p) as E.
    { rewrite length_take. assert (p < length es)%nat; [|lia].
      destruct (Nat.lt_ge_cases p (length es)); [done|]. rewrite drop_ge in Hb by done. by rewrite take_nil in Hb. }
    rewrite E in Hc. rewrite <- (take_drop n (drop p es)) in Hc. by apply contiguous_app in Hc as [Hc _]. }
  rewrite (contiguous_last _ _ _ Hc' El). simpl. lia.
Qed.

(** ** The loop *)

Definition frame_of (x : Sent) : option Event := match x with Frame e => Some e | _ => None end.
Definition frames (io : Io) : list Event := omap frame_of (cn_out (io_conn io)).

(** Nothing fails on the wire. *)
Definition connected (io : Io) : Prop := ∀ n, cn_peer (io_conn io) n = None.

(** [m] returns, keeps the connection and the server, and sends [es]. *)
Definition delivers {A} (m : Handler A) (io : Io) (es : list Event) : Prop :=
  is_ok (m io).1 = true ∧ connected (m io).2 ∧ io_server (m io).2 = io_server io
  ∧ frames (m io).2 = frames io ++ es.

Lemma delivers_send x io :
  connected io → delivers (send x) io (match frame_of x with Some e => [e] | None => [] end).
Proof.
  intros Hc. unfold delivers, send. rewrite (Hc _). split_and!; [done|exact Hc|done|].
  unfold frames. simpl. rewrite omap_app. simpl. by destruct (frame_of x).
Qed.

Lemma delivers_ret {A} (a : A) io : connected io → delivers (mret a) io [].
Proof. intros Hc. split_and!; [done..|]. simpl. by rewrite app_nil_r. Qed.

Lemma delivers_bind {A B} (m : Handler A) (f : A → Handler B) io l1 l2 :
  delivers m io l1 → (∀ a, delivers (f a) (m io).2 l2) → delivers (m ≫= f) io (l1 ++ l2).
Proof.
  intros (Ho & Hc & Hs & Hf) Hn. unfold delivers, mbind, Handler_bind.
  destruct (m io) as [[a|x] io1]; [|done]. destruct (Hn a) as (Ho2 & Hc2 & Hs2 & Hf2). simpl in *.
  split_and!; [done|done|congruence|]. by rewrite Hf2, Hf, app_assoc.
Qed.

Lemma hlift_bind {A B} (a : A) (f : A → Handler B) : (hlift (Ok a) ≫= f) = f a.
Proof. done. Qed.

Lemma delivers_frames l io : connected io → delivers (write_frames l) io l.
Proof.
  revert io. induction l as [|e l IH]; intros io Hc; [by apply delivers_ret|].
  apply (delivers_bind _ _ _ [e] l); [by apply (delivers_send (Frame e))|]. intros _.
  apply IH. by apply (delivers_send (Frame e)).
Qed.

(** The journal of a round, no stop flag set. *)
Definition shows (r : Round) (es : list Event) : Prop :=
  rd_stopping r = false ∧ c_stopping (rd_ctl r) = false
  ∧ ∃ db m, c_file (rd_ctl r) = Some db ∧ Recorded db es m.

Lemma take_batch {A} (h final : list A) p n :
  h `prefix_of` final → let batch := take n (drop p h) in take (length batch) (drop p final) = batch.
Proof.
  intros [x ->]. cbv zeta. destruct (Nat.le_gt_cases (length h) p).
  - by rewrite (drop_ge h), take_nil.
  - rewrite drop_app_le by lia. rewrite <- (take_drop n (drop p h)) at 2.
    by rewrite <- app_assoc, take_app_length.
Qed.

(** A round in which the stream is idle sends no event. *)
Lemma idle_round (cu : bool) (idle : Z) (next : Z → Handler unit) io es :
  connected io → (∀ i io', connected io' → delivers (next i) io' es) →
  delivers ((if cu then mret tt else send Padding);;
            if SSE_KEEPALIVE_S <=? idle + 1 then send Keepalive;; next 0 else next (idle + 1)) io es.
Proof.
  intros Hc Hn.
  assert (delivers (if cu then mret tt else send Padding) io []) as Hpad.
  { destruct cu; [by apply delivers_ret|by apply (delivers_send Padding)]. }
  apply (delivers_bind _ _ _ [] _ Hpad). intros _. destruct Hpad as (_ & Hc1 & _).
  destruct (SSE_KEEPALIVE_S <=? idle + 1); [|by apply Hn].
  pose proof (delivers_send Keepalive _ Hc1) as Hk.
  apply (delivers_bind _ _ _ [] _ Hk). intros _. apply Hn, Hk.
Qed.

(** [n] events are sent: all that were there in the first round, 500 a round,
    and never more than are there in the end. *)
Lemma pump_delivers rounds hs final es p :
  Forall2 shows rounds hs → Forall (λ h, es `prefix_of` h ∧ h `prefix_of` final) hs →
  Z.of_nat p ≤ int64_max →
  ∃ n, (min (EVENT_BATCH * length rounds) (length es - p) ≤ n)%nat
       ∧ ∀ idle cu io, connected io → delivers (pump rounds (Z.of_nat p) idle cu) io (take n (drop p final)).
Proof.
  intros Hr. revert p. induction Hr as [|r h rounds hs Hsh Hr IH]; intros p Hp Hle.
  { exists 0%nat. split; [rewrite Nat.mul_0_r; lia|]. intros idle cu io Hc. by apply delivers_ret. }
  apply Forall_cons in Hp as [[Hes Hfin] Hp]. destruct Hsh as (Hs1 & Hs2 & db & m & Hf & Hrec).
  pose proof (take_batch h final p EVENT_BATCH Hfin) as Hbatch. cbv zeta in Hbatch.
  pose proof (batch_of _ _ _ _ _ EVENT_BATCH Hf Hrec Hle) as Hread.
  pose proof (batch_last h p EVENT_BATCH (rc_contig _ _ _ Hrec)) as Hlast.
  pose proof (prefix_length _ _ Hes) as Hlh.
  assert (length (take EVENT_BATCH (drop p h)) = min EVENT_BATCH (length h - p)) as Hlen
    by (by rewrite length_take, length_drop).
  revert Hbatch Hread Hlast Hlen. generalize (take EVENT_BATCH (drop p h)) as batch. intros batch ????.
  cbn [pump]. rewrite Hs1, Hs2, Hread. cbn [orb].
  destruct (decide (batch = [])) as [Eb|Eb].
  - destruct (IH p Hp Hle) as (n & _ & Hd). exists n. split.
    { rewrite Eb in Hlen. cbn [length] in Hlen |- *. unfold EVENT_BATCH in *. lia. }
    intros idle cu io Hc. rewrite hlift_bind, decide_True, Eb by done.
    apply (idle_round cu idle (λ i, pump rounds (Z.of_nat p) i true) io _ Hc). auto.
  - assert (length batch ≠ 0%nat) as Hb by (by destruct batch).
    assert (Z.of_nat (p + length batch) ≤ int64_max) as Hle' by (pose proof (rc_length _ _ _ Hrec); lia).
    destruct (IH (p + length batch)%nat Hp Hle') as (n & Hn & Hd).
    exists (length batch + n)%nat. split; [cbn [length]; unfold EVENT_BATCH in *; lia|].
    intros idle cu io Hc. rewrite <- take_take_drop, Hbatch, drop_drop, hlift_bind, decide_False by done.
    pose proof (delivers_frames batch io Hc) as Hfr. apply (delivers_bind _ _ _ _ _ Hfr). intros _.
    rewrite Hlast by done. apply Hd, Hfr.
Qed.

(** ** A whole request *)

Lemma delivers_try {A} (m : Handler A) h io l : delivers m io l → delivers (try_h m h) io l.
Proof. unfold delivers, try_h. by destruct (m io) as [[a|x] io1]; intros (? & ? & ? & ?). Qed.

Lemma delivers_close io : connected io → delivers close_connection io [].
Proof. intros Hc. split_and!; [done|exact Hc|done|]. by rewrite app_nil_r. Qed.

Lemma pump_events_delivers rounds p io l :
  connected io → (∀ idle cu io', connected io' → delivers (pump rounds p idle cu) io' l) →
  delivers (_pump_events rounds p) io l.
Proof.
  intros Hc Hp. pose proof (delivers_send StreamHead io Hc) as Hhead.
  apply (delivers_bind _ _ _ [] _ Hhead). intros _.
  pose proof (delivers_close _ (proj1 (proj2 Hhead))) as Hclose.
  apply (delivers_bind _ _ _ [] _ Hclose). intros _. apply delivers_try, Hp, Hclose.
Qed.

(** The slot taken for the stream is given back. *)
Lemma slot_delivers (m : Handler unit) io l :
  (∀ io', connected io' → delivers m io' l) → connected io → sv_streams (io_server io) ≠ 0%nat →
  delivers (on_server (set_streams pred);; finally m (on_server (set_streams S))) io l.
Proof.
  intros Hm Hc Hs. unfold delivers, mbind, Handler_bind. cbn.
  destruct (Hm (mkIo (io_conn io) (set_streams pred (io_server io))) Hc) as (Hok & Hc1 & Hs1 & Hf).
  unfold finally. destruct (m _) as [r io1]. simpl in *. split_and!; [done|exact Hc1| |exact Hf].
  rewrite Hs1. destruct io as [c [t ctl k st]]. unfold set_streams. simpl in *. f_equal. lia.
Qed.

Section request.
Context `{UnicodeDigits} `{World}.

(** C10: an event stream delivers: a client that sends the token and the last
    sequence number [p] it has seen is sent exactly the events after it, in
    order, each once, across rounds in which the journal only grows - a run of
    the journal without a gap, containing every event that was there in the
    first round once the rounds suffice at 500 a round - and gives its stream
    slot back at the end. *)
Theorem event_streams_deliver rounds hs es final rq io p :
  _authorized rq (io_server io) = true → rq_method rq = GET → rq_path rq = "/v1/events" →
  let raw := py_strip (or_str (rq_last_event_id rq) (default "0" (rq_after rq))) in
  isdigit raw = true → py_int raw = Ok (Z.of_nat p) → Z.of_nat p ≤ int64_max →
  sv_streams (io_server io) ≠ 0%nat → connected io →
  Forall2 shows rounds hs → Forall (λ h, es `prefix_of` h ∧ h `prefix_of` final) hs →
  let io' := (handle rounds rq io).2 in
  io_server io' = io_server io
  ∧ ∃ n, frames io' = frames io ++ take n (drop p final)
         ∧ (min (EVENT_BATCH * length rounds) (length es - p) ≤ n)%nat.
Proof.
  intros Ha Hm Hpath raw Hd Hi Hle Hst Hc Hr Hp. cbv zeta.
  destruct (pump_delivers rounds hs final es p Hr Hp Hle) as (n & Hn & Hdel).
  assert (delivers (handle rounds rq) io (take n (drop p final))) as (_ & _ & Hs & Hf); [|by eauto].
  unfold handle. rewrite Hm. apply delivers_try.
  assert (routed rounds rq io = (on_server (set_streams pred);;
    finally (_pump_events rounds (Z.of_nat p)) (on_server (set_streams S))) io) as E.
  { unfold routed, get_route. rewrite Ha, Hm, Hpath. cbn [negb].
    rewrite decide_True, decide_False, decide_True by done. unfold _stream_events. fold raw. cbv zeta.
    rewrite Hd, Hi. cbn [negb]. rewrite hlift_bind. unfold free_streams, mbind at 1, Handler_bind at 1.
    by rewrite decide_False. }
  unfold delivers. rewrite E. apply slot_delivers; [|done..]. intros io' Hc'.
  by apply pump_events_delivers.
Qed.
End request.

End stream.
