(* ===== verification/Serve.v ===== *)
(** * The controller process

    [courier_core/serve.py], the process around the HTTP front: the lock on
    the home directory, the API token file, and the start and stop of a
    service.  One process's view of a home is a [Site]. *)

From Stdlib Require Import Ascii.
From S2P Require Import Prelude PyText AsciiText Json Sha256 Events StateMachine Lifecycle History Projection Replay Journal Ledger Verification Controller Service Http.

(** What reading the token file yields: no file, text (newlines translated),
    bytes that are not UTF-8, or an operating-system error. *)
Inductive TokenFile := Missing | Text (s : string) | Undecodable | Unreadable.

(** A home: who holds the lock file, the token file, the controller on it. *)
Record Site := mkSite { st_lock : option nat; st_token : TokenFile; st_ctl : Ctl }.

Definition set_lock (s : Site) (holder : option nat) : Site := mkSite holder (st_token s) (st_ctl s).
Definition set_ctl (s : Site) (c : Ctl) : Site := mkSite (st_lock s) (st_token s) c.

(** [HomeLock.acquire] by process [me], without waiting. *)
Definition acquire (me : nat) (s : Site) : bool * Site :=
  match st_lock s with
  | Some _ => (false, s)
  | None => (true, set_lock s (Some me))
  end.

(** [HomeLock.release]; [held] is whether this object took the lock. *)
Definition release (held : bool) (s : Site) : Site := if held then set_lock s None else s.

(** [fresh] is what [secrets.token_urlsafe(32)] answers; the write succeeds. *)
Definition load_or_create_token (file : TokenFile) (fresh : string) : result string * TokenFile :=
  let created := (Ok fresh, Text (fresh +:+ String LF "")) in
  match file with
  | Text s => if 32 <=? py_len (py_strip s) then (Ok (py_strip s), file) else created
  | Missing => created
  | Undecodable => (raise ValueError "invalid start byte", file)
  | Unreadable => (raise OSError "cannot read", file)
  end.

Section serve.
Context `{PyPlatform} `{World}.

(** [except BaseException] of [Service.__init__] once the controller is up:
    stop it, free the lock, raise on. *)
Definition undo_init (x : exn) (s : Site) : result Server * Site :=
  match stop (st_ctl s) with
  | (Ok _, c) => (Err x, release true (set_ctl s c))
  | (Err y, c) => (Err y, set_ctl s c)
  end.

(** [Service.__init__] in process [me]; [bound] is the outcome of binding the port. *)
Definition init (me : nat) (fresh : string) (bound : result unit) (s : Site) : result Server * Site :=
  match acquire me s with
  | (false, s) => (raise SystemExit "another Courier controller already owns the home", s)
  | (true, s) =>
      match boot (st_ctl s) with
      | (Err x, c) => (Err x, release true (set_ctl s c))
      | (Ok _, c) =>
          match load_or_create_token (st_token s) fresh with
          | (Err x, file) => undo_init x (mkSite (st_lock s) file c)
          | (Ok token, file) =>
              let s := mkSite (st_lock s) file c in
              match bound with
              | Err x => undo_init x s
              | Ok _ => (Ok (mkServer token c MAX_EVENT_STREAMS false), s)
              end
          end
      end
  end.

(** A running service: its server and the flag [_stopped]. *)
Record Running := mkRunning { rn_server : Server; rn_stopped : bool }.

Definition request_stop (r : Running) : Running :=
  mkRunning (set_stop (rn_server r)) (rn_stopped r).

(** [Service.shutdown]; the controller is the server's. *)
Definition shutdown (r : Running) (s : Site) : result unit * Running * Site :=
  if rn_stopped r then (Ok tt, r, s)
  else
    let sv := set_stop (rn_server r) in
    match stop (sv_ctl sv) with
    | (Err x, c) =>
        (Err x, mkRunning (mkServer (sv_token sv) c (sv_streams sv) true) true, set_ctl s c)
    | (Ok _, c) =>
        (Ok tt, mkRunning (mkServer (sv_token sv) c (sv_streams sv) true) true, release true (set_ctl s c))
    end.

(** The argument checks of [main]. *)
Definition check_args (home : option string) (port : Z) : result string :=
  match home with
  | None | Some "" => raise SystemExit "--home or COURIER_HOME is required"
  | Some h => if (0 <=? port) && (port <=? 65535) then Ok h
              else raise SystemExit "--port must be between 0 and 65535"
  end.

(** ** Tokens *)

(** What [secrets.token_urlsafe] is made of. *)
Definition urlsafe (a : ascii) : bool :=
  (is_digit a || (65 <=? code a) && (code a <=? 90) || (97 <=? code a) && (code a <=? 122)
   || (code a =? 95) || (code a =? 45))%bool.

Definition urlsafe_token (t : string) : Prop :=
  (32 ≤ String.length t)%nat ∧ Forall (λ a, urlsafe a = true) (String.list_ascii_of_string t).

Lemma urlsafe_char a : urlsafe a = true → code a < 128 ∧ blank_char a = false.
Proof.
  destruct a as [b0 b1 b2 b3 b4 b5 b6 b7].
  destruct b0, b1, b2, b3, b4, b5, b6, b7; vm_compute; try (intros; discriminate); done.
Qed.

Lemma urlsafe_ascii t : urlsafe_token t → is_ascii t = true.
Proof.
  intros [_ Hu]. unfold is_ascii. apply forallb_forall. intros a Ha%list_elem_of_In.
  rewrite Forall_forall in Hu. apply Z.ltb_lt. by apply urlsafe_char, Hu.
Qed.

(** The line break after a token is all that [strip] takes away. *)
Lemma strip_token t : urlsafe_token t → py_strip (t +:+ String LF "") = t.
Proof.
  intros Ht. pose proof (urlsafe_ascii t Ht) as Ha. destruct Ht as [Hlen Hu].
  rewrite py_strip_ascii by (by rewrite is_ascii_app, Ha). rewrite list_ascii_app.
  rewrite <- (String.string_of_list_ascii_of_string t) at 2. f_equal. clear Ha.
  assert (∀ l, Forall (λ a, urlsafe a = true) l → drop_while blank_char l = l) as Hd.
  { intros [|a l]; [done|]. intros [H1 _]%Forall_cons. simpl. by rewrite (proj2 (urlsafe_char a H1)). }
  unfold strip_list. assert (String.list_ascii_of_string t ≠ []) as Hne by (by destruct t; [simpl in Hlen; lia|]).
  assert (drop_while blank_char (String.list_ascii_of_string t ++ [LF]) = String.list_ascii_of_string t ++ [LF]) as E.
  { destruct (String.list_ascii_of_string t) as [|a l]; [done|]. apply Forall_cons in Hu as [H1 _].
    simpl. by rewrite (proj2 (urlsafe_char a H1)). }
  change (String.list_ascii_of_string (String LF "")) with [LF]. rewrite E, rev_app_distr.
  cbn [rev app drop_while]. replace (blank_char LF) with true by done.
  by rewrite Hd, rev_involutive by (by apply Forall_rev).
Qed.

Lemma py_len_token t : urlsafe_token t → 32 ≤ py_len t.
Proof.
  intros [Hlen Hu]. assert (py_len t = Z.of_nat (String.length t)) as ->; [|lia]. clear Hlen.
  induction t as [|a t IH]; [done|]. cbn [String.list_ascii_of_string] in Hu.
  apply Forall_cons in Hu as [Ha Hu]. cbn [py_len String.length]. rewrite IH by done.
  pose proof (proj1 (urlsafe_char a Ha)) as Hc. unfold is_cont in *.
  destruct (128 <=? code a) eqn:E; simpl; lia.
Qed.

(** The API token outlives the process: whatever the token file holds,
    loading either fails, leaving the file as it was, or yields a token of at
    least 32 characters that every later load, with whatever fresh randomness,
    yields again. *)
Theorem token_survives_restarts file fresh fresh' :
  urlsafe_token fresh →
  match load_or_create_token file fresh with
  | (Ok token, file') => 32 ≤ py_len token ∧ load_or_create_token file' fresh' = (Ok token, file')
  | (Err _, file') => file' = file ∧ (file = Undecodable ∨ file = Unreadable)
  end.
Proof.
  intros Hf. pose proof (strip_token _ Hf) as Hs. pose proof (py_len_token _ Hf) as Hl.
  assert (load_or_create_token (Text (fresh +:+ String LF "")) fresh'
          = (Ok fresh, Text (fresh +:+ String LF ""))) as Hc.
  { unfold load_or_create_token. rewrite Hs. by rewrite (proj2 (Z.leb_le _ _) Hl). }
  destruct file as [|s| |]; cbn [load_or_create_token]; [by split| |by split; [|left]|by split; [|right]].
  destruct (32 <=? py_len (py_strip s)) eqn:E; [|by split].
  split; [lia|]. cbn [load_or_create_token]. by rewrite E.
Qed.

(** ** Start and stop *)

Lemma stop_closes c : is_ok (stop c).1 = true → c_journal (stop c).2 = None.
Proof.
  unfold stop, modify, get, mbind, C_bind. cbn [c_journal set_stopping].
  destruct (c_journal c) as [ro|] eqn:Ej; [|done].
  by destruct (try_except _ _ _) as [[u|x] c'].
Qed.

(** C37: a service either runs alone or leaves its home free, as long as its
    controller can be stopped: where another process holds the lock, a start
    raises and touches neither the token file nor the controller and its
    journal; a start that returns holds the lock and serves with a token of at
    least 32 characters; a start that fails later gives the lock back; and the
    shutdown of a running service, done once, closes the journal and gives the
    lock back too.  Where stopping the booted controller raises, the failed
    start, and the shutdown, raise that exception and keep the lock. *)
Theorem service_start_is_all_or_nothing me fresh bound s :
  urlsafe_token fresh →
  match init me fresh bound s with
  | (Ok sv, s') =>
      st_lock s = None ∧ st_lock s' = Some me ∧ 32 ≤ py_len (sv_token sv)
      ∧ sv_ctl sv = (boot (st_ctl s)).2 ∧ is_ok bound = true
      ∧ ∀ r, rn_server r = sv → rn_stopped r = false →
          let '(res, r', s'') := shutdown r s' in
          res = (stop (sv_ctl sv)).1
          ∧ (is_ok res = true → st_lock s'' = None ∧ c_journal (st_ctl s'') = None)
          ∧ (is_ok res = false → st_lock s'' = Some me)
          ∧ shutdown r' s'' = (Ok tt, r', s'')
  | (Err x, s') =>
      match st_lock s with
      | Some _ => s' = s
      | None =>
          st_lock s' = None ∨
          st_lock s' = Some me ∧ is_ok (boot (st_ctl s)).1 = true ∧ (stop (boot (st_ctl s)).2).1 = Err x
      end
  end.
Proof.
  intros Hf. unfold init, acquire. destruct (st_lock s) as [other|] eqn:El; [done|].
  cbn [set_lock st_ctl st_token st_lock].
  destruct (boot (st_ctl s)) as [[u|x] c] eqn:Eb; [|by left]. cbn [fst snd].
  assert (∀ x file, match undo_init x (mkSite (Some me) file c) with
    | (Ok _, _) => False
    | (Err y, s') => st_lock s' = None ∨ st_lock s' = Some me ∧ true = true ∧ (stop c).1 = Err y end) as Hg.
  { intros x file. unfold undo_init. cbn [st_ctl].
    destruct (stop c) as [[v|y] c'] eqn:Es; [by left|by right]. }
  pose proof (token_survives_restarts (st_token s) fresh fresh Hf) as Ht.
  destruct (load_or_create_token (st_token s) fresh) as [[token|x] file].
  2: { specialize (Hg x file). by destruct (undo_init x _) as [[]]. }
  destruct bound as [v|x].
  2: { specialize (Hg x file). by destruct (undo_init x _) as [[]]. }
  split_and!; try done; [apply Ht|]. intros [sv stopped] Hsv Hst. cbn in Hsv, Hst. subst.
  unfold shutdown. simpl. pose proof (stop_closes c) as Hstop.
  destruct (stop c) as [[w|y] c']; simpl in *; [|by split_and!]. split; [by destruct w|]. split_and!; [|done|done].
  intros _. by split; [|apply Hstop].
Qed.

End serve.
