(* ===== verification/Duties.v ===== *)
(** * The controller's background duties and idempotent requests

    Ticks expire every due lease, draining empties the verification queue,
    and a request repeated with its idempotency key repeats nothing. *)

From Stdlib Require Import Ascii.
From S2P Require Import Prelude PyText Json Sha256 Events StateMachine Lifecycle History Projection Replay Journal Ledger Verification Controller Service.

Section duties.
Context `{PyPlatform} `{World}.

(** ** Computations that leave the controller's memory alone *)

Definition same_memory (a b : Ctl) : Prop :=
  c_leases b = c_leases a ∧ c_queue b = c_queue a ∧ c_mode b = c_mode a
  ∧ c_stopping b = c_stopping a ∧ c_last_tick b = c_last_tick a.

Definition calm {A} (m : C A) : Prop := ∀ c, same_memory c (m c).2.

Lemma same_refl c : same_memory c c.
Proof. done. Qed.
Lemma same_trans a b c : same_memory a b → same_memory b c → same_memory a c.
Proof. unfold same_memory. intros (?&?&?&?&?) (?&?&?&?&?). split_and!; congruence. Qed.

Lemma calm_bind {A B} (m : C A) (f : A → C B) : calm m → (∀ a, calm (f a)) → calm (m ≫= f).
Proof.
  intros Hm Hf c. unfold mbind, C_bind. specialize (Hm c). destruct (m c) as [[a|x] c']; [|done].
  eapply same_trans; [exact Hm|apply Hf].
Qed.
Lemma calm_ret {A} (a : A) : calm (mret a).
Proof. by intros c. Qed.
Lemma calm_lift {A} (r : result A) : calm (lift r).
Proof. by intros c. Qed.
Lemma calm_ask {A} (f : nat → A) : calm (ask f).
Proof. by intros c. Qed.
Lemma calm_attr {A} (o : option A) : calm (attr o).
Proof. by destruct o. Qed.
Lemma calm_get : calm get.
Proof. by intros c. Qed.
Lemma calm_read {A} (f : Db → result A) : calm (read f).
Proof.
  intros c. unfold read, the_db, get, mbind, C_bind. simpl.
  by destruct (c_journal c), (c_file c).
Qed.
Lemma calm_locked {A} (m : C A) : calm m → calm (_locked m).
Proof. intros Hm. apply calm_bind; [apply calm_ask|]. intros []; [done|apply calm_lift]. Qed.

Lemma calm_append e : calm (_append e).
Proof.
  apply calm_bind.
  - intros c. unfold append_file. destruct (c_journal c), (c_file c); try done.
    by destruct (append _ e).
  - intros r. apply calm_bind; [|intros; apply calm_ret]. by destruct (ar_duplicate r).
Qed.

Lemma calm_append_ t tid att d w rid p : calm (append_ t tid att d w rid p).
Proof.
  unfold append_, make_event.
  repeat first [apply calm_ask|apply calm_lift|apply calm_append|apply calm_ret|apply calm_bind; [|intros ?]].
Qed.

Lemma calm_complete task : calm (_complete task).
Proof. unfold _complete. apply calm_append_. Qed.

Lemma calm_decide task : calm (_decide task).
Proof.
  unfold _decide, append_task_event. apply calm_bind; [apply calm_lift|].
  intros []; apply calm_append_.
Qed.

#[local] Hint Resolve calm_bind calm_ret calm_lift calm_ask calm_attr calm_get calm_read calm_locked
  calm_append calm_append_ calm_complete calm_decide : courier.

(** ** Ticks *)

Lemma expire_leases l c :
  c_leases (expire_lease l c).2 = del_lease (c_leases c) (l_dispatch_id l)
  ∧ c_last_tick (expire_lease l c).2 = c_last_tick c.
Proof.
  unfold expire_lease.
  match goal with |- context [modify _ ≫= ?f] => set (rest := f tt) end.
  assert (calm rest) as Hc.
  { apply calm_bind; [apply calm_read|]. intros [t|]; [|apply calm_ret].
    destruct (_ || _)%bool; [apply calm_ret|]. apply calm_bind; [apply calm_append_|intros _].
    apply calm_bind; [|intros; apply calm_decide]. apply calm_bind; [apply calm_read|intros; apply calm_attr]. }
  destruct (Hc (set_leases c (del_lease (c_leases c) (l_dispatch_id l)))) as (E1 & _ & _ & _ & E2).
  exact (conj E1 E2).
Qed.

Lemma expire_all ls c c' :
  for_each ls expire_lease c = (Ok tt, c') →
  (∀ l, l ∈ c_leases c' ↔ l ∈ c_leases c ∧ l_dispatch_id l ∉ map l_dispatch_id ls)
  ∧ c_last_tick c' = c_last_tick c.
Proof.
  revert c. induction ls as [|x ls IH]; intros c Hf; cbn [for_each] in Hf.
  - injection Hf as <-. split; [|done]. intros l. simpl. rewrite elem_of_nil. tauto.
  - unfold mbind, C_bind in Hf. destruct (expire_leases x c) as [Hl Ht].
    destruct (expire_lease x c) as [[[]|err] c1]; [|done]. simpl in Hl, Ht.
    destruct (IH c1 Hf) as [Hi Hlt]. split; [|congruence]. intros l. rewrite Hi, Hl.
    unfold del_lease. rewrite list_elem_of_filter. simpl. rewrite elem_of_cons. naive_solver.
Qed.

(** A tick leaves no due lease: when a pass completes, the deadline of
    every lease the controller still holds lies after the pass's time, and the
    pass forgot only leases with the dispatch id of a due one; a pause of more
    than five seconds since the last pass first moves all deadlines by it. *)
Theorem tick_leaves_no_due_lease c c' :
  c_mode c = NORMAL → c_stopping c = false → tick c = (Ok tt, c') →
  let now := w_clock (S (c_calls c)) in
  let leases := c_leases (extend_for_gap now c) in
  Forall (λ l, due now l = false) (c_leases c') ∧ c_last_tick c' = Some now
  ∧ ∀ l, l ∈ leases → due now l = false →
      (∀ l', l' ∈ leases → l_dispatch_id l' = l_dispatch_id l → l' = l) → l ∈ c_leases c'.
Proof.
  intros Hm Hs Ht. cbv zeta. unfold tick, get, mbind, C_bind in Ht. rewrite Hm, Hs in Ht.
  rewrite (bool_decide_eq_true_2 (NORMAL = NORMAL)) in Ht by done. cbn in Ht.
  unfold _locked, ask, mbind, C_bind in Ht. destruct (w_lock (c_calls c)); [|discriminate Ht].
  cbn in Ht. set (now := w_clock (S (c_calls c))) in *.
  assert (∀ a, extend_for_gap now (count_call a) = count_call (extend_for_gap now a)) as Hcc.
  { intros a. unfold extend_for_gap. simpl. destruct (c_last_tick a); [|done]. by destruct (Qle_bool _ _). }
  rewrite !Hcc in Ht. apply expire_all in Ht as [Hi Hlt]. simpl in Hi, Hlt.
  set (ls := c_leases (extend_for_gap now c)) in *. split_and!; [|done|].
  - apply Forall_forall. intros l Hl. apply Hi in Hl as [Hl Hn].
    destruct (due now l) eqn:E; [|done]. exfalso. apply Hn. apply list_elem_of_fmap_2.
    apply list_elem_of_In, filter_In. by rewrite <- list_elem_of_In.
  - intros l Hl Hd Hu. apply Hi. split; [done|]. intros (l' & E & Hl')%list_elem_of_fmap.
    apply list_elem_of_In, filter_In in Hl' as [Hl' Hd']. rewrite <- list_elem_of_In in Hl'.
    rewrite (Hu l' Hl' (eq_sym E)) in Hd'. congruence.
Qed.

(** ** The verification queue *)

(** What [verify_next] does with the id it took. *)
Definition verify_taken (task_id : string) : C bool :=
  work ← _locked (
    found ← read (λ db, task db task_id);
    match found with
    | None => mret (Some None)
    | Some t =>
        if decide (ts_status t = VERIFYING) then
          result ← read (λ db, get_event_by_dedupe_key db
                                 (result_key (ts_dispatch_id t) (ts_pending_result_id t)));
          mret (Some (Some (t, result)))
        else mret (Some None)
    end);
  match work with
  | None => mret false
  | Some None => mret true
  | Some (Some (task, result)) =>
      result ← attr result;
      verify_finish task (run_verifier w_verifier task result);;
      mret true
  end.

Lemma verify_next_cases c :
  verify_next c = match c_queue c with
                  | [] => (Ok false, c)
                  | id :: rest => verify_taken id (set_queue c rest)
                  end.
Proof.
  unfold verify_next, verify_begin, get, modify, mbind, C_bind. by destruct (c_queue c) as [|id rest].
Qed.

Lemma calm_verify_taken id : calm (verify_taken id).
Proof.
  apply calm_bind.
  - apply calm_locked, calm_bind; [apply calm_read|]. intros [t|]; [|apply calm_ret].
    destruct (decide _); [|apply calm_ret]. apply calm_bind; [apply calm_read|intros; apply calm_ret].
  - intros [[[t r]|]|]; [|apply calm_ret..]. apply calm_bind; [apply calm_attr|]. intros e.
    apply calm_bind; [|intros; apply calm_ret]. unfold verify_finish.
    apply calm_locked, calm_bind; [apply calm_get|]. intros c.
    destruct (c_stopping c); [apply calm_ret|].
    assert (calm (read (λ db, task db (ts_task_id t)) ≫= attr)) as Hr
      by (apply calm_bind; [apply calm_read|intros; apply calm_attr]).
    apply calm_bind; [exact Hr|]. intros cur.
    destruct (_ || _)%bool; [apply calm_ret|]. cbv zeta.
    destruct (vt_accepted _); (apply calm_bind; [apply calm_append_|intros _]);
      (apply calm_bind; [exact Hr|intros]); [apply calm_complete|apply calm_decide].
Qed.

Lemma verify_taken_true id c b : (verify_taken id c).1 = Ok b → b = true.
Proof.
  unfold verify_taken. unfold mbind at 1, C_bind at 1.
  match goal with |- context [_locked ?m c] => set (work := m) end.
  assert (∀ w, (_locked work c).1 = Ok w → w ≠ None) as Hw.
  { unfold _locked, ask, mbind, C_bind. destruct (w_lock _); [|done]. unfold work, mbind, C_bind.
    destruct (read _ _) as [[[t|]|] c1]; [|by intros w [= <-]|done].
    destruct (decide _); [|by intros w [= <-]]. destruct (read _ _) as [[found|] c2]; [|done].
    by intros w [= <-]. }
  destruct (_locked work c) as [[w|] c1]; [|done]. specialize (Hw w eq_refl).
  destruct w as [[[t r]|]|]; [|by intros [= <-]|done].
  unfold mbind, C_bind. destruct (attr r c1) as [[ev|] c2]; [|done].
  destruct (verify_finish t _ c2) as [[u|] c3]; [by intros [= <-]|done].
Qed.

(** Draining ends and empties the queue: one more round than there are
    queued results is always enough, so the loop of [drain] terminates, and
    unless a verification raises it leaves the queue empty. *)
Theorem drain_terminates c n :
  (length (c_queue c) < n)%nat →
  drain n c = drain (S (length (c_queue c))) c
  ∧ ((drain n c).1 = Ok tt → c_queue (drain n c).2 = []).
Proof.
  remember (length (c_queue c)) as k eqn:Hk. revert c n Hk.
  induction k as [|k IH]; intros c n Hk Hn; (destruct n as [|n]; [lia|]).
  - cbn [drain]. unfold mbind, C_bind. rewrite verify_next_cases.
    by destruct (c_queue c) eqn:E.
  - assert (∀ f, drain (S f) c = match verify_next c with
              | (Ok more, c') => (if (more : bool) then drain f else mret tt) c'
              | (Err x, c') => (Err x, c') end) as Hstep by done.
    rewrite !Hstep, verify_next_cases. destruct (c_queue c) as [|id rest] eqn:E; [done|].
    pose proof (calm_verify_taken id (set_queue c rest)) as (_ & Hq & _).
    pose proof (verify_taken_true id (set_queue c rest)) as Ht.
    destruct (verify_taken id (set_queue c rest)) as [[b|x] c']; [|done].
    rewrite (Ht b eq_refl). simpl in Hq. simpl in Hk. apply (IH c' n); [congruence|lia].
Qed.

(** A busy controller forgets a result it should verify: when the lock
    cannot be acquired, [verify_next] has already taken the task id from the
    queue, so the task stays in VERIFYING with nothing queued for it until the
    controller is started again. *)
Theorem busy_verification_is_forgotten c task_id rest :
  c_queue c = task_id :: rest → w_lock (c_calls c) = false →
  (verify_next c).1 = raise (ApiError 503 "busy") "busy"
  ∧ c_queue (verify_next c).2 = rest ∧ c_file (verify_next c).2 = c_file c.
Proof.
  intros Hq Hl. rewrite verify_next_cases, Hq. unfold verify_taken, _locked, ask, mbind, C_bind.
  simpl. by rewrite Hl.
Qed.

(** ** Creating a task twice *)

(** The documented form of fresh identifiers and timestamps. *)
Record WorldFresh : Prop := {
  wf_uuid : ∀ n, w_uuid n ≠ "" ∧ py_len (w_uuid n) ≤ MAX_ID_LENGTH;
  wf_now : ∀ n, ends_with "Z" (w_utc_now n) = true;
}.

(** The same event under another id and timestamp. *)
Lemma new_event_again t tid att d w rid payload id ts k e id' ts' :
  json_wf (JObj payload) → new_event t tid att d w rid payload id ts k = Ok e →
  id' ≠ "" → py_len id' ≤ MAX_ID_LENGTH → ends_with "Z" ts' = true →
  ∃ e', new_event t tid att d w rid payload id' ts' k = Ok e'
        ∧ content e' = content e ∧ ev_dedupe_key e' = ev_dedupe_key e
        ∧ ev_task_id e' = ev_task_id e ∧ ev_seq e' = None ∧ ev_hash e' = None
        ∧ ev_seq e = None ∧ ev_hash e = None.
Proof.
  intros Hw Hn Hid Hlen Hts. unfold new_event in *. rewrite post_init_wf in * by done.
  apply bind_Ok in Hn as ([] & Hv & Hn). apply (inj Ok) in Hn as <-.
  match goal with |- context [normalize ?x] => set (e' := normalize x) end.
  assert (validate e' = Ok tt) as ->.
  { unfold validate in Hv. apply bind_Ok in Hv as ([] & H1 & Hv). apply bind_Ok in Hv as ([] & _ & Hv).
    apply bind_Ok in Hv as ([] & _ & Hv). unfold validate. subst e'.
    unfold normalize in *. destruct k as [k|]; cbn [ev_dedupe_key ev_schema_v ev_event_id ev_ts_utc
      set_payload set_dedupe_key] in *; rewrite H1; cbn [mbind result_bind]; unfold _check_id, reject_if;
      rewrite (bool_decide_eq_false_2 (id' = "")), Hts by done;
      rewrite (proj2 (Z.ltb_ge _ _) Hlen); exact Hv. }
  exists e'. split; [done|]. subst e'. unfold normalize. by destruct k.
Qed.

Lemma append_file_Ok c db e r c' :
  c_journal c = Some false → c_file c = Some db → append_file e c = (Ok r, c') →
  ∃ j, append (mkJournal false true db) e = (Ok r, j) ∧ c' = set_file c (Some (j_db j)) (c_journal c).
Proof.
  intros Hj Hf. unfold append_file. rewrite Hj, Hf.
  destruct (append _ e) as [r' j] eqn:Ea. intros [= -> <-]. by exists j.
Qed.

(** Reading from the open journal. *)
Lemma read_db {A} (f : Db → result A) c ro db :
  c_journal c = Some ro → c_file c = Some db → read f c = (f db, c).
Proof. intros Hj Hf. unfold read, the_db, get, mbind, C_bind. by rewrite Hj, Hf. Qed.

Lemma check_dependency_run c db es m d :
  c_journal c = Some false → c_file c = Some db → Sound db es m →
  check_dependency d c = match d with
                         | Some k => match m !! k with
                                     | Some _ => (Ok tt, c)
                                     | None => api 400 "unknown_dependency" c
                                     end
                         | None => (Ok tt, c)
                         end.
Proof.
  intros Hj Hf Hs. destruct d as [k|]; [|done]. unfold check_dependency, mbind, C_bind.
  rewrite (read_db _ c false db Hj Hf), (task_sound db es m k Hs). by destruct (m !! k).
Qed.

Lemma create_locked_unfold d e c :
  create_locked d e c = match check_dependency d c with
    | (Ok _, c1) => try_except (_append e) (λ x, if decide (exn_cls x = DedupeConflict)
                      then Some (api 409 "idempotency_conflict") else None) c1
    | (Err x, c1) => (Err x, c1)
    end.
Proof. done. Qed.

Lemma append_unfold_ctl e c :
  _append e c = match append_file e c with
    | (Ok r, c1) => (Ok r, if ar_duplicate r then c1 else set_head_seq c1 (default 0 (ev_seq (ar_event r))))
    | (Err x, c1) => (Err x, c1)
    end.
Proof.
  unfold _append, mbind, C_bind. destruct (append_file e c) as [[r|x] c1]; [|done].
  by destruct (ar_duplicate r).
Qed.

Lemma create_locked_Ok c db es m d e r c' key :
  c_journal c = Some false → c_file c = Some db → Sound db es m → Valid e →
  ev_seq e = None → ev_hash e = None → ev_dedupe_key e = Some key →
  create_locked d e c = (Ok r, c') →
  c_mode c' = c_mode c ∧ c_stopping c' = c_stopping c ∧ c_journal c' = Some false
  ∧ ∃ db' es' m', c_file c' = Some db' ∧ Sound db' es' m'
      ∧ keyed es' key = Some (ar_event r) ∧ content (ar_event r) = content e
      ∧ match d with Some k => is_Some (m' !! k) | None => True end.
Proof.
  intros Hj Hf Hs Hv Hq Hh Hk Hc. rewrite create_locked_unfold in Hc.
  rewrite (check_dependency_run c db es m d) in Hc by done.
  assert (match d with Some k => is_Some (m !! k) | None => True end
          ∧ try_except (_append e) (λ x, if decide (exn_cls x = DedupeConflict)
                      then Some (api 409 "idempotency_conflict") else None) c = (Ok r, c')) as [Hdep Hc'].
  { destruct d as [k|]; [|done]. by destruct (m !! k) eqn:E; [|done]. }
  clear Hc. unfold try_except in Hc'. rewrite append_unfold_ctl in Hc'.
  destruct (append_file e c) as [[r'|x] c1] eqn:Ha; [|by destruct (decide _)].
  apply (append_file_Ok c db) in Ha as (j & Ha & ->); [|done..].
  destruct (append_records _ _ _ _ _ _ _ Hs Hv Hq Hh Hk Ha) as (_ & Hcont & es' & m' & Hs' & Hkey & Hkeep).
  assert (r' = r ∧ c_file c' = Some (j_db j) ∧ c_mode c' = c_mode c ∧ c_stopping c' = c_stopping c
          ∧ c_journal c' = c_journal c) as (-> & -> & -> & -> & ->).
  { by destruct (ar_duplicate r'); injection Hc' as <- <-. }
  split_and!; [done..|]. exists (j_db j), es', m'. split_and!; [done..|].
  destruct d; [by apply Hkeep|done].
Qed.

Lemma create_locked_again c db es m d e key x :
  c_journal c = Some false → c_file c = Some db → Sound db es m →
  ev_seq e = None → ev_hash e = None → ev_dedupe_key e = Some key →
  keyed es key = Some x → content x = content e →
  match d with Some k => is_Some (m !! k) | None => True end →
  ∃ r c', create_locked d e c = (Ok r, c') ∧ ar_duplicate r = true ∧ c_file c' = c_file c.
Proof.
  intros Hj Hf Hs Hq Hh Hk Hx Hc Hd. destruct (append_duplicate db es m e key x) as [st Ha]; [done..|].
  exists (mkAppend x true st), (set_file c (Some db) (c_journal c)). split_and!; [|done|by rewrite Hf].
  rewrite create_locked_unfold, (check_dependency_run c db es m d) by done.
  assert (try_except (_append e) (λ x, if decide (exn_cls x = DedupeConflict)
            then Some (api 409 "idempotency_conflict") else None) c
          = (Ok (mkAppend x true st), set_file c (Some db) (c_journal c))) as Ht.
  { unfold try_except. rewrite append_unfold_ctl. unfold append_file. by rewrite Hj, Hf, Ha. }
  destruct d as [k|]; [|done]. destruct Hd as [s ->]. exact Ht.
Qed.

(** What a keyed request computes before it touches the controller. *)
Definition create_args (request : json)
    : result (list (string * json) * string * option string) :=
  body ← _only_fields request TASK_FIELDS;
  payload ← task_payload body;
  key ← optional_id body "idempotency_key";
  data ← encode_utf8 (fmt key);
  depends_on ← optional_id body "depends_on";
  mret (payload ++ match depends_on with Some d => [("depends_on", JStr d)] | None => [] end,
        "task-" +:+ py_take 32 (sha256_hex data), depends_on).

Definition create_rest (args : list (string * json) * string * option string) : C (Z * string * bool) :=
  let '(payload, task_id, depends_on) := args in
  event ← as_bad_request (make_event TASK_CREATED (Some task_id) None None None None payload None);
  result ← _locked (create_locked depends_on event);
  mret (if ar_duplicate result then 200 else 201, task_id, ar_duplicate result).

Lemma create_task_keyed request c :
  c_mode c = NORMAL → c_stopping c = false →
  (∀ body o, _only_fields request TASK_FIELDS = Ok body →
             optional_id body "idempotency_key" = Ok o → is_Some o) →
  create_task request c = match create_args request with
                          | Ok args => create_rest args c
                          | Err x => (Err x, c)
                          end.
Proof.
  intros Hm Hs Hk. unfold create_task, create_args.
  assert (_require_writable c = (Ok tt, c)) as Hw.
  { unfold _require_writable, get, mbind, C_bind. by rewrite Hm, Hs. }
  unfold mbind at 1, C_bind at 1. rewrite Hw. unfold lift, mbind, C_bind, result_bind.
  destruct (_only_fields request TASK_FIELDS) as [b|] eqn:Hb; [|done].
  destruct (task_payload b) as [payload|]; [|done].
  destruct (optional_id b "idempotency_key") as [o|] eqn:Ho; [|done].
  destruct (Hk b o eq_refl Ho) as [k ->]. unfold task_id_for, lift, mbind, C_bind. simpl fmt.
  change (default "None" (Some k)) with k.
  destruct (encode_utf8 k) as [data|]; [|done]. unfold mret, C_ret, result_ret.
  by destruct (optional_id b "depends_on") as [dep|].
Qed.

(** The event of a task request. *)
Definition create_event (args : list (string * json) * string * option string) (n : nat) : result Event :=
  new_event TASK_CREATED (Some args.1.2) None None None None args.1.1 (w_uuid n) (w_utc_now (S n)) None.

Lemma create_rest_unfold args c :
  create_rest args c = match create_event args (c_calls c) with
    | Ok e =>
        match _locked (create_locked args.2 e) (count_call (count_call c)) with
        | (Ok r, c') => (Ok (if ar_duplicate r then 200 else 201, args.1.2, ar_duplicate r), c')
        | (Err x, c') => (Err x, c')
        end
    | Err x => if decide (exn_cls x = EventValidationError) then (bad_request, count_call (count_call c))
               else (Err x, count_call (count_call c))
    end.
Proof.
  destruct args as [[payload task_id] d].
  unfold create_rest, as_bad_request, try_except, make_event, ask, lift, mbind, C_bind, create_event. simpl.
  destruct (new_event _ _ _ _ _ _ _ _ _ _) as [e|x]; [done|]. by destruct (decide _).
Qed.

Lemma locked_free {A} (m : C A) c : w_lock (c_calls c) = true → _locked m c = m (count_call c).
Proof. intros Hl. unfold _locked, ask, mbind, C_bind. by rewrite Hl. Qed.

Lemma locked_Ok {A} (m : C A) c a c' :
  _locked m c = (Ok a, c') → m (count_call c) = (Ok a, c').
Proof. unfold _locked, ask, mbind, C_bind. by destruct (w_lock _). Qed.

Lemma create_args_wf body args :
  json_wf (JObj body) → create_args (JObj body) = Ok args → json_wf (JObj args.1.1).
Proof.
  intros Hw Ha. unfold create_args in Ha. apply bind_Ok in Ha as (b & Hb & Ha).
  assert (b = body) as ->.
  { unfold _only_fields, bad_if in Hb. destruct (negb _); [done|]. by injection Hb as <-. }
  apply bind_Ok in Ha as (payload & Hp & Ha). apply bind_Ok in Ha as (key & _ & Ha).
  apply bind_Ok in Ha as (data & _ & Ha). apply bind_Ok in Ha as (d & _ & Ha). apply (inj Ok) in Ha as <-.
  simpl fst. by apply (task_payload_json body).
Qed.

(** Creating a task is idempotent: a request with an idempotency key that
    was accepted once, sent again to the running controller, is answered 200
    with the same task id as a duplicate, and the journal is not touched. *)
Theorem create_task_is_idempotent c db es m body k status task_id d c1 :
  WorldFresh → c_mode c = NORMAL → c_stopping c = false → c_journal c = Some false →
  c_file c = Some db → Sound db es m → json_wf (JObj body) →
  jget "idempotency_key" body = Some (JStr k) →
  create_task (JObj body) c = (Ok (status, task_id, d), c1) →
  w_lock (S (S (c_calls c1))) = true →
  ∃ c2, create_task (JObj body) c1 = (Ok (200, task_id, true), c2) ∧ c_file c2 = c_file c1.
Proof.
  intros [Huuid Hnow] Hm Hst Hj Hf Hs Hw Hkey Hc Hlock.
  assert (∀ b o, _only_fields (JObj body) TASK_FIELDS = Ok b →
            optional_id b "idempotency_key" = Ok o → is_Some o) as Hk.
  { intros b o Hb Ho. assert (b = body) as ->.
    { unfold _only_fields, bad_if in Hb. destruct (negb _); [done|]. by injection Hb as <-. }
    unfold optional_id, jget_none in Ho. rewrite Hkey in Ho. simpl in Ho.
    apply bind_Ok in Ho as (s & _ & Ho). apply (inj Ok) in Ho as <-. by eexists. }
  rewrite create_task_keyed in Hc by done.
  destruct (create_args (JObj body)) as [args|] eqn:Ha; [|done].
  pose proof (create_args_wf body args Hw Ha) as Hwf. rewrite create_rest_unfold in Hc.
  destruct (create_event args (c_calls c)) as [e|x] eqn:He; [|by destruct (decide _)].
  destruct (_locked (create_locked args.2 e) (count_call (count_call c))) as [[r|x] c'] eqn:Hl; [|done].
  injection Hc as <- <- <- <-. apply locked_Ok in Hl.
  assert (∃ key, ev_dedupe_key e = Some key) as [key Hek].
  { unfold create_event, new_event in He. rewrite post_init_wf in He by done.
    apply bind_Ok in He as (_ & _ & He). apply (inj Ok) in He as <-. by eexists. }
  destruct (new_event_again _ _ _ _ _ _ _ _ _ _ e (w_uuid (c_calls c')) (w_utc_now (S (c_calls c'))) Hwf He)
    as (e' & He' & Hcont' & Hkey' & _ & Hq' & Hh' & Hq & Hh); [apply Huuid..|apply Hnow|].
  assert (Valid e) as Hv.
  { unfold create_event, new_event in He. by apply post_init_valid in He as [? _]. }
  eapply create_locked_Ok in Hl as (Hm1 & Hs1 & Hj1 & db' & es' & m' & Hf1 & Hs' & Hx & Hcont & Hdep);
    [|exact Hj|exact Hf|exact Hs|exact Hv|exact Hq|exact Hh|exact Hek].
  rewrite create_task_keyed, Ha by (by rewrite ?Hm1, ?Hs1). rewrite create_rest_unfold.
  unfold create_event. rewrite He', locked_free by done.
  destruct (create_locked_again (count_call (count_call (count_call c'))) db' es' m' args.2 e' key
              (ar_event r)) as (r2 & c2 & -> & Hdup & Hfile);
    [done|done|done|done|done|congruence|done|congruence|done|].
  rewrite Hdup. exists c2. split; [done|exact Hfile].
Qed.

End duties.
