(* ===== verification/Redelivery.v ===== *)
(** * Reporting a result again

    A worker repeats a delivery until it is answered; the controller takes the
    result once and recognises every repetition, whatever happened meanwhile. *)

From S2P Require Import Prelude PyText PyTime Scope Json Sha256 Events StateMachine Lifecycle History Projection Replay Journal Ledger Verification Controller Service Duties.

Section redelivery.
Context `{PyPlatform} `{World}.

(** The claim that issued a dispatch. *)
Definition claimed (es : list Event) (dispatch_id : string) : option Event :=
  snd <$> list_find (λ e, ev_dispatch_id e = Some dispatch_id ∧ type_value (ev_type e) = "TASK_CLAIMED") es.

Lemma claim_claimed db es m d : Recorded db es m → claim_for_dispatch db d = Ok (claimed es d).
Proof.
  intros Hr. unfold claim_for_dispatch, claimed. rewrite (rc_rows _ _ _ Hr).
  pose proof (recorded_stored _ _ _ Hr) as Hs. clear Hr.
  induction Hs as [|e es He _ IH]; [done|]. simpl. case_decide as E; simpl.
  - by rewrite stored_from_row.
  - destruct (list_find _ (map event_row es)) as [[i r]|] eqn:F;
      destruct (list_find _ es) as [[j x]|] eqn:G; simpl in *; done.
Qed.

Lemma claimed_app es es' d x : claimed es d = Some x → claimed (es ++ es') d = Some x.
Proof.
  unfold claimed. destruct (list_find _ es) as [[i y]|] eqn:F; [|done]. intros [= <-].
  by rewrite (list_find_app_l _ _ _ _ _ F).
Qed.

(** The event of a report, by its claim. *)
Definition result_event (cl : Event) (d rid : string) (payload : list (string * json)) (n : nat) : result Event :=
  new_event RESULT_READY (ev_task_id cl) (ev_attempt cl) (Some d) (ev_worker_id cl) (Some rid) payload
    (w_uuid n) (w_utc_now (S n)) None.

Lemma result_event_key cl d rid payload n e :
  json_wf (JObj payload) → result_event cl d rid payload n = Ok e →
  ev_dedupe_key e = Some (result_key (Some d) (Some rid)).
Proof.
  intros Hw He. unfold result_event, new_event in He. rewrite post_init_wf in He by done.
  apply bind_Ok in He as (_ & _ & He). by apply (inj Ok) in He as <-.
Qed.

Lemma report_locked_run d rid payload c ro db es m cl :
  c_journal c = Some ro → c_file c = Some db → Sound db es m → claimed es d = Some cl →
  report_locked d rid payload c =
  match result_event cl d rid payload (c_calls c) with
  | Ok e => report_keyed cl e d rid payload (count_call (count_call c))
  | Err x => (if decide (exn_cls x = EventValidationError) then bad_request else Err x, count_call (count_call c))
  end.
Proof.
  intros Hj Hf Hs Hcl. unfold report_locked, _claim_of, mbind, C_bind.
  rewrite (read_db _ c ro db Hj Hf), (claim_claimed db es m d) by apply Hs. rewrite Hcl.
  unfold mret, C_ret, as_bad_request, try_except, make_event, ask, lift, mbind, C_bind, result_event. simpl.
  destruct (new_event _ _ _ _ _ _ _ _ _ _) as [e|x]; [done|]. by destruct (decide _).
Qed.

Lemma report_keyed_run cl e d rid payload c ro db es m :
  c_journal c = Some ro → c_file c = Some db → Sound db es m →
  report_keyed cl e d rid payload c =
  match keyed es (fmt (ev_dedupe_key e)) with
  | Some x => (if bool_decide (content x = content e)
               then mret ("ACK_DUPLICATE", fmt (ev_task_id cl), default 0 (ev_seq x))
               else api 409 "result_conflict") c
  | None => report_new cl e d rid payload c
  end.
Proof.
  intros Hj Hf Hs. unfold report_keyed, mbind, C_bind.
  rewrite (read_db _ c ro db Hj Hf), (get_event_keyed db es m) by apply Hs. by destruct (keyed es _).
Qed.

Lemma task_of_id db es m k t : Sound db es m → task_of db k = Ok (Some t) → fmt k = ts_task_id t.
Proof.
  intros Hs Ht. destruct k as [k|].
  - unfold task_of in Ht. change (task db k = Ok (Some t)) in Ht. rewrite (task_sound db es m k Hs) in Ht.
    destruct (m !! k) as [s|] eqn:E; [|done]. simpl in Ht. injection Ht as <-. simpl.
    destruct Hs as [_ (p & _ & Hag & _) _]. by rewrite (so_id k s (ag_ok _ _ Hag k s E)).
  - destruct Hs as [_ (p & Hp & _) _]. unfold task_of, tables in Ht. by rewrite Hp in Ht.
Qed.

(** A report that is taken is recorded, and its claim known. *)
Lemma report_new_Ok cl e d rid payload c db es m key o c' :
  c_journal c = Some false → c_file c = Some db → Sound db es m → Valid e → ev_seq e = None → ev_hash e = None →
  ev_dedupe_key e = Some key → report_new cl e d rid payload c = (Ok o, c') →
  o.1.1 = "ACCEPTED_FOR_VERIFY" ∧ o.1.2 = fmt (ev_task_id cl) ∧
  ∃ db' es' m' x, c_file c' = Some db' ∧ Sound db' es' m' ∧ es `prefix_of` es' ∧ keyed es' key = Some x ∧
    content x = content e ∧ o.2 = default 0 (ev_seq x).
Proof.
  intros Hj Hf Hs Hv Hq Hh Hk Hr. unfold report_new, mbind, C_bind in Hr.
  rewrite (read_db _ c false db Hj Hf) in Hr. destruct (task_of db (ev_task_id cl)) as [[t|]|] eqn:Et; [|done..].
  apply (task_of_id db es m) in Et; [|done]. unfold attr in Hr. simpl in Hr.
  destruct (bool_decide _); [|destruct (bool_decide _); [done|]].
  2: { unfold make_event, ask, lift, mbind, C_bind in Hr. destruct (new_event _ _ _ _ _ _ _ _ _ _); [|done].
       by destruct (try_except _ _ _) as [[]]. }
  unfold api_if in Hr. destruct (ts_cancel_requested t); [done|]. unfold mret, C_ret at 1 in Hr.
  rewrite append_unfold_ctl in Hr. destruct (append_file e c) as [[r|x] c1] eqn:Ha; [|done].
  apply (append_file_Ok c db) in Ha as (j & Ha & ->); [|done..].
  destruct (append_records _ _ _ _ _ _ _ Hs Hv Hq Hh Hk Ha) as (_ & Hcont & es' & m' & Hs' & Hkey & _ & Hpre).
  unfold modify in Hr. injection Hr as <- <-. split_and!; [done|by rewrite Et|].
  exists (j_db j), es', m', (ar_event r). split_and!; try done. by destruct (ar_duplicate r).
Qed.

(** The report of [d] is recorded for task [t] at [seq]. *)
Definition taken (es : list Event) (d rid : string) (payload : list (string * json)) (t : string) (seq : Z) : Prop :=
  ∃ cl n e x, claimed es d = Some cl ∧ result_event cl d rid payload n = Ok e ∧ fmt (ev_task_id cl) = t ∧
    keyed es (result_key (Some d) (Some rid)) = Some x ∧ content x = content e ∧ default 0 (ev_seq x) = seq.

Lemma taken_app es es' d rid payload t seq : taken es d rid payload t seq → taken (es ++ es') d rid payload t seq.
Proof.
  intros (cl & n & e & x & Hc & He & Ht & Hk & Hx). exists cl, n, e, x.
  split_and!; try done; [by apply claimed_app|by apply keyed_app|apply Hx..].
Qed.

Lemma report_takes d rid payload c db es m st t seq c' :
  c_journal c = Some false → c_file c = Some db → Sound db es m → json_wf (JObj payload) →
  report_locked d rid payload c = (Ok (st, t, seq), c') →
  (st = "ACCEPTED_FOR_VERIFY" ∨ st = "ACK_DUPLICATE") ∧
  ∃ db' es' m', c_file c' = Some db' ∧ Sound db' es' m' ∧ taken es' d rid payload t seq.
Proof.
  intros Hj Hf Hs Hw Hr. destruct (claimed es d) as [cl|] eqn:Hcl.
  2: { unfold report_locked, _claim_of, mbind, C_bind in Hr.
       by rewrite (read_db _ c false db Hj Hf), (claim_claimed db es m d), Hcl in Hr by apply Hs. }
  rewrite (report_locked_run d rid payload c false db es m cl) in Hr by done.
  destruct (result_event cl d rid payload (c_calls c)) as [e|x] eqn:He; [|by destruct (decide _)].
  pose proof (result_event_key _ _ _ _ _ _ Hw He) as Hk.
  destruct (new_event_again _ _ _ _ _ _ _ _ _ _ e "x" "Z" Hw He) as (e' & _ & _ & _ & _ & _ & _ & Hq & Hh);
    [done..|].
  assert (Valid e) as Hv by (unfold result_event, new_event in He; by apply post_init_valid in He as [? _]).
  rewrite (report_keyed_run cl e d rid payload _ false db es m) in Hr by done. rewrite Hk in Hr. simpl fmt in Hr.
  destruct (keyed es _) as [x|] eqn:Hx.
  - case_bool_decide as Hcont; [|done]. injection Hr as <- <- <- <-. split; [by right|].
    exists db, es, m. split_and!; [done..|]. by exists cl, (c_calls c), e, x.
  - eapply report_new_Ok in Hr as (Hst & Ht & db' & es' & m' & x & Hf' & Hs' & [ext ->] & Hx' & Hcont & Hseq);
      [|done..]. simpl in Hst, Ht, Hseq. subst st t seq. split; [by left|].
    exists db', (es ++ ext), m'. split_and!; [done..|]. exists cl, (c_calls c), e, x.
    split_and!; try done. by apply claimed_app.
Qed.

Lemma report_again d rid payload c ro db es m t seq :
  WorldFresh → c_journal c = Some ro → c_file c = Some db → Sound db es m → json_wf (JObj payload) →
  taken es d rid payload t seq →
  ∃ c', report_locked d rid payload c = (Ok ("ACK_DUPLICATE", t, seq), c') ∧ c_file c' = c_file c.
Proof.
  intros [Huuid Hnow] Hj Hf Hs Hw (cl & n & e & x & Hcl & He & <- & Hx & Hcont & <-).
  destruct (new_event_again _ _ _ _ _ _ _ _ _ _ e (w_uuid (c_calls c)) (w_utc_now (S (c_calls c))) Hw He)
    as (e' & He' & Hcont' & Hkey' & _); [apply Huuid..|apply Hnow|].
  pose proof (result_event_key _ _ _ _ _ _ Hw He) as Hk.
  exists (count_call (count_call c)). split; [|done].
  rewrite (report_locked_run d rid payload c ro db es m cl) by done. unfold result_event. rewrite He'.
  rewrite (report_keyed_run cl e' d rid payload _ ro db es m), Hkey', Hk by done. simpl fmt. rewrite Hx.
  by rewrite bool_decide_true by congruence.
Qed.

(** The controller takes requests. *)
Definition open_to_requests (c : Ctl) : Prop :=
  c_mode c = NORMAL ∧ c_stopping c = false ∧ c_journal c = Some false.

Lemma report_run request c :
  c_mode c = NORMAL → c_stopping c = false →
  result_report request c = match report_args request with
                            | Ok (d, rid, payload) => _locked (report_locked d rid payload) c
                            | Err x => (Err x, c)
                            end.
Proof.
  intros Hm Hs. unfold result_report, _require_writable, get, lift, mbind, C_bind. simpl. rewrite Hm, Hs. simpl.
  by destruct (report_args request) as [[[d rid] payload]|].
Qed.

Lemma args_wf request d rid payload :
  WorldWf → json_wf request → report_args request = Ok (d, rid, payload) → json_wf (JObj payload).
Proof.
  intros [Hb Hv] Hw Ha.
  refine (report_args_wf (λ _, False) (λ _ _, True) true _ _ _ _ request (d, rid, payload) (λ _, Hw) Ha eq_refl);
    try done. intros a v Ha' _. by eapply Hv.
Qed.

(** C5: a result is taken once: when the controller has answered a report with
    success, then after any requests by anyone - repetitions and competing
    reports among them - the same report, sent again, is acknowledged as a
    duplicate with the same task and sequence number, and nothing is written. *)
Theorem results_are_taken_once c db es m request st t seq c1 rs :
  WorldFresh → WorldWf → open_to_requests c → c_file c = Some db → Sound db es m →
  json_wf request → Forall request_wf rs →
  result_report request c = (Ok (st, t, seq), c1) →
  let c2 := serve_all rs c1 in
  open_to_requests c2 → w_lock (c_calls c2) = true →
  (st = "ACCEPTED_FOR_VERIFY" ∨ st = "ACK_DUPLICATE") ∧
  ∃ c3, result_report request c2 = (Ok ("ACK_DUPLICATE", t, seq), c3) ∧ c_file c3 = c_file c2.
Proof.
  intros Hfresh Hworld (Hm & Hst & Hj) Hf Hs Hw Hrs Hr c2 (Hm2 & Hst2 & Hj2) Hlock.
  rewrite report_run in Hr by done. rewrite report_run by done.
  destruct (report_args request) as [[[d rid] payload]|] eqn:Ha; [|done].
  apply args_wf in Ha; [|done..]. apply locked_Ok in Hr.
  eapply report_takes in Hr as (Hor & db1 & es1 & m1 & Hf1 & Hs1 & Ht); [|done..].
  split; [done|]. assert (file_ok (c_file c1)) as Hok.
  { intros db' Hdb'. rewrite Hf1 in Hdb'. injection Hdb' as <-. by exists es1, m1. }
  pose proof (serve_all_grows rs c1 Hworld Hrs Hok) as Hg. unfold grows in Hg. rewrite Hf1 in Hg.
  destruct Hg as (db2 & Hf2 & Hg). destruct (Hg es1 m1 Hs1) as (ext & m2 & Hs2). fold c2 in Hf2.
  rewrite locked_free by done.
  destruct (report_again d rid payload (count_call c2) false db2 (es1 ++ ext) m2 t seq)
    as (c3 & E & Hfile); [done..|by apply taken_app|]. by exists c3.
Qed.

(** A report of a dispatch that was never started is refused and not
    recorded, whatever it says: the controller answers 409, which a worker
    takes as the end of the matter. *)
Lemma unstarted_reports_are_refused c db es m request d rid payload cl k s e :
  open_to_requests c → c_file c = Some db → Sound db es m → w_lock (c_calls c) = true →
  report_args request = Ok (d, rid, payload) → json_wf (JObj payload) → claimed es d = Some cl →
  result_event cl d rid payload (S (c_calls c)) = Ok e → keyed es (result_key (Some d) (Some rid)) = None →
  ev_task_id cl = Some k → m !! k = Some s → ts_dispatch_id s = Some d → ts_status s = CLAIMED →
  ∃ c', result_report request c = (raise (ApiError 409 "not_started") "not_started", c') ∧ c_file c' = c_file c.
Proof.
  intros (Hm & Hst & Hj) Hf Hs Hl Ha Hw Hcl He Hk Et Hms Hd Hstatus.
  exists (count_call (count_call (count_call c))). split; [|done].
  rewrite report_run, Ha, locked_free by done.
  rewrite (report_locked_run d rid payload (count_call c) false db es m cl) by done. simpl c_calls. rewrite He.
  pose proof (result_event_key _ _ _ _ _ _ Hw He) as Hkey.
  rewrite (report_keyed_run cl e d rid payload _ false db es m), Hkey by done. simpl fmt. rewrite Hk.
  unfold report_new, mbind, C_bind. rewrite (read_db _ _ false db) by done. rewrite Et. unfold task_of.
  change (tables db ≫= λ p, load_task p (Some k)) with (task db k). rewrite (task_sound db es m k Hs), Hms.
  simpl. rewrite Hd, Hstatus. by rewrite bool_decide_false, bool_decide_true by naive_solver.
Qed.

End redelivery.
