(* ===== verification/WorkerSpec.v ===== *)
(** * What a worker may run ([adapter_bridge.py], [service.py], [host.py])

    From the controller's answer to a claim to the execution spec of the host:
    the closed list of adapters and their parameter checks, the bound input of
    a dependent task, and the bounds every spec obeys.  The worker runs on
    POSIX. *)

From Stdlib Require Import Ascii.
From Stdlib Require Import Qminmax.
From S2P Require Import Prelude PyText AsciiText Scope Json PyNumbers Sha256 Events LockManager.

Definition MAX_TIMEOUT_S : Q := 3600.
Definition DEFAULT_TIMEOUT_S : Z := 300.
Definition MIN_HEARTBEAT_S : Q := 1 # 5.
Definition MAX_HEARTBEAT_S : Q := 30.
Definition MAX_ARGV : nat := 256.
Definition MAX_ARGV_BYTES : Z := 64 * 1024.
Definition MAX_PARAMS_BYTES : Z := 64 * 1024.
Definition MAX_INPUT_ARTIFACTS : nat := 1000.

(** ** Names *)

Definition word_char (a : ascii) : bool :=
  (is_digit a || (65 <=? code a) && (code a <=? 90) || (97 <=? code a) && (code a <=? 122)
   || (code a =? 95) || (code a =? 46) || (code a =? 45))%bool.

(** At most [n] characters of a class, then the end or a final line feed. *)
Fixpoint class_then_end (cls : ascii → bool) (n : nat) (s : string) {struct s} : bool :=
  match s with
  | "" => true
  | String a r =>
      ((code a =? 10) && match r with "" => true | _ => false end
       || match n with O => false | S n => cls a && class_then_end cls n r end)%bool
  end.

(** [re.compile("^[cls]{1,n}$").match] *)
Definition class_match (cls : ascii → bool) (n : nat) (s : string) : bool :=
  match s, n with
  | String a r, S n => (cls a && class_then_end cls n r)%bool
  | _, _ => false
  end.

Definition SAFE_DISPATCH_ID_RE (s : string) : bool := class_match word_char (String.length s) s.
Definition EFFECT_KEY_RE (s : string) : bool := class_match (λ a, word_char a || (code a =? 58))%bool 200 s.

(** A name that no path can be built from. *)
Definition safe_id (s : string) : bool :=
  (SAFE_DISPATCH_ID_RE s && negb (py_in ".." s) && negb (py_in "/" s) && negb (py_in "\" s))%bool.

(** [os.path.join] of two parts. *)
Definition path_join (a b : string) : string :=
  if startswith b "/" then b
  else if (bool_decide (a = "") || ends_with "/" a)%bool then a +:+ b else a +:+ "/" +:+ b.

(** ** Execution specs *)

(** The fields have the types of the annotations, times are numbers. *)
Record ExecutionSpec := mkSpec {
  xs_task_id : string;
  xs_attempt : Z;
  xs_dispatch_id : string;
  xs_worker_id : string;
  xs_result_id : string;
  xs_argv : list string;
  xs_timeout_s : Q;
  xs_lease_ttl_s : Q;
  xs_artifact_dir : string;
  xs_heartbeat_s : Q;
  xs_adapter : option string;
  xs_params : list (string * json);
  xs_effect_key : string;
  xs_effect_class : json;
  xs_input : option json;
}.

Definition spec_if (b : bool) (why : string) : result unit := raise_if b (Exn SpecError why).

Definition in_range (lo q hi : Q) : bool := (Qle_bool lo q && Qle_bool q hi)%bool.
Definition positive_to (q hi : Q) : bool := (negb (Qle_bool q 0) && Qle_bool q hi)%bool.

Definition name_ok (value : string) : result unit :=
  spec_if (bool_decide (value = "") || (200 <? py_len value))%bool "must be a non-empty string of at most 200 chars";;
  spec_if (negb (safe_id value)) "contains unsafe characters or path traversal attempt".

(** [ExecutionSpec.__post_init__] *)
Definition post_init (x : ExecutionSpec) : result ExecutionSpec :=
  name_ok (xs_task_id x);; name_ok (xs_dispatch_id x);; name_ok (xs_worker_id x);; name_ok (xs_result_id x);;
  spec_if (xs_attempt x <? 1) "attempt must be an integer >= 1";;
  spec_if (bool_decide (xs_argv x = []) || (MAX_ARGV <? length (xs_argv x))%nat)%bool
    "argv must be a non-empty argument list";;
  spec_if (existsb (λ a, bool_decide (a = "")) (xs_argv x)) "argv entries must be non-empty strings";;
  spec_if (MAX_ARGV_BYTES <? foldr Z.add 0 (map py_len (xs_argv x))) "argv exceeds size bound";;
  spec_if (negb (positive_to (xs_timeout_s x) MAX_TIMEOUT_S)) "timeout_s must be within bounds";;
  spec_if (negb (Qle_bool 1 (xs_lease_ttl_s x))) "lease_ttl_s must be >= 1";;
  spec_if (negb (in_range MIN_HEARTBEAT_S (xs_heartbeat_s x) MAX_HEARTBEAT_S)) "heartbeat_s must be within bounds";;
  spec_if (bool_decide (xs_artifact_dir x = "")) "artifact_dir must be a non-empty path";;
  mret x.

(** What every spec obeys. *)
Record bounded (x : ExecutionSpec) : Prop := {
  names_safe : Forall (λ s, s ≠ "" ∧ py_len s ≤ 200 ∧ safe_id s = true)
                 [xs_task_id x; xs_dispatch_id x; xs_worker_id x; xs_result_id x];
  attempt_bound : 1 ≤ xs_attempt x;
  argv_bound : xs_argv x ≠ [] ∧ (length (xs_argv x) ≤ MAX_ARGV)%nat;
  timeout_bound : (0 < xs_timeout_s x <= MAX_TIMEOUT_S)%Q;
  ttl_bound : (1 <= xs_lease_ttl_s x)%Q;
  heartbeat_bound : (MIN_HEARTBEAT_S <= xs_heartbeat_s x <= MAX_HEARTBEAT_S)%Q;
}.

Lemma name_ok_Ok s u : name_ok s = Ok u → s ≠ "" ∧ py_len s ≤ 200 ∧ safe_id s = true.
Proof. intros Hn. unfold name_ok, spec_if in Hn. inv_ok. by bool_hyps. Qed.

Lemma positive_to_spec q hi : positive_to q hi = true ↔ (0 < q <= hi)%Q.
Proof.
  unfold positive_to. rewrite andb_true_iff, negb_true_iff, Qle_bool_iff, <- not_true_iff_false, Qle_bool_iff.
  split; intros [H1 H2]; (split; [|done]); [by apply Qnot_le_lt|by apply Qlt_not_le].
Qed.

Lemma post_init_Ok x y : post_init x = Ok y → y = x ∧ bounded x.
Proof.
  intros Hp. unfold post_init, spec_if in Hp. inv_ok. split; [done|].
  repeat match goal with H : name_ok _ = Ok _ |- _ => apply name_ok_Ok in H end. bool_hyps.
  split.
  - by repeat (apply Forall_cons; split).
  - lia.
  - split; [done|]. by apply Nat.ltb_ge.
  - by apply positive_to_spec.
  - by apply Qle_bool_iff.
  - unfold in_range in *. bool_hyps. split; by apply Qle_bool_iff.
Qed.

(** ** Adapter parameters *)

Definition INPUT_TRANSFORMS : list string := ["copy"; "reverse"].
Definition FORBIDDEN_COMMAND_BASENAMES : list string :=
  ["cmd"; "cmd.exe"; "powershell"; "powershell.exe"; "pwsh"; "pwsh.exe";
   "bash"; "sh"; "zsh"; "csh"; "tcsh"; "wsl"; "wsl.exe";
   "curl"; "curl.exe"; "wget"; "wget.exe"; "certutil"; "certutil.exe";
   "bitsadmin"; "bitsadmin.exe"; "nc"; "nc.exe"; "ncat"; "netcat";
   "taskkill"; "taskkill.exe"; "pkill"; "killall"; "shutdown"; "reboot"].

(** [synthetic.is_safe_name]: neither as a Windows nor as a POSIX path has the
    name a drive, a root or a part "..". *)
Definition is_safe_name (name : json) : bool :=
  match name with
  | JStr s =>
      (negb (bool_decide (s = "")) && (py_len s <=? 255) && negb (py_in (String "000" "") s)
       && negb (startswith s "/") && negb (startswith s "\")
       && match chars s with _ :: c :: _ => negb (bool_decide (c = ":")) | _ => true end
       && negb (bool_decide (".." ∈ split_slash (slashes s))))%bool
  | _ => false
  end.

Definition is_str (j : json) : bool := match j with JStr _ => true | _ => false end.
Definition nonempty_str (j : json) : bool := match j with JStr s => negb (bool_decide (s = "")) | _ => false end.

(** [isinstance(value, int)], which holds of booleans. *)
Definition int_val (j : json) : option Z :=
  match j with JBool b => Some (if b then 1 else 0) | JInt z => Some z | _ => None end.

(** The last part of a POSIX path ([PurePosixPath.name]). *)
Definition path_name (s : string) : string :=
  default "" (last (filter (λ p, p ≠ "" ∧ p ≠ ".") (split_slash s))).

Section params.
Context `{PyPlatform}.

Definition at_least_zero (j : json) : bool := match num_val j with Some q => Qle_bool 0 q | None => false end.

(** [synthetic._params]; a transform that is a list or an object cannot be
    looked up in the set of transforms, which raises [TypeError]. *)
Definition synthetic_params (params : list (string * json)) : result unit :=
  let get k d := default d (jget k params) in
  let bad b why := raise_if b (Exn SyntheticError why) in
  let from_input := get "from_input" JNull in
  let content := get "content" (JStr "") in
  (if is_null from_input then mret tt
   else known ← json_in_strs from_input INPUT_TRANSFORMS;
        bad (negb known) "from_input must be one of the transforms";;
        bad (negb (py_eq content (JStr ""))) "content and from_input are exclusive");;
  bad (negb (at_least_zero (get "sleep_s" (JInt 0)))) "sleep_s must be a non-negative number";;
  bad (negb (is_safe_name (get "write" (JStr "out.txt")))) "write must be a safe workspace-relative file name";;
  bad (negb (is_str content)) "content must be a string";;
  let crash := get "crash_after_s" JNull in
  bad (negb (is_null crash) && negb (at_least_zero crash))%bool "crash_after_s must be null or a non-negative number";;
  bad (negb (is_bool (get "hang" (JBool false)))) "hang must be a boolean";;
  bad (match int_val (get "fail_transient_n" (JInt 0)) with Some z => z <? 0 | None => true end)
    "fail_transient_n must be a non-negative int";;
  bad (match get "fault_attempts" (JArr [JInt 1]) with
       | JArr [] => true
       | JArr l => existsb (λ a, match int_val a with Some z => z <? 1 | None => true end) l
       | _ => true
       end) "fault_attempts must be a non-empty list of attempts >= 1".

(** [local_shell._params] *)
Definition local_shell_params (params : list (string * json)) : result unit :=
  let get k d := default d (jget k params) in
  let bad b why := raise_if b (Exn LocalShellError why) in
  let argv := match get "command" JNull with JArr l => l | _ => [] end in
  bad (bool_decide (argv = []) || negb (forallb nonempty_str argv))%bool
    "command must be a non-empty argv list of non-empty strings";;
  let texts := map py_str argv in
  bad (existsb (py_in (String "000" "")) texts) "command argument contains null byte";;
  bad (bool_decide (py_lower (path_name (hd "" texts)) ∈ FORBIDDEN_COMMAND_BASENAMES))
    "executable is strictly forbidden in local_shell";;
  bad (negb (is_safe_name (get "write" (JStr "out.txt")))) "write must be a safe workspace-relative file name";;
  bad (match num_val (get "timeout_s" (JInt 60)) with Some q => negb (positive_to q 600) | None => true end)
    "timeout_s must be a number within bounds";;
  bad (match get "env" (JObj []) with JObj env => negb (forallb (λ kv, is_str kv.2) env) | _ => true end)
    "env must be a mapping of str to str".

Definition as_spec_error (r : result unit) (cls : exn_class) : result unit :=
  match r with
  | Err x => if decide (exn_cls x = cls) then raise SpecError "params rejected" else Err x
  | ok => ok
  end.

(** [ADAPTERS]: the parameter check of an allowlisted adapter. *)
Definition ADAPTERS (adapter : string) : option (list (string * json) → result unit) :=
  if decide (adapter = "synthetic") then Some (λ p, as_spec_error (synthetic_params p) SyntheticError)
  else if decide (adapter = "local_shell") then Some (λ p, as_spec_error (local_shell_params p) LocalShellError)
  else None.

(** [validate_request]; the object's members are its keys and values. *)
Definition validate_request (spec : json) : result (string * list (string * json) * string) :=
  match spec with
  | JObj kvs =>
      spec_if (jhas "argv" kvs) "claim spec must not carry argv; the worker never runs a supplied command";;
      '(adapter, check) ← of_option (Exn SpecError "adapter is not allowlisted on this worker")
        (match jget_none "adapter" kvs with JStr a => (λ f, (a, f)) <$> ADAPTERS a | _ => None end);
      params ← of_option (Exn SpecError "claim spec params must be an object")
        (match jget_none "params" kvs with JObj p => Some p | _ => None end);
      spec_if (MAX_PARAMS_BYTES <? Z.of_nat (String.length (dumps_spaced (canon (JObj params)))))
        "claim spec params exceed the size bound";;
      check params;;
      match jget_none "effect_key" kvs with
      | JStr key =>
          spec_if (negb (EFFECT_KEY_RE key)) "claim spec effect_key is missing or malformed";;
          mret (adapter, params, key)
      | _ => raise SpecError "claim spec effect_key is missing or malformed"
      end
  | _ => raise SpecError "claim carries no spec object"
  end.

(** ** The bound input of a dependent task *)

Definition is_safe_relative_path (name : json) : bool :=
  match name with
  | JStr s =>
      (negb (bool_decide (s = "")) && (py_len s <=? 1024) && negb (py_in (String "000" "") s)
       && negb (py_in "\" s) && negb (startswith s "/") && negb (py_in ":" s)
       && forallb (λ p, negb (bool_decide (p ∈ [""; "."; ".."]))) (split_slash s))%bool
  | _ => false
  end.

Definition clean_ref (ref : json) : option json :=
  match ref with
  | JObj r =>
      let path := jget_none "path" r in
      let sha := jget_none "sha256" r in
      if (is_safe_relative_path path && match sha with JStr s => sha256_hex_match s | _ => false end)%bool
      then Some (JObj [("path", path); ("sha256", sha)]) else None
  | _ => None
  end.

Definition short_text (j : json) : bool :=
  match j with JStr s => (negb (bool_decide (s = "")) && (py_len s <=? 200))%bool | _ => false end.

Definition request_input (spec : json) : result (option json) :=
  match spec with
  | JObj kvs =>
      match jget_none "input" kvs with
      | JNull => mret None
      | JObj value =>
          spec_if (negb (forallb (λ k, bool_decide (k ∈ INPUT_KEYS)) (keys value)
                         && forallb (λ k, jhas k value) INPUT_KEYS)%bool) "claim spec input is malformed";;
          spec_if (negb (forallb (λ k, short_text (jget_none k value)) ["task_id"; "dispatch_id"; "result_id"]))
            "claim spec input is missing or malformed";;
          match jget_none "artifacts" value with
          | JArr l =>
              spec_if (bool_decide (l = []) || (MAX_INPUT_ARTIFACTS <? length l)%nat)%bool
                "claim spec input names no artifact";;
              clean ← of_option (Exn SpecError "claim spec input artifact is malformed") (mapM clean_ref l);
              mret (Some (JObj [("task_id", jget_none "task_id" value);
                                ("dispatch_id", jget_none "dispatch_id" value);
                                ("result_id", jget_none "result_id" value); ("artifacts", JArr clean)]))
          | _ => raise SpecError "claim spec input names no artifact"
          end
      | _ => raise SpecError "claim spec input is malformed"
      end
  | _ => mret None
  end.

End params.

(** ** From a claim to a spec *)

(** The worker's interpreter and the path of its runner script. *)
Class WorkerPlatform := { sys_executable : string; RUNNER_SCRIPT : string }.

Section resolve.
Context `{PyPlatform} `{UnicodeAlnum} `{WorkerPlatform}.

Definition _safe (dispatch_id : string) : string :=
  match String.concat "" (map (λ c, if (safe_char c || bool_decide (c = "."))%bool then c else "_")
                            (chars dispatch_id)) with
  | "" => "unnamed"
  | s => s
  end.

Definition request_path (home dispatch_id : string) : string :=
  path_join (path_join (path_join home "run") "requests") (_safe dispatch_id +:+ ".json").
Definition report_path (home dispatch_id : string) : string :=
  path_join (path_join (path_join home "run") "reports") (_safe dispatch_id +:+ ".json").

Definition runner_argv (home dispatch_id : string) : list string :=
  [sys_executable; RUNNER_SCRIPT; request_path home dispatch_id].

Definition nonempty_text (j : json) (why : string) : result string :=
  match j with
  | JStr s => if decide (s = "") then raise SpecError why else mret s
  | _ => raise SpecError why
  end.

(** [float(value)] of a number, which an [int] can be too large for. *)
Definition float_number (j : json) : result Q :=
  match num_val j with Some _ => py_float (λ _, None) j | None => raise TypeError "float() argument" end.

(** [resolve_spec], where the caller names the home. *)
Definition resolve_spec (claim : json) (worker_id artifacts_root : string) (heartbeat_s : Q) (home : string)
    : result ExecutionSpec :=
  match claim with
  | JObj kvs =>
      let spec := jget_none "spec" kvs in
      task_id ← nonempty_text (jget_none "task_id" kvs) "claim carries no task_id";
      dispatch_id ← nonempty_text (jget_none "dispatch_id" kvs) "claim carries no dispatch_id";
      attempt ← of_option (Exn SpecError "claim carries no valid attempt")
        (match jget_none "attempt" kvs with JInt n => if n <? 1 then None else Some n | _ => None end);
      ttl_s ← of_option (Exn SpecError "claim carries no valid ttl_s")
        (match num_val (jget_none "ttl_s" kvs) with
         | Some q => if Qle_bool 1 q then Some (jget_none "ttl_s" kvs) else None
         | None => None
         end);
      '(adapter, params, effect_key) ← validate_request spec;
      bound ← request_input spec;
      let field k := match spec with JObj s => jget_none k s | _ => JNull end in
      let t := field "timeout_s" in
      timeout_s ← of_option (Exn SpecError "claim spec timeout_s is out of bounds")
        (match num_val (if py_truthy t then t else JInt DEFAULT_TIMEOUT_S) with
         | Some q => if positive_to q MAX_TIMEOUT_S then Some q else None
         | None => None
         end);
      heartbeat_s ← match num_val (jget_none "heartbeat_s" kvs) with
                    | Some q => if Qle_bool q 0 then mret heartbeat_s
                                else q ← float_number (jget_none "heartbeat_s" kvs); mret (Qmin heartbeat_s q)
                    | None => mret heartbeat_s
                    end;
      let result_id := "r-" +:+ dispatch_id in
      spec_if (200 <? py_len result_id) "dispatch_id leaves no room for a result_id within 200 chars";;
      lease_ttl_s ← float_number ttl_s;
      post_init {|
        xs_task_id := task_id; xs_attempt := attempt; xs_dispatch_id := dispatch_id; xs_worker_id := worker_id;
        xs_result_id := result_id; xs_argv := runner_argv home dispatch_id; xs_timeout_s := timeout_s;
        xs_lease_ttl_s := lease_ttl_s; xs_artifact_dir := path_join artifacts_root dispatch_id;
        xs_heartbeat_s := heartbeat_s; xs_adapter := Some adapter; xs_params := params;
        xs_effect_key := effect_key; xs_effect_class := field "effect_class"; xs_input := bound |}
  | _ => raise SpecError "claim is not an object"
  end.

End resolve.
