(* ===== verification/WorkerSpecSafety.v ===== *)
(** * What a claim can make a worker do

    A claim that resolves gives a bounded spec that runs Courier's own runner
    on a request below the worker's home, with parameters that the adapter
    accepts and inputs below the home; nothing else than [SpecError],
    [TypeError] and [OverflowError] is raised. *)

From Stdlib Require Import Ascii Qminmax.
From S2P Require Import Prelude PyText AsciiText Scope Utf8 Json PyNumbers Sha256 Events LockManager WorkerSpec.

(** ** Names *)

Lemma word_char_ascii a : word_char a = true → code a < 128.
Proof.
  unfold word_char, is_digit. intros H.
  repeat (apply orb_true_iff in H as [H|H]); bool_hyps; lia.
Qed.

Lemma class_then_end_ascii cls n s :
  (∀ a, cls a = true → code a < 128) → class_then_end cls n s = true → is_ascii s = true.
Proof.
  intros Hcls. revert n. induction s as [|a s IH]; intros n Hs; [done|]. cbn [class_then_end] in Hs.
  assert (code a < 128 ∧ is_ascii s = true) as [Ha Hr].
  { apply orb_true_iff in Hs as [Hs|Hs].
    - bool_hyps. destruct s; [|done]. split; [lia|done].
    - destruct n; [done|]. bool_hyps. split; [by apply Hcls|by eapply IH]. }
  change (String a s) with (String a "" +:+ s). rewrite is_ascii_app, Hr, andb_true_r.
  unfold is_ascii. simpl. rewrite andb_true_r. by apply Z.ltb_lt.
Qed.

Lemma safe_id_ascii s : safe_id s = true → is_ascii s = true.
Proof.
  intros H. unfold safe_id in H. bool_hyps. unfold SAFE_DISPATCH_ID_RE in *. destruct s as [|a s]; [done|].
  unfold class_match in *. cbn [String.length] in *. bool_hyps.
  change (String a s) with (String a "" +:+ s). rewrite is_ascii_app. apply andb_true_iff. split.
  - unfold is_ascii. simpl. rewrite andb_true_r. by apply Z.ltb_lt, word_char_ascii.
  - eapply class_then_end_ascii; [|done]. apply word_char_ascii.
Qed.

Lemma bounded_names x : bounded x → safe_id (xs_dispatch_id x) = true ∧ safe_id (xs_result_id x) = true.
Proof. intros Hb. pose proof (names_safe _ Hb) as Hn. rewrite !Forall_cons in Hn. naive_solver. Qed.

Lemma concat_slash_free l : Forall (λ c, slash_free c = true) l → slash_free (String.concat "" l) = true.
Proof.
  intros Hl. assert (String.concat "" l = foldr (λ a b, a +:+ b) "" l) as ->.
  { clear Hl. induction l as [|c [|c' l] IH]; [done|simpl; by rewrite string_app_nil_r|].
    change (c +:+ "" +:+ String.concat "" (c' :: l) = c +:+ foldr (λ a b, a +:+ b) "" (c' :: l)). by rewrite IH. }
  unfold slash_free in *. induction Hl as [|c l Hc Hl IH]; [done|].
  simpl. by rewrite list_ascii_app, forallb_app, Hc, IH.
Qed.

Lemma safe_name_slash_free `{UnicodeAlnum} d : is_ascii d = true → slash_free (_safe d) = true.
Proof.
  intros Hd. unfold _safe. rewrite chars_ascii by done. rewrite map_map.
  assert (slash_free (String.concat "" (map (λ a, if (safe_char (char1 a) || bool_decide (char1 a = "."))%bool
    then char1 a else "_") (String.list_ascii_of_string d))) = true) as Hs.
  { apply concat_slash_free, Forall_map, Forall_forall. intros a _.
    destruct (_ || _)%bool eqn:E; [|done]. unfold slash_free, char1 in *. simpl.
    destruct (Ascii.eqb_spec a "/") as [->|]; done. }
  by destruct (String.concat _ _).
Qed.

Lemma slash_free_start s t : slash_free s = true → s ≠ "" → startswith (s +:+ t) "/" = false.
Proof.
  destruct s as [|a s]; [done|]. intros Hs _. unfold startswith. rewrite string_app_cons. cbn [String.prefix].
  by destruct (Ascii.ascii_dec "/" a) as [<-|].
Qed.

(** ** What is raised *)

(** Only exceptions of these classes, each saying so in ASCII. *)
Definition raising {A} (cls : list exn_class) (r : result A) : Prop :=
  ∀ x, r = Err x → is_ascii (exn_msg x) = true ∧ exn_cls x ∈ cls.

Definition says (cls : list exn_class) (c : exn_class) (m : string) : bool := (is_ascii m && bool_decide (c ∈ cls))%bool.

Section raising.
Context (cls : list exn_class).

Lemma raising_bind {A B} (r : result A) (f : A → result B) :
  raising cls r → (∀ a, raising cls (f a)) → raising cls (r ≫= f).
Proof. intros Hr Hf x. destruct r as [a|y]; [apply Hf|]. intros [= ->]. by apply Hr. Qed.
Lemma raising_ret {A} (a : A) : raising cls (mret a).
Proof. done. Qed.
Lemma raising_raise {A} c m : says cls c m = true → raising cls (raise c m : result A).
Proof. intros Hm x [= <-]. unfold says in Hm. by bool_hyps. Qed.
Lemma raising_if b c m : says cls c m = true → raising cls (raise_if b (Exn c m)).
Proof. intros Hm x; destruct b; [intros [= <-]|done]. unfold says in Hm. by bool_hyps. Qed.
Lemma raising_option {A} (o : option A) c m : says cls c m = true → raising cls (of_option (Exn c m) o).
Proof. intros Hm x; destruct o; [done|intros [= <-]]. unfold says in Hm. by bool_hyps. Qed.
Lemma raising_as r c inner :
  raising inner r → (∀ c', c' ∈ inner → c' = c ∨ c' ∈ cls) → SpecError ∈ cls → raising cls (as_spec_error r c).
Proof.
  intros Hr Hc Hs x. unfold as_spec_error. destruct r as [|y]; [done|].
  case_decide as Hy; [by intros [= <-]|]. intros [= <-]. destruct (Hr y eq_refl) as [Hm Hin].
  split; [done|]. by destruct (Hc _ Hin).
Qed.

End raising.

Ltac raising :=
  repeat first
    [ solve [eauto with raising] | apply raising_bind; [|intros ?] | apply raising_ret
    | apply raising_raise; reflexivity | apply raising_if; reflexivity | apply raising_option; reflexivity
    | progress case_match ].

Create HintDb raising.

(** The artifacts of an input lie below the home. *)
Definition contained (p : string) : Prop := startswith p "/" = false ∧ Forall (λ q, q ≠ "..") (split_slash p).
Definition input_contained (b : json) : Prop :=
  ∃ kvs l, b = JObj kvs ∧ jget "artifacts" kvs = Some (JArr l) ∧ l ≠ [] ∧
    Forall (λ r, ∃ p s, r = JObj [("path", JStr p); ("sha256", JStr s)] ∧ contained p) l.

Section specs.
Context `{PyPlatform} `{UnicodeAlnum} `{WorkerPlatform}.

#[local] Abbreviation errors := [SpecError; TypeError; OverflowError].

Lemma json_in_raising j l cls : bool_decide (TypeError ∈ cls) = true → raising cls (json_in_strs j l).
Proof. intros Hc. unfold json_in_strs. case_match; [done|]. by apply raising_raise. Qed.

Lemma synthetic_raising p : raising [SyntheticError; TypeError] (synthetic_params p).
Proof. unfold synthetic_params. raising; by apply json_in_raising. Qed.

Lemma local_shell_raising p : raising [LocalShellError] (local_shell_params p).
Proof. unfold local_shell_params. raising. Qed.

Lemma adapters_raising a f p : ADAPTERS a = Some f → raising errors (f p).
Proof.
  unfold ADAPTERS. intros Ha. repeat case_decide; simplify_eq; (eapply raising_as;
    [apply synthetic_raising || apply local_shell_raising|set_solver|set_solver]).
Qed.

Lemma validate_raising spec : raising errors (validate_request spec).
Proof.
  unfold validate_request. destruct spec as [| | | | | |kvs]; try by apply raising_raise.
  apply raising_bind; [by apply raising_if|intros _].
  destruct (jget_none "adapter" kvs) as [| | | |a| |]; try by apply raising_raise.
  destruct (ADAPTERS a) as [f|] eqn:Ef; [|by apply raising_raise].
  cbn [of_option fmap option_fmap option_map mbind result_bind].
  apply raising_bind; [by raising|intros p]. apply raising_bind; [by apply raising_if|intros _].
  apply raising_bind; [by eapply adapters_raising|intros _]. raising.
Qed.

Lemma input_raising spec : raising errors (request_input spec).
Proof. unfold request_input, spec_if. raising. Qed.

Lemma post_init_raising x : raising errors (post_init x).
Proof. unfold post_init, name_ok, spec_if. raising. Qed.

Lemma float_raising j : raising errors (float_number j).
Proof.
  unfold float_number. destruct (num_val j) as [q|] eqn:Hj; [|by apply raising_raise].
  unfold py_float. destruct j; try done. case_match; [by apply raising_raise|done].
Qed.

#[local] Hint Resolve validate_raising input_raising post_init_raising float_raising : raising.

Lemma resolve_raising claim who root hb home : raising errors (resolve_spec claim who root hb home).
Proof. unfold resolve_spec, nonempty_text, spec_if. destruct claim; try by apply raising_raise. raising. Qed.

(** ** What a claim resolves to *)

Lemma validate_Ok spec adapter params key :
  validate_request spec = Ok (adapter, params, key) →
  ∃ kvs check, spec = JObj kvs ∧ jget "argv" kvs = None ∧ ADAPTERS adapter = Some check ∧ check params = Ok tt
    ∧ jget "params" kvs = Some (JObj params) ∧ EFFECT_KEY_RE key = true.
Proof.
  unfold validate_request. destruct spec as [| | | | | |kvs]; try done. unfold spec_if. intros Hv.
  inv_ok. destruct (jget_none "adapter" kvs) as [| | | |a'| |] eqn:Ea; try done.
  destruct (ADAPTERS a') as [f|] eqn:Ef; [|done]. simpl in *. simplify_eq. cbn [fst snd] in *. inv_ok.
  destruct (jget_none "effect_key" kvs) as [| | | |k| |]; try done. inv_ok. bool_hyps.
  exists kvs, f. unfold jhas in *. split_and!; try done.
  - by destruct (jget "argv" kvs).
  - by repeat match goal with u : () |- _ => destruct u end.
  - unfold jget_none in *. destruct (jget "params" kvs) as [[]|]; simpl in *; by simplify_eq.
Qed.

Lemma clean_ref_Some ref r :
  clean_ref ref = Some r → ∃ p s, r = JObj [("path", JStr p); ("sha256", JStr s)] ∧ contained p.
Proof.
  unfold clean_ref. destruct ref as [| | | | | |kvs]; try done. intros Hr.
  destruct (jget_none "path" kvs) as [| | | |p| |], (jget_none "sha256" kvs) as [| | | |s| |];
    simpl in Hr; rewrite ?andb_false_r in Hr; try done.
  destruct (_ && sha256_hex_match s)%bool eqn:E in Hr; [|done]. injection Hr as <-. exists p, s. split; [done|].
  bool_hyps. split; [done|]. rename select (forallb _ _ = true) into Hf. rewrite forallb_forall in Hf.
  apply Forall_forall. intros q Hq ->. apply list_elem_of_In in Hq. apply Hf in Hq. done.
Qed.

Lemma input_Ok spec b : request_input spec = Ok (Some b) → input_contained b.
Proof.
  unfold request_input, spec_if. destruct spec as [| | | | | |kvs]; try done.
  destruct (jget_none "input" kvs) as [| | | | | |value]; try done. intros Hr. inv_ok.
  destruct (jget_none "artifacts" value) as [| | | | |l|]; try done. inv_ok. bool_hyps.
  rename select (mapM _ _ = Some _) into Hm. apply mapM_Some_1 in Hm. eexists _, _. split; [done|].
  split; [done|]. split; [by intros ->; apply Forall2_nil_inv_r in Hm|].
  clear -Hm. induction Hm as [|ref r l l' Hr Hm IH]; constructor; [by eapply clean_ref_Some|done].
Qed.

(** What a claim resolves to. *)
Definition resolved (claim : json) (who root : string) (hb : Q) (home : string) (x : ExecutionSpec) : Prop :=
  ∃ kvs spec adapter check,
    claim = JObj kvs ∧ jget "dispatch_id" kvs = Some (JStr (xs_dispatch_id x)) ∧
    jget "spec" kvs = Some (JObj spec) ∧ jget "argv" spec = None ∧
    xs_adapter x = Some adapter ∧ ADAPTERS adapter = Some check ∧
    jget "params" spec = Some (JObj (xs_params x)) ∧ check (xs_params x) = Ok tt ∧
    EFFECT_KEY_RE (xs_effect_key x) = true ∧
    xs_worker_id x = who ∧ xs_result_id x = "r-" +:+ xs_dispatch_id x ∧
    xs_argv x = runner_argv home (xs_dispatch_id x) ∧ xs_artifact_dir x = path_join root (xs_dispatch_id x) ∧
    (xs_heartbeat_s x <= hb)%Q ∧ ∀ b, xs_input x = Some b → input_contained b.

Lemma resolve_Ok claim who root hb home x :
  resolve_spec claim who root hb home = Ok x → bounded x ∧ resolved claim who root hb home x.
Proof.
  unfold resolve_spec. destruct claim as [| | | | | |kvs]; try done. intros Hr. cbv zeta in Hr. inv_ok.
  destruct a3 as [[adapter params] key]. inv_ok. apply post_init_Ok in Hr as [-> Hb].
  rename select (validate_request _ = _) into Hv.
  apply validate_Ok in Hv as (spec & check & Es & Hargv & Hf & Hcheck & Hp & Hk).
  split; [done|]. exists kvs, spec, adapter, check. rewrite Es in *.
  split_and!; try done.
  - unfold nonempty_text, jget_none in *. destruct (jget "dispatch_id" kvs) as [[]|]; simpl in *; try done.
    case_decide; [done|]. by inv_ok.
  - unfold jget_none in Es. destruct (jget "spec" kvs); simpl in Es; [by subst|done].
  - simpl. destruct (num_val (jget_none "heartbeat_s" kvs)) as [q|]; [destruct (Qle_bool q 0)|];
      inv_ok; try (rename select (mret _ = Ok _) into Hh; injection Hh as <-); first [apply Qle_refl|apply Q.le_min_l].
  - simpl. intros b ->. by eapply input_Ok.
Qed.

Definition requests_dir (home : string) : string := path_join (path_join home "run") "requests".

Lemma request_path_below home d :
  is_ascii d = true → ∃ name, slash_free name = true ∧
    (request_path home d = requests_dir home +:+ "/" +:+ name +:+ ".json").
Proof.
  intros Hd. exists (_safe d). split; [by apply safe_name_slash_free|].
  unfold request_path. fold (requests_dir home). unfold path_join at 1.
  assert (_safe d ≠ "") as Hne by (unfold _safe; by destruct (String.concat _ _)).
  rewrite slash_free_start by (done || by apply safe_name_slash_free).
  assert (∃ u, requests_dir home = u +:+ "requests") as [u Hu].
  { unfold requests_dir. set (r := path_join home "run"). unfold path_join. simpl startswith.
    destruct (_ || _)%bool; eexists; [done|]. by rewrite string_app_assoc. }
  rewrite bool_decide_false by (rewrite Hu; by destruct u).
  assert (ends_with "/" (requests_dir home) = false) as ->; [|done]. rewrite Hu.
  clear. induction u as [|a u IH]; [done|]. rewrite string_app_cons. cbn [ends_with].
  destruct (u +:+ "requests") eqn:E; [|done]. by destruct u.
Qed.

(** C13: a claim can only make a worker do what it is built for: whatever the
    answer to a claim is (of finite numbers, as all JSON here), either it is
    refused with [SpecError] (or, for a transform that cannot be looked up,
    [TypeError], for a time beyond the floats, [OverflowError]), or it gives a spec
    within every bound, that runs Courier's runner on a request file directly
    below the home's request directory, for an adapter of the closed list
    whose own check accepts the parameters, with inputs below the home and a
    heartbeat no slower than asked for. *)
Theorem claims_resolve_safely claim who root hb home :
  match resolve_spec claim who root hb home with
  | Err e => exn_cls e = SpecError ∨ exn_cls e = TypeError ∨ exn_cls e = OverflowError
  | Ok x =>
      bounded x ∧ resolved claim who root hb home x ∧
      ∃ name, slash_free name = true ∧
        xs_argv x = [sys_executable; RUNNER_SCRIPT; requests_dir home +:+ "/" +:+ name +:+ ".json"]
  end.
Proof.
  destruct (resolve_spec claim who root hb home) as [x|e] eqn:Er.
  - apply resolve_Ok in Er as [Hb Hx]. split; [done|]. split; [done|].
    destruct Hx as (kvs & spec & adapter & check & Hx). destruct_and! Hx.
    destruct (request_path_below home (xs_dispatch_id x)) as (name & Hn & Ep).
    { apply safe_id_ascii. by apply bounded_names. }
    exists name. split; [done|]. rename select (xs_argv x = _) into Ha. rewrite Ha. unfold runner_argv. by rewrite Ep.
  - apply resolve_raising in Er as [_ Hin]. set_solver.
Qed.

End specs.
