(* ===== verification/OrphanGate.v ===== *)
(** * Trees of dead workers ([courier_worker/host.py], POSIX)

    A worker records the process it starts for a dispatch in a claim file.
    Before another worker of the same home starts, [run_orphan_gate] stops the
    trees whose owner is gone.  The operating system is asked by the number of
    the question and takes its time; what was asked and signalled is kept as a
    trace. *)

From Stdlib Require Import Qabs.
From S2P Require Import Prelude PyText AsciiText Utf8 Json JsonAscii PyNumbers WorkerSpec.

Definition ORPHAN_TERM_GRACE_S : Q := 2.

Inductive Signal := SIGTERM | SIGKILL.

(** The answers of the system: whether [os.kill(pid, 0)] succeeds, the create
    time [psutil] tells, [os.getpgid], whether [os.killpg] with no signal or
    with a signal succeeds; and how long each question takes. *)
Class System := {
  sys_alive : nat → Z → bool;
  sys_created : nat → Z → option Q;
  sys_getpgid : nat → Z → option Z;
  sys_group : nat → Z → bool;
  sys_signal : nat → Z → Signal → bool;
  sys_took : nat → Q;
}.

(** What was answered, and what was sent. *)
Inductive act :=
  | Alive (pid : Z) (answer : bool)
  | Created (pid : Z) (answer : option Q)
  | Group (pid : Z) (answer : option Z)
  | Present (pgid : Z) (answer : bool)
  | Sent (pgid : Z) (s : Signal) (delivered : bool).

Record Gate := mkGate {
  g_claims : gmap string string;
  g_corrupt : gmap string string;
  g_acts : list act;
  g_asked : nat;
  g_now : Q;
}.

(** [None]: a loop had not ended when its fuel ran out. *)
Definition G (A : Type) : Type := Gate → option (result A * Gate).
#[export] Instance G_ret : MRet G := λ A a g, Some (Ok a, g).
#[export] Instance G_bind : MBind G := λ A B f m g,
  match m g with
  | Some (Ok a, g) => f a g
  | Some (Err e, g) => Some (Err e, g)
  | None => None
  end.
Definition glift {A} (r : result A) : G A := λ g, Some (r, g).

(** A question, with its answer in the trace; [time.monotonic]; [time.sleep]. *)
Definition inquire `{System} {A} (f : nat → A) (k : A → act) : G A := λ g,
  let n := g_asked g in
  Some (Ok (f n), mkGate (g_claims g) (g_corrupt g) (g_acts g ++ [k (f n)]) (S n) (g_now g + sys_took n)).
Definition clock : G Q := λ g, Some (Ok (g_now g), g).
Definition sleep (s : Q) : G unit := λ g,
  Some (Ok tt, mkGate (g_claims g) (g_corrupt g) (g_acts g) (g_asked g) (g_now g + s)).

Section gate.
Context `{PyPlatform} `{System}.
(** [float(text)]; [None] when the text is no number. *)
Context (float_of_text : string → option Q).
Local Notation py_float := (py_float float_of_text).

(** A process id as the system takes it. *)
Definition pid_max : Z := 2 ^ 31 - 1.
Definition as_pid (j : json) : result Z :=
  n ← match j with
      | JInt n => Ok n
      | JBool b => Ok (if b then 1 else 0)
      | _ => raise TypeError "an integer is required"
      end;
  if (n <? - 2 ^ 31) || (pid_max <? n) then raise OverflowError "signed integer is out of range" else Ok n.

Definition _get_process_create_time (pid : Z) : G (option Q) :=
  if pid <=? 0 then mret None else inquire (λ n, sys_created n pid) (Created pid).

(** More than a second apart. *)
Definition recycled (live recorded : Q) : bool := negb (Qle_bool (Qabs (live - recorded)) 1).

Definition _owner_alive (owner_pid : Z) (owner_create_time : option Q) : G bool :=
  if owner_pid <=? 0 then mret false
  else
    _ ← glift (as_pid (JInt owner_pid));
    alive ← inquire (λ n, sys_alive n owner_pid) (Alive owner_pid);
    if negb alive then mret false
    else
      match owner_create_time with
      | None => mret true
      | Some t =>
          live ← _get_process_create_time owner_pid;
          mret match live with Some l => negb (recycled l t) | None => true end
      end.

(** [x or 0] of a field that may be missing. *)
Definition or_zero (j : json) : json := if py_truthy j then j else JInt 0.

Definition is_conversion_error (e : exn) : bool := (is_value_error e || bool_decide (exn_cls e = TypeError))%bool.

(** The child of a record was replaced by an unrelated process. *)
Definition child_recycled (child_pid : Z) (child_create_time : json) : G bool :=
  if is_null child_create_time then mret false
  else
    match py_float child_create_time with
    | Ok t =>
        live ← _get_process_create_time child_pid;
        mret match live with Some l => recycled l t | None => false end
    | Err e => if is_conversion_error e then mret false else glift (Err e)
    end.

(** The loop that waits for a group to be gone: [true] when it was seen gone. *)
Fixpoint wait_gone (fuel : nat) (pgid : Z) (deadline : Q) : G bool :=
  now ← clock;
  if Qle_bool deadline now then mret false
  else
    present ← inquire (λ n, sys_group n pgid) (Present pgid);
    if negb present then mret true
    else
      _ ← sleep (1 # 20);
      match fuel return G bool with O => λ _, None | S fuel => wait_gone fuel pgid deadline end.

(** A group is told to end, and ended when it did not. *)
Definition stop_group (fuel : nat) (pgid : Z) : G unit :=
  sent ← inquire (λ n, sys_signal n pgid SIGTERM) (Sent pgid SIGTERM);
  if negb sent then mret tt
  else
    start ← clock;
    gone ← wait_gone fuel pgid (start + ORPHAN_TERM_GRACE_S);
    if (gone : bool) then mret tt else _ ← inquire (λ n, sys_signal n pgid SIGKILL) (Sent pgid SIGKILL); mret tt.

Definition _reap_orphan (fuel : nat) (record : list (string * json)) : G unit :=
  child_pid ← glift (py_int (or_zero (jget_none "child_pid" record)));
  other ← child_recycled child_pid (jget_none "child_create_time" record);
  if (other : bool) then mret tt
  else
    let pgid := jget_none "pgid" record in
    let pgid := if (is_null pgid && negb (child_pid =? 0))%bool then JInt child_pid else pgid in
    if negb (py_truthy pgid) then mret tt
    else
      stranger ←
        (if child_pid =? 0 then mret false
         else
           _ ← glift (as_pid (JInt child_pid));
           group ← inquire (λ n, sys_getpgid n child_pid) (Group child_pid);
           mret match group with Some p => negb (py_eq (JInt p) pgid) | None => false end);
      if (stranger : bool) then mret tt
      else
        pgid ← glift (as_pid pgid);
        stop_group fuel pgid.

(** ** The gate *)

(** [json.loads(text)] and the owner, or an exception. *)
Definition read_record (text : string) : result (list (string * json) * Z) :=
  record ← (if utf8_valid text then loads text else raise UnicodeDecodeError "invalid start byte");
  match record with
  | JObj kvs => owner_pid ← py_int (or_zero (jget_none "owner_pid" kvs)); mret (kvs, owner_pid)
  | _ => raise AttributeError "get"
  end.

Definition owner_time (record : list (string * json)) : result (option Q) :=
  let t := jget_none "owner_create_time" record in
  if is_null t then Ok None
  else match py_float t with
       | Ok q => Ok (Some q)
       | Err e => if is_conversion_error e then Ok None else Err e
       end.

Definition set_aside (name text : string) : G unit := λ g,
  Some (Ok tt, mkGate (delete name (g_claims g)) (<[name +:+ ".corrupt" := text]> (g_corrupt g)) (g_acts g) (g_asked g) (g_now g)).
Definition unlink (name : string) : G unit := λ g,
  Some (Ok tt, mkGate (delete name (g_claims g)) (g_corrupt g) (g_acts g) (g_asked g) (g_now g)).

(** One turn of the loop: whether a record was handled. *)
Definition gate_one (fuel : nat) (name text : string) : G bool :=
  match read_record text with
  | Err e => if is_conversion_error e then _ ← set_aside name text; mret false else glift (Err e)
  | Ok (record, owner_pid) =>
      t ← glift (owner_time record);
      alive ← _owner_alive owner_pid t;
      if (alive : bool) then mret false
      else _ ← _reap_orphan fuel record; _ ← unlink name; mret true
  end.

Fixpoint gate_all (fuel : nat) (files : list (string * string)) (handled : Z) : G Z :=
  match files with
  | [] => mret handled
  | (name, text) :: files =>
      one ← gate_one fuel name text;
      gate_all fuel files (if (one : bool) then handled + 1 else handled)
  end.

Definition name_le (a b : string * string) : Prop := String.le a.1 b.1.
#[export] Instance name_le_dec : RelDecision name_le.
Proof. intros a b. unfold name_le. apply _. Defined.

Definition run_orphan_gate (fuel : nat) : G Z := λ g,
  gate_all fuel (merge_sort name_le (map_to_list (g_claims g))) 0 g.

(** ** The records *)

(** [_write_claim_record] of a run with process [child_pid], which leads the
    group of its number ([group_id]); times are [repr]s. *)
Definition time_json (t : option string) : json := match t with Some tok => JFloat tok | None => JNull end.
Definition claim_record (x : ExecutionSpec) (owner_pid child_pid : Z) (owner_time child_time : option string) : json :=
  JObj [("task_id", JStr (xs_task_id x)); ("attempt", JInt (xs_attempt x)); ("dispatch_id", JStr (xs_dispatch_id x));
        ("worker_id", JStr (xs_worker_id x)); ("owner_pid", JInt owner_pid); ("owner_create_time", time_json owner_time);
        ("child_pid", JInt child_pid); ("child_create_time", if 0 <? child_pid then time_json child_time else JNull);
        ("pgid", JInt child_pid)].
Definition record_text (record : json) : string := dumps_spaced (canon record).

End gate.
