(* ===== verification/OrphanGateSafety.v ===== *)
(** * Only the trees of dead workers are stopped

    What [run_orphan_gate] may signal, what becomes of the claim files, and
    that the gate comes to an end.  The theorems hold for any answers of the
    system. *)

From Stdlib Require Import Ascii Qabs Lqa.
From S2P Require Import Prelude PyText AsciiText Utf8 Json JsonAscii PyNumbers WorkerSpec OrphanGate.

Section gate.
Context `{PyPlatform} `{System}.
Context (float_of_text : string → option Q).
Local Notation py_float := (py_float float_of_text).
Local Notation owner_time := (owner_time float_of_text).
Local Notation child_recycled := (child_recycled float_of_text).
Local Notation _reap_orphan := (_reap_orphan float_of_text).
Local Notation gate_one := (gate_one float_of_text).
Local Notation gate_all := (gate_all float_of_text).
Local Notation run_orphan_gate := (run_orphan_gate float_of_text).

(** ** Reasoning about traces

    [triple P m Q]: when the trace of one record, from some point on, is one
    of [P], then after [m] it is one of [Q], and no file changed. *)
Definition triple {A} (P : list act → Prop) (m : G A) (Q : result A → list act → Prop) : Prop :=
  ∀ base seg g r g', g_acts g = base ++ seg → P seg → m g = Some (r, g') →
    (g_claims g' = g_claims g ∧ g_corrupt g' = g_corrupt g) ∧ ∃ seg', g_acts g' = base ++ seg' ∧ Q r seg'.

Lemma triple_ret {A} (a : A) (P : list act → Prop) (Q : result A → list act → Prop) :
  (∀ seg, P seg → Q (Ok a) seg) → triple P (mret a) Q.
Proof. intros HQ base seg g r g' Hg HP [= <- <-]. eauto 10. Qed.

Lemma triple_lift {A} (x : result A) (P : list act → Prop) (Q : result A → list act → Prop) :
  (∀ seg, P seg → Q x seg) → triple P (glift x) Q.
Proof. intros HQ base seg g r g' Hg HP [= <- <-]. eauto 10. Qed.

Lemma triple_bind {A B} (m : G A) (f : A → G B) P (R : A → list act → Prop) Q :
  triple P m (λ r seg, match r with Ok a => R a seg | Err e => Q (Err e) seg end) →
  (∀ a, triple (R a) (f a) Q) → triple P (m ≫= f) Q.
Proof.
  intros Hm Hf base seg g r g' Hg HP Hr. unfold mbind, G_bind in Hr.
  destruct (m g) as [[[a|e] g1]|] eqn:Em; [|simplify_eq; exact (Hm base seg g _ _ Hg HP Em)|done].
  destruct (Hm base seg g _ g1 Hg HP Em) as ([Hc1 Hk1] & seg1 & Hg1 & HR).
  destruct (Hf a base seg1 g1 r g' Hg1 HR Hr) as ([Hc2 Hk2] & Hrest). split; [|done]. split; congruence.
Qed.

Lemma triple_inquire {A} (f : nat → A) (k : A → act) (P : list act → Prop) (Q : result A → list act → Prop) :
  (∀ a seg, P seg → Q (Ok a) (seg ++ [k a])) → triple P (inquire f k) Q.
Proof.
  intros HQ base seg g r g' Hg HP [= <- <-]. split; [done|]. eexists. split; [|by apply HQ]. simpl. by rewrite Hg, app_assoc.
Qed.

Lemma triple_clock (P : list act → Prop) (Q : result Q → list act → Prop) :
  (∀ a seg, P seg → Q (Ok a) seg) → triple P clock Q.
Proof. intros HQ base seg g r g' Hg HP [= <- <-]. split; [done|]. exists seg. split; [done|by apply HQ]. Qed.

Lemma triple_sleep s (P : list act → Prop) (Q : result unit → list act → Prop) :
  (∀ seg, P seg → Q (Ok tt) seg) → triple P (sleep s) Q.
Proof. intros HQ base seg g r g' Hg HP [= <- <-]. split; [done|]. exists seg. split; [done|by apply HQ]. Qed.

Lemma triple_weaken {A} (m : G A) P P' (Q Q' : result A → list act → Prop) :
  (∀ seg, P seg → P' seg) → (∀ r seg, Q' r seg → Q r seg) → triple P' m Q' → triple P m Q.
Proof. intros HP HQ Hm base seg g r g' Hg Hs Hr. destruct (Hm base seg g r g') as (? & ? & ? & ?); eauto 10. Qed.

(** ** Who is signalled *)

Section record.
Context (record : list (string * json)) (owner_pid : Z).

(** The owner is gone: there is no such process, or another one now has its
    number. *)
Definition owner_gone (seen : list act) : Prop :=
  owner_pid ≤ 0 ∨ Alive owner_pid false ∈ seen ∨
  ∃ t l, owner_time record = Ok (Some t) ∧ Created owner_pid (Some l) ∈ seen ∧ recycled l t = true.

(** The group the record names. *)
Definition named_group (child_pid : Z) : json :=
  let pgid := jget_none "pgid" record in
  if (is_null pgid && negb (child_pid =? 0))%bool then JInt child_pid else pgid.

(** The group is still that of the record's child, as far as the system
    tells: the child is gone or in this group, and no later process took its
    number. *)
Definition group_of_child (seen : list act) (pgid : Z) : Prop :=
  ∃ child_pid, py_int (or_zero (jget_none "child_pid" record)) = Ok child_pid ∧
    py_truthy (named_group child_pid) = true ∧ as_pid (named_group child_pid) = Ok pgid ∧
    (child_pid = 0 ∨ ∃ group, Group child_pid group ∈ seen ∧ ∀ p, group = Some p → py_eq (JInt p) (named_group child_pid) = true) ∧
    (∀ t, is_null (jget_none "child_create_time" record) = false → py_float (jget_none "child_create_time" record) = Ok t →
      0 < child_pid → ∃ created, Created child_pid created ∈ seen ∧ ∀ l, created = Some l → recycled l t = false).

(** Every signal of a trace was justified by what was seen before it, and
    only a group that was told to end is ended. *)
Definition justified (acts : list act) : Prop :=
  ∀ seen pgid s delivered later, acts = seen ++ Sent pgid s delivered :: later →
    owner_gone seen ∧ group_of_child seen pgid ∧ (s = SIGKILL → Sent pgid SIGTERM true ∈ seen).

Lemma justified_snoc acts a :
  justified acts → (∀ pgid s d, a = Sent pgid s d → owner_gone acts ∧ group_of_child acts pgid ∧ (s = SIGKILL → Sent pgid SIGTERM true ∈ acts)) →
  justified (acts ++ [a]).
Proof.
  intros Hj Ha seen pgid s d later E. destruct later as [|x later _] using rev_ind.
  - apply app_inj_tail in E as [-> ->]. by eapply Ha.
  - rewrite app_comm_cons, app_assoc in E. apply app_inj_tail in E as [-> _]. by eapply Hj.
Qed.

Lemma justified_quiet acts a : justified acts → (∀ pgid s d, a ≠ Sent pgid s d) → justified (acts ++ [a]).
Proof. intros Hj Ha. apply justified_snoc; [done|]. intros pgid s d E. by apply Ha in E. Qed.

Lemma owner_gone_snoc acts a : owner_gone acts → owner_gone (acts ++ [a]).
Proof.
  intros [?|[?|(t & l & ? & ? & ?)]]; [by left|right; left; set_solver|]. right. right. exists t, l. set_solver.
Qed.

Lemma group_of_child_snoc acts a pgid : group_of_child acts pgid → group_of_child (acts ++ [a]) pgid.
Proof.
  intros (child & Hc & Ht & Hp & Hg & Hr). exists child. split_and!; try done.
  - destruct Hg as [?|(group & Hin & Hg)]; [by left|]. right. exists group. split; [set_solver|done].
  - intros t Hn Hf Hpos. destruct (Hr t Hn Hf Hpos) as (created & Hin & Hl). exists created. split; [set_solver|done].
Qed.

Definition ok (seen : list act) : Prop := justified seen ∧ owner_gone seen.

Lemma ok_snoc acts a : ok acts → (∀ pgid s d, a ≠ Sent pgid s d) → ok (acts ++ [a]).
Proof. intros [Hj Ho] Ha. split; [by apply justified_quiet|by apply owner_gone_snoc]. Qed.

Definition ok_for (pgid : Z) (seen : list act) : Prop := ok seen ∧ group_of_child seen pgid.

Lemma ok_for_snoc pgid acts a : ok_for pgid acts → (∀ pgid s d, a ≠ Sent pgid s d) → ok_for pgid (acts ++ [a]).
Proof. intros [Ho Hg] Ha. split; [by apply ok_snoc|by apply group_of_child_snoc]. Qed.

Definition then_ok {A} (r : result A) (seen : list act) : Prop := ok seen.

Lemma wait_gone_triple fuel pgid deadline :
  triple (λ seen, ok_for pgid seen ∧ Sent pgid SIGTERM true ∈ seen) (wait_gone fuel pgid deadline)
    (λ _ seen, ok_for pgid seen ∧ Sent pgid SIGTERM true ∈ seen).
Proof.
  induction fuel as [|fuel IH]; cbn [wait_gone]; (eapply triple_bind; [by apply triple_clock; intros ? seen Hs; exact Hs|]);
    intros now; (destruct (Qle_bool deadline now); [by apply triple_ret|]);
    (eapply triple_bind; [apply triple_inquire; intros present seen [Hok Hin];
      instantiate (1 := λ _ seen, ok_for pgid seen ∧ Sent pgid SIGTERM true ∈ seen); split; [by apply ok_for_snoc|set_solver]|]);
    intros present; (destruct present; cbn [negb]; [|by apply triple_ret]);
    (eapply (triple_bind _ _ _ (λ _ seen, ok_for pgid seen ∧ Sent pgid SIGTERM true ∈ seen)); [by apply triple_sleep|]); intros _.
  - by intros base seg g r g' _ _ ?.
  - exact IH.
Qed.

Lemma stop_group_triple fuel pgid : triple (ok_for pgid) (stop_group fuel pgid) then_ok.
Proof.
  unfold stop_group. eapply triple_bind.
  - apply triple_inquire. intros sent seen [[Hj Ho] Hg].
    instantiate (1 := λ sent seen, ok seen ∧ (sent = true → ok_for pgid seen ∧ Sent pgid SIGTERM true ∈ seen)).
    assert (justified (seen ++ [Sent pgid SIGTERM sent])) as Hj'.
    { apply justified_snoc; [done|]. by intros ? ? ? [= <- <- _]. }
    assert (ok (seen ++ [Sent pgid SIGTERM sent])) as Hok by (split; [done|by apply owner_gone_snoc]).
    split; [done|]. intros ->. split; [|set_solver]. split; [done|by apply group_of_child_snoc].
  - intros sent. destruct sent; cbn [negb]; [|by apply triple_ret; intros seen [? _]].
    eapply triple_bind; [apply triple_clock; intros start seen [_ Hs]; exact (Hs eq_refl)|]. intros start.
    eapply triple_bind.
    { eapply triple_weaken; [intros seen Hs; exact Hs| |apply wait_gone_triple].
      intros [gone|e] seen Hs; [exact Hs|]. apply Hs. }
    intros gone. destruct gone; [by apply triple_ret; intros seen [[? _] _]|].
    eapply triple_bind; [|by intros a; apply triple_ret; intros seen Hs; exact Hs].
    apply triple_inquire. intros killed seen [[[Hj Ho] Hg] Hin]. split; [|by apply owner_gone_snoc]. apply justified_snoc; [done|].
    by intros ? ? ? [= <- <- _].
Qed.

Lemma child_recycled_triple child_pid :
  triple ok (child_recycled child_pid (jget_none "child_create_time" record))
    (λ r seen, ok seen ∧ (r = Ok false → ∀ t, is_null (jget_none "child_create_time" record) = false →
       py_float (jget_none "child_create_time" record) = Ok t → 0 < child_pid →
       ∃ created, Created child_pid created ∈ seen ∧ ∀ l, created = Some l → recycled l t = false)).
Proof.
  unfold child_recycled. destruct (is_null _) eqn:En; [by apply triple_ret|].
  destruct (py_float _) as [t|e] eqn:Ef.
  2: { destruct (is_conversion_error e); [by apply triple_ret|by apply triple_lift]. }
  unfold _get_process_create_time. destruct (Z.leb_spec child_pid 0).
  { apply triple_ret. intros seen Hs. split; [done|]. intros _ t' _ _ ?. lia. }
  eapply triple_bind.
  - apply triple_inquire. intros live seen Hs. instantiate (1 := λ live seen, ok seen ∧ Created child_pid live ∈ seen).
    split; [by apply ok_snoc|set_solver].
  - intros live. apply triple_ret. intros seen [Hs Hin]. split; [done|]. intros [= Hr] t' _ [= <-] _. exists live.
    split; [done|]. by intros l ->.
Qed.

Lemma reap_triple fuel : triple ok (_reap_orphan fuel record) then_ok.
Proof.
  unfold _reap_orphan. eapply triple_bind.
  { apply triple_lift. intros seen Hs.
    instantiate (1 := λ child seen, ok seen ∧ py_int (or_zero (jget_none "child_pid" record)) = Ok child).
    destruct (py_int _); [done|apply Hs]. }
  intros child. eapply triple_bind.
  { eapply (triple_weaken _ _ (λ seen, ok seen ∧ py_int (or_zero (jget_none "child_pid" record)) = Ok child)); [intros seen Hs; exact Hs| |].
    2: { intros base seg g r g' Hg [Hs Hc] Hr. destruct (child_recycled_triple child base seg g r g' Hg Hs Hr) as (? & seg' & ? & HQ).
         split; [done|]. exists seg'. split; [done|]. exact (conj HQ Hc). }
    intros [other|e] seen [HQ Hc]; [|apply HQ]. exact (conj HQ Hc). }
  intros other. destruct other; [apply triple_ret; by intros seen [[? _] _]|].
  fold (named_group child). set (target := named_group child).
  destruct (py_truthy target) eqn:Ht; cbn [negb]; [|apply triple_ret; by intros seen [[? _] _]].
  eapply (triple_bind _ _ _ (λ stranger seen, ok seen ∧ (stranger = false → ∀ pgid, as_pid target = Ok pgid → group_of_child seen pgid))).
  - destruct (Z.eqb_spec child 0) as [->|Hne].
    { apply triple_ret. intros seen [[Hs Hr] Hc]. split; [done|]. intros _ pgid Hp. exists 0. split_and!; try done. by left. }
    eapply (triple_bind _ _ _ (λ _ seen, (ok seen ∧ _) ∧ _)); [apply triple_lift; intros seen Hs; destruct (as_pid (JInt child)); [exact Hs|apply Hs]|].
    intros _. eapply triple_bind.
    + apply triple_inquire. intros group seen [[Hs Hr] Hc].
      instantiate (1 := λ group seen, ok seen ∧ (∀ p, (∀ q, group = Some q → py_eq (JInt q) target = true) → as_pid target = Ok p → group_of_child seen p)).
      split; [by apply ok_snoc|]. intros p Hq Hp. exists child. split_and!; try done.
      * right. exists group. split; [set_solver|done].
      * intros t Hn Hf Hpos. destruct (Hr eq_refl t Hn Hf Hpos) as (created & Hin & Hl). exists created. split; [set_solver|done].
    + intros group. apply triple_ret. intros seen [Hs Hp]. split; [done|]. intros Hst p Has. apply Hp; [|done].
      intros q ->. by apply negb_false_iff in Hst.
  - intros stranger. destruct stranger; [apply triple_ret; by intros seen [? _]|].
    eapply triple_bind; [|intros pgid; apply stop_group_triple].
    apply triple_lift. intros seen [Hs Hp]. destruct (as_pid target) as [pgid|]; [|apply Hs]. split; [done|by apply Hp].
Qed.

End record.

(** ** The gate *)

(** What happened in the turn of each claim file. *)
Definition turn_ok (files : list (string * string)) (turn : string * list act) : Prop :=
  ∃ text, (turn.1, text) ∈ files ∧
    match read_record text with
    | Ok (record, owner_pid) => justified record owner_pid turn.2
    | Err _ => turn.2 = []
    end.

(** A claim file is still there; or it could not be read and was set aside;
    or its owner was gone. *)
Definition file_ok (turns : list (string * list act)) (g g' : Gate) (file : string * string) : Prop :=
  let '(name, text) := file in
  g_claims g' !! name = Some text ∧ g_corrupt g' !! (name +:+ ".corrupt") = g_corrupt g !! (name +:+ ".corrupt") ∨
  g_claims g' !! name = None ∧
  match read_record text with
  | Err _ => g_corrupt g' !! (name +:+ ".corrupt") = Some text
  | Ok (record, owner_pid) => ∃ acts, (name, acts) ∈ turns ∧ owner_gone record owner_pid acts
  end.

(** Only the files of one name changed. *)
Definition others_kept (names : list string) (g g' : Gate) : Prop :=
  ∀ other, other ∉ names → g_claims g' !! other = g_claims g !! other ∧
    g_corrupt g' !! (other +:+ ".corrupt") = g_corrupt g !! (other +:+ ".corrupt").

Lemma owner_triple record owner_pid t :
  owner_time record = Ok t →
  triple (λ seen, seen = []) (_owner_alive owner_pid t)
    (λ r seen, justified record owner_pid seen ∧ (r = Ok false → owner_gone record owner_pid seen)).
Proof.
  intros Ht. assert (∀ acts, (∀ a, a ∈ acts → ∀ pgid s d, a ≠ Sent pgid s d) → justified record owner_pid acts) as Hquiet.
  { intros acts Hq seen pgid s d later ->. exfalso. by eapply (Hq (Sent pgid s d)); [apply elem_of_app; right; left|]. }
  unfold _owner_alive. destruct (Z.leb_spec owner_pid 0).
  { apply triple_ret. intros seen ->. split; [apply Hquiet; set_solver|]. by left. }
  eapply (triple_bind _ _ _ (λ _ seen, seen = [])).
  { apply triple_lift. intros seen ->. destruct (as_pid _); [done|]. split; [apply Hquiet; set_solver|done]. }
  intros _. eapply (triple_bind _ _ _ (λ alive seen, seen = [Alive owner_pid alive])).
  { apply triple_inquire. by intros a seen ->. }
  intros alive. destruct alive; cbn [negb].
  2: { apply triple_ret. intros seen ->. split; [apply Hquiet; set_solver|]. right. left. set_solver. }
  destruct t as [t|].
  2: { apply triple_ret. intros seen ->. split; [apply Hquiet; set_solver|done]. }
  unfold _get_process_create_time. destruct (Z.leb_spec owner_pid 0); [lia|].
  eapply (triple_bind _ _ _ (λ live seen, seen = [Alive owner_pid true; Created owner_pid live])).
  { apply triple_inquire. by intros a seen ->. }
  intros live. apply triple_ret. intros seen ->. split; [apply Hquiet; set_solver|].
  destruct live as [l|]; [|done]. intros [= Hr%negb_false_iff]. right. right. exists t, l. set_solver.
Qed.

Lemma G_bind_inv {A B} (m : G A) (f : A → G B) g r g' :
  (m ≫= f) g = Some (r, g') →
  (∃ a g1, m g = Some (Ok a, g1) ∧ f a g1 = Some (r, g')) ∨ (∃ e, m g = Some (Err e, g') ∧ r = Err e).
Proof. unfold mbind, G_bind. destruct (m g) as [[[a|e] g1]|]; naive_solver. Qed.

Lemma gate_one_spec fuel name text g r g' :
  g_claims g !! name = Some text → gate_one fuel name text g = Some (r, g') →
  ∃ acts, g_acts g' = g_acts g ++ acts ∧ turn_ok [(name, text)] (name, acts) ∧
    file_ok [(name, acts)] g g' (name, text) ∧ others_kept [name] g g'.
Proof.
  intros Hg Hr. unfold gate_one in Hr.
  assert (∀ name', name' ∉ [name] → name +:+ ".corrupt" ≠ name' +:+ ".corrupt") as Hinj.
  { intros name' Hn E. apply Hn. apply string_app_inj_r in E as <-. set_solver. }
  destruct (read_record text) as [[record owner_pid]|e] eqn:Er.
  2: { exists []. rewrite app_nil_r. unfold turn_ok, file_ok. simpl. rewrite Er.
       assert (g' = g ∨ g' = mkGate (delete name (g_claims g)) (<[name +:+ ".corrupt" := text]> (g_corrupt g)) (g_acts g) (g_asked g) (g_now g))
         as [->| ->] by (destruct (is_conversion_error e); injection Hr as <- <-; [by right|by left]).
       - split_and!; [done| |by left|done]. exists text. rewrite Er. by split; [left|].
       - simpl. split_and!; [done| | |]; [exists text; rewrite Er; by split; [left|]| |].
         + right. by simplify_map_eq.
         + intros other Ho. split; [apply lookup_delete_ne; set_solver|apply lookup_insert_ne; auto]. }
  assert (∀ acts g1, g_claims g1 = g_claims g → g_corrupt g1 = g_corrupt g → justified record owner_pid acts →
    turn_ok [(name, text)] (name, acts) ∧ file_ok [(name, acts)] g g1 (name, text) ∧ others_kept [name] g g1) as Hkept.
  { intros acts g1 Hc Hk Hj. split_and!; [exists text; rewrite Er; by split; [left|]|left; by rewrite Hc, Hk|].
    intros other _. by rewrite Hc, Hk. }
  apply G_bind_inv in Hr as [(t & g0 & [= Et <-] & Hr)|(e & [= Et <-] & _)].
  2: { exists []. rewrite app_nil_r. split; [done|]. apply Hkept; [done..|]. intros seen ? ? ? ? E. by destruct seen. }
  apply G_bind_inv in Hr as [(alive & g1 & Ea & Hr)|(e & Ea & _)].
  all: destruct (owner_triple record owner_pid t Et (g_acts g) [] g _ _ ltac:(by rewrite app_nil_r) eq_refl Ea)
         as ([Hc1 Hk1] & acts & Ha1 & Hj & Hgone).
  2: { exists acts. split; [done|]. by apply Hkept. }
  destruct alive; [injection Hr as <- <-; exists acts; split; [done|]; by apply Hkept|].
  apply G_bind_inv in Hr as [([] & g2 & E2 & Hr)|(e & E2 & _)].
  all: destruct (reap_triple record owner_pid fuel (g_acts g) acts g1 _ _ Ha1 (conj Hj (Hgone eq_refl)) E2)
         as ([Hc2 Hk2] & acts2 & Ha2 & Hj2 & Ho2); exists acts2.
  2: { split; [done|]. apply Hkept; [congruence..|done]. }
  injection Hr as <- <-. split_and!; [done|exists text; rewrite Er; by split; [left|]| |].
  - right. unfold file_ok. rewrite Er. simpl. split; [rewrite Hc2, Hc1; by simplify_map_eq|].
    exists acts2. by split; [left|].
  - intros other Ho. simpl. rewrite Hc2, Hc1, Hk2, Hk1. split; [apply lookup_delete_ne; set_solver|done].
Qed.



Lemma turn_ok_more files files' turn : files ⊆ files' → turn_ok files turn → turn_ok files' turn.
Proof. intros Hs (text & Hin & Ht). exists text. eauto. Qed.

Lemma file_ok_later turn turns g g1 g' name text :
  file_ok [turn] g g1 (name, text) → g_claims g' !! name = g_claims g1 !! name →
  g_corrupt g' !! (name +:+ ".corrupt") = g_corrupt g1 !! (name +:+ ".corrupt") →
  file_ok (turn :: turns) g g' (name, text).
Proof.
  unfold file_ok. intros Hf -> ->. destruct Hf as [?|[? Hf]]; [by left|]. right. split; [done|].
  destruct (read_record text) as [[record owner_pid]|]; [|done]. destruct Hf as (acts & Hin & ?). exists acts. split; [|done].
  apply list_elem_of_singleton in Hin as ->. by left.
Qed.

Lemma file_ok_earlier turn turns g g1 g' name text :
  file_ok turns g1 g' (name, text) → g_corrupt g1 !! (name +:+ ".corrupt") = g_corrupt g !! (name +:+ ".corrupt") →
  file_ok (turn :: turns) g g' (name, text).
Proof.
  unfold file_ok. intros Hf <-. destruct Hf as [?|[? Hf]]; [by left|]. right. split; [done|].
  destruct (read_record text) as [[record owner_pid]|]; [|done]. destruct Hf as (acts & Hin & ?). exists acts. split; [by right|done].
Qed.

Lemma gate_all_spec fuel files handled g r g' :
  NoDup files.*1 → (∀ name text, (name, text) ∈ files → g_claims g !! name = Some text) →
  gate_all fuel files handled g = Some (r, g') →
  ∃ turns, g_acts g' = g_acts g ++ concat turns.*2 ∧ Forall (turn_ok files) turns ∧
    (∀ name text, (name, text) ∈ files → file_ok turns g g' (name, text)) ∧ others_kept files.*1 g g'.
Proof.
  revert handled g. induction files as [|[name text] files IH]; intros handled g Hnd Hg Hr.
  { injection Hr as <- <-. exists []. rewrite app_nil_r. split_and!; [done..| |done]. intros ? ? []%elem_of_nil. }
  cbn [gate_all] in Hr. apply NoDup_cons in Hnd as [Hnew Hnd].
  assert (∀ n t, (n, t) ∈ files → n ∈ files.*1) as Hname by (intros n t Hin; by apply (list_elem_of_fmap_2 fst) in Hin).
  assert (∀ one g1, gate_one fuel name text g = Some (one, g1) → ∃ acts, g_acts g1 = g_acts g ++ acts ∧
    turn_ok [(name, text)] (name, acts) ∧ file_ok [(name, acts)] g g1 (name, text) ∧ others_kept [name] g g1) as Hone.
  { intros one g1. apply gate_one_spec. apply Hg. by left. }
  assert (∀ g1, others_kept [name] g g1 → ∀ n t, (n, t) ∈ files →
    g_claims g1 !! n = Some t ∧ g_corrupt g1 !! (n +:+ ".corrupt") = g_corrupt g !! (n +:+ ".corrupt")) as Hrest.
  { intros g1 Ho n t Hin. destruct (Ho n) as [-> ->]; [|split; [apply Hg; by right|done]].
    intros ->%list_elem_of_singleton. by apply Hnew, (Hname _ t). }
  apply G_bind_inv in Hr as [(one & g1 & E & Hr)|(e & E & _)]; destruct (Hone _ _ E) as (acts & Ha & Ht & Hf & Ho).
  - destruct (IH _ g1 Hnd ltac:(intros n t Hin; by apply (Hrest g1 Ho)) Hr) as (turns & Ha' & Hts & Hfs & Hos).
    exists ((name, acts) :: turns). split_and!.
    + simpl. by rewrite Ha', Ha, app_assoc.
    + constructor; [eapply turn_ok_more; [|exact Ht]; set_solver|].
      eapply Forall_impl; [exact Hts|]. intros turn. apply turn_ok_more. set_solver.
    + intros n t [[= -> ->]|Hin]%elem_of_cons; [by eapply file_ok_later; [exact Hf|apply Hos..]|].
      eapply file_ok_earlier; [by apply Hfs|]. by eapply Hrest.
    + intros other [Hne Hnin]%not_elem_of_cons. destruct (Hos other Hnin) as [-> ->]. apply Ho. set_solver.
  - exists [(name, acts)]. split_and!.
    + simpl. by rewrite app_nil_r.
    + constructor; [|done]. eapply turn_ok_more; [|exact Ht]. set_solver.
    + intros n t [[= -> ->]|Hin]%elem_of_cons; [done|]. left. by eapply Hrest.
    + intros other [Hne Hnin]%not_elem_of_cons. apply Ho. set_solver.
Qed.

(** C12: Only the trees of dead workers are stopped.  Whatever the system
    answers and whatever the claim files hold, each signal [run_orphan_gate]
    sends is in the turn of one claim file, and before it, in that turn: the
    owner of the record was found gone (no such process, or one started at
    another time), the record's child, if there is one, was found gone, or in
    the group that is signalled and not started at another time; the group is
    the record's; and it is killed only after it was told to end.  A claim file
    is kept, or removed in a turn that found its owner gone, or, when it cannot
    be read, set aside with its text. *)
Theorem only_orphans_are_signalled fuel g r g' :
  run_orphan_gate fuel g = Some (r, g') →
  ∃ turns, g_acts g' = g_acts g ++ concat turns.*2 ∧ Forall (turn_ok (map_to_list (g_claims g))) turns ∧
    ∀ name text, g_claims g !! name = Some text → file_ok turns g g' (name, text).
Proof.
  unfold run_orphan_gate. intros Hr. set (files := merge_sort _ _) in Hr.
  assert (files ≡ₚ map_to_list (g_claims g)) as Hp by apply merge_sort_Permutation.
  destruct (gate_all_spec fuel files 0 g r g') as (turns & Ha & Ht & Hf & _); [| |exact Hr|].
  - rewrite Hp. apply NoDup_fst_map_to_list.
  - intros name text. rewrite Hp. by rewrite elem_of_map_to_list.
  - exists turns. split_and!; [done| |].
    + eapply Forall_impl; [exact Ht|]. intros turn. apply turn_ok_more. intros x. by rewrite Hp.
    + intros name text Hg. apply Hf. by rewrite Hp, elem_of_map_to_list.
Qed.

(** ** The gate comes to an end *)

(** [runs m R]: [m] ends without an exception, changes no file, and asks what
    [R] says. *)
Definition runs {A} (m : G A) (R : A → list act → Prop) : Prop :=
  ∀ g, ∃ a g' seg, m g = Some (Ok a, g') ∧ g_claims g' = g_claims g ∧ g_corrupt g' = g_corrupt g ∧
    g_acts g' = g_acts g ++ seg ∧ R a seg.

Lemma gate_runs_ret {A} (a : A) : runs (mret a) (λ b seg, b = a ∧ seg = []).
Proof. intros g. exists a, g, []. by rewrite app_nil_r. Qed.

Lemma runs_lift {A} (a : A) : runs (glift (Ok a)) (λ b seg, b = a ∧ seg = []).
Proof. exact (gate_runs_ret a). Qed.

Lemma runs_inquire {A} (f : nat → A) k : runs (inquire f k) (λ a seg, seg = [k a]).
Proof. intros g. by eexists _, _, _. Qed.

Lemma gate_runs_bind {A B} (m : G A) (f : A → G B) R S :
  runs m R → (∀ a seg, R a seg → runs (f a) (λ b seg', S b (seg ++ seg'))) → runs (m ≫= f) S.
Proof.
  intros Hm Hf g. destruct (Hm g) as (a & g1 & seg & E & Hc & Hk & Ha & HR).
  destruct (Hf a seg HR g1) as (b & g2 & seg' & E' & Hc' & Hk' & Ha' & HS).
  exists b, g2, (seg ++ seg'). split_and!; [|congruence..|by rewrite Ha', Ha, app_assoc|done].
  unfold mbind, G_bind. by rewrite E.
Qed.

Lemma runs_weaken {A} (m : G A) (R S : A → list act → Prop) : runs m R → (∀ a seg, R a seg → S a seg) → runs m S.
Proof. intros Hm HS g. destruct (Hm g) as (a & g1 & seg & ?). exists a, g1, seg. naive_solver. Qed.

Lemma runs_quiet {A} (m : G A) R : runs m R → runs m (λ _ _, True).
Proof. intros Hm. by eapply runs_weaken. Qed.

(** A bind whose answers and questions do not matter. *)
Lemma runs_then {A B} (m : G A) (f : A → G B) R :
  runs m R → (∀ a seg, R a seg → runs (f a) (λ _ _, True)) → runs (m ≫= f) (λ _ _, True).
Proof. intros Hm Hf. eapply gate_runs_bind; [exact Hm|exact Hf]. Qed.

(** A record whose numbers are numbers, and small. *)
Record decent (record : list (string * json)) (owner_pid : Z) : Prop := {
  decent_owner : as_pid (JInt owner_pid) = Ok owner_pid;
  decent_time : ∃ t, owner_time record = Ok t;
  decent_child : ∃ child_pid, py_int (or_zero (jget_none "child_pid" record)) = Ok child_pid ∧
    as_pid (JInt child_pid) = Ok child_pid ∧
    (py_truthy (named_group record child_pid) = true → ∃ pgid, as_pid (named_group record child_pid) = Ok pgid);
  decent_child_time : is_null (jget_none "child_create_time" record) = true ∨
    ∃ t, py_float (jget_none "child_create_time" record) = Ok t;
}.

Section ends.
Context (patient : ∀ n, (0 <= sys_took n)%Q).

(** A turn of the loop sleeps a twentieth of a second. *)
Lemma wait_gone_ends fuel pgid deadline g :
  (deadline <= g_now g + inject_Z (Z.of_nat fuel) * (1 # 20))%Q →
  ∃ b g' seg, wait_gone fuel pgid deadline g = Some (Ok b, g') ∧ g_claims g' = g_claims g ∧ g_corrupt g' = g_corrupt g ∧
    g_acts g' = g_acts g ++ seg.
Proof.
  revert g. induction fuel as [|fuel IH]; intros g Hd; cbn [wait_gone]; unfold mbind, G_bind, clock;
    destruct (Qle_bool deadline (g_now g)) eqn:Eq; try (by exists false, g, []; rewrite app_nil_r).
  - exfalso. rewrite <- not_true_iff_false, Qle_bool_iff in Eq. apply Eq. change (inject_Z (Z.of_nat 0)) with 0%Q in Hd. lra.
  - unfold inquire. destruct (sys_group (g_asked g) pgid); cbn [negb]; [|by eexists _, _, _].
    unfold sleep. pose proof (patient (g_asked g)) as Ht.
    match goal with |- context [wait_gone fuel pgid deadline ?g1] => destruct (IH g1) as (b & g' & seg & -> & Hc & Hk & Ha) end.
    { cbn [g_now]. rewrite Nat2Z.inj_succ, <- Z.add_1_r, inject_Z_plus in Hd. change (inject_Z 1) with 1%Q in Hd. lra. }
    eexists b, g', _. split_and!; [done..|]. rewrite Ha. simpl. by rewrite <- app_assoc.
Qed.

Lemma stop_group_ends pgid : runs (stop_group 40 pgid) (λ _ _, True).
Proof.
  unfold stop_group. eapply runs_then; [apply runs_inquire|]. intros sent seg _.
  destruct sent; cbn [negb]; [|by eapply runs_quiet, gate_runs_ret].
  intros g. unfold mbind at 1, G_bind at 1, clock at 1.
  destruct (wait_gone_ends 40 pgid (g_now g + ORPHAN_TERM_GRACE_S) g) as (b & g1 & seg1 & E & Hc & Hk & Ha).
  { assert (inject_Z (Z.of_nat 40) * (1 # 20) == ORPHAN_TERM_GRACE_S)%Q as -> by reflexivity. lra. }
  assert (runs (if b then mret tt else inquire (λ n, sys_signal n pgid SIGKILL) (Sent pgid SIGKILL) ≫= λ _, mret tt)
    (λ _ _, True)) as Hend.
  { destruct b; [by eapply runs_quiet, gate_runs_ret|]. eapply runs_then; [apply runs_inquire|].
    intros ? ? _. by eapply runs_quiet, gate_runs_ret. }
  destruct (Hend g1) as ([] & g2 & seg2 & E2 & Hc2 & Hk2 & Ha2 & _).
  exists tt, g2, (seg1 ++ seg2). split_and!; [|congruence..|by rewrite Ha2, Ha, app_assoc|done].
  unfold mbind, G_bind. by rewrite E.
Qed.

Lemma reap_ends record owner_pid : decent record owner_pid → runs (_reap_orphan 40 record) (λ _ _, True).
Proof.
  intros [_ _ (child & Hc & Hp & Hg) Ht]. unfold _reap_orphan. rewrite Hc.
  eapply runs_then; [apply runs_lift|]. intros ? ? [-> _]. eapply (runs_then _ _ (λ _ _, True)).
  { unfold child_recycled. destruct (is_null _) eqn:En; [by eapply runs_quiet, gate_runs_ret|].
    destruct Ht as [?|(t & ->)]; [done|]. unfold _get_process_create_time. destruct (child <=? 0).
    - eapply runs_then; [apply gate_runs_ret|]. intros ? ? _. by eapply runs_quiet, gate_runs_ret.
    - eapply runs_then; [apply runs_inquire|]. intros ? ? _. by eapply runs_quiet, gate_runs_ret. }
  intros other _ _. destruct other; [by eapply runs_quiet, gate_runs_ret|]. fold (named_group record child).
  destruct (py_truthy (named_group record child)); cbn [negb]; [|by eapply runs_quiet, gate_runs_ret].
  destruct (Hg eq_refl) as [pgid Hpg]. eapply (runs_then _ _ (λ _ _, True)).
  { destruct (child =? 0); [by eapply runs_quiet, gate_runs_ret|]. rewrite Hp.
    eapply runs_then; [apply runs_lift|]. intros ? ? _. eapply runs_then; [apply runs_inquire|].
    intros ? ? _. by eapply runs_quiet, gate_runs_ret. }
  intros stranger _ _. destruct stranger; [by eapply runs_quiet, gate_runs_ret|]. rewrite Hpg.
  eapply runs_then; [apply runs_lift|]. intros ? ? [-> _]. apply stop_group_ends.
Qed.

(** The turn of a decent record: it is removed, or its owner lives. *)
Lemma gate_one_ends name text record owner_pid g :
  read_record text = Ok (record, owner_pid) → decent record owner_pid →
  ∃ one g' seg, gate_one 40 name text g = Some (Ok one, g') ∧ g_corrupt g' = g_corrupt g ∧ g_acts g' = g_acts g ++ seg ∧
    g_claims g' = (if (one : bool) then delete name (g_claims g) else g_claims g) ∧
    (one = false → Alive owner_pid true ∈ seg).
Proof.
  intros Hr Hd. pose proof Hd as [Hown (t & Ht) _ _]. unfold gate_one. rewrite Hr, Ht.
  assert (runs (_owner_alive owner_pid t) (λ b seg, b = true → Alive owner_pid true ∈ seg)) as Hal.
  { unfold _owner_alive. destruct (owner_pid <=? 0); [by eapply runs_weaken; [apply gate_runs_ret|naive_solver]|]. rewrite Hown.
    eapply gate_runs_bind; [apply runs_lift|]. intros ? ? [_ ->]. eapply gate_runs_bind; [apply runs_inquire|]. intros alive ? ->.
    destruct alive; cbn [negb app]; [|by eapply runs_weaken; [apply gate_runs_ret|naive_solver]].
    assert (∀ m : G bool, runs m (λ _ _, True) → runs m (λ b seg, b = true → Alive owner_pid true ∈ Alive owner_pid true :: seg)) as Hend.
    { intros m Hm. eapply runs_weaken; [exact Hm|]. intros. by left. }
    destruct t; apply Hend; [|by eapply runs_quiet, gate_runs_ret].
    unfold _get_process_create_time. destruct (owner_pid <=? 0).
    - eapply runs_then; [apply gate_runs_ret|]. intros ? ? _. by eapply runs_quiet, gate_runs_ret.
    - eapply runs_then; [apply runs_inquire|]. intros ? ? _. by eapply runs_quiet, gate_runs_ret. }
  destruct (Hal g) as (alive & g1 & seg1 & E1 & Hc1 & Hk1 & Ha1 & Hseg).
  unfold mbind at 1, G_bind at 1, glift at 1. unfold mbind at 1, G_bind at 1. rewrite E1. destruct alive.
  { exists false, g1, seg1. split_and!; try done. intros _. by apply Hseg. }
  destruct (reap_ends record owner_pid Hd g1) as ([] & g2 & seg2 & E2 & Hc2 & Hk2 & Ha2 & _).
  unfold mbind at 1, G_bind at 1. rewrite E2.
  eexists true, _, (seg1 ++ seg2). split; [done|]. cbn. rewrite Hc2, Hc1, Hk2, Hk1, Ha2, Ha1, app_assoc. naive_solver.
Qed.

(** The text of a claim file that the worker wrote. *)
Definition written (text : string) : Prop :=
  ∃ x owner_pid child_pid owner_time child_time,
    text = record_text (claim_record x owner_pid child_pid owner_time child_time) ∧
    0 < owner_pid ≤ pid_max ∧ 0 < child_pid ≤ pid_max ∧
    (∀ t, owner_time = Some t ∨ child_time = Some t → float_token t) ∧
    utf8_valid (xs_task_id x) = true ∧ utf8_valid (xs_dispatch_id x) = true ∧ utf8_valid (xs_worker_id x) = true.

(** What [json.dump] writes and [json.loads] reads: the keys in order. *)
Definition sorted_record (x : ExecutionSpec) (owner_pid child_pid : Z) (owner_time child_time : option string) : list (string * json) :=
  [("attempt", JInt (xs_attempt x)); ("child_create_time", if 0 <? child_pid then time_json child_time else JNull);
   ("child_pid", JInt child_pid); ("dispatch_id", JStr (xs_dispatch_id x)); ("owner_create_time", time_json owner_time);
   ("owner_pid", JInt owner_pid); ("pgid", JInt child_pid); ("task_id", JStr (xs_task_id x)); ("worker_id", JStr (xs_worker_id x))].

Lemma as_pid_small n : - 2 ^ 31 ≤ n ≤ pid_max → as_pid (JInt n) = Ok n.
Proof. intros Hn. unfold as_pid. cbn. destruct (Z.ltb_spec n (- 2 ^ 31)), (Z.ltb_spec pid_max n); (lia || done). Qed.

Lemma py_int_or_zero n : py_int (or_zero (JInt n)) = Ok n.
Proof. unfold or_zero. by rewrite int_truthy. Qed.

Lemma written_decent text : written text → ∃ record owner_pid, read_record text = Ok (record, owner_pid) ∧ decent record owner_pid.
Proof.
  intros (x & owner & child & ot & ct & -> & Ho & Hc & Ht & H1 & H2 & H3).
  assert (well_formed (claim_record x owner child ot ct)) as Hw.
  { split.
    - apply json_ok_obj. split; [apply (bool_decide_unpack _); by vm_compute|].
      repeat constructor; cbn; try done; [destruct ot|destruct (0 <? child), ct]; cbn; try done; apply Ht; auto.
    - apply texts_obj. repeat constructor; cbn; try done; [destruct ot|destruct (0 <? child), ct]; done. }
  assert (canon (claim_record x owner child ot ct) = JObj (sorted_record x owner child ot ct)) as Hcanon.
  { destruct ot, ct; unfold claim_record, sorted_record; destruct (0 <? child); reflexivity. }
  apply well_formed_canon in Hw. rewrite Hcanon in Hw.
  assert (read_record (record_text (claim_record x owner child ot ct)) = Ok (sorted_record x owner child ot ct, owner)) as Hread.
  { unfold read_record, record_text. rewrite Hcanon, loads_dumps_spaced by done.
    rewrite ascii_utf8 by (apply print_ascii; [done..|apply Hw]). cbn [mbind result_bind].
    change (jget_none "owner_pid" (sorted_record x owner child ot ct)) with (JInt owner). by rewrite py_int_or_zero. }
  exists (sorted_record x owner child ot ct), owner. split; [done|].
  assert (0 < pid_max) by done. destruct (Z.ltb_spec 0 child) as [Hpos|]; [|lia].
  assert (jget_none "child_create_time" (sorted_record x owner child ot ct) = time_json ct) as Hct.
  { unfold sorted_record. destruct (Z.ltb_spec 0 child); [done|lia]. }
  split.
  - apply as_pid_small. lia.
  - unfold OrphanGate.owner_time. destruct ot; cbn; eauto.
  - exists child. split; [apply py_int_or_zero|]. split; [apply as_pid_small; lia|]. intros _. exists child.
    apply as_pid_small. lia.
  - rewrite Hct. destruct ct; cbn; eauto.
Qed.

(** A claim file is removed, or its owner answered. *)
Definition settled (seg : list act) (g' : Gate) (file : string * string) : Prop :=
  g_claims g' !! file.1 = None ∨
  ∃ record owner_pid, read_record file.2 = Ok (record, owner_pid) ∧ Alive owner_pid true ∈ seg.

Lemma gate_all_ends files handled g :
  NoDup files.*1 → Forall (λ file, g_claims g !! file.1 = Some file.2 ∧ written file.2) files →
  ∃ n g' seg, gate_all 40 files handled g = Some (Ok n, g') ∧ g_corrupt g' = g_corrupt g ∧ g_acts g' = g_acts g ++ seg ∧
    Forall (settled seg g') files ∧ (∀ other, other ∉ files.*1 → g_claims g' !! other = g_claims g !! other) ∧
    n - handled = Z.of_nat (size (g_claims g)) - Z.of_nat (size (g_claims g')).
Proof.
  revert handled g. induction files as [|[name text] files IH]; intros handled g Hnd Hf.
  { exists handled, g, []. rewrite app_nil_r. split_and!; (done || lia). }
  apply NoDup_cons in Hnd as [Hnew Hnd]. apply Forall_cons in Hf as [[Hg Hw] Hf]. cbn in Hg, Hw, Hnew.
  apply written_decent in Hw as (record & owner & Hr & Hd). cbn [gate_all].
  destruct (gate_one_ends name text record owner g Hr Hd) as (one & g1 & seg1 & E1 & Hk1 & Ha1 & Hc1 & Hal).
  assert (∀ n, n ≠ name → g_claims g1 !! n = g_claims g !! n) as Hne.
  { intros n Hn. rewrite Hc1. destruct one; [|done]. by apply lookup_delete_ne. }
  destruct (IH (if one then handled + 1 else handled) g1 Hnd) as (n & g' & seg & E & Hk & Ha & Hs & Ho & Hn).
  { rewrite Forall_forall in Hf |- *. intros [n t] Hin. destruct (Hf (n, t) Hin) as [Hgn ?]. split; [|done]. cbn. etrans; [apply Hne|exact Hgn].
    intros ->. apply Hnew. by apply (list_elem_of_fmap_2 fst) in Hin. }
  exists n, g', (seg1 ++ seg). unfold mbind, G_bind. rewrite E1, E. split_and!; [done|congruence|by rewrite Ha, Ha1, app_assoc| | |].
  - constructor.
    + unfold settled. cbn. rewrite (Ho name Hnew), Hc1. destruct one; [left; by simplify_map_eq|].
      right. exists record, owner. split; [done|]. apply elem_of_app. left. by apply Hal.
    + eapply Forall_impl; [exact Hs|]. intros file [?|(r & o & ? & ?)]; [by left|]. right. exists r, o.
      split; [done|]. apply elem_of_app. by right.
  - cbn. intros other [Hn1 Hn2]%not_elem_of_cons. rewrite Ho by done. by apply Hne.
  - destruct one; rewrite Hc1 in Hn; [|lia].
    assert (size (g_claims g) ≠ 0)%nat by (intros Hz%map_size_empty_inv; by rewrite Hz in Hg).
    rewrite map_size_delete_Some in Hn by eauto. lia.
Qed.

(** C31: The gate settles every record the worker writes.  When all claim files
    hold records as [_write_claim_record] writes them, [run_orphan_gate] ends
    without an exception, whatever the system answers: no group is waited for
    more than forty rounds.  Afterwards a claim file is left only if its owner
    answered that it is alive, nothing was set aside, and the number that is
    returned is the number of files removed. *)
Theorem orphan_gate_settles g :
  (∀ name text, g_claims g !! name = Some text → written text) →
  ∃ n g' seg, run_orphan_gate 40 g = Some (Ok n, g') ∧ g_acts g' = g_acts g ++ seg ∧ g_corrupt g' = g_corrupt g ∧
    n = Z.of_nat (size (g_claims g)) - Z.of_nat (size (g_claims g')) ∧
    ∀ name text, g_claims g !! name = Some text → settled seg g' (name, text).
Proof.
  intros Hg. unfold run_orphan_gate. set (files := merge_sort _ _).
  assert (files ≡ₚ map_to_list (g_claims g)) as Hp by apply merge_sort_Permutation.
  destruct (gate_all_ends files 0 g) as (n & g' & seg & E & Hk & Ha & Hs & _ & Hn).
  - rewrite Hp. apply NoDup_fst_map_to_list.
  - apply Forall_forall. intros [name text]. rewrite Hp. intros Hin%elem_of_map_to_list. eauto.
  - exists n, g', seg. split_and!; [done..|lia|]. intros name text Hin. rewrite Forall_forall in Hs. apply Hs.
    by rewrite Hp, elem_of_map_to_list.
Qed.

End ends.

End gate.
