(* ===== verification/WorkerOutbox.v ===== *)
(** * The worker's outbox ([courier_worker/host.py])

    Results that the controller has not answered yet, one file per dispatch in
    [<home>/outbox], and the files set aside in its [quarantine] directory.
    Reads and writes of the file system succeed. *)

From Stdlib Require Import Ascii.
From S2P Require Import Prelude PyText AsciiText Scope Json JsonAscii Sha256 Events LockManager WorkerSpec.

Definition MAX_RESULT_PAYLOAD_BYTES : Z := 1024 * 1024.
Definition OUTBOX_CAP : nat := 32.

(** A file with its modification time. *)
Record OutboxFile := mkFile { of_mtime : Z; of_text : string }.

(** What lies in [quarantine]: a file moved there, or the reason written
    beside it. *)
Inductive Quarantined :=
  | Moved (f : OutboxFile)
  | Meta (dispatch_id reason : string).

(** The files [outbox/*.json] and [outbox/quarantine/*.json] by their names. *)
Record Outbox := mkOutbox {
  ob_files : gmap string OutboxFile;
  ob_quarantine : gmap string Quarantined;
}.

(** The test every operation makes of a dispatch id. *)
Definition usable_id (dispatch_id : json) : option string :=
  match dispatch_id with
  | JStr s => if (negb (bool_decide (s = "")) && safe_id s)%bool then Some s else None
  | _ => None
  end.

Definition file_name (dispatch_id : string) : string := dispatch_id +:+ ".json".

Definition serialized (payload : list (string * json)) : string := dumps_spaced (canon (JObj payload)).

Definition outbox_write (now : Z) (payload : list (string * json)) (ob : Outbox) : result unit * Outbox :=
  match usable_id (jget_none "dispatch_id" payload) with
  | None => (raise SpecError "dispatch_id in result payload is missing, malformed or attempts path traversal", ob)
  | Some d =>
      let text := serialized payload in
      if MAX_RESULT_PAYLOAD_BYTES <? Z.of_nat (String.length text)
      then (raise SpecError "result payload exceeds size limit", ob)
      else if ((OUTBOX_CAP <=? size (ob_files ob))%nat && negb (bool_decide (is_Some (ob_files ob !! file_name d))))%bool
      then (raise OutboxFull "controller must drain it", ob)
      else (Ok tt, mkOutbox (<[file_name d := mkFile now text]> (ob_files ob)) (ob_quarantine ob))
  end.

(** Files by modification time, then by name. *)
Definition file_le (a b : string * OutboxFile) : Prop :=
  of_mtime a.2 < of_mtime b.2 ∨ of_mtime a.2 = of_mtime b.2 ∧ String.le a.1 b.1.
#[export] Instance file_le_dec : RelDecision file_le.
Proof. intros a b. unfold file_le. apply _. Defined.

Section read.
Context `{PyPlatform}.

Definition read_json (text : string) : option json :=
  if utf8_valid text then match loads text with Ok j => Some j | Err _ => None end else None.

(** Files that cannot be read are skipped. *)
Definition outbox_read_all (ob : Outbox) : list (string * json) :=
  omap (λ nf, pair nf.1 <$> read_json (of_text nf.2)) (merge_sort file_le (map_to_list (ob_files ob))).

End read.

Definition outbox_remove (dispatch_id : json) (ob : Outbox) : Outbox :=
  match usable_id dispatch_id with
  | Some d => mkOutbox (delete (file_name d) (ob_files ob)) (ob_quarantine ob)
  | None => ob
  end.

Definition outbox_quarantine (dispatch_id : json) (reason : string) (ob : Outbox) : Outbox :=
  match usable_id dispatch_id with
  | None => ob
  | Some d =>
      match ob_files ob !! file_name d with
      | None => ob
      | Some f =>
          let q := <[file_name d := Moved f]> (ob_quarantine ob) in
          mkOutbox (delete (file_name d) (ob_files ob))
            (if decide (reason = "") then q else <[d +:+ ".meta.json" := Meta d reason]> q)
      end
  end.
