(* ===== verification/WorkerHost.v ===== *)
(** * The worker host ([courier_worker/host.py])

    One dispatch at a time: the child process is started, waited for in
    bounded turns, stopped with its whole tree, and its end is told with what
    it left behind.  The child, the clock and the process tree are the
    [RunEnv] of one run. *)

From Stdlib Require Import Ascii Qminmax Qround Lqa.
From S2P Require Import Prelude PyText AsciiText Scope Json Sha256 Events LockManager WorkerSpec.

Definition MAX_ARTIFACTS : nat := 64.
Definition MAX_ARTIFACT_BYTES : Z := 16 * 1024 * 1024.

Inductive Outcome := COMPLETED | CRASH | TIMEOUT | CANCELLED | LEASE_LOST | SPAWN_FAILED.
#[export] Instance Outcome_eq_dec : EqDecision Outcome.
Proof. solve_decision. Defined.

Definition outcome_value (o : Outcome) : string :=
  match o with
  | COMPLETED => "completed" | CRASH => "crash" | TIMEOUT => "timeout" | CANCELLED => "cancelled"
  | LEASE_LOST => "lease-lost" | SPAWN_FAILED => "spawn-failed"
  end.

Record ArtifactRef := mkArtifact { ar_path : string; ar_sha256 : string }.

Record ExecutionResult := mkResult {
  er_spec : ExecutionSpec;
  er_outcome : Outcome;
  er_returncode : option Z;
  er_was_signal : bool;
  er_artifacts : list ArtifactRef;
  er_crash_report : bool;
  er_wakes : nat;
}.

(** [l2_outcome] *)
Definition l2_outcome (r : ExecutionResult) : string :=
  if decide (er_outcome r = COMPLETED) then "success" else "failure".

Definition retryable (r : ExecutionResult) : bool :=
  match xs_effect_class (er_spec r) with
  | JStr "idempotent" => bool_decide (er_outcome r = TIMEOUT ∨ er_outcome r = LEASE_LOST)
  | _ => false
  end.

(** ** Artifacts

    The files below the artifact directory in the order of the walk, without
    those that resolve outside it or cannot be sized: the path, the size and
    the digest of each. *)
Record Walked := mkWalked { wk_path : string; wk_size : Z; wk_sha256 : string }.

Fixpoint collect (found : list ArtifactRef) (total : Z) (files : list Walked) : result (list ArtifactRef) :=
  match files with
  | [] => Ok found
  | f :: files =>
      let total := total + wk_size f in
      if ((MAX_ARTIFACTS <=? length found)%nat || (MAX_ARTIFACT_BYTES <? total))%bool
      then raise ContainmentError "artifact set exceeds bounds; refusing an unbounded result"
      else collect (found ++ [mkArtifact (wk_path f) (wk_sha256 f)]) total files
  end.

Definition collect_artifacts (files : list Walked) : result (list ArtifactRef) := collect [] 0 files.

(** ** One run *)

(** What one run meets: the host's load, the start of the child and of its
    claim record, and by the number of the turn the clock's advances (beyond
    the time waited, until a heartbeat is over, until the next turn), whether
    the output files are over their bound before and after the wait, what
    [wait] gives, whether the tree can be stopped and its exit status then. *)
Record RunEnv := mkRunEnv {
  re_pressure : option string;
  re_spawn : result unit;
  re_record : result unit;
  re_start : Q;
  re_setup : Q;
  re_late : nat → Q;
  re_beat : nat → Q;
  re_pause : nat → Q;
  re_exceeded : nat → bool;
  re_wait : nat → option Z;
  re_exceeded_after : nat → bool;
  re_terminate : nat → result unit;
  re_poll : nat → option Z;
  re_files : list Walked;
  re_last_terminate : result unit;
}.

(** How the wait ended. *)
Record Ending := mkEnding {
  en_outcome : Outcome;
  en_returncode : option Z;
  en_wakes : nat;
  en_overflow : bool;
}.

Definition failed_code (rc : Z) : Z := if rc =? 0 then 1 else rc.
Definition quantum (x : ExecutionSpec) : Q := Qmin (xs_heartbeat_s x) 1.

Section wait.
(** [on_heartbeat] and [is_cancelled] act on the state of the caller. *)
Context {St : Type} (on_heartbeat is_cancelled : option (St → result bool * St)).

Definition ask_cancelled (st : St) : bool * St :=
  match is_cancelled with
  | None => (false, st)
  | Some f => match f st with (Ok b, st) => (b, st) | (Err _, st) => (false, st) end
  end.

(** Whether the heartbeat renews the lease. *)
Definition beat (st : St) : bool * St :=
  match on_heartbeat with
  | None => (false, st)
  | Some f => match f st with (Ok b, st) => (b, st) | (Err _, st) => (false, st) end
  end.

Definition stopped (env : RunEnv) (i : nat) (k : option Z → Ending) : result Ending :=
  re_terminate env i;; mret (k (re_poll env i)).

(** The loop of [_wait], from turn [i] at the time [now]; [None] when [fuel]
    turns were not enough. *)
Fixpoint turns (x : ExecutionSpec) (env : RunEnv) (fuel i : nat) (now lease_at : Q) (st : St)
    : option (result Ending * St) :=
  let timeout_at := (re_start env + xs_timeout_s x)%Q in
  match fuel with
  | O => None
  | S fuel =>
      let remaining := (Qmin timeout_at lease_at - now)%Q in
      if Qle_bool remaining 0 then
        let outcome := if Qle_bool timeout_at lease_at then TIMEOUT else LEASE_LOST in
        Some (stopped env i (λ rc, mkEnding outcome rc i false), st)
      else
        let '(cancelled, st) := ask_cancelled st in
        if cancelled then Some (stopped env i (λ rc, mkEnding CANCELLED rc i false), st)
        else if re_exceeded env i then
          Some (stopped env i (λ rc, mkEnding CRASH (Some (failed_code (default 1 rc))) i true), st)
        else
          match re_wait env i with
          | Some rc =>
              let e := if re_exceeded_after env i then mkEnding CRASH (Some (failed_code rc)) (S i) true
                       else mkEnding (if rc =? 0 then COMPLETED else CRASH) (Some rc) (S i) false in
              Some (stopped env i (λ _, e), st)
          | None =>
              let '(renewed, st) := beat st in
              let beat_at := (now + Qmin (quantum x) remaining + re_late env i + re_beat env i)%Q in
              turns x env fuel (S i) (beat_at + re_pause env i)
                (if renewed then beat_at + xs_lease_ttl_s x else lease_at)%Q st
          end
  end.

(** What [_wait] tells of an ending: the artifacts, or a crash when there are
    too many. *)
Definition conclude (x : ExecutionSpec) (env : RunEnv) (e : Ending) : ExecutionResult :=
  let signal rc := match rc with Some z => z <? 0 | None => false end in
  let crashed := negb (bool_decide (en_outcome e = COMPLETED)) in
  match collect_artifacts (re_files env) with
  | Ok artifacts =>
      mkResult x (en_outcome e) (en_returncode e) (signal (en_returncode e)) artifacts crashed (en_wakes e)
  | Err _ =>
      let rc := Some (failed_code (default 0 (en_returncode e))) in
      mkResult x CRASH rc (signal rc) [] true (en_wakes e)
  end.

(** Twice the quanta of the time bound, and one turn more, are enough. *)
Definition wait_fuel (x : ExecutionSpec) : nat := Z.to_nat (2 * Qceiling (xs_timeout_s x / quantum x) + 1).

Definition _wait (x : ExecutionSpec) (env : RunEnv) (st : St) : option (result ExecutionResult * St) :=
  '(r, st) ← turns x env (wait_fuel x) 0 (re_start env + re_setup env) (re_start env + xs_lease_ttl_s x) st;
  Some (match r with Ok e => Ok (conclude x env e) | Err y => Err y end, st).

(** ** The single-flight host *)

(** The dispatch the host runs, and the names of its claim records. *)
Record Host := mkHost { hs_active : option string; hs_claims : gset string }.

Context `{UnicodeAlnum}.

(** [_claim_path] *)
Definition _claim_path (dispatch_id : string) : string := "dispatch-" +:+ _safe dispatch_id +:+ ".json".

Definition run_once (x : ExecutionSpec) (env : RunEnv) (h : Host) (st : St)
    : option (result ExecutionResult * Host * St) :=
  match hs_active h with
  | Some _ => Some (raise HostBusy "host already owns a dispatch; single-flight only", h, st)
  | None =>
      match re_pressure env, re_spawn env with
      | Some reason, _ => Some (raise ResourcePaused reason, h, st)
      | None, Err e => Some (Err e, h, st)
      | None, Ok _ =>
          let busy := mkHost (Some (xs_dispatch_id x)) (hs_claims h) in
          match re_record env with
          | Err e =>
              match re_last_terminate env with
              | Ok _ => Some (Err e, h, st)
              | Err e' => Some (Err e', busy, st)
              end
          | Ok _ =>
              let record := _claim_path (xs_dispatch_id x) in
              '(r, st) ← _wait x env st;
              Some match re_last_terminate env with
                   | Ok _ => (r, mkHost None (hs_claims h ∖ {[record]}), st)
                   | Err e' => (Err e', mkHost (Some (xs_dispatch_id x)) ({[record]} ∪ hs_claims h), st)
                   end
          end
      end
  end.

End wait.

(** ** The loop ends *)

(** The clock does not go back. *)
Record clocked (env : RunEnv) : Prop := {
  setup_nonneg : (0 <= re_setup env)%Q;
  late_nonneg : ∀ i, (0 <= re_late env i)%Q;
  beat_nonneg : ∀ i, (0 <= re_beat env i)%Q;
  pause_nonneg : ∀ i, (0 <= re_pause env i)%Q;
}.

Lemma quantum_bounds x : bounded x → (0 < quantum x <= 1)%Q.
Proof.
  intros Hx. destruct (heartbeat_bound x Hx) as [Hlo _]. unfold quantum, MIN_HEARTBEAT_S in *.
  pose proof (Q.le_min_r (xs_heartbeat_s x) 1). split; [|done].
  apply (Qlt_le_trans _ (1 # 5)); [done|]. by apply Q.min_glb.
Qed.

Section ends.
Context {St : Type} (on_heartbeat is_cancelled : option (St → result bool * St)).
Context (x : ExecutionSpec) (env : RunEnv) (Hx : bounded x) (Henv : clocked env).

#[local] Abbreviation start := (re_start env).
#[local] Abbreviation q := (quantum x).
#[local] Abbreviation timeout_at := (re_start env + xs_timeout_s x)%Q.
#[local] Abbreviation quanta := (2 * Qceiling (xs_timeout_s x / quantum x)).

(** Since the lease was renewed at [b] the turns took [f] at least, and all
    turns together half of their quanta. *)
Definition steady (i : nat) (now lease_at : Q) : Prop :=
  Z.of_nat i ≤ quanta ∧
  ((Qmin timeout_at lease_at <= now)%Q ∨
   ∃ b f, (lease_at == b + xs_lease_ttl_s x ∧ start <= b ∧ 0 <= f ∧ b + f <= now
           ∧ inject_Z (Z.of_nat i) * q <= 2 * (b - start) + f)%Q).

(** A turn that waits is not the last. *)
Lemma quanta_left i now :
  (inject_Z (Z.of_nat i) * q <= 2 * (now - start))%Q → (now < timeout_at)%Q → Z.of_nat (S i) ≤ quanta.
Proof.
  intros Hi Hn. destruct (quantum_bounds x Hx) as [Hq _].
  pose proof (Qle_ceiling (xs_timeout_s x / q)) as Hc.
  apply Qmult_le_compat_r with (z := q) in Hc; [|by apply Qlt_le_weak].
  assert (xs_timeout_s x / q * q == xs_timeout_s x)%Q as Hd.
  { field. intros E. rewrite E in Hq. by apply Qlt_irrefl in Hq. }
  rewrite Hd in Hc.
  assert (inject_Z (Z.of_nat i) * q < inject_Z quanta * q)%Q as Hlt.
  { rewrite inject_Z_mult. change (inject_Z 2) with 2%Q. lra. }
  apply Qmult_lt_r in Hlt; [|done]. rewrite <- Zlt_Qlt in Hlt. lia.
Qed.

Lemma wait_steady i now lease_at (renewed : bool) :
  steady i now lease_at →
  (0 < Qmin timeout_at lease_at - now)%Q →
  let beat_at := (now + Qmin q (Qmin timeout_at lease_at - now) + re_late env i + re_beat env i)%Q in
  steady (S i) (beat_at + re_pause env i) (if renewed then beat_at + xs_lease_ttl_s x else lease_at)%Q.
Proof.
  intros [Hi Hcase] Hr. cbv zeta.
  pose proof (late_nonneg env Henv i) as Hl. pose proof (beat_nonneg env Henv i) as Hb.
  pose proof (pause_nonneg env Henv i) as Hp. pose proof (ttl_bound x Hx) as Ht.
  destruct (quantum_bounds x Hx) as [Hq Hq1].
  pose proof (Q.le_min_l timeout_at lease_at) as Hm1. pose proof (Q.le_min_r timeout_at lease_at) as Hm2.
  destruct Hcase as [Hc|(b & f & Hla & Hsb & Hf & Hbn & Hk)]; [lra|].
  split; [apply (quanta_left i now); lra|].
  set (late := re_late env i) in *. set (bt := re_beat env i) in *. set (pause := re_pause env i) in *.
  set (m := Qmin timeout_at lease_at) in *.
  assert (inject_Z (Z.of_nat (S i)) * q == inject_Z (Z.of_nat i) * q + q)%Q as HS.
  { rewrite Nat2Z.inj_succ, <- Z.add_1_r, inject_Z_plus. change (inject_Z 1) with 1%Q. ring. }
  set (w := Qmin q (m - now)).
  destruct (Q.min_spec q (m - now)) as [[Hlt Hmin]|[Hlt Hmin]]; fold w in Hmin; clearbody w.
  - right. destruct renewed.
    + exists (now + w + late + bt)%Q, 0%Q. repeat split; lra.
    + exists b, (f + q)%Q. repeat split; lra.
  - destruct renewed; [|left; fold m; lra].
    destruct (Q.min_spec timeout_at lease_at) as [[Hlt' Hmin']|[Hlt' Hmin']]; fold m in Hmin'.
    + left. apply (Qle_trans _ timeout_at); [apply Q.le_min_l|]. lra.
    + right. exists (now + w + late + bt)%Q, 0%Q. repeat split; lra.
Qed.

Lemma turns_end fuel i now lease_at st :
  steady i now lease_at → quanta < Z.of_nat (i + fuel) →
  ∃ r st', turns on_heartbeat is_cancelled x env fuel i now lease_at st = Some (r, st')
           ∧ ∀ e, r = Ok e → Z.of_nat (en_wakes e) ≤ quanta.
Proof.
  revert i now lease_at st. induction fuel as [|fuel IH]; intros i now lease_at st Hs Hfuel.
  { destruct Hs. lia. }
  cbn [turns].
  assert (∀ k, (∀ rc, Z.of_nat (en_wakes (k rc)) ≤ quanta) →
    ∀ e, stopped env i k = Ok e → Z.of_nat (en_wakes e) ≤ quanta) as Hstop.
  { intros k Hk e He. unfold stopped in He. inv_ok. apply Hk. }
  destruct (Qle_bool (Qmin timeout_at lease_at - now) 0) eqn:E.
  { eexists _, _. split; [done|]. apply Hstop. intros rc. apply Hs. }
  assert (0 < Qmin timeout_at lease_at - now)%Q as Hr.
  { apply Qnot_le_lt. intros H. apply Qle_bool_iff in H. congruence. }
  pose proof (wait_steady i now lease_at false Hs Hr) as [Hnext _].
  destruct (ask_cancelled is_cancelled st) as [[] st1].
  { eexists _, _. split; [done|]. apply Hstop. intros rc. apply Hs. }
  destruct (re_exceeded env i).
  { eexists _, _. split; [done|]. apply Hstop. intros rc. apply Hs. }
  destruct (re_wait env i) as [rc|].
  { eexists _, _. split; [done|]. apply Hstop. intros _. by destruct (re_exceeded_after env i). }
  destruct (beat on_heartbeat st1) as [renewed st2].
  apply IH; [by apply wait_steady|lia].
Qed.

End ends.

Lemma wait_some {St} (on_heartbeat is_cancelled : option (St → result bool * St)) x env st :
  bounded x → clocked env →
  ∃ r st', turns on_heartbeat is_cancelled x env (wait_fuel x) 0 (re_start env + re_setup env)
             (re_start env + xs_lease_ttl_s x) st = Some (r, st') ∧
           ∀ e, r = Ok e → Z.of_nat (en_wakes e) ≤ 2 * Qceiling (xs_timeout_s x / quantum x).
Proof.
  intros Hx Henv. apply (turns_end on_heartbeat is_cancelled x env Hx Henv).
  - pose proof (setup_nonneg env Henv) as Hsetup. pose proof (timeout_bound x Hx) as Ht.
    destruct (quantum_bounds x Hx) as [Hq _]. split.
    + assert (0 <= Qceiling (xs_timeout_s x / quantum x)); [|simpl; lia].
      change 0 with (Qceiling 0). apply Qceiling_resp_le, Qle_shift_div_l; [done|]. lra.
    + right. exists (re_start env), 0%Q. change (inject_Z (Z.of_nat 0)) with 0%Q. repeat split; lra.
  - unfold wait_fuel. lia.
Qed.

(** ** The end that is told *)

Lemma collect_bounds found total files l :
  collect found total files = Ok l → (length found ≤ MAX_ARTIFACTS)%nat →
  (length l ≤ MAX_ARTIFACTS)%nat ∧ l = found ++ map (λ f, mkArtifact (wk_path f) (wk_sha256 f)) files
  ∧ (files ≠ [] → total + foldr Z.add 0 (map wk_size files) ≤ MAX_ARTIFACT_BYTES).
Proof.
  revert found total. induction files as [|f files IH]; intros found total Hc Hl.
  { simpl in Hc. inv_ok. by rewrite app_nil_r. }
  cbn [collect] in Hc. destruct (_ || _)%bool eqn:E; [done|]. bool_hyps.
  apply Nat.leb_gt in H. apply IH in Hc as (H1 & -> & H3).
  - split_and!; [done|by rewrite <- app_assoc|]. intros _. cbn [map foldr].
    destruct files as [|g files]; [simpl; lia|]. specialize (H3 ltac:(done)). lia.
  - rewrite length_app. simpl. lia.
Qed.

Lemma failed_code_ne rc : failed_code rc ≠ 0.
Proof. unfold failed_code. by destruct (Z.eqb_spec rc 0). Qed.

Section told.
Context {St : Type} (hb ic : option (St → result bool * St)) (x : ExecutionSpec) (env : RunEnv) (st0 : St).

#[local] Abbreviation timeout_at := (re_start env + xs_timeout_s x)%Q.

(** The time, the end of the lease and the caller's state when turn [i]
    begins, the turns before it having waited. *)
Fixpoint at_turn (i : nat) : Q * Q * St :=
  match i with
  | O => (re_start env + re_setup env, re_start env + xs_lease_ttl_s x, st0)%Q
  | S i =>
      let '(now, lease_at, st) := at_turn i in
      let '(renewed, st) := beat hb (ask_cancelled ic st).2 in
      let beat_at := (now + Qmin (quantum x) (Qmin timeout_at lease_at - now) + re_late env i + re_beat env i)%Q in
      (beat_at + re_pause env i, if renewed then beat_at + xs_lease_ttl_s x else lease_at, st)%Q
  end.

(** Turn [i] begins within the time bound and the lease, the dispatch is not
    cancelled then and the output is within its bound. *)
Definition in_time (i : nat) : Prop := ((at_turn i).1.1 < Qmin timeout_at (at_turn i).1.2)%Q.
Definition wanted (i : nat) : Prop := (ask_cancelled ic (at_turn i).2).1 = false.
Definition goes_on (i : nat) : Prop := in_time i ∧ wanted i ∧ re_exceeded env i = false.

(** What an outcome after [wakes] wakes says of the run. *)
Definition ended (o : Outcome) (wakes : nat) : Prop :=
  ∃ i, (∀ j, (j < i)%nat → goes_on j ∧ re_wait env j = None) ∧ re_terminate env i = Ok tt ∧
  match o with
  | COMPLETED => wakes = S i ∧ goes_on i ∧ re_wait env i = Some 0 ∧ re_exceeded_after env i = false
  | CRASH => in_time i ∧ wanted i ∧
      (wakes = i ∧ re_exceeded env i = true ∨
       wakes = S i ∧ ∃ rc, re_wait env i = Some rc ∧ (re_exceeded_after env i = true ∨ rc ≠ 0))
  | TIMEOUT => wakes = i ∧ (timeout_at <= (at_turn i).1.1 ∧ timeout_at <= (at_turn i).1.2)%Q
  | LEASE_LOST => wakes = i ∧ ((at_turn i).1.2 <= (at_turn i).1.1 ∧ (at_turn i).1.2 < timeout_at)%Q
  | CANCELLED => wakes = i ∧ in_time i ∧ ¬ wanted i
  | SPAWN_FAILED => False
  end.

(** What an ending tells of the run. *)
Definition told (e : Ending) : Prop :=
  ended (en_outcome e) (en_wakes e) ∧
  match en_outcome e with
  | COMPLETED => en_returncode e = Some 0 ∧ en_overflow e = false
  | CRASH => ∃ rc, en_returncode e = Some rc ∧ rc ≠ 0
  | _ => en_returncode e = re_poll env (en_wakes e)
  end.

Lemma turns_told fuel i now lease_at st e st' :
  at_turn i = (now, lease_at, st) → (∀ j, (j < i)%nat → goes_on j ∧ re_wait env j = None) →
  turns hb ic x env fuel i now lease_at st = Some (Ok e, st') → told e.
Proof.
  assert (∀ i k, stopped env i k = Ok e → re_terminate env i = Ok tt ∧ e = k (re_poll env i)) as Hstop.
  { intros j k Hs. unfold stopped in Hs. inv_ok. by destruct (re_terminate env j) as [[]|]. }
  revert i now lease_at st. induction fuel as [|fuel IH]; intros i now lease_at st Hat Hbefore Ht; [done|].
  cbn [turns] in Ht. destruct (Qle_bool (Qmin timeout_at lease_at - now) 0) eqn:Hq.
  { injection Ht as Ht <-. apply Hstop in Ht as [Hk ->]. apply Qle_bool_iff in Hq.
    unfold told. cbn. destruct (Qle_bool timeout_at lease_at) eqn:Hle; (split; [|done]); exists i; rewrite Hat; cbn.
    - apply Qle_bool_iff in Hle. split_and!; try done. rewrite Q.min_l in Hq by done. lra.
    - assert (lease_at < timeout_at)%Q by (apply Qnot_le_lt; intros H; apply Qle_bool_iff in H; congruence).
      split_and!; try done. rewrite Q.min_r in Hq by (by apply Qlt_le_weak). lra. }
  assert (in_time i) as Hin.
  { unfold in_time. rewrite Hat. cbn. apply Qnot_le_lt. intros H. assert (Qmin timeout_at lease_at - now <= 0)%Q as H' by lra.
    apply Qle_bool_iff in H'. congruence. }
  assert (wanted i ↔ (ask_cancelled ic st).1 = false) as Hwanted by (unfold wanted; by rewrite Hat).
  destruct (ask_cancelled ic st) as [c st1] eqn:Hc. destruct c.
  { injection Ht as Ht <-. apply Hstop in Ht as [Hk ->]. split; [|done]. exists i. cbn. split_and!; try done. by intros ?%Hwanted. }
  specialize (proj2 Hwanted eq_refl) as Hwant.
  destruct (re_exceeded env i) eqn:Ex.
  { injection Ht as Ht <-. apply Hstop in Ht as [Hk ->]. split; [exists i; cbn; eauto 10|].
    eexists; split; [done|]. apply failed_code_ne. }
  destruct (re_wait env i) as [rc|] eqn:Ew.
  { injection Ht as Ht <-. apply Hstop in Ht as [Hk ->]. unfold told. destruct (re_exceeded_after env i) eqn:Ea.
    - split; [exists i; cbn; eauto 12|]. eexists; split; [done|]. apply failed_code_ne.
    - cbn. destruct (Z.eqb_spec rc 0) as [->|Hne].
      + split; [|done]. exists i. cbn. by split_and!.
      + split; [|by exists rc]. exists i. cbn. eauto 12. }
  destruct (beat hb st1) as [renewed st2] eqn:Hb. eapply IH; [| |exact Ht].
  - cbn [at_turn]. rewrite Hat, Hc. cbn [snd]. by rewrite Hb.
  - intros j Hj. destruct (decide (j = i)) as [->|]; [by split|]. apply Hbefore. lia.
Qed.

(** What a result tells of its run. *)
Definition truthful (r : ExecutionResult) : Prop :=
  er_spec r = x ∧ (length (er_artifacts r) ≤ MAX_ARTIFACTS)%nat ∧
  (l2_outcome r = "success" →
     er_returncode r = Some 0 ∧ er_crash_report r = false ∧
     er_artifacts r = map (λ f, mkArtifact (wk_path f) (wk_sha256 f)) (re_files env) ∧
     foldr Z.add 0 (map wk_size (re_files env)) ≤ MAX_ARTIFACT_BYTES ∧ ended COMPLETED (er_wakes r)) ∧
  (l2_outcome r ≠ "success" → er_crash_report r = true) ∧
  (er_outcome r ≠ CRASH → ended (er_outcome r) (er_wakes r)) ∧
  (retryable r = true →
     xs_effect_class x = JStr "idempotent" ∧ (er_outcome r = TIMEOUT ∨ er_outcome r = LEASE_LOST)).

Lemma retryable_spec r :
  retryable r = true →
  xs_effect_class (er_spec r) = JStr "idempotent" ∧ (er_outcome r = TIMEOUT ∨ er_outcome r = LEASE_LOST).
Proof.
  unfold retryable. intros H. destruct (xs_effect_class (er_spec r)) as [| | | |s| |]; try done.
  repeat (case_match; try done). split; [done|]. by apply bool_decide_eq_true in H.
Qed.

Lemma success_completed r : l2_outcome r = "success" ↔ er_outcome r = COMPLETED.
Proof. unfold l2_outcome. by case_decide. Qed.

Lemma conclude_truthful e : told e → truthful (conclude x env e).
Proof.
  intros He. unfold truthful. rewrite success_completed. unfold conclude.
  destruct (collect_artifacts (re_files env)) as [l|] eqn:Ec; simpl.
  - apply collect_bounds in Ec as (Hlen & -> & Hsize); [|simpl; unfold MAX_ARTIFACTS; lia].
    destruct He as [Hend He]. split_and!; [done|done| | |done|apply retryable_spec].
    + intros E. rewrite E in He, Hend. destruct He as [Hrc Ho].
      rewrite bool_decide_true by done. split_and!; try done.
      destruct (re_files env); [by vm_compute|]. by apply Hsize.
    + intros E. by rewrite bool_decide_false.
  - split_and!; try done; [unfold MAX_ARTIFACTS; lia|]. intros Hr. by apply retryable_spec in Hr as [? [|]].
Qed.

End told.

Lemma waits_end {St} (on_heartbeat is_cancelled : option (St → result bool * St)) x env st :
  bounded x → clocked env →
  ∃ r st', _wait on_heartbeat is_cancelled x env st = Some (r, st') ∧ ∀ e, r = Ok e → truthful on_heartbeat is_cancelled x env st e.
Proof.
  intros Hx Henv. unfold _wait.
  destruct (wait_some on_heartbeat is_cancelled x env st Hx Henv) as (r & st' & E & _). rewrite E.
  cbn [mbind option_bind]. eexists _, st'. split; [done|].
  destruct r as [e|]; [|done]. intros r [= <-]. eapply conclude_truthful, turns_told; [|by intros ? ?%Nat.nlt_0_r|exact E]. done.
Qed.

(** C15: the wait of a run ends: for a spec within its bounds and a clock that
    does not go back, the loop of [_wait] wakes at most twice as often as the
    time bound has quanta, whatever the child does and however heartbeats
    renew the lease. *)
Theorem waits_are_bounded {St} (on_heartbeat is_cancelled : option (St → result bool * St)) x env st :
  bounded x → clocked env →
  ∃ r st', _wait on_heartbeat is_cancelled x env st = Some (r, st') ∧
           ∀ e, r = Ok e → Z.of_nat (er_wakes e) ≤ 2 * Qceiling (xs_timeout_s x / quantum x).
Proof.
  intros Hx Henv. unfold _wait.
  destruct (wait_some on_heartbeat is_cancelled x env st Hx Henv) as (r & st' & -> & Hw).
  cbn [mbind option_bind]. eexists _, st'. split; [done|].
  destruct r as [e|]; [|done]. intros r [= <-]. specialize (Hw e eq_refl).
  unfold conclude. by destruct (collect_artifacts _).
Qed.

(** C11: the host runs one dispatch at a time and tells the truth about it: a
    busy host refuses without touching anything; an idle one always answers,
    and is idle again with no claim record left when the process tree could be
    stopped.  It reports success only for a child that exited with 0 in a turn
    that began before the time bound and before the end of the lease as the
    heartbeats renewed it, while nobody had cancelled the dispatch, with output
    and artifacts within their bounds; a timeout, a lost lease and a
    cancellation are reported only when they were met; only a timeout or a lost
    lease of an idempotent task is called retryable. *)
Theorem hosts_tell_the_truth `{UnicodeAlnum} {St} (on_heartbeat is_cancelled : option (St → result bool * St))
    x env h st :
  bounded x → clocked env →
  ∃ r h' st',
    run_once on_heartbeat is_cancelled x env h st = Some (r, h', st') ∧
    (is_Some (hs_active h) → (∃ m, r = raise HostBusy m) ∧ h' = h ∧ st' = st) ∧
    (hs_active h = None →
       (re_last_terminate env = Ok tt → hs_active h' = None ∧ hs_claims h' ⊆ hs_claims h) ∧
       (∀ res, r = Ok res → re_last_terminate env = Ok tt ∧ truthful on_heartbeat is_cancelled x env st res)).
Proof.
  intros Hx Henv. unfold run_once.
  destruct (waits_end on_heartbeat is_cancelled x env st Hx Henv) as (r & st' & Hw & Htrue).
  assert (∀ y h' st1, (hs_active h' = None ∧ hs_claims h' ⊆ hs_claims h ∨ re_last_terminate env ≠ Ok tt) →
    hs_active h = None → ∃ r h0 st0,
    Some (Err y : result ExecutionResult, h', st1) = Some (r, h0, st0) ∧
    (is_Some (hs_active h) → (∃ m, r = raise HostBusy m) ∧ h0 = h ∧ st0 = st) ∧
    (hs_active h = None → (re_last_terminate env = Ok tt → hs_active h0 = None ∧ hs_claims h0 ⊆ hs_claims h) ∧
       (∀ res, r = Ok res → re_last_terminate env = Ok tt ∧ truthful on_heartbeat is_cancelled x env st res))) as Hraise.
  { intros y h' st1 Hor Ha. eexists _, h', st1. split; [done|]. split; [rewrite Ha; by intros []|].
    intros _. split; [tauto|done]. }
  destruct (hs_active h) as [d|] eqn:Ea.
  { eexists _, h, st. split; [done|]. split; [by eauto|done]. }
  destruct (re_pressure env); [apply Hraise; auto|].
  destruct (re_spawn env); [|apply Hraise; auto].
  destruct (re_record env).
  2: { destruct (re_last_terminate env); apply Hraise; auto. }
  rewrite Hw. cbn [mbind option_bind].
  destruct (re_last_terminate env) as [[]|]; [|apply Hraise; auto].
  eexists _, _, st'. split; [done|]. split; [by intros []|]. intros _. split; [|by auto].
  intros _. split; [done|]. simpl. set_solver.
Qed.
