(* ===== verification/WorkerLoop.v ===== *)
(** * The worker's loop ([courier_worker/service.py])

    Claim, run, deliver: the client of the controller's API, the durable
    delivery of results, and one bounded cycle of the loop.  The network, the
    clock, the child processes and the other threads are the [WorkerWorld],
    asked by the number of the question. *)

From Stdlib Require Import Ascii Qminmax.
From S2P Require Import Prelude PyText AsciiText Scope Json JsonAscii Sha256 Events LockManager WorkerSpec WorkerOutbox WorkerHost.

Definition MAX_OUTBOX_DELIVERY_ATTEMPTS : Z := 5.
Definition STARTUP_HEALTH_ATTEMPTS : nat := 5.
Definition COOLDOWN_S : Q := 60.

(** What a request brings: nothing, with the text of the exception, or a
    status and a body. *)
Inductive Reply := Failed (text : string) | Answered (status : Z) (raw : string).

Class WorkerWorld := {
  ww_reply : nat → string → string → option json → Reply;
  ww_time : nat → Q;
  ww_mtime : nat → Z;
  ww_pressure : nat → option string;
  ww_stop : nat → bool;
  ww_watch : nat → bool;
  ww_run : nat → RunEnv;
  ww_report : nat → option string;
}.

(** A request that was made, and its answer. *)
Record Call := mkCall { cl_method : string; cl_path : string; cl_body : option json; cl_reply : Reply }.

(** The worker: its home (outbox, requests and reports of the runner by their
    dispatch), the failed deliveries by dispatch, the load state, the host,
    the cancellation flag of the running dispatch, the requests made so far
    and the number of questions asked. *)
Record Worker := mkWorker {
  wk_outbox : Outbox;
  wk_requests : gmap string json;
  wk_reports : gmap string string;
  wk_attempts : gmap string Z;
  wk_cooldown_until : Q;
  wk_resource_state : string;
  wk_host : Host;
  wk_cancelled : bool;
  wk_sent : list Call;
  wk_asked : nat;
}.

Definition set_outbox (f : Outbox → Outbox) (w : Worker) : Worker :=
  mkWorker (f (wk_outbox w)) (wk_requests w) (wk_reports w) (wk_attempts w) (wk_cooldown_until w)
    (wk_resource_state w) (wk_host w) (wk_cancelled w) (wk_sent w) (wk_asked w).
Definition set_files (f : gmap string json → gmap string json) (g : gmap string string → gmap string string)
    (w : Worker) : Worker :=
  mkWorker (wk_outbox w) (f (wk_requests w)) (g (wk_reports w)) (wk_attempts w) (wk_cooldown_until w)
    (wk_resource_state w) (wk_host w) (wk_cancelled w) (wk_sent w) (wk_asked w).
Definition set_attempts (f : gmap string Z → gmap string Z) (w : Worker) : Worker :=
  mkWorker (wk_outbox w) (wk_requests w) (wk_reports w) (f (wk_attempts w)) (wk_cooldown_until w)
    (wk_resource_state w) (wk_host w) (wk_cancelled w) (wk_sent w) (wk_asked w).
Definition set_load (until : Q) (state : string) (w : Worker) : Worker :=
  mkWorker (wk_outbox w) (wk_requests w) (wk_reports w) (wk_attempts w) until
    state (wk_host w) (wk_cancelled w) (wk_sent w) (wk_asked w).
Definition set_host (h : Host) (w : Worker) : Worker :=
  mkWorker (wk_outbox w) (wk_requests w) (wk_reports w) (wk_attempts w) (wk_cooldown_until w)
    (wk_resource_state w) h (wk_cancelled w) (wk_sent w) (wk_asked w).
Definition set_cancelled (b : bool) (w : Worker) : Worker :=
  mkWorker (wk_outbox w) (wk_requests w) (wk_reports w) (wk_attempts w) (wk_cooldown_until w)
    (wk_resource_state w) (wk_host w) b (wk_sent w) (wk_asked w).
Definition log_call (c : Call) (w : Worker) : Worker :=
  mkWorker (wk_outbox w) (wk_requests w) (wk_reports w) (wk_attempts w) (wk_cooldown_until w)
    (wk_resource_state w) (wk_host w) (wk_cancelled w) (wk_sent w ++ [c]) (wk_asked w).
Definition count_question (w : Worker) : Worker :=
  mkWorker (wk_outbox w) (wk_requests w) (wk_reports w) (wk_attempts w) (wk_cooldown_until w)
    (wk_resource_state w) (wk_host w) (wk_cancelled w) (wk_sent w) (S (wk_asked w)).

(** ** The worker's computations *)
Definition W (A : Type) : Type := Worker → result A * Worker.
#[export] Instance W_ret : MRet W := λ A a w, (Ok a, w).
#[export] Instance W_bind : MBind W := λ A B f m w,
  match m w with (Ok a, w') => f a w' | (Err x, w') => (Err x, w') end.

Definition wlift {A} (r : result A) : W A := λ w, (r, w).
Definition on_worker (f : Worker → Worker) : W unit := λ w, (Ok tt, f w).
Definition get_w : W Worker := λ w, (Ok w, w).
Definition inquire {A} (f : nat → A) : W A := λ w, (Ok (f (wk_asked w)), count_question w).

(** [try: m except cls: handler], for the exceptions that [catch] names. *)
Definition try_w {A} (m : W A) (catch : exn → bool) (handler : exn → W A) : W A := λ w,
  match m w with
  | (Err x, w') => if catch x then handler x w' else (Err x, w')
  | ok => ok
  end.

(** [except ControllerError], with its subclasses. *)
Definition is_controller_error (x : exn) : bool :=
  match exn_cls x with ControllerError | ControllerUnreachable | StaleDispatch | AuthenticationError => true | _ => false end.
Definition is_class (c : exn_class) (x : exn) : bool := bool_decide (exn_cls x = c).

Section client.
Context `{PyPlatform} `{WorkerWorld}.

(** ** The client: one attempt per call *)

(** [_call]: the status and the body, [JNull] where it is no JSON. *)
Definition _call (method path : string) (body : option json) : W (Z * json) :=
  reply ← inquire (λ n, ww_reply n method path body);
  on_worker (log_call (mkCall method path body reply));;
  let where_ := method +:+ " " +:+ path +:+ ": " in
  match reply with
  | Failed text => wlift (raise ControllerError (where_ +:+ text))
  | Answered status raw =>
      if 500 <=? status then wlift (raise ControllerError (where_ +:+ "status " +:+ str_of_Z status))
      else mret (status, default JNull (read_json raw))
  end.

Definition unauthorized (status : Z) : bool := (bool_decide (status = 401) || bool_decide (status = 403))%bool.
Definition gone (status : Z) : bool := (bool_decide (status = 404) || bool_decide (status = 409))%bool.

(** [str.split(".")[0]] *)
Fixpoint before_dot (s : string) : string :=
  match s with String a r => if Ascii.eqb a "." then "" else String a (before_dot r) | "" => "" end.

Definition healthy (status : Z) (payload : json) : bool :=
  match payload with
  | JObj kvs =>
      let mode := jget_none "mode" kvs in
      (bool_decide (status = 200) && (py_eq mode (JStr "normal") || is_null mode)
       && match jget_none "build" kvs with
          | JObj build =>
              match jget "version" build with
              | Some v => let major := before_dot (py_str v) in
                          (bool_decide (major = "") || bool_decide (major = "1"))%bool
              | None => true
              end
          | _ => true
          end)%bool
  | _ => false
  end.

Definition health : W bool :=
  try_w ('(status, payload) ← _call "GET" "/health" None; mret (healthy status payload))
    is_controller_error (λ _, mret false).

Definition worker_body (worker_id : string) (dispatch_ids : option (list string)) (state : string) : json :=
  JObj ([("worker_id", JStr worker_id)]
        ++ match dispatch_ids with Some l => [("dispatch_ids", JArr (map JStr l))] | None => [] end
        ++ [("resource_state", JStr state)]).

Definition claim (worker_id state : string) : W (option json) :=
  r ← try_w (r ← _call "POST" "/claim" (Some (worker_body worker_id None state)); mret (Some r))
        is_controller_error (λ _, mret None);
  match r with
  | None => mret None
  | Some (status, payload) =>
      if unauthorized status then wlift (raise AuthenticationError "claim rejected with authentication failure")
      else mret (match payload with
                 | JObj _ => if decide (status = 200) then Some payload else None
                 | _ => None
                 end)
  end.

Definition start (dispatch_id : string) : W unit :=
  r ← try_w (_call "POST" "/start" (Some (JObj [("dispatch_id", JStr dispatch_id)])))
        is_controller_error (λ _, wlift (raise StaleDispatch "start failed"));
  let status := r.1 in
  if unauthorized status then wlift (raise AuthenticationError "start rejected with authentication failure")
  else if decide (status = 200) then mret tt
  else wlift (raise StaleDispatch "controller rejects dispatch").

(** [payload or {}] *)
Definition heartbeat (worker_id : string) (dispatch_ids : list string) (state : string) : W json :=
  '(status, payload) ← _call "POST" "/heartbeat" (Some (worker_body worker_id (Some dispatch_ids) state));
  if unauthorized status then wlift (raise AuthenticationError "heartbeat rejected with authentication failure")
  else if decide (status = 200) then mret (if py_truthy payload then payload else JObj [])
  else wlift (raise ControllerError ("heartbeat: status " +:+ str_of_Z status)).

Inductive Delivery := Accepted | Stale.

Definition deliver (payload : json) : W Delivery :=
  '(status, body) ← _call "POST" "/result" (Some payload);
  if gone status then mret Stale
  else if decide (status = 200) then mret Accepted
  else wlift (raise ControllerError ("result: status " +:+ str_of_Z status)).

(** ** The outbox is emptied *)

Definition is_poison_400 (x : exn) : bool :=
  (py_in "status 400" (py_lower (exn_msg x)) || py_in "bad request" (py_lower (exn_msg x)))%bool.

Definition count_attempt (d : string) : W Z :=
  w ← get_w;
  let attempts := default 0 (wk_attempts w !! d) + 1 in
  on_worker (set_attempts (<[d := attempts]>));;
  mret attempts.

Definition forget_attempts (d : string) : W unit := on_worker (set_attempts (delete d)).

(** One attempt to deliver the result of [d]: the exception, if it fails. *)
Definition attempt (payload : json) (d : string) : W (option exn) :=
  try_w (deliver payload;; forget_attempts d;; mret None) is_controller_error (λ x, mret (Some x)).

(** One result of [flush_outbox]: whether it remains. *)
Definition flush_one (payload : json) : W bool :=
  match payload with
  | JObj kvs =>
      let d := py_str (default (JStr "") (jget "dispatch_id" kvs)) in
      delivered ← attempt payload d;
      match delivered with
      | None =>
          id ← wlift (of_option (Exn KeyError "dispatch_id") (jget "dispatch_id" kvs));
          on_worker (set_outbox (outbox_remove id));; mret false
      | Some x =>
          attempts ← count_attempt d;
          if (is_poison_400 x || (MAX_OUTBOX_DELIVERY_ATTEMPTS <=? attempts))%bool then
            let reason := if is_poison_400 x then "poison_400: " +:+ exn_msg x
                          else "max_attempts_exceeded (" +:+ str_of_Z attempts +:+ "): " +:+ exn_msg x in
            on_worker (set_outbox (outbox_quarantine (JStr d) reason));;
            forget_attempts d;; mret false
          else mret true
      end
  | _ => wlift (raise AttributeError "get")
  end.

Fixpoint flush_all (l : list (string * json)) (remaining : Z) : W Z :=
  match l with
  | [] => mret remaining
  | (_, payload) :: l => kept ← flush_one payload; flush_all l (if (kept : bool) then remaining + 1 else remaining)
  end.

Definition flush_outbox : W Z :=
  w ← get_w;
  flush_all (outbox_read_all (wk_outbox w)) 0.

Definition write_outbox (payload : list (string * json)) : W unit :=
  now ← inquire ww_mtime;
  w ← get_w;
  let '(r, ob) := outbox_write now payload (wk_outbox w) in
  on_worker (set_outbox (λ _, ob));; wlift r.

(** Whether the result is in the outbox; a full outbox is flushed and tried
    once more. *)
Definition store (payload : list (string * json)) : W bool :=
  try_w (write_outbox payload;; mret true) (is_class OutboxFull) (λ _,
    try_w (flush_outbox;; mret tt) (λ _, true) (λ _, mret tt);;
    try_w (write_outbox payload;; mret true) (is_class OutboxFull) (λ _, mret false)).

Definition _deliver_payload (payload : list (string * json)) : W unit :=
  stored ← store payload;
  if negb stored then mret tt else
  let d := py_str (default (JStr "") (jget "dispatch_id" payload)) in
  delivered ← attempt (JObj payload) d;
  match delivered with
  | None =>
      id ← wlift (of_option (Exn KeyError "dispatch_id") (jget "dispatch_id" payload));
      on_worker (set_outbox (outbox_remove id))
  | Some x =>
      count_attempt d;;
      if is_poison_400 x then
        on_worker (set_outbox (outbox_quarantine (JStr d) ("poison_400: " +:+ exn_msg x)));; forget_attempts d
      else mret tt
  end.

End client.

(** ** What a result says *)

(** The parts of [os.path.abspath] on POSIX below the root. *)
Definition norm_part (acc : list string) (p : string) : list string :=
  if (bool_decide (p = "") || bool_decide (p = "."))%bool then acc
  else if decide (p = "..") then removelast acc else acc ++ [p].
Definition abs_parts (cwd path : string) : list string :=
  foldl norm_part [] (split_slash (path_join cwd path)).

Fixpoint drop_common (start path : list string) : list string * list string :=
  match start, path with
  | a :: start', b :: path' => if decide (a = b) then drop_common start' path' else (start, path)
  | _, _ => (start, path)
  end.

(** [os.path.relpath(abspath(path), abspath(start))] *)
Definition relpath (cwd path start : string) : string :=
  let '(up, down) := drop_common (abs_parts cwd start) (abs_parts cwd path) in
  match (map (λ _, "..") up ++ down)%list with [] => "." | l => join_slash l end.

Definition _artifact_prefix (cwd artifact_dir home : string) : string :=
  let rel := relpath cwd artifact_dir home in
  if (bool_decide (home = "") || bool_decide (rel = ".") || startswith rel ".." || startswith rel "/")%bool then ""
  else rel +:+ "/".

Section payload.
Context `{PyPlatform}.

(** The outcome, whether a retry is safe, and why the result is no success. *)
Definition verdict (r : ExecutionResult) (report : option (list (string * json))) : string * bool * option string :=
  if negb (bool_decide (l2_outcome r = "success"))
  then ("failure", retryable r, Some ("worker outcome: " +:+ outcome_value (er_outcome r)))
  else match xs_adapter (er_spec r) with
       | None => ("success", retryable r, None)
       | Some _ =>
           match report with
           | None => ("failure", false, Some "adapter runner produced no structured result")
           | Some rep =>
               if py_eq (jget_none "outcome" rep) (JStr "success") then ("success", retryable r, None)
               else let why := jget_none "reason" rep in
                    ("failure", py_truthy (default (JBool false) (jget "retryable" rep)),
                     Some (py_take 500 (if py_truthy why then py_str why else "adapter reported failure")))
           end
       end.

(** [build_result_payload], with the runner's report. *)
Definition build_result_payload (cwd home : string) (r : ExecutionResult) (report : option (list (string * json)))
    : list (string * json) :=
  let prefix := _artifact_prefix cwd (xs_artifact_dir (er_spec r)) home in
  let '(outcome, retry, reason) := verdict r report in
  [("dispatch_id", JStr (xs_dispatch_id (er_spec r))); ("result_id", JStr (xs_result_id (er_spec r)));
   ("artifacts", JArr (map (λ a, JObj [("path", JStr (prefix +:+ ar_path a)); ("sha256", JStr (ar_sha256 a))])
                         (er_artifacts r)));
   ("outcome", JStr outcome)]
  ++ (if decide (outcome = "success") then []
      else ("retryable", JBool retry)
           :: match reason with
              | Some why => if decide (why = "") then [] else [("reason", JStr why)]
              | None => []
              end).

Definition build_spec_failure_payload (dispatch_id result_id reason : string) : list (string * json) :=
  [("dispatch_id", JStr dispatch_id); ("result_id", JStr result_id); ("artifacts", JArr []);
   ("outcome", JStr "failure"); ("retryable", JBool false); ("reason", JStr reason)].

Definition REPORT_OUTCOMES : list string := ["success"; "failure"].

(** [read_report], of the text of the report file; an outcome that cannot be
    looked up in the set raises. *)
Definition read_report (text : option string) : result (option (list (string * json))) :=
  match text ≫= read_json with
  | Some (JObj report) =>
      known ← json_in_strs (jget_none "outcome" report) REPORT_OUTCOMES;
      mret (if (known && is_bool (default (JBool false) (jget "retryable" report)))%bool then Some report else None)
  | _ => mret None
  end.

End payload.

(** ** One cycle *)

Inductive Action := Idle | AuthFailed | SpecRejected | StaleStart | Abandoned | Delivered.

(** The settings of a worker. *)
Record Settings := mkSettings { st_home : string; st_cwd : string; st_worker_id : string; st_heartbeat_s : Q }.

Section loop.
Context `{PyPlatform} `{UnicodeAlnum} `{WorkerPlatform} `{WorkerWorld} (cfg : Settings).

Definition artifacts_root : string := path_join (st_home cfg) "artifacts".

(** [x in payload.get(key, [])], where the payload is an object. *)
Definition listed (d : string) (j : json) : result bool :=
  match j with
  | JArr l => Ok (existsb (λ x, py_eq (JStr d) x) l)
  | JStr s => Ok (py_in d s)
  | JObj kvs => Ok (jhas d kvs)
  | _ => raise TypeError "argument is not iterable"
  end.

Definition _send_heartbeat (d : string) : W bool :=
  w ← get_w;
  payload ← heartbeat (st_worker_id cfg) [d] (wk_resource_state w);
  match payload with
  | JObj kvs =>
      cancelled ← wlift (listed d (default (JArr []) (jget "cancel" kvs)));
      hit ← (if cancelled : bool then mret true else wlift (listed d (default (JArr []) (jget "stop" kvs))));
      (if hit : bool then on_worker (set_cancelled true) else mret tt);;
      mret true
  | _ => wlift (raise AttributeError "get")
  end.

(** [watcher.cancelled()]: set by a heartbeat, or by the watcher's thread. *)
Definition watcher_cancelled : W bool :=
  seen ← inquire ww_watch;
  w ← get_w;
  let b := (wk_cancelled w || seen)%bool in
  on_worker (set_cancelled b);; mret b.

Definition run_cancelled : W bool :=
  b ← watcher_cancelled;
  if b : bool then mret true else inquire ww_stop.

(** [write_request]: an old report is removed first. *)
Definition request_json (x : ExecutionSpec) : json :=
  let d := xs_dispatch_id x in
  JObj ([("adapter", jopt (xs_adapter x)); ("params", JObj (xs_params x)); ("attempt", JInt (xs_attempt x));
         ("task_id", JStr (xs_task_id x)); ("dispatch_id", JStr d); ("effect_key", JStr (xs_effect_key x));
         ("workdir", JStr (xs_artifact_dir x)); ("report", JStr (report_path (st_home cfg) d))]
        ++ match xs_input x with
           | None => []
           | Some bound => [("input", bound); ("home", JStr ("/" +:+ join_slash (abs_parts (st_cwd cfg) (st_home cfg))))]
           end).

Definition write_request (x : ExecutionSpec) : W unit :=
  let d := xs_dispatch_id x in
  on_worker (set_files (insert (request_path (st_home cfg) d) (request_json x)) (delete (report_path (st_home cfg) d))).
Definition cleanup (d : string) : W unit :=
  on_worker (set_files (delete (request_path (st_home cfg) d)) (delete (report_path (st_home cfg) d))).

(** [engine.run_once], where the runner may leave a report.  The wait always
    ends ([WorkerHost.waits_are_bounded]). *)
Definition run_with (x : ExecutionSpec) (env : RunEnv) (report : option string) : W ExecutionResult := λ w,
  match run_once (Some (_send_heartbeat (xs_dispatch_id x))) (Some run_cancelled) x env (wk_host w) w with
  | None => (raise ContainmentError "the wait does not end", w)
  | Some (r, h, w') =>
      let left m := match report with
                    | Some text => <[report_path (st_home cfg) (xs_dispatch_id x) := text]> m
                    | None => m
                    end in
      (r, set_files (λ m, m) left (set_host h w'))
  end.

Definition engine_run (x : ExecutionSpec) : W ExecutionResult :=
  env ← inquire ww_run;
  report ← inquire ww_report;
  run_with x env report.

Definition idle_heartbeat (state : string) : W unit :=
  try_w (heartbeat (st_worker_id cfg) [] state;; mret tt) is_controller_error (λ _, mret tt).

(** The load state of this cycle. *)
Definition resource_state : W string :=
  reason ← inquire ww_pressure;
  now ← inquire ww_time;
  w ← get_w;
  let '(until, state) :=
    match reason with
    | Some _ => (now + COOLDOWN_S, "PRESSURED")%Q
    | None => (wk_cooldown_until w, if Qle_bool (wk_cooldown_until w) now then "NORMAL" else "COOLDOWN")
    end in
  on_worker (set_load until state);; mret state.

(** A started dispatch, to the delivery of its result. *)
Definition execute (x : ExecutionSpec) : W Action :=
  let d := xs_dispatch_id x in
  result ← engine_run x;
  cancelled ← watcher_cancelled;
  if (bool_decide (er_outcome result = CANCELLED) && negb cancelled)%bool then cleanup d;; mret Abandoned else
  w ← get_w;
  report ← wlift (read_report (wk_reports w !! report_path (st_home cfg) d));
  _deliver_payload (build_result_payload (st_cwd cfg) (st_home cfg) result report);;
  cleanup d;;
  (if decide (er_outcome result = CANCELLED) then idle_heartbeat "NORMAL" else mret tt);;
  mret Delivered.

(** A claimed dispatch. *)
Definition work (x : ExecutionSpec) : W Action :=
  let d := xs_dispatch_id x in
  write_request x;;
  started ← try_w (start d;; mret true) (is_class StaleDispatch) (λ _, mret false);
  if negb started then cleanup d;; mret StaleStart else
  on_worker (set_cancelled false);;
  execute x.

(** A claim, worked on or answered with why it is no spec. *)
Definition take_claim (claim : json) : W Action :=
  match resolve_spec claim (st_worker_id cfg) artifacts_root (st_heartbeat_s cfg) (st_home cfg) with
  | Ok x => work x
  | Err e =>
      if decide (exn_cls e = SpecError) then
        let d := match claim with JObj kvs => py_str (default (JStr "") (jget "dispatch_id" kvs)) | _ => "" end in
        _deliver_payload (build_spec_failure_payload d ("r-" +:+ d) ("spec-invalid: " +:+ exn_msg e));;
        mret SpecRejected
      else wlift (Err e)
  end.

Definition iterate : W Action :=
  flushed ← try_w (flush_outbox;; mret true) is_controller_error (λ _, mret false);
  if negb flushed then mret Idle else
  state ← resource_state;
  if negb (bool_decide (state = "NORMAL")) then idle_heartbeat state;; mret Idle else
  claimed ← try_w (c ← claim (st_worker_id cfg) state; mret (Some c)) (is_class AuthenticationError)
              (λ _, mret None);
  match claimed with
  | None => mret AuthFailed
  | Some None => idle_heartbeat state;; mret Idle
  | Some (Some claim) => take_claim claim
  end.

End loop.

(** ** The process *)

Section process.
Context `{PyPlatform} `{UnicodeAlnum} `{WorkerPlatform} `{WorkerWorld} (cfg : Settings).

(** The first health checks: whether the controller is there, or [None] when
    the worker is told to stop meanwhile. *)
Fixpoint startup (attempts : nat) : W (option bool) :=
  match attempts with
  | O => ok ← health; mret (Some ok)
  | S attempts =>
      ok ← health;
      if (ok : bool) then mret (Some true) else
      stop ← inquire ww_stop;
      if (stop : bool) then mret None else startup attempts
  end.

(** One turn of [run]: [None] ends the process. *)
Definition turn : W (option Action) :=
  try_w (a ← iterate cfg; mret (Some a)) (λ x, match exn_cls x with
    | AuthenticationError | ControllerError | ControllerUnreachable | StaleDispatch | HostBusy | ResourcePaused => true
    | _ => false end)
    (λ x, mret match exn_cls x with
               | AuthenticationError => Some AuthFailed
               | HostBusy => None
               | _ => Some Idle
               end).

(** The loop of [run], for at most [fuel] turns, and the last flush: the exit
    status, or [None] when it was not told to stop by then. *)
Fixpoint run_turns (fuel : nat) : W (option Z) :=
  match fuel with
  | O => mret None
  | S fuel =>
      stop ← inquire ww_stop;
      if (stop : bool) then
        remaining ← try_w flush_outbox is_controller_error
                      (λ _, w ← get_w; mret (Z.of_nat (length (outbox_read_all (wk_outbox w)))));
        mret (Some (if remaining =? 0 then 0 else 1))
      else
        a ← turn;
        match a with None => mret (Some 0) | Some _ => run_turns fuel end
  end.

(** [run], once the home is locked and the token read. *)
Definition run (fuel : nat) : W (option Z) :=
  ok ← startup STARTUP_HEALTH_ATTEMPTS;
  match ok with
  | None => mret (Some 0)
  | Some false => wlift (raise ControllerUnreachable "controller is unhealthy")
  | Some true => run_turns fuel
  end.

End process.
