(* ===== verification/WorkerDelivery.v ===== *)
(** * What the worker owes the controller

    A result, once in the outbox, leaves it only when the controller has
    answered it or into quarantine; the results a worker builds are what the
    controller accepts. *)

From Stdlib Require Import Ascii.
From S2P Require Import Prelude PyText AsciiText Scope Json JsonAscii Sha256 Events LockManager WorkerSpec WorkerSpecSafety WorkerOutbox WorkerHost WorkerLoop.

(** ** Names *)

Lemma file_name_inj d d' : file_name d = file_name d' → d = d'.
Proof. apply string_app_inj_r. Qed.

Lemma usable_Some j d : usable_id j = Some d ↔ j = JStr d ∧ d ≠ "" ∧ safe_id d = true.
Proof.
  unfold usable_id. split.
  - destruct j as [| | | |s| |]; try done. destruct (_ && _)%bool eqn:E; [|done]. intros [= ->]. by bool_hyps.
  - intros (-> & Hd & ->). by rewrite bool_decide_false.
Qed.

(** No dispatch whose file is named like the metadata of another. *)
Definition no_meta (d : string) : Prop := ∀ d', d ≠ d' +:+ ".meta".

Section delivery.
Context `{PyPlatform}.

(** ** What the outbox holds *)

(** The file of dispatch [d] is [f], which reads as [payload]. *)
Definition holds (ob : Outbox) (d : string) (f : OutboxFile) (payload : json) : Prop :=
  ob_files ob !! file_name d = Some f ∧ read_json (of_text f) = Some payload.

(** Every file that reads is the result of the dispatch it is named after; no
    dispatch is named like the metadata of another. *)
Definition tidy (ob : Outbox) : Prop :=
  ∀ name f payload, ob_files ob !! name = Some f → read_json (of_text f) = Some payload →
  ∃ d kvs, name = file_name d ∧ payload = JObj kvs ∧ jget "dispatch_id" kvs = Some (JStr d)
           ∧ usable_id (JStr d) = Some d ∧ no_meta d.

(** The controller has answered a delivery of the result (whatever the order
    of its keys): it took it, or the dispatch is gone. *)
Definition answered (calls : list Call) (payload : json) : Prop :=
  ∃ c sent status raw, c ∈ calls ∧ cl_path c = "/result" ∧ cl_body c = Some sent ∧ canon sent = canon payload
                  ∧ cl_reply c = Answered status raw ∧ (status = 200 ∨ status = 404 ∨ status = 409).

(** A claim was answered with the dispatch [d]. *)
Definition issued (calls : list Call) (d : string) : Prop :=
  ∃ c raw kvs, c ∈ calls ∧ cl_path c = "/claim" ∧ cl_reply c = Answered 200 raw ∧ read_json raw = Some (JObj kvs)
               ∧ py_str (default (JStr "") (jget "dispatch_id" kvs)) = d.

(** The result was put into quarantine. *)
Definition set_aside (ob : Outbox) (d : string) (f : OutboxFile) : Prop :=
  ob_quarantine ob !! file_name d = Some (Moved f) ∧ ob_files ob !! file_name d = None.

(** What became of a file after the requests [new]. *)
Definition fate (b : Worker) (new : list Call) (d : string) (f : OutboxFile) (payload : json) : Prop :=
  ob_files (wk_outbox b) !! file_name d = Some f ∨ answered new payload
  ∨ set_aside (wk_outbox b) d f ∨ issued new d.

(** From [a] to [b] no result is lost, apart from those that [except] allows
    to be replaced. *)
Definition kept (except : string → Prop) (a b : Worker) : Prop :=
  tidy (wk_outbox a) → tidy (wk_outbox b) ∧
  ∃ new, wk_sent b = wk_sent a ++ new ∧
    (∀ d f payload, holds (wk_outbox a) d f payload → except d ∨ fate b new d f payload) ∧
    (∀ d f, no_meta d → set_aside (wk_outbox a) d f → except d ∨ set_aside (wk_outbox b) d f ∨ issued new d).

Lemma answered_app l l' p : answered l p ∨ answered l' p → answered (l ++ l') p.
Proof. intros [(c & q & s & r & Hin & Hc)|(c & q & s & r & Hin & Hc)]; exists c, q, s, r; split; set_solver. Qed.

Lemma issued_app l l' d : issued l d ∨ issued l' d → issued (l ++ l') d.
Proof. intros [(c & r & k & Hin & Hc)|(c & r & k & Hin & Hc)]; exists c, r, k; split; set_solver. Qed.

Lemma kept_same except a b : wk_outbox b = wk_outbox a → (∃ new, wk_sent b = wk_sent a ++ new) → kept except a b.
Proof.
  intros Ho [new Hs] Ht. rewrite Ho. split; [done|]. exists new. split; [done|]. unfold fate. rewrite Ho. split.
  - intros d f p [Hf _]. by right; left.
  - intros d f _ Hq. by right; left.
Qed.

Lemma kept_refl except a : kept except a a.
Proof. apply kept_same; [done|]. exists []. by rewrite app_nil_r. Qed.

Lemma kept_trans except a b c : kept except a b → kept except b c → kept except a c.
Proof.
  intros Hab Hbc Ht. destruct (Hab Ht) as (Htb & n1 & Hs1 & Hf1 & Hq1).
  destruct (Hbc Htb) as (Htc & n2 & Hs2 & Hf2 & Hq2). split; [done|].
  exists (n1 ++ n2). split; [by rewrite Hs2, Hs1, app_assoc|]. unfold fate in *.
  assert (∀ d f, no_meta d → set_aside (wk_outbox b) d f →
    except d ∨ set_aside (wk_outbox c) d f ∨ issued (n1 ++ n2) d) as Hq.
  { intros d f Hd Hq. destruct (Hq2 d f Hd Hq) as [|[|]]; auto using issued_app. }
  split.
  - intros d f p Hh. destruct (Hf1 d f p Hh) as [|[Hf|[Ha|[Hm|Hi]]]]; auto 9 using issued_app, answered_app.
    + destruct (Hf2 d f p) as [|[|[|[|]]]]; auto 9 using issued_app, answered_app. split; [done|apply Hh].
    + destruct Hh as [Hn Hr]. destruct (Ht _ _ _ Hn Hr) as (d1 & kvs & Hd1%file_name_inj & _ & _ & _ & Hm').
      subst d1. destruct (Hq d f Hm' Hm) as [|[|]]; auto 9.
  - intros d f Hd Hm. destruct (Hq1 d f Hd Hm) as [|[Hm'|]]; auto using issued_app.
Qed.

Lemma kept_weaken (P Q : string → Prop) a b : (∀ d, P d → Q d) → kept P a b → kept Q a b.
Proof.
  intros HPQ Hk Ht. destruct (Hk Ht) as (Htb & new & Hs & Hf & Hq). split; [done|]. exists new.
  split; [done|]. split; [intros d f p Hh; destruct (Hf d f p Hh); auto|].
  intros d f Hd Ha. destruct (Hq d f Hd Ha) as [|]; auto.
Qed.

(** ** The outbox operations *)

(** The file of [d], if there is one, reads as [payload]. *)
Definition current (ob : Outbox) (d : string) (payload : json) : Prop :=
  ∀ f p, ob_files ob !! file_name d = Some f → read_json (of_text f) = Some p → p = payload.

Lemma tidy_subset ob ob' : ob_files ob' ⊆ ob_files ob → tidy ob → tidy ob'.
Proof. intros Hs Ht name f p Hn. by apply Ht, (lookup_weaken _ _ _ _ Hn). Qed.

Definition without (d : string) (ob : Outbox) : gmap string OutboxFile := delete (file_name d) (ob_files ob).

Lemma remove_cases d ob :
  outbox_remove (JStr d) ob = ob ∨ outbox_remove (JStr d) ob = mkOutbox (without d ob) (ob_quarantine ob).
Proof.
  unfold outbox_remove. destruct (usable_id (JStr d)) as [d1|] eqn:E; [|by left].
  apply usable_Some in E as ([= ->] & _). by right.
Qed.

Lemma meta_name d d' : no_meta d → file_name d ≠ d' +:+ ".meta.json".
Proof.
  intros Hd E. apply (Hd d'). apply file_name_inj. unfold file_name. by rewrite string_app_assoc.
Qed.

Lemma quarantine_cases d reason ob :
  outbox_quarantine (JStr d) reason ob = ob ∨
  ∃ f q, ob_files ob !! file_name d = Some f ∧ outbox_quarantine (JStr d) reason ob = mkOutbox (without d ob) q ∧
         q !! file_name d = Some (Moved f) ∧
         ∀ d', no_meta d' → d' ≠ d → q !! file_name d' = ob_quarantine ob !! file_name d'.
Proof.
  unfold outbox_quarantine. destruct (usable_id (JStr d)) as [d1|] eqn:E; [|by left].
  apply usable_Some in E as ([= ->] & _). destruct (ob_files ob !! file_name d1) as [f|] eqn:Ef; [|by left].
  right. eexists f, _. split; [done|]. split; [done|].
  assert (d1 +:+ ".meta.json" ≠ file_name d1) as Hne.
  { unfold file_name. intros E. by apply string_app_inj_l in E. }
  split.
  - case_decide; [|rewrite lookup_insert_ne by done]; by rewrite lookup_insert_eq.
  - intros d' Hm Hd. assert (file_name d1 ≠ file_name d') by (intros E; by apply file_name_inj in E).
    pose proof (meta_name d' d1 Hm).
    case_decide; [|rewrite lookup_insert_ne by done]; by rewrite lookup_insert_ne.
Qed.

Lemma without_ne d d' ob : d' ≠ d → without d ob !! file_name d' = ob_files ob !! file_name d'.
Proof. intros Hd. apply lookup_delete_ne. intros E. by apply file_name_inj in E. Qed.

Lemma without_eq d ob : without d ob !! file_name d = None.
Proof. apply lookup_delete_eq. Qed.

Lemma removed_kept except a b d payload new :
  wk_outbox b = outbox_remove (JStr d) (wk_outbox a) → wk_sent b = wk_sent a ++ new →
  answered new payload → current (wk_outbox a) d payload → kept except a b.
Proof.
  intros Ho Hs Ha Hc Ht. destruct (remove_cases d (wk_outbox a)) as [E|E]; rewrite E in Ho.
  { by apply kept_same; [|exists new|]. }
  rewrite Ho. split; [eapply tidy_subset; [|exact Ht]; apply delete_subseteq|].
  exists new. split; [done|]. unfold fate, set_aside. rewrite Ho. cbn [ob_files ob_quarantine]. split.
  - intros d' f p [Hf Hr]. right. destruct (decide (d' = d)) as [->|Hd].
    + right; left. by rewrite (Hc f p).
    + left. by rewrite without_ne.
  - intros d' f _ [Hq Hn]. right; left. split; [done|].
    destruct (decide (d' = d)) as [->|Hd]; [apply without_eq|by rewrite without_ne].
Qed.

Lemma quarantined_kept except a b d reason new :
  wk_outbox b = outbox_quarantine (JStr d) reason (wk_outbox a) → wk_sent b = wk_sent a ++ new → kept except a b.
Proof.
  intros Ho Hs Ht. destruct (quarantine_cases d reason (wk_outbox a)) as [E|(f & q & Hf & E & Hq & Hoth)];
    rewrite E in Ho.
  { by apply kept_same; [|exists new|]. }
  rewrite Ho. split; [eapply tidy_subset; [|exact Ht]; apply delete_subseteq|].
  exists new. split; [done|]. unfold fate, set_aside. rewrite Ho. cbn [ob_files ob_quarantine]. split.
  - intros d' f' p [Hf' Hr]. right. destruct (decide (d' = d)) as [->|Hd].
    + right; right; left. rewrite without_eq. split; [|done]. congruence.
    + left. by rewrite without_ne.
  - intros d' f' Hm [Hq' Hn]. right; left. destruct (decide (d' = d)) as [->|Hd]; [congruence|].
    by rewrite Hoth, without_ne.
Qed.

(** A file that the outbox writes is read as the payload. *)
Lemma serialized_reads kvs :
  well_formed (JObj kvs) → read_json (serialized kvs) = Some (canon (JObj kvs)).
Proof.
  intros Hw. apply well_formed_canon in Hw. unfold read_json, serialized.
  rewrite ascii_utf8 by (apply print_ascii; [done..|apply Hw]). by rewrite loads_dumps_spaced.
Qed.

Lemma written_kept a b d kvs now r :
  jget "dispatch_id" kvs = Some (JStr d) → no_meta d → well_formed (JObj kvs) →
  outbox_write now kvs (wk_outbox a) = (r, wk_outbox b) → (∃ new, wk_sent b = wk_sent a ++ new) →
  kept (λ d', d' = d) a b ∧
  (r = Ok tt → usable_id (JStr d) = Some d ∧ current (wk_outbox b) d (canon (JObj kvs))
               ∧ ∃ f, holds (wk_outbox b) d f (canon (JObj kvs))).
Proof.
  intros Hd Hm Hw Ho Hs. unfold outbox_write, jget_none in Ho. rewrite Hd in Ho. simpl default in Ho.
  destruct (usable_id (JStr d)) as [d1|] eqn:Eu.
  2: { injection Ho as <- Ho. split; [by apply kept_same|done]. }
  pose proof Eu as ([= <-] & _)%usable_Some.
  destruct (_ <? _) in Ho; [injection Ho as <- Ho; split; [by apply kept_same|done]|].
  destruct (_ && _)%bool in Ho; [injection Ho as <- Ho; split; [by apply kept_same|done]|].
  injection Ho as <- Ho. pose proof (serialized_reads kvs Hw) as Hr.
  destruct (jget_canon "dispatch_id" kvs (proj1 (proj1 (json_ok_obj _ _) (proj1 Hw)))) as (kvs' & Ec & Hg).
  rewrite Hd in Hg. rewrite <- Ho. split.
  - intros Ht. rewrite <- Ho. destruct Hs as [new Hs]. split.
    + intros name f p Hn Hp. cbn [ob_files] in Hn. apply lookup_insert_Some in Hn as [[<- <-]|[_ Hn]]; [|by eapply Ht].
      cbn [of_text] in Hp. rewrite Hr, Ec in Hp. injection Hp as <-. by exists d, kvs'.
    + exists new. split; [done|]. unfold fate, set_aside. rewrite <- Ho. cbn [ob_files ob_quarantine].
      assert (∀ d', d' ≠ d → file_name d ≠ file_name d') as Hne by (intros d' Hd' E; by apply file_name_inj in E).
      split.
      * intros d' f p [Hf _]. destruct (decide (d' = d)); [by left|]. right; left.
        by rewrite lookup_insert_ne by auto.
      * intros d' f _ [Hq Hf]. destruct (decide (d' = d)); [by left|]. right; left.
        by rewrite lookup_insert_ne by auto.
  - intros _. split; [done|]. unfold current, holds. cbn [ob_files]. rewrite lookup_insert_eq. split; [|by eauto].
    intros f p [= <-]. cbn [of_text]. congruence.
Qed.

End delivery.

(** ** Computations that leave the outbox and the reports alone *)

Record quiet (a b : Worker) : Prop := {
  quiet_outbox : wk_outbox b = wk_outbox a;
  quiet_reports : wk_reports b = wk_reports a;
  quiet_sent : ∃ new, wk_sent b = wk_sent a ++ new;
}.

#[export] Instance quiet_preorder : PreOrder quiet.
Proof.
  split.
  - intros a. split; [done..|]. exists []. by rewrite app_nil_r.
  - intros a b c [Ho Hr [n Hn]] [Ho' Hr' [n' Hn']]. split; [congruence..|].
    exists (n ++ n'). by rewrite Hn', Hn, app_assoc.
Qed.

Definition placid {A} (m : W A) : Prop := ∀ w, quiet w (m w).2.

Lemma placid_here {A} (r : Worker → result A) f :
  (∀ w, wk_outbox (f w) = wk_outbox w) → (∀ w, wk_reports (f w) = wk_reports w) →
  (∀ w, wk_sent (f w) = wk_sent w) → placid (λ w, (r w, f w)).
Proof. intros Ho Hr Hs w. split; [apply Ho|apply Hr|]. exists []. by rewrite app_nil_r, <- (Hs w). Qed.

Lemma placid_bind {A B} (m : W A) (f : A → W B) : placid m → (∀ a, placid (f a)) → placid (m ≫= f).
Proof.
  intros Hm Hf w. unfold mbind, W_bind. specialize (Hm w).
  destruct (m w) as [[a|x] w1]; simpl in *; [|done]. by etrans; [|apply Hf].
Qed.

Lemma placid_try {A} (m : W A) c h : placid m → (∀ x, placid (h x)) → placid (try_w m c h).
Proof.
  intros Hm Hh w. unfold try_w. specialize (Hm w).
  destruct (m w) as [[a|x] w1]; simpl in *; [done|]. destruct (c x); [|done]. by etrans; [|apply Hh].
Qed.

Lemma placid_ret {A} (a : A) : placid (mret a).
Proof. by apply placid_here. Qed.
Lemma placid_lift {A} (r : result A) : placid (wlift r).
Proof. by apply placid_here. Qed.
Lemma placid_get : placid get_w.
Proof. by apply placid_here. Qed.
Lemma placid_inquire {A} (f : nat → A) : placid (inquire f).
Proof. by apply placid_here. Qed.
Lemma placid_log c : placid (on_worker (log_call c)).
Proof. intros w. split; [done..|]. by exists [c]. Qed.
Lemma placid_on f :
  (∀ w, wk_outbox (f w) = wk_outbox w) → (∀ w, wk_reports (f w) = wk_reports w) →
  (∀ w, wk_sent (f w) = wk_sent w) → placid (on_worker f).
Proof. apply placid_here. Qed.

Create HintDb placid.
#[export] Hint Resolve placid_ret placid_lift placid_get placid_inquire placid_log placid_bind placid_try : placid.

Ltac placid :=
  repeat first
    [ apply placid_bind; [|intros ?] | apply placid_try; [|intros ?]
    | apply placid_ret | apply placid_lift | apply placid_get | apply placid_inquire | apply placid_log
    | apply placid_on; by intros ? | solve [eauto with placid] | progress case_match ].

Section calls.
Context `{PyPlatform} `{WorkerWorld}.

Lemma placid_call method path body : placid (_call method path body).
Proof. unfold _call. placid. Qed.
#[local] Hint Resolve placid_call : placid.

Lemma placid_claim who state : placid (claim who state).
Proof. unfold claim. placid. Qed.
Lemma placid_start d : placid (start d).
Proof. unfold start. placid. Qed.
Lemma placid_heartbeat who l state : placid (heartbeat who l state).
Proof. unfold heartbeat. placid. Qed.
Lemma placid_deliver p : placid (deliver p).
Proof. unfold deliver. placid. Qed.
Lemma placid_count d : placid (count_attempt d).
Proof. unfold count_attempt. placid. Qed.
Lemma placid_forget d : placid (forget_attempts d).
Proof. unfold forget_attempts. placid. Qed.

(** A delivery that succeeds was answered. *)
Lemma attempt_spec p d w :
  ∃ o w', attempt p d w = (Ok o, w') ∧ wk_outbox w' = wk_outbox w ∧
          ∃ c, wk_sent w' = wk_sent w ++ [c] ∧ (o = None → answered [c] p).
Proof.
  unfold attempt, try_w, deliver, _call, inquire, on_worker, wlift, forget_attempts, mret, W_ret, mbind, W_bind.
  cbn -[Z.leb]. set (reply := ww_reply _ _ _ _). set (c := mkCall _ _ _ reply).
  destruct reply as [text|status raw] eqn:Er; cbn -[Z.leb].
  { eexists _, _. split; [done|]. split; [done|]. by exists c. }
  destruct (500 <=? status); cbn.
  { eexists _, _. split; [done|]. split; [done|]. by exists c. }
  assert (∀ o : option exn, o = None → (status = 200 ∨ status = 404 ∨ status = 409) → answered [c] p) as Ha.
  { intros _ _ Hst. exists c, p, status, raw. split; [set_solver|]. by unfold c. }
  unfold gone. destruct (bool_decide (status = 404) || bool_decide (status = 409))%bool eqn:Eg; cbn.
  { eexists _, _. split; [done|]. split; [done|]. exists c. split; [done|]. intros E. apply (Ha None); [done|].
    apply orb_true_iff in Eg as [E1|E1]; apply bool_decide_eq_true in E1; auto. }
  destruct (decide (status = 200)) as [->|Hn]; cbn.
  - eexists _, _. split; [done|]. split; [done|]. exists c. split; [done|]. intros E. by apply (Ha None); auto.
  - eexists _, _. split; [done|]. split; [done|]. by exists c.
Qed.

(** ** Emptying the outbox *)

Lemma current_subset ob ob' d p : ob_files ob' ⊆ ob_files ob → current ob d p → current ob' d p.
Proof. intros Hs Hc f q Hf. by apply Hc, (lookup_weaken _ _ _ _ Hf). Qed.

Lemma remove_subset d ob : ob_files (outbox_remove (JStr d) ob) ⊆ ob_files ob.
Proof. destruct (remove_cases d ob) as [->| ->]; [done|]. apply delete_subseteq. Qed.

Lemma quarantine_subset d reason ob : ob_files (outbox_quarantine (JStr d) reason ob) ⊆ ob_files ob.
Proof. destruct (quarantine_cases d reason ob) as [->|(f & q & _ & -> & _)]; [done|]. apply delete_subseteq. Qed.

(** What is known of a payload that is about to be delivered. *)
Definition ready (ob : Outbox) (payload : json) : Prop :=
  ∃ d kvs, payload = JObj kvs ∧ jget "dispatch_id" kvs = Some (JStr d) ∧ current ob d payload.

Lemma flush_one_kept except payload w :
  ready (wk_outbox w) payload →
  kept except w (flush_one payload w).2 ∧ ob_files (wk_outbox (flush_one payload w).2) ⊆ ob_files (wk_outbox w).
Proof.
  intros (d & kvs & -> & Hd & Hc).
  set (P w' := kept except w w' ∧ ob_files (wk_outbox w') ⊆ ob_files (wk_outbox w)).
  change (P (flush_one (JObj kvs) w).2). unfold flush_one. rewrite Hd. simpl default.
  change (py_str (JStr d)) with d. unfold mbind, W_bind at 1.
  destruct (attempt_spec (JObj kvs) d w) as (o & w1 & -> & Ho & c & Hs & Ha). destruct o as [x|].
  - unfold count_attempt, get_w, on_worker, forget_attempts, mret, W_ret, W_bind, mbind. cbn -[Z.leb is_poison_400].
    destruct (_ || _)%bool; unfold P; cbn -[outbox_quarantine]; rewrite Ho.
    + split; [|apply quarantine_subset]. eapply quarantined_kept; [|exact Hs]. simpl. by rewrite Ho.
    + split; [|done]. apply kept_same; [done|]. by exists [c].
  - unfold wlift, on_worker, mret, W_ret, W_bind, mbind, P. cbn -[outbox_remove]. rewrite Ho.
    split; [|apply remove_subset].
    eapply (removed_kept _ _ _ d (JObj kvs)); [|exact Hs|by apply Ha|done]. simpl. by rewrite Ho.
Qed.

Lemma flush_all_kept except l n w :
  Forall (λ np, ready (wk_outbox w) np.2) l →
  kept except w (flush_all l n w).2 ∧ ob_files (wk_outbox (flush_all l n w).2) ⊆ ob_files (wk_outbox w).
Proof.
  revert n w. induction l as [|[name p] l IH]; intros n w Hl; [split; [apply kept_refl|done]|].
  apply Forall_cons in Hl as [Hp Hl]. cbn [flush_all]. unfold mbind, W_bind.
  destruct (flush_one_kept except p w Hp) as [Hk Hs]. destruct (flush_one p w) as [[k|x] w1]; [|by split].
  cbn [snd] in Hk, Hs. destruct (IH (if k then n + 1 else n) w1) as [Hk1 Hs1].
  { eapply Forall_impl; [exact Hl|]. intros np (d & kvs & ? & ? & Hc). exists d, kvs. split_and!; [done..|].
    by eapply current_subset. }
  split; [by eapply kept_trans|by etrans].
Qed.

Lemma read_all_ready ob : tidy ob → Forall (λ np, ready ob np.2) (outbox_read_all ob).
Proof.
  intros Ht. apply Forall_forall. intros [name p] Hin. unfold outbox_read_all in Hin.
  apply list_elem_of_omap in Hin as ([name' f] & Hin & E). rewrite merge_sort_Permutation in Hin.
  apply elem_of_map_to_list in Hin. simpl in E. destruct (read_json (of_text f)) as [q|] eqn:Er; [|done].
  simpl in E. injection E as -> ->. destruct (Ht name f p Hin Er) as (d & kvs & -> & -> & Hd & _).
  exists d, kvs. split_and!; [done..|]. intros f' p' Hf' Hr'. simpl. congruence.
Qed.

Lemma flush_kept except w : kept except w (flush_outbox w).2.
Proof.
  intros Ht. unfold flush_outbox, get_w, mbind, W_bind.
  by apply flush_all_kept; [apply read_all_ready|].
Qed.

(** ** A result is stored and delivered *)

Section one_payload.
Context (d : string) (kvs : list (string * json)).
Context (Hd : jget "dispatch_id" kvs = Some (JStr d)) (Hm : no_meta d) (Hw : well_formed (JObj kvs)).

#[local] Abbreviation mine := (λ d', d' = d).

Definition pending (w : Worker) : Prop :=
  usable_id (JStr d) = Some d ∧ current (wk_outbox w) d (canon (JObj kvs))
  ∧ ∃ f, holds (wk_outbox w) d f (canon (JObj kvs)).

Definition full (w : Worker) : Prop := (OUTBOX_CAP ≤ size (ob_files (wk_outbox w)))%nat.

Lemma write_outbox_spec w :
  ∃ r w', write_outbox kvs w = (r, w') ∧ kept mine w w' ∧ (r = Ok tt → pending w') ∧
          (∀ x, r = Err x → exn_cls x = OutboxFull → full w').
Proof.
  unfold write_outbox, inquire, get_w, on_worker, wlift, mbind, W_bind. cbn -[outbox_write].
  destruct (outbox_write _ kvs (wk_outbox w)) as [r ob] eqn:E. cbn.
  eexists r, _. split; [done|].
  destruct (written_kept w (set_outbox (λ _, ob) (count_question w)) d kvs _ r Hd Hm Hw E) as [Hk Hp].
  { exists []. by rewrite app_nil_r. }
  split; [done|]. split; [done|]. intros x -> Hx. unfold full. simpl. unfold outbox_write in E.
  destruct (usable_id _); [|injection E as <- <-; done]. destruct (_ <? _) in E; [injection E as <- <-; done|].
  destruct (_ && _)%bool eqn:Ef in E; [|done]. injection E as <- <-. bool_hyps. by apply Nat.leb_le.
Qed.

Lemma store_spec w :
  ∃ r w', store kvs w = (r, w') ∧ kept mine w w' ∧ (r = Ok true → pending w') ∧ (r = Ok false → full w').
Proof.
  unfold store, try_w at 1, mbind, W_bind, mret, W_ret.
  destruct (write_outbox_spec w) as (r & w1 & -> & Hk & Hp & _). destruct r as [[]|x].
  { eexists _, _. split; [done|]. split; [done|]. split; [by auto|done]. }
  unfold is_class at 1. case_bool_decide; [|by eexists _, _; split_and!].
  pose proof (flush_kept mine w1) as Hf. unfold try_w at 1.
  assert (∀ w2, kept mine w1 w2 →
    ∃ r w', (try_w (λ w0, match write_outbox kvs w0 with (Ok _, w') => (Ok true, w') | (Err x, w') => (Err x, w') end)
                   (is_class OutboxFull) (λ _ w0, (Ok false, w0))) w2 = (r, w') ∧
            kept mine w w' ∧ (r = Ok true → pending w') ∧ (r = Ok false → full w')) as Hagain.
  { intros w2 Hk2. unfold try_w. destruct (write_outbox_spec w2) as (r & w3 & -> & Hk3 & Hp3 & Hf3).
    assert (kept mine w w3) by (by eapply kept_trans; [exact Hk|]; eapply kept_trans).
    destruct r as [[]|y]; [by eexists _, _; split_and!; auto|].
    unfold is_class. case_bool_decide; eexists _, _; split_and!; try done. intros _. by eapply Hf3. }
  destruct (flush_outbox w1) as [[n|y] w2]; by apply Hagain.
Qed.

(** What became of this result. *)
Definition settled (new : list Call) (w : Worker) : Prop :=
  answered new (canon (JObj kvs)) ∨ (∃ f, holds (wk_outbox w) d f (canon (JObj kvs)))
  ∨ (∃ f, set_aside (wk_outbox w) d f ∧ read_json (of_text f) = Some (canon (JObj kvs))) ∨ full w.

Lemma answered_canon calls : answered calls (JObj kvs) → answered calls (canon (JObj kvs)).
Proof.
  intros (c & q & st & r & Hin & Hp & Hb & Hc & Hr). exists c, q, st, r. split_and!; try done; try apply Hr.
  rewrite Hc. symmetry. by apply canon_id, canon_canonical, Hw.
Qed.

(** A pending result whose delivery was attempted. *)
Lemma after_attempt_kept w c w' :
  pending w → wk_sent w' = wk_sent w ++ [c] →
  wk_outbox w' = wk_outbox w ∨
  (wk_outbox w' = outbox_remove (JStr d) (wk_outbox w) ∧ answered [c] (JObj kvs)) ∨
  (∃ reason, wk_outbox w' = outbox_quarantine (JStr d) reason (wk_outbox w)) →
  kept mine w w' ∧ settled [c] w'.
Proof.
  intros (Hu & Hc & f & Hf) Hs [Ho|[[Ho Ha]|[reason Ho]]].
  - split; [apply kept_same; [done|by exists [c]]|]. right; left. exists f. by rewrite Ho.
  - apply answered_canon in Ha. split; [by eapply removed_kept|by left].
  - split; [by eapply quarantined_kept|]. right; right; left. exists f. unfold set_aside. rewrite Ho.
    destruct Hf as [Hf Hr]. split; [|done].
    destruct (quarantine_cases d reason (wk_outbox w)) as [E|(f' & q & Hf' & E & Hq & _)].
    + exfalso. unfold outbox_quarantine in E. rewrite Hu, Hf in E.
      apply (f_equal ob_files) in E. cbn [ob_files] in E.
      pose proof (lookup_delete_eq (ob_files (wk_outbox w)) (file_name d)) as Hn. rewrite E in Hn. congruence.
    + rewrite E. cbn [ob_files ob_quarantine]. split; [congruence|apply without_eq].
Qed.

Lemma settled_app l l' w : settled l' w → settled (l ++ l') w.
Proof. intros [Ha|Hr]; [left; apply answered_app; by right|by right]. Qed.

Lemma deliver_payload_spec w :
  tidy (wk_outbox w) →
  ∃ r w', _deliver_payload kvs w = (r, w') ∧ kept mine w w' ∧
          (r = Ok tt → ∃ new, wk_sent w' = wk_sent w ++ new ∧ settled new w').
Proof.
  intros Ht. unfold _deliver_payload, mbind, W_bind at 1.
  destruct (store_spec w) as (r & w1 & -> & Hk & Hp & Hfull).
  destruct (Hk Ht) as (Ht1 & n1 & Hs1 & _). destruct r as [[]|x]; cbn [negb].
  3: { by eexists _, _; split_and!. }
  2: { eexists _, _. split; [done|]. split; [done|]. intros _. exists n1. split; [done|].
       right; right; right. by apply Hfull. }
  rewrite Hd. simpl default. change (py_str (JStr d)) with d. unfold W_bind at 1.
  destruct (attempt_spec (JObj kvs) d w1) as (o & w2 & -> & Ho & c & Hs2 & Ha).
  assert (∀ w3, wk_sent w3 = wk_sent w2 →
    wk_outbox w3 = wk_outbox w1 ∨ (wk_outbox w3 = outbox_remove (JStr d) (wk_outbox w1) ∧ answered [c] (JObj kvs)) ∨
      (∃ reason, wk_outbox w3 = outbox_quarantine (JStr d) reason (wk_outbox w1)) →
    ∃ r' w', (Ok tt : result unit, w3) = (r', w') ∧ kept mine w w' ∧
             (r' = Ok tt → ∃ new, wk_sent w' = wk_sent w ++ new ∧ settled new w')) as Hend.
  { intros w3 Hs3 Hcase. rewrite Hs2 in Hs3.
    destruct (after_attempt_kept w1 c w3) as [Hk3 Hset]; [by apply Hp|done|done|].
    eexists _, w3. split; [done|]. split; [by eapply kept_trans|]. intros _. exists (n1 ++ [c]).
    split; [by rewrite Hs3, Hs1, app_assoc|by apply settled_app]. }
  destruct o as [x|].
  - unfold count_attempt, get_w, on_worker, forget_attempts, mret, W_ret, W_bind, mbind. cbn -[is_poison_400].
    destruct (is_poison_400 x); apply Hend; try done; simpl; rewrite Ho; eauto.
  - unfold wlift, on_worker, W_bind. cbn -[outbox_remove]. apply Hend; [done|]. simpl. rewrite Ho. auto.
Qed.

End one_payload.

End calls.
