(* ===== verification/WorkerResults.v ===== *)
(** * No result is lost ([courier_worker/service.py])

    The cycles of a worker, its restarts included, keep every stored result
    until the controller has answered it or it is in quarantine. *)

From Stdlib Require Import Ascii.
From S2P Require Import Prelude PyText AsciiText Scope Utf8 Json JsonAscii Sha256 Events LockManager WorkerSpec WorkerSpecSafety WorkerOutbox WorkerHost WorkerLoop WorkerDelivery.

(** ** What a run does to its caller *)

Section callbacks.
Context {St : Type} (R : relation St) `{!PreOrder R}.
Context (on_heartbeat is_cancelled : option (St → result bool * St)).

Definition respects (f : option (St → result bool * St)) : Prop := ∀ g st, f = Some g → R st (g st).2.

Context (Hhb : respects on_heartbeat) (Hic : respects is_cancelled).

Lemma ask_related st : R st (ask_cancelled is_cancelled st).2.
Proof.
  unfold ask_cancelled. destruct is_cancelled as [f|]; [|done].
  pose proof (Hic f st eq_refl). by destruct (f st) as [[]].
Qed.

Lemma beat_related st : R st (beat on_heartbeat st).2.
Proof.
  unfold beat. destruct on_heartbeat as [f|]; [|done].
  pose proof (Hhb f st eq_refl). by destruct (f st) as [[]].
Qed.

Lemma turns_related x env fuel i now lease_at st r st' :
  turns on_heartbeat is_cancelled x env fuel i now lease_at st = Some (r, st') → R st st'.
Proof.
  revert i now lease_at st. induction fuel as [|fuel IH]; intros i now lease_at st Ht; [done|].
  cbn [turns] in Ht. destruct (Qle_bool _ 0); [by injection Ht as _ <-|].
  pose proof (ask_related st) as Ha. destruct (ask_cancelled is_cancelled st) as [[] st1]; cbn [snd] in Ha.
  { by injection Ht as _ <-. }
  destruct (re_exceeded env i); [by injection Ht as _ <-|].
  destruct (re_wait env i); [by injection Ht as _ <-|].
  pose proof (beat_related st1) as Hb. destruct (beat on_heartbeat st1) as [renewed st2]; cbn [snd] in Hb.
  apply IH in Ht. by do 2 etrans.
Qed.

(** A run that tells a result tells it of its own spec, with the files it
    found. *)
Definition own_files (x : ExecutionSpec) (env : RunEnv) (r : ExecutionResult) : Prop :=
  er_spec r = x ∧
  ∀ a, a ∈ er_artifacts r → ∃ f, f ∈ re_files env ∧ a = mkArtifact (wk_path f) (wk_sha256 f).

Lemma conclude_own x env e : own_files x env (conclude x env e).
Proof.
  unfold conclude, own_files. destruct (collect_artifacts (re_files env)) as [l|] eqn:E; simpl; [|set_solver].
  split; [done|]. unfold collect_artifacts in E.
  apply collect_bounds in E as (_ & -> & _); [|simpl; unfold MAX_ARTIFACTS; lia].
  intros a Ha. simpl in Ha. apply list_elem_of_fmap in Ha as (f & -> & Hf). by exists f.
Qed.

Lemma run_once_related `{UnicodeAlnum} x env h st r h' st' :
  run_once on_heartbeat is_cancelled x env h st = Some (r, h', st') →
  R st st' ∧ ∀ e, r = Ok e → own_files x env e.
Proof.
  unfold run_once. intros Hr. destruct (hs_active h); [by injection Hr as <- _ <-|].
  destruct (re_pressure env); [by injection Hr as <- _ <-|].
  destruct (re_spawn env); [|by injection Hr as <- _ <-].
  destruct (re_record env).
  2: { destruct (re_last_terminate env); by injection Hr as <- _ <-. }
  unfold _wait in Hr. destruct (turns _ _ _ _ _ _ _ _ _) as [[q st1]|] eqn:Et; [|done].
  apply turns_related in Et. cbn [mbind option_bind] in Hr.
  assert (∀ e, match q with Ok e => Ok (conclude x env e) | Err y => Err y end = Ok e → own_files x env e) as Hq.
  { intros e He. destruct q; [|done]. injection He as <-. apply conclude_own. }
  by destruct (re_last_terminate env); injection Hr as <- _ <-; split.
Qed.

End callbacks.

(** ** The payloads are well formed *)

Section payloads.
Context `{PyPlatform}.

#[local] Abbreviation text := (λ s, utf8_valid s = true).

Lemma well_formed_str s : text s → well_formed (JStr s).
Proof. by split. Qed.

Lemma well_formed_arr l : Forall well_formed l → well_formed (JArr l).
Proof.
  intros Hl. split; [apply json_ok_arr|apply texts_arr]; (eapply Forall_impl; [exact Hl|]); by intros x [].
Qed.

Lemma well_formed_obj kvs :
  NoDup (keys kvs) → Forall (λ kv, text kv.1 ∧ well_formed kv.2) kvs → well_formed (JObj kvs).
Proof.
  intros Hk Hl. split; [apply json_ok_obj; split; [done|]|apply texts_obj]; (eapply Forall_impl; [exact Hl|]);
    intros kv (? & ? & ?); done.
Qed.

Lemma Forall_removelast {A} (P : A → Prop) l : Forall P l → Forall P (removelast l).
Proof.
  induction 1 as [|x l Hx Hl IH]; [constructor|]. destruct l; [constructor|]. by constructor.
Qed.

Lemma abs_parts_text cwd path : text cwd → text path → Forall text (abs_parts cwd path).
Proof.
  intros Hc Hp. unfold abs_parts.
  assert (text (path_join cwd path)) as Hj.
  { unfold path_join. destruct (startswith path "/"); [done|].
    destruct (_ || _)%bool; repeat apply utf8_app; done. }
  apply utf8_split in Hj. revert Hj. generalize (@nil string), (@Forall_nil_2 string text).
  induction (split_slash (path_join cwd path)) as [|p l IH]; intros acc Hacc Hl; [done|].
  apply Forall_cons in Hl as [Hp' Hl]. simpl. apply IH; [|done]. unfold norm_part.
  destruct (_ || _)%bool; [done|]. case_decide; [by apply Forall_removelast|].
  apply Forall_app. by repeat constructor.
Qed.

Lemma drop_common_text start path : Forall text path → Forall text (drop_common start path).2.
Proof.
  revert path. induction start as [|a start IH]; intros path Hp; [done|].
  destruct path as [|b path]; [done|]. apply Forall_cons in Hp as Hbp. simpl. case_decide; [by apply IH, Hbp|done].
Qed.

Lemma artifact_prefix_text cwd dir home : text cwd → text dir → text (_artifact_prefix cwd dir home).
Proof.
  intros Hc Hd. unfold _artifact_prefix. destruct (_ || _)%bool; [done|]. apply utf8_app; [|done].
  unfold relpath. pose proof (drop_common_text (abs_parts cwd home) (abs_parts cwd dir)) as Hf.
  destruct (drop_common _ _) as [up down]. specialize (Hf (abs_parts_text cwd dir Hc Hd)). simpl in Hf.
  assert (Forall text (map (λ _, "..") up ++ down)%list) as Hall.
  { apply Forall_app. split; [|done]. apply Forall_map, Forall_forall. done. }
  destruct (map _ up ++ down)%list; [done|]. by apply utf8_join.
Qed.

(** The report's reason, when there is one, is a text. *)
Definition report_text (report : option (list (string * json))) : Prop :=
  ∀ rep, report = Some rep → text (py_str (jget_none "reason" rep)).

Lemma verdict_text r report why :
  report_text report → (verdict r report).2 = Some why → text why.
Proof.
  intros Hr. unfold verdict. destruct (negb _).
  { intros [= <-]. apply utf8_app; [done|]. by destruct (er_outcome r). }
  destruct (xs_adapter (er_spec r)); [|done]. destruct report as [rep|]; [|by intros [= <-]].
  destruct (py_eq _ _); [done|]. intros [= <-]. apply utf8_take. destruct (py_truthy _); [by apply Hr|done].
Qed.

Lemma safe_text s : safe_id s = true → text s.
Proof. intros Hs. by apply ascii_utf8, safe_id_ascii. Qed.

Lemma run_payload_wf cwd home r report :
  bounded (er_spec r) → text cwd → text (xs_artifact_dir (er_spec r)) →
  (∀ a, a ∈ er_artifacts r → text (ar_path a) ∧ text (ar_sha256 a)) → report_text report →
  well_formed (JObj (build_result_payload cwd home r report)).
Proof.
  intros Hb Hc Hd Ha Hr. unfold build_result_payload.
  pose proof (verdict_text r report) as Hv. assert (text (verdict r report).1.1) as Ho.
  { unfold verdict. by repeat case_match. }
  destruct (verdict r report) as [[outcome retry] reason]. cbn [fst snd] in *.
  destruct (bounded_names _ Hb) as [Hs1 Hs2].
  apply safe_text in Hs1, Hs2.
  assert (Forall well_formed (map (λ a, JObj [("path", JStr (_artifact_prefix cwd (xs_artifact_dir (er_spec r)) home
    +:+ ar_path a)); ("sha256", JStr (ar_sha256 a))]) (er_artifacts r))) as Harts.
  { apply Forall_map, Forall_forall. intros a [Hp Hs]%Ha. apply well_formed_obj.
    - by apply (bool_decide_unpack _).
    - repeat constructor; simpl; try done. by apply utf8_app; [apply artifact_prefix_text|]. }
  apply well_formed_arr in Harts. apply well_formed_obj.
  - case_decide; [|destruct reason as [why|]; [case_decide|]]; by apply (bool_decide_unpack _).
  - apply Forall_app. split.
    + by repeat (apply Forall_cons; split; [split; [done|]; try by apply well_formed_str|]).
    + case_decide; [constructor|]. constructor; [done|]. destruct reason as [why|]; [|constructor].
      case_decide; constructor; [|constructor]. split; [done|]. by apply well_formed_str, Hv.
Qed.

Lemma failure_payload_wf d result_id why :
  text d → text result_id → text why → well_formed (JObj (build_spec_failure_payload d result_id why)).
Proof.
  intros Hd Hr Hw. apply well_formed_obj; [by apply (bool_decide_unpack _)|].
  by repeat (apply Forall_cons; split; [split; [done|]; try by apply well_formed_str|]).
Qed.

End payloads.

(** ** One cycle *)

(** The outbox is left alone. *)
Definition still (a b : Worker) : Prop := wk_outbox b = wk_outbox a ∧ ∃ new, wk_sent b = wk_sent a ++ new.

#[export] Instance still_preorder : PreOrder still.
Proof.
  split.
  - intros a. split; [done|]. exists []. by rewrite app_nil_r.
  - intros a b c [Ho [n Hn]] [Ho' [n' Hn']]. split; [congruence|]. exists (n ++ n'). by rewrite Hn', Hn, app_assoc.
Qed.

Lemma quiet_still a b : quiet a b → still a b.
Proof. by intros []. Qed.

Lemma placid_still {A} (m : W A) w r w' : placid m → m w = (r, w') → still w w'.
Proof. intros Hm E. specialize (Hm w). rewrite E in Hm. by apply quiet_still. Qed.

Lemma still_files f g w : still w (set_files f g w).
Proof. split; [done|]. exists []. by rewrite app_nil_r. Qed.

Lemma still_cancelled b w : still w (set_cancelled b w).
Proof. split; [done|]. exists []. by rewrite app_nil_r. Qed.

Section cycles.
Context `{PyPlatform} `{UnicodeAlnum} `{WorkerPlatform} `{WorkerWorld} (cfg : Settings).

Lemma still_kept except a b : still a b → kept except a b.
Proof. intros []. by apply kept_same. Qed.

Lemma kept_still_tidy a b : still a b → tidy (wk_outbox a) → tidy (wk_outbox b).
Proof. by intros [-> _]. Qed.

Lemma still_settled d kvs new w w' :
  still w w' → settled d kvs new w →
  ∀ sent, wk_sent w = sent ++ new → ∃ new', wk_sent w' = sent ++ new' ∧ settled d kvs new' w'.
Proof.
  intros [Ho [n Hn]] Hs sent E. exists (new ++ n). split; [by rewrite Hn, E, app_assoc|].
  unfold settled, holds, set_aside, full in *. rewrite Ho. destruct Hs as [Ha|Hs]; [|by right].
  left. apply answered_app. by left.
Qed.

Lemma placid_send d : placid (_send_heartbeat cfg d).
Proof. unfold _send_heartbeat. placid. Qed.
Lemma placid_watcher : placid watcher_cancelled.
Proof. unfold watcher_cancelled. placid. Qed.
#[local] Hint Resolve placid_watcher placid_claim placid_start placid_heartbeat : placid.
Lemma placid_run_cancelled : placid run_cancelled.
Proof. unfold run_cancelled. placid. Qed.
Lemma placid_idle state : placid (idle_heartbeat cfg state).
Proof. unfold idle_heartbeat. placid. Qed.
Lemma placid_resource : placid resource_state.
Proof. unfold resource_state. placid. Qed.

(** What a claim answers. *)
Lemma claim_answer who state w j w' :
  claim who state w = (Ok (Some j), w') →
  ∃ kvs raw n body, j = JObj kvs ∧ ww_reply n "POST" "/claim" body = Answered 200 raw ∧ read_json raw = Some j ∧
    wk_sent w' = wk_sent w ++ [mkCall "POST" "/claim" body (Answered 200 raw)].
Proof.
  unfold claim, try_w, _call, inquire, on_worker, wlift, mret, W_ret, mbind, W_bind. cbn -[Z.leb].
  destruct (ww_reply _ _ _ _) as [text|status raw] eqn:Er; cbn -[Z.leb]; [done|].
  destruct (500 <=? status); cbn; [done|]. destruct (unauthorized status); cbn; [done|].
  destruct (read_json raw) as [[| | | | | |kvs]|] eqn:Ej; cbn; try done.
  case_decide as Hst; [|done]. subst status. intros [= <- <-]. eexists _, _, _, _. split; [done|].
  split; [exact Er|]. by rewrite Ej.
Qed.

(** What the run of a spec leaves. *)
Lemma engine_spec x w :
  ∃ r w', engine_run cfg x w = (r, w') ∧ still w w' ∧
    (∀ e, r = Ok e → ∃ n, own_files x (ww_run n) e) ∧
    (∀ p text, wk_reports w' !! p = Some text → wk_reports w !! p = Some text ∨ ∃ n, ww_report n = Some text).
Proof.
  unfold engine_run, inquire, mbind, W_bind. cbn [wk_asked count_question]. unfold run_with.
  set (w2 := count_question (count_question w)).
  assert (quiet w w2) as Hq by (split; [done..|]; exists []; by rewrite app_nil_r).
  destruct (run_once _ _ _ _ _ _) as [[[r h] w3]|] eqn:Er.
  2: { eexists _, w2. split; [done|]. split; [by apply quiet_still|]. split; [done|]. by left. }
  eapply (run_once_related quiet) in Er as [Hq3 Hown].
  2: { intros g st [= <-]. apply placid_send. }
  2: { intros g st [= <-]. apply placid_run_cancelled. }
  assert (quiet w w3) as [Ho Hr Hs] by (by etrans). eexists _, _. split; [done|]. split; [done|]. split; [eauto|].
  intros p text Hp. simpl in Hp. rewrite <- Hr. destruct (ww_report _) as [t|] eqn:Et; [|by left].
  apply lookup_insert_Some in Hp as [[_ <-]|[_ Hp]]; [right; by eexists|by left].
Qed.

#[local] Abbreviation text := (λ s, utf8_valid s = true).

(** What the worker relies on: its directories, the files a run finds and the
    reasons a runner gives are texts, and no dispatch is named like the
    metadata of another. *)
Record decent_world : Prop := {
  home_text : text (st_home cfg);
  cwd_text : text (st_cwd cfg);
  files_text : ∀ n f, f ∈ re_files (ww_run n) → text (wk_path f) ∧ text (wk_sha256 f);
  reasons_text : ∀ n t r, ww_report n = Some t → read_report (Some t) = Ok r → report_text r;
  claims_named : ∀ n body raw kvs, ww_reply n "POST" "/claim" body = Answered 200 raw →
    read_json raw = Some (JObj kvs) → no_meta (py_str (default (JStr "") (jget "dispatch_id" kvs)));
}.

(** The result of [d] is settled by the requests made since [w]. *)
Definition settles (w w' : Worker) (d : string) : Prop :=
  ∃ new kvs, wk_sent w' = wk_sent w ++ new ∧ jget "dispatch_id" kvs = Some (JStr d) ∧ settled d kvs new w'.

Lemma settles_still w1 w2 w3 w4 d : still w1 w2 → settles w2 w3 d → still w3 w4 → settles w1 w4 d.
Proof.
  intros [_ [n Hn]] (new & kvs & Hs & Hd & Hset) H34.
  apply (settled_app _ _ n) in Hset. destruct (still_settled _ _ _ _ _ H34 Hset (wk_sent w1)) as (new' & ? & ?).
  { by rewrite Hs, Hn, app_assoc. }
  by exists new', kvs.
Qed.

Lemma payload_dispatch r report :
  jget "dispatch_id" (build_result_payload (st_cwd cfg) (st_home cfg) r report) = Some (JStr (xs_dispatch_id (er_spec r))).
Proof. unfold build_result_payload. by destruct (verdict r report) as [[? ?] ?]. Qed.

(** How a cycle that claimed the dispatch [d] may end. *)
Definition settling (r : result Action) : bool :=
  match r with Ok Delivered | Ok SpecRejected => true | _ => false end.
Definition ends (d : string) (w : Worker) (o : result Action * Worker) : Prop :=
  kept (λ d', d' = d) w o.2 ∧ (settling o.1 = true → settles w o.2 d).

Lemma ends_still d w o w' : still w w' → settling o = false → ends d w (o, w').
Proof. intros Hw Ho. split; [by apply still_kept|]. simpl. by rewrite Ho. Qed.

Lemma ends_dead d w x w' : kept (λ d', d' = d) w w' → ends d w (Err x, w').
Proof. by split. Qed.

Lemma ends_after d w w1 o : still w w1 → ends d w1 o → ends d w o.
Proof.
  intros Hw [Hk Hs]. split; [eapply kept_trans; [by apply still_kept|done]|].
  intros Hd%Hs. by eapply settles_still.
Qed.

Section one_dispatch.
Context (x : ExecutionSpec) (Hworld : decent_world) (Hb : bounded x) (Hdir : text (xs_artifact_dir x)).
Context (Hm : no_meta (xs_dispatch_id x)).

#[local] Abbreviation d := (xs_dispatch_id x).

(** The payload of a run is the result of its dispatch, and well formed. *)
Lemma run_payload n res report :
  own_files x (ww_run n) res → report_text report →
  let payload := build_result_payload (st_cwd cfg) (st_home cfg) res report in
  jget "dispatch_id" payload = Some (JStr d) ∧ well_formed (JObj payload).
Proof.
  intros [Hspec Hfiles] Hrep. split; [by rewrite payload_dispatch, Hspec|].
  apply run_payload_wf; rewrite ?Hspec; [done|apply Hworld|done| |done].
  intros a (f & Hf & ->)%Hfiles. by apply (files_text Hworld n).
Qed.

Lemma finish_spec payload res w :
  jget "dispatch_id" payload = Some (JStr d) → well_formed (JObj payload) → tidy (wk_outbox w) →
  ends d w ((_deliver_payload payload;; cleanup cfg d;;
           (if decide (er_outcome res = CANCELLED) then idle_heartbeat cfg "NORMAL" else mret tt);;
           mret Delivered) w).
Proof.
  intros Hd Hwf Ht. unfold mbind, W_bind at 1.
  destruct (deliver_payload_spec d payload Hd Hm Hwf w Ht) as (r1 & w1 & -> & Hk & Hs).
  destruct r1 as [[]|]; [|by apply ends_dead].
  assert (settles w w1 d) as Hset by (destruct (Hs eq_refl) as (new & ? & ?); by exists new, payload).
  unfold W_bind at 1. cbn [on_worker cleanup]. set (w2 := set_files _ _ w1).
  assert (still w1 w2) as Hw2 by apply still_files. clearbody w2. unfold W_bind at 1.
  set (beats := if decide (er_outcome res = CANCELLED) then _ else _).
  assert (placid beats) as Hb' by (unfold beats; case_decide; [apply placid_idle|apply placid_ret]).
  destruct (beats w2) as [r3 w3] eqn:E3. apply (placid_still _ _ _ _ Hb') in E3.
  assert (still w1 w3) as Hw3 by (by etrans).
  assert (kept (λ d', d' = d) w w3) by (eapply kept_trans; [exact Hk|by apply still_kept]).
  destruct r3 as [[]|]; [|by apply ends_dead]. split; [done|]. intros _. by eapply settles_still.
Qed.

Lemma execute_spec w :
  wk_reports w !! report_path (st_home cfg) d = None → tidy (wk_outbox w) → ends d w (execute cfg x w).
Proof.
  intros Hr Ht. unfold execute. cbv zeta. unfold mbind, W_bind at 1.
  destruct (engine_spec x w) as (r1 & w1 & -> & Hw1 & Hown & Hrep).
  destruct r1 as [res|]; [|by apply ends_still]. destruct (Hown res eq_refl) as [n Hn].
  unfold W_bind at 1. pose proof (placid_watcher w1) as Hq. destruct (watcher_cancelled w1) as [r2 w2].
  cbn [snd] in Hq. assert (still w w2) as Hw2 by (etrans; [done|by apply quiet_still]).
  destruct r2 as [cancelled|]; [|by apply ends_still].
  destruct (_ && _)%bool; [apply ends_still; [etrans; [done|apply still_files]|done]|].
  unfold W_bind at 1, get_w at 1. unfold W_bind at 1, wlift at 1.
  destruct (read_report _) as [report|] eqn:Ereport; [|by apply ends_still].
  apply (ends_after _ _ w2); [done|].
  destruct (run_payload n res report Hn) as [Hd Hwf].
  { rewrite (quiet_reports _ _ Hq) in Ereport.
    destruct (wk_reports w1 !! report_path (st_home cfg) d) as [t|] eqn:Et; [|by injection Ereport as <-].
    apply Hrep in Et as [Et|[n' Hn']]; [congruence|by eapply reasons_text]. }
  apply (finish_spec _ res); [done..|by eapply kept_still_tidy].
Qed.

Lemma work_spec w : tidy (wk_outbox w) → ends d w (work cfg x w).
Proof.
  intros Ht. unfold work. cbv zeta. unfold write_request, mbind, W_bind at 1. cbn [on_worker].
  set (w1 := set_files _ _ w). assert (still w w1) as Hw1 by apply still_files.
  assert (wk_reports w1 !! report_path (st_home cfg) d = None) as Hr by apply lookup_delete_eq.
  clearbody w1. unfold W_bind at 1. destruct (try_w _ _ _ w1) as [r2 w2] eqn:E2.
  assert (quiet w1 w2) as Hq.
  { change w2 with ((r2, w2).2). rewrite <- E2. apply placid_try; [|intros; apply placid_ret].
    apply placid_bind; [apply placid_start|intros; apply placid_ret]. }
  assert (still w w2) as Hw2 by (etrans; [done|by apply quiet_still]).
  destruct r2 as [[]|]; cbn [negb]; [| |by apply ends_still].
  2: { apply ends_still; [|done]. etrans; [done|apply still_files]. }
  unfold W_bind at 1. cbn [on_worker]. apply (ends_after _ _ (set_cancelled false w2)).
  { etrans; [done|apply still_cancelled]. }
  apply execute_spec; [|by apply (kept_still_tidy _ _ Hw2)]. simpl. by rewrite (quiet_reports _ _ Hq).
Qed.

End one_dispatch.

(** ** From claim to claim *)

#[local] Abbreviation none := (λ _ : string, False).

(** The result of a dispatch that was issued meanwhile may be replaced. *)
Lemma issued_kept a b c d :
  kept none a b → (tidy (wk_outbox a) → kept (λ d', d' = d) b c) →
  (∃ new, wk_sent b = wk_sent a ++ new ∧ issued new d) → kept none a c.
Proof.
  intros Hab Hbc [n [Hn Hi]] Ht. specialize (Hbc Ht).
  destruct (Hbc (proj1 (Hab Ht))) as (_ & n' & Hn' & _).
  destruct (kept_trans _ a b c (kept_weaken none (λ d', d' = d) _ _ ltac:(done) Hab) Hbc Ht)
    as (Htc & n2 & Hn2 & Hf & Hq).
  split; [done|]. exists n2. split; [done|].
  assert (issued n2 d) as Hi2.
  { rewrite Hn', Hn, <- app_assoc in Hn2. apply app_inv_head in Hn2 as <-. apply issued_app. by left. }
  split.
  - intros d' f p Hh. right. destruct (Hf d' f p Hh) as [->|]; [|done]. unfold fate. auto.
  - intros d' f Hm Hs. right. destruct (Hq d' f Hm Hs) as [->|]; auto.
Qed.

(** A result that names no dispatch that can be stored is not stored. *)
Lemma deliver_unusable payload w :
  usable_id (jget_none "dispatch_id" payload) = None → ∃ x w', _deliver_payload payload w = (Err x, w') ∧ still w w'.
Proof.
  intros Hu. unfold _deliver_payload, store, write_outbox, inquire, get_w, on_worker, wlift, try_w, mbind, W_bind.
  cbn -[outbox_write]. unfold outbox_write. rewrite Hu. cbn. eexists _, _. split; [done|].
  split; [done|]. exists []. by rewrite app_nil_r.
Qed.

(** The delivery of a claim that is no spec. *)
Lemma rejected_spec d why w :
  no_meta d → is_ascii why = true → tidy (wk_outbox w) →
  ends d w ((_deliver_payload (build_spec_failure_payload d ("r-" +:+ d) why);; mret SpecRejected) w).
Proof.
  intros Hm Hwhy Ht. unfold mbind, W_bind. destruct (usable_id (JStr d)) as [d1|] eqn:Eu.
  - apply usable_Some in Eu as ([= <-] & _ & Hs%safe_id_ascii).
    destruct (deliver_payload_spec d (build_spec_failure_payload d ("r-" +:+ d) why) eq_refl Hm) with (w := w)
      as (r & w1 & -> & Hk & Hset); [|done|].
    { by apply failure_payload_wf; apply ascii_utf8; rewrite ?is_ascii_app. }
    destruct r as [[]|]; [|by apply ends_dead]. split; [done|]. intros _. destruct (Hset eq_refl) as (new & ? & ?).
    by exists new, (build_spec_failure_payload d ("r-" +:+ d) why).
  - destruct (deliver_unusable (build_spec_failure_payload d ("r-" +:+ d) why) w Eu) as (x & w1 & -> & Hw).
    by apply ends_still.
Qed.

Lemma claimed_spec kvs w :
  decent_world → tidy (wk_outbox w) →
  let d := py_str (default (JStr "") (jget "dispatch_id" kvs)) in
  no_meta d → ends d w (take_claim cfg (JObj kvs) w).
Proof.
  intros Hworld Ht d Hm. unfold take_claim.
  destruct (resolve_spec _ _ _ _ _) as [x|e] eqn:Er.
  - apply resolve_Ok in Er as (Hb & kvs' & spec & adapter & check & [= <-] & Hd & Hx). destruct_and! Hx.
    rename select (xs_artifact_dir x = _) into Hdir.
    assert (d = xs_dispatch_id x) as E by (unfold d; by rewrite Hd). clearbody d. subst d.
    apply work_spec; [done..| |done|done]. rewrite Hdir. destruct (bounded_names _ Hb) as [Hn%safe_text _].
    unfold artifacts_root, path_join. pose proof (home_text Hworld).
    repeat case_match; repeat apply utf8_app; done.
  - apply resolve_raising in Er as [Hmsg _]. case_decide; [|by apply ends_still].
    apply rejected_spec; [done|by rewrite is_ascii_app|done].
Qed.

(** What a cycle guarantees. *)
Definition safe_cycle (w : Worker) (o : result Action * Worker) : Prop :=
  kept none w o.2 ∧ (tidy (wk_outbox w) → settling o.1 = true → ∃ d, settles w o.2 d).

Lemma safe_still w w1 o w' : kept none w w1 → still w1 w' → settling o = false → safe_cycle w (o, w').
Proof. intros Hk Hw Ho. split; [eapply kept_trans; [exact Hk|by apply still_kept]|simpl; by rewrite Ho]. Qed.

Lemma idle_safe state w w1 w2 :
  kept none w w1 → still w1 w2 → safe_cycle w ((idle_heartbeat cfg state;; mret Idle) w2).
Proof.
  intros Hk Hw. unfold mbind, W_bind. destruct (idle_heartbeat cfg state w2) as [r3 w3] eqn:E3.
  apply placid_still in E3; [|apply placid_idle]. assert (still w1 w3) by (by etrans).
  destruct r3 as [[]|]; by eapply safe_still.
Qed.

Lemma claim_safe who state j w w1 w2 w3 :
  decent_world → kept none w w1 → still w1 w2 → claim who state w2 = (Ok (Some j), w3) →
  safe_cycle w (take_claim cfg j w3).
Proof.
  intros Hworld Hk Hw Hc. pose proof (placid_still _ _ _ _ (placid_claim who state) Hc) as Hw3.
  apply claim_answer in Hc as (kvs & raw & n & body & -> & Hraw & Hj & Hsent).
  pose proof (claims_named Hworld n body raw kvs Hraw Hj) as Hm.
  set (d := py_str _) in Hm. set (o := take_claim cfg (JObj kvs) w3).
  assert (kept none w w3) as Hk3.
  { eapply kept_trans; [exact Hk|]. apply still_kept. by etrans. }
  assert (tidy (wk_outbox w) → ends d w3 o) as He.
  { intros Ht. apply claimed_spec; [done| |done]. by apply Hk3. }
  assert (tidy (wk_outbox w) → ∃ new, wk_sent w3 = wk_sent w ++ new ∧ issued new d) as Hi.
  { intros Ht. destruct (Hk Ht) as (_ & n1 & Hn1 & _). destruct Hw as [_ [n2 Hn2]].
    exists (n1 ++ n2 ++ [mkCall "POST" "/claim" body (Answered 200 raw)]).
    split; [by rewrite Hsent, Hn2, Hn1, !app_assoc|]. apply issued_app. right. apply issued_app. right.
    exists (mkCall "POST" "/claim" body (Answered 200 raw)), raw, kvs. split; [set_solver|done]. }
  split.
  - intros Ht. eapply issued_kept; [exact Hk3| |by apply Hi|done]. intros _. by apply He.
  - intros Ht Hs. destruct (proj2 (He Ht) Hs) as (new & p & Hnew & ?). destruct (Hi Ht) as (n' & Hn' & _).
    exists d, (n' ++ new), p. rewrite Hnew, Hn', app_assoc. split_and!; [done|tauto|]. apply settled_app. tauto.
Qed.

Lemma flushed_kept w r w' :
  try_w (flush_outbox;; mret true) is_controller_error (λ _, mret false) w = (r, w') → kept none w w'.
Proof.
  pose proof (flush_kept none w) as Hk. unfold try_w, mbind, W_bind.
  destruct (flush_outbox w) as [[n|x] w1]; [by intros [= _ <-]|].
  destruct (is_controller_error x); by intros [= _ <-].
Qed.

Lemma iterate_safe w : decent_world → safe_cycle w (iterate cfg w).
Proof.
  intros Hworld. unfold iterate, mbind, W_bind at 1.
  destruct (try_w _ _ _ w) as [r1 w1] eqn:E1. apply flushed_kept in E1.
  destruct r1 as [[]|]; cbn [negb]; [|by eapply safe_still|by eapply safe_still].
  unfold W_bind at 1. destruct (resource_state w1) as [r2 w2] eqn:E2.
  apply placid_still in E2; [|apply placid_resource]. destruct r2 as [state|]; [|by eapply safe_still].
  destruct (negb _); [by eapply idle_safe|].
  unfold W_bind at 1. destruct (try_w _ _ _ w2) as [r3 w3] eqn:E3.
  assert (still w1 w3) as Hw3.
  { etrans; [done|]. apply placid_still in E3; [done|]. apply placid_try; [|intros; apply placid_ret].
    apply placid_bind; [apply placid_claim|intros; apply placid_ret]. }
  destruct r3 as [[[j|]|]|]; [|by eapply idle_safe|by eapply safe_still..].
  apply (claim_safe (st_worker_id cfg) state j w w1 w2 w3); [done..|]. revert E3. unfold try_w, W_bind, mret, W_ret.
  destruct (claim _ _ w2) as [[c|x] w4]; [by intros [= -> ->]|]. by destruct (is_class _ x).
Qed.

(** ** The life of a worker *)

Lemma placid_health : placid health.
Proof. unfold health. placid. Qed.

Lemma startup_still n w : still w (startup n w).2.
Proof.
  revert w. induction n as [|n IH]; intros w; cbn [startup]; unfold mbind, W_bind at 1.
  - pose proof (placid_health w) as Hq%quiet_still. by destruct (health w) as [[]].
  - pose proof (placid_health w) as Hq%quiet_still. destruct (health w) as [[[]|] w1]; try done.
    unfold W_bind, inquire. cbn [snd] in Hq. assert (still w (count_question w1)) as Hc.
    { etrans; [done|]. by apply quiet_still, (placid_inquire ww_stop w1). }
    destruct (ww_stop _); [done|]. by etrans.
Qed.

Lemma turn_kept w : decent_world → kept none w (turn cfg w).2.
Proof.
  intros Hworld. destruct (iterate_safe w Hworld) as [Hk _].
  unfold turn, try_w, mbind, W_bind. destruct (iterate cfg w) as [[a|x] w1]; [done|].
  by destruct (exn_cls x).
Qed.

Lemma run_turns_kept n w : decent_world → kept none w (run_turns cfg n w).2.
Proof.
  intros Hworld. revert w. induction n as [|n IH]; intros w; [apply kept_refl|].
  cbn [run_turns]. unfold mbind, W_bind at 1, inquire. set (w1 := count_question w).
  assert (kept none w w1) as Hk1 by (by apply still_kept, quiet_still, (placid_inquire ww_stop w)).
  destruct (ww_stop _).
  - eapply kept_trans; [exact Hk1|]. pose proof (flush_kept none w1) as Hk. unfold W_bind, try_w, get_w.
    destruct (flush_outbox w1) as [[n'|x] w2]; [done|]. by destruct (is_controller_error x).
  - eapply kept_trans; [exact Hk1|]. pose proof (turn_kept w1 Hworld) as Hk. unfold W_bind.
    destruct (turn cfg w1) as [[[a|]|] w2]; try done. eapply kept_trans; [exact Hk|apply IH].
Qed.

Lemma run_kept n w : decent_world → kept none w (run cfg n w).2.
Proof.
  intros Hworld. unfold run, mbind, W_bind. pose proof (startup_still STARTUP_HEALTH_ATTEMPTS w) as Hs.
  destruct (startup _ w) as [[[[]|]|] w1]; try by apply still_kept.
  eapply kept_trans; [by apply still_kept|by apply run_turns_kept].
Qed.

(** A process that runs for some turns, and the start of a new one on the
    same home. *)
Inductive lives : Worker → Worker → Prop :=
  | lives_run fuel w : lives w (run cfg fuel w).2
  | lives_restart w w' : wk_outbox w' = wk_outbox w → wk_sent w' = wk_sent w → lives w w'.

Lemma lives_kept w w' : decent_world → rtc lives w w' → kept none w w'.
Proof.
  intros Hworld. induction 1 as [w|w w1 w2 Hl _ IH]; [apply kept_refl|].
  eapply kept_trans; [|exact IH]. destruct Hl as [fuel w|w w' Ho Hs].
  - by apply run_kept.
  - apply kept_same; [done|]. exists []. by rewrite app_nil_r.
Qed.

(** C4: no result is lost: in a tidy outbox every stored result stays,
    through any number of turns, failed or not, and restarts of the worker,
    until the controller has answered its delivery, or it lies in quarantine,
    or the controller has issued its dispatch again. *)
Theorem results_are_not_lost w w' :
  decent_world → tidy (wk_outbox w) → rtc lives w w' →
  tidy (wk_outbox w') ∧
  ∃ new, wk_sent w' = wk_sent w ++ new ∧
    ∀ d f payload, holds (wk_outbox w) d f payload → fate w' new d f payload.
Proof.
  intros Hworld Ht Hl. destruct (lives_kept w w' Hworld Hl Ht) as (Ht' & new & Hs & Hf & _).
  split; [done|]. exists new. split; [done|]. intros d f p Hh. by destruct (Hf d f p Hh).
Qed.

(** A cycle that says a result was delivered (or a claim rejected) has
    settled it: the controller answered the delivery of this very result, or
    it is stored in the outbox, or in quarantine, or the outbox is full. *)
Theorem deliveries_are_settled w w' a :
  decent_world → tidy (wk_outbox w) → iterate cfg w = (Ok a, w') → a = Delivered ∨ a = SpecRejected →
  ∃ d kvs new, jget "dispatch_id" kvs = Some (JStr d) ∧ wk_sent w' = wk_sent w ++ new ∧ settled d kvs new w'.
Proof.
  intros Hworld Ht Hi Ha. destruct (iterate_safe w Hworld) as [_ Hs]. rewrite Hi in Hs.
  destruct (Hs Ht) as (d & new & kvs & ? & ? & ?); [by destruct Ha as [-> | ->]|]. by exists d, kvs, new.
Qed.

End cycles.
