(* ===== verification/WorkerProtocol.v ===== *)
(** * The worker speaks the controller's language

    The report a worker builds of a run is one the controller accepts as
    well-formed: its fields pass the request checks and its event is valid. *)

From Stdlib Require Import Ascii.
From S2P Require Import Prelude PyText AsciiText Scope Utf8 Json JsonAscii Sha256 Events StateMachine Lifecycle History Projection Replay Journal Ledger Verification Controller Service Duties Redelivery LockManager WorkerSpec WorkerSpecSafety WorkerOutbox WorkerHost WorkerLoop WorkerDelivery WorkerResults.

Section protocol.
Context `{PyPlatform} `{World}.

Definition artifact_json (a : ArtifactRef) : json := JObj [("path", JStr (ar_path a)); ("sha256", JStr (ar_sha256 a))].

(** A report within the rules of the API. *)
Record proper_report (kvs : list (string * json)) (d rid : string) (arts : list ArtifactRef) : Prop := {
  pr_distinct : NoDup (keys kvs);
  pr_fields : Forall (λ k, k ∈ RESULT_FIELDS) (keys kvs);
  pr_dispatch : jget "dispatch_id" kvs = Some (JStr d);
  pr_result : jget "result_id" kvs = Some (JStr rid);
  pr_ids : Forall (λ s, s ≠ "" ∧ py_len s ≤ MAX_ID_LENGTH) [d; rid; result_key (Some d) (Some rid)];
  pr_artifacts : jget "artifacts" kvs = Some (JArr (map artifact_json arts));
  pr_count : (length arts ≤ Controller.MAX_ARTIFACTS)%nat;
  pr_refs : Forall (λ a, ar_path a ≠ "" ∧ sha256_hex_match (ar_sha256 a) = true) arts;
  pr_outcome : ∃ o, jget "outcome" kvs = Some (JStr o) ∧ o ∈ RESULT_OUTCOMES;
  pr_retryable : ∀ r, jget "retryable" kvs = Some r → ∃ b, r = JBool b;
  pr_reason : ∀ r, jget "reason" kvs = Some r → ∃ s, r = JStr s ∧ py_len s ≤ MAX_REASON_CHARS;
}.

Lemma canon_artifacts arts : canon (JArr (map artifact_json arts)) = JArr (map artifact_json arts).
Proof.
  cbn [canon]. f_equal. rewrite map_map. apply map_ext. intros a. reflexivity.
Qed.

Lemma canon_keys kvs kvs' : canon (JObj kvs) = JObj kvs' → keys kvs' ≡ₚ keys kvs.
Proof.
  rewrite canon_obj. intros [= <-]. unfold keys at 1. rewrite sort_kvs_perm.
  fold (keys (map (λ kv, (kv.1, canon kv.2)) kvs)). by rewrite keys_canon.
Qed.

(** The order of a report's keys is free. *)
Lemma proper_canon kvs kvs' d rid arts :
  proper_report kvs d rid arts → canon (JObj kvs) = JObj kvs' → proper_report kvs' d rid arts.
Proof.
  intros [Hn Hf Hd Hr Hi Ha Hc Hrefs (o & Ho & Hin) Hre Hwhy] Hk.
  assert (∀ k, jget k kvs' = canon <$> jget k kvs) as Hg.
  { intros k. destruct (jget_canon k kvs Hn) as (kvs2 & E & Hg). congruence. }
  pose proof (canon_keys _ _ Hk) as Hp. split; rewrite ?Hg, ?Hd, ?Hr, ?Ha; try done.
  - by rewrite Hp.
  - by rewrite Hp.
  - cbn [fmap option_fmap option_map]. by rewrite canon_artifacts.
  - exists o. by rewrite Ho.
  - intros r. destruct (jget "retryable" kvs) as [r'|]; [|done].
    destruct (Hre r' eq_refl) as [b ->]. intros [= <-]. by exists b.
  - intros r. destruct (jget "reason" kvs) as [r'|]; [|done].
    destruct (Hwhy r' eq_refl) as (s & -> & Hs). intros [= <-]. by exists s.
Qed.

(** What the controller takes from a proper report. *)
Definition taken_payload (kvs payload : list (string * json)) (arts : list ArtifactRef) : Prop :=
  json_wf (JObj payload) ∧ jget "artifacts" payload = Some (JArr (map artifact_json arts)) ∧
  jget "outcome" payload = jget "outcome" kvs ∧ jget "retryable" payload = jget "retryable" kvs ∧
  jget "actor" payload = None.

Lemma artifacts_wf arts : json_wf (JArr (map artifact_json arts)).
Proof.
  apply json_ok_arr, Forall_map, Forall_forall. intros a _. apply json_ok_obj. split.
  - by apply (bool_decide_unpack _).
  - by repeat constructor.
Qed.

Lemma require_id_Ok kvs name s :
  jget name kvs = Some (JStr s) → s ≠ "" → py_len s ≤ MAX_ID_LENGTH → _require_id kvs name = Ok s.
Proof.
  intros Hg Hne Hl. unfold _require_id. rewrite Hg, bool_decide_false by done.
  by rewrite (proj2 (Z.ltb_ge _ _) Hl).
Qed.

Lemma proper_args kvs d rid arts :
  proper_report kvs d rid arts →
  ∃ payload, report_args (JObj kvs) = Ok (d, rid, payload) ∧ taken_payload kvs payload arts.
Proof.
  intros [Hn Hf Hd Hr Hi Ha Hc Hrefs (o & Ho & Hin) Hre Hwhy]. rewrite !Forall_cons in Hi.
  destruct Hi as ([Hd1 Hd2] & [Hr1 Hr2] & _). unfold report_args, _only_fields, bad_if.
  assert (forallb (λ k, bool_decide (k ∈ RESULT_FIELDS)) (keys kvs) = true) as ->.
  { apply forallb_forall. intros k Hk%list_elem_of_In. rewrite Forall_forall in Hf. by apply bool_decide_eq_true, Hf. }
  cbn [negb mbind result_bind mret result_ret].
  rewrite (require_id_Ok kvs "dispatch_id" d), (require_id_Ok kvs "result_id" rid) by done.
  cbn [mbind result_bind]. unfold result_payload, jget_none, bad_if. rewrite Ha, Ho. cbn [default].
  cbn [id]. rewrite length_map. rewrite (proj2 (Nat.ltb_ge _ _) Hc). cbn [mbind result_bind].
  unfold json_in_strs. cbn [json_hashable]. rewrite bool_decide_true by done. cbn [negb].
  pose proof (artifacts_wf arts) as Hwf.
  assert (∃ reason, match jget "reason" kvs with
    | None => Ok []
    | Some (JStr s) => (if (MAX_REASON_CHARS <? py_len s)%Z then bad_request else Ok tt);; mret [("reason", JStr s)]
    | Some _ => bad_request
    end = Ok reason ∧ (reason = [] ∨ ∃ s, reason = [("reason", JStr s)])) as (reason & -> & Hreason).
  { destruct (jget "reason" kvs) as [why|]; [|by eexists; auto].
    destruct (Hwhy why eq_refl) as (s & -> & Hs). rewrite (proj2 (Z.ltb_ge _ _) Hs). eexists. eauto. }
  eexists. split; [done|]. unfold taken_payload. rewrite Ho.
  destruct (jget "retryable" kvs) as [r|] eqn:Er; [destruct (Hre r eq_refl) as [b ->]|];
    destruct Hreason as [->|[s ->]]; split_and!; try done;
    (apply json_ok_obj; split; [by apply (bool_decide_unpack _)|by repeat constructor]).
Qed.

(** What a recorded claim names. *)
Lemma claim_fields cl :
  Valid cl → ev_type cl = TASK_CLAIMED →
  ∃ t k w, ev_task_id cl = Some t ∧ check_id_opt "task_id" (Some t) = Ok tt ∧ ev_attempt cl = Some k ∧
    _check_positive_int "attempt" (JInt k) (Some MAX_ATTEMPTS_LIMIT) = Ok tt ∧
    ev_worker_id cl = Some w ∧ check_id_opt "worker_id" (Some w) = Ok tt.
Proof.
  intros Hv Ht. pose proof (vd_fields _ (valid_validated cl Hv)) as Hf. rewrite Ht in Hf.
  pose proof (valid_validate _ Hv) as Hc. unfold validate in Hc.
  repeat (apply bind_Ok in Hc as ([] & ? & Hc)).
  assert (∀ A (o : option A), match o with None => true | Some _ => false end = false → ∃ x, o = Some x) as Hsome.
  { intros A [x|]; [by exists x|done]. }
  destruct (Hsome _ (ev_task_id cl) (Hf "task_id" ltac:(set_solver))) as [t Et].
  destruct (Hsome _ (ev_attempt cl) (Hf "attempt" ltac:(set_solver))) as [k Ek].
  destruct (Hsome _ (ev_worker_id cl) (Hf "worker_id" ltac:(set_solver))) as [w Ew].
  rewrite Et, Ek, Ew in *.
  by exists t, k, w.
Qed.

Lemma check_id_intro name s : s ≠ "" → py_len s ≤ MAX_ID_LENGTH → _check_id name (JStr s) = Ok tt.
Proof.
  intros Hs Hl. unfold _check_id, reject_if. rewrite bool_decide_false by done.
  by rewrite (proj2 (Z.ltb_ge _ _) Hl).
Qed.

Lemma artifacts_ok arts :
  Forall (λ a, ar_path a ≠ "" ∧ sha256_hex_match (ar_sha256 a) = true) arts →
  _check_artifacts (JArr (map artifact_json arts)) = Ok tt.
Proof.
  intros Hr. unfold _check_artifacts, reject_if.
  assert (forallb artifact_ok (map artifact_json arts) = true) as ->; [|done].
  rewrite forallb_forall. intros j Hj. apply in_map_iff in Hj as (a & <- & Ha).
  rewrite Forall_forall in Hr. apply list_elem_of_In, Hr in Ha as [Hp Hs]. simpl.
  by rewrite bool_decide_false.
Qed.

(** An event with all the fields of a result, and their values within the
    rules. *)
Lemma validate_result t k d w rid P eid ts key :
  check_id_opt "task_id" (Some t) = Ok tt → _check_positive_int "attempt" (JInt k) (Some MAX_ATTEMPTS_LIMIT) = Ok tt →
  check_id_opt "worker_id" (Some w) = Ok tt →
  Forall (λ s, s ≠ "" ∧ py_len s ≤ MAX_ID_LENGTH) [d; rid; eid; key] → ends_with "Z" ts = true →
  jget "actor" P = None → (∃ o, jget "outcome" P = Some (JStr o) ∧ o ∈ RESULT_OUTCOMES) →
  (∃ l, jget "artifacts" P = Some l ∧ _check_artifacts l = Ok tt) →
  (∀ r, jget "retryable" P = Some r → ∃ b, r = JBool b) →
  validate (mkEvent RESULT_READY (Some t) (Some k) (Some d) (Some w) (Some rid) P eid ts (Some key)
              SCHEMA_VERSION None None None) = Ok tt.
Proof.
  intros Ht Hk Hw Hids Hts Hact (o & Ho & Hin) (l & Hl & Harts) Hre. rewrite !Forall_cons in Hids.
  destruct Hids as ([Hd1 Hd2] & [Hr1 Hr2] & [Hi1 Hi2] & [Hk1 Hk2] & _).
  unfold validate, _validate_payload, validate_type_payload, reject_if, jhas, jget_none.
  cbn [ev_type ev_task_id ev_attempt ev_dispatch_id ev_worker_id ev_result_id ev_payload ev_event_id ev_ts_utc
    ev_dedupe_key ev_schema_v]. rewrite Hts, Ht, Hw, Hk. cbn [check_id_opt]. rewrite !check_id_intro by done.
  cbn -[json_in_strs existsb forallb _check_artifacts]. rewrite Ho, Hl, Hact. unfold json_in_strs. cbn [json_hashable default id].
  rewrite bool_decide_true by done. cbn -[existsb _check_artifacts]. rewrite Hl, Ho, Harts.
  destruct (jget "retryable" P) as [r|] eqn:Er; [destruct (Hre r eq_refl) as [b ->]|]; done.
Qed.

(** The event of a proper report of a claimed dispatch is valid. *)
Lemma proper_event cl kvs payload d rid arts n :
  WorldFresh → Valid cl → ev_type cl = TASK_CLAIMED → proper_report kvs d rid arts →
  taken_payload kvs payload arts → ∃ e, result_event cl d rid payload n = Ok e.
Proof.
  intros [Huuid Hnow] Hv Ht Hp (Hwf & Ha & Ho & Hre & Hact).
  destruct (claim_fields cl Hv Ht) as (t & k & w & Et & Ht' & Ek & Hk & Ew & Hw).
  pose proof (pr_ids _ _ _ _ Hp) as Hi. rewrite !Forall_cons in Hi.
  unfold result_event, new_event. rewrite post_init_wf by done. rewrite Et, Ek, Ew. cbv zeta.
  unfold normalize. cbn [ev_payload set_payload ev_dedupe_key ev_type ev_task_id ev_attempt ev_dispatch_id
    ev_result_id default_dedupe_key].
  assert (∀ key, jget key (sort_kvs (map (λ kv, (kv.1, canon kv.2)) payload)) = canon <$> jget key payload) as Hg.
  { intros key. destruct (jget_canon key payload (proj1 (proj1 (json_ok_obj _ _) Hwf))) as (kvs2 & E & Hg).
    rewrite canon_obj in E. by injection E as <-. }
  unfold set_dedupe_key, set_payload. cbn [ev_type ev_task_id ev_attempt ev_dispatch_id ev_worker_id ev_result_id
    ev_payload ev_event_id ev_ts_utc ev_dedupe_key ev_schema_v ev_seq ev_prev_hash ev_hash].
  rewrite (validate_result t k d w rid); [by eexists|done..| | | | | |]; rewrite ?Hg.
  - destruct (Huuid n). rewrite !Forall_cons. tauto.
  - apply Hnow.
  - by rewrite Hact.
  - destruct (pr_outcome _ _ _ _ Hp) as (o & Ho' & Hin). exists o. by rewrite Ho, Ho'.
  - rewrite Ha. cbn [fmap option_fmap option_map]. rewrite canon_artifacts. eexists. split; [done|].
    apply artifacts_ok, Hp.
  - intros r. rewrite Hre. destruct (jget "retryable" kvs) as [r'|] eqn:Er; [|done].
    destruct (pr_retryable _ _ _ _ Hp r' Er) as [b ->]. intros [= <-]. by exists b.
Qed.

Lemma py_len_take n s : py_len (py_take n s) ≤ Z.of_nat n.
Proof.
  revert n. induction s as [|a s IH]; intros n; cbn [py_take]; [simpl; lia|].
  destruct (is_cont a) eqn:Ea; [cbn [py_len]; rewrite Ea; apply (IH n)|].
  destruct n as [|n]; [simpl; lia|]. cbn [py_len]. rewrite Ea. specialize (IH n). lia.
Qed.

Lemma verdict_short r report why : (verdict r report).2 = Some why → py_len why ≤ MAX_REASON_CHARS.
Proof.
  unfold verdict, MAX_REASON_CHARS. destruct (negb _).
  { intros [= <-]. by destruct (er_outcome r). }
  destruct (xs_adapter (er_spec r)); [|done]. destruct report as [rep|]; [|by intros [= <-]].
  destruct (py_eq _ _); [done|]. intros [= <-]. etrans; [apply py_len_take|]. done.
Qed.

(** The report of a run is proper, for a dispatch whose name leaves room for
    the key of its result. *)
Lemma run_report_proper cwd home r report :
  bounded (er_spec r) → xs_result_id (er_spec r) = "r-" +:+ xs_dispatch_id (er_spec r) →
  10 + 2 * py_len (xs_dispatch_id (er_spec r)) ≤ MAX_ID_LENGTH →
  (length (er_artifacts r) ≤ WorkerHost.MAX_ARTIFACTS)%nat →
  Forall (λ a, ar_path a ≠ "" ∧ sha256_hex_match (ar_sha256 a) = true) (er_artifacts r) →
  let prefix := _artifact_prefix cwd (xs_artifact_dir (er_spec r)) home in
  proper_report (build_result_payload cwd home r report) (xs_dispatch_id (er_spec r)) (xs_result_id (er_spec r))
    (map (λ a, mkArtifact (prefix +:+ ar_path a) (ar_sha256 a)) (er_artifacts r)).
Proof.
  intros Hb Hrid Hlen Hcount Hrefs prefix. unfold build_result_payload. fold prefix.
  pose proof (verdict_short r report) as Hv. assert ((verdict r report).1.1 ∈ RESULT_OUTCOMES) as Ho.
  { unfold verdict. repeat case_match; by apply (bool_decide_unpack _). }
  destruct (verdict r report) as [[outcome retry] reason]. cbn [fst snd] in *.
  pose proof (names_safe _ Hb) as Hn. rewrite !Forall_cons in Hn.
  destruct Hn as (_ & (Hd1 & Hd2 & _) & _ & (Hr1 & Hr2 & _) & _).
  split.
  - case_decide; [|destruct reason as [why|]; [case_decide|]]; by apply (bool_decide_unpack _).
  - case_decide; [|destruct reason as [why|]; [case_decide|]]; by apply (bool_decide_unpack _).
  - done.
  - done.
  - rewrite !Forall_cons. split_and!; try done. unfold result_key. cbn [fmt default]. rewrite Hrid, !py_len_app.
    change (py_len "result:") with 7. change (py_len ":") with 1. change (py_len "r-") with 2. unfold MAX_ID_LENGTH, id in *. rewrite py_len_app. change (py_len "r-") with 2. lia.
  - simpl. do 2 f_equal. by rewrite map_map.
  - rewrite length_map. unfold Controller.MAX_ARTIFACTS, WorkerHost.MAX_ARTIFACTS in *. lia.
  - apply Forall_map. eapply Forall_impl; [exact Hrefs|]. intros a [Hp Hs]. simpl. split; [|done].
    by destruct prefix.
  - by exists outcome.
  - intros v. case_decide; [done|]. intros [= <-]. by exists retry.
  - intros v. case_decide; [done|]. destruct reason as [why|]; [|done]. case_decide; [done|].
    intros [= <-]. exists why. split; [done|]. by apply Hv.
Qed.

(** C16: the worker's reports are well-formed for the controller: for a claimed
    dispatch whose name leaves room for the key of its result, the report of a
    run, with its keys in any order the outbox or the client may give them,
    passes every check of the controller's [result] and makes a valid event,
    so it is answered by what the journal holds, never as a bad request. *)
Theorem reports_are_well_formed c db es m cl cwd home r report :
  WorldFresh → open_to_requests c → c_file c = Some db → Sound db es m → w_lock (c_calls c) = true →
  let d := xs_dispatch_id (er_spec r) in
  claimed es d = Some cl → bounded (er_spec r) → xs_result_id (er_spec r) = "r-" +:+ d →
  10 + 2 * py_len d ≤ MAX_ID_LENGTH → (length (er_artifacts r) ≤ WorkerHost.MAX_ARTIFACTS)%nat →
  Forall (λ a, ar_path a ≠ "" ∧ sha256_hex_match (ar_sha256 a) = true) (er_artifacts r) →
  ∀ body, body = JObj (build_result_payload cwd home r report)
          ∨ body = canon (JObj (build_result_payload cwd home r report)) →
  ∃ payload e, Valid e ∧
    result_report body c = report_keyed cl e d ("r-" +:+ d) payload (count_call (count_call (count_call c))).
Proof.
  intros Hfresh (Hm & Hst & Hj) Hf Hs Hlock d Hcl Hb Hrid Hlen Hcount Hrefs body Hbody.
  pose proof (run_report_proper cwd home r report Hb Hrid Hlen Hcount Hrefs) as Hp. cbv zeta in Hp.
  set (arts := map _ _) in Hp. fold d in Hp. rewrite Hrid in Hp. clearbody arts.
  assert (∃ kvs, body = JObj kvs ∧ proper_report kvs d ("r-" +:+ d) arts) as (kvs & -> & Hp').
  { destruct Hbody as [->| ->]; [by eexists|]. rewrite canon_obj. eexists. split; [done|].
    eapply proper_canon; [exact Hp|]. apply canon_obj. }
  destruct (proper_args kvs d _ arts Hp') as (payload & Ha & Htaken).
  assert (Valid cl ∧ ev_type cl = TASK_CLAIMED) as [Hv Ht].
  { unfold claimed in Hcl. destruct (list_find _ es) as [[i y]|] eqn:F; [|done]. injection Hcl as ->.
    apply list_find_Some in F as (Hl & [_ Hty] & _). split; [|by apply (inj type_value)].
    pose proof (rc_valid _ _ _ (sd_recorded _ _ _ Hs)) as Hall. rewrite Forall_forall in Hall.
    by eapply Hall, list_elem_of_lookup_2. }
  destruct (proper_event cl kvs payload d _ arts (c_calls (count_call c)) Hfresh Hv Ht Hp' Htaken) as [e He].
  exists payload, e. split.
  { destruct Htaken as [Hwf _]. unfold result_event, new_event in He. by apply post_init_valid in He as [? _]. }
  rewrite report_run, Ha, locked_free by done.
  by rewrite (report_locked_run d _ payload (count_call c) false db es m cl), He by done.
Qed.

End protocol.
