(* ===== verification/OutboxRestart.v ===== *)
(** * Restart of the outbox ([courier_worker/outbox_restart.py])

    Open outbox entries are executed after a restart, and every executed
    effect is confirmed in a journal, so that later restarts skip it.  The
    files are those of one home: the [*.json] files of [outbox] by name, and
    [run/effect-journal.jsonl]. *)

From Stdlib Require Import Ascii.
From S2P Require Import Prelude PyText AsciiText Utf8 Json JsonAscii.

(** ** Lines of a text *)

(** The characters [str.splitlines] splits at, CR LF being one of them. *)
Definition line_end (c : string) : bool :=
  match code_points c with
  | [z] => (10 <=? z) && (z <=? 13) || (28 <=? z) && (z <=? 30) || (z =? 133) || (z =? 8232) || (z =? 8233)
  | _ => false
  end%bool.

Fixpoint lines_of (cur : string) (l : list string) : list string :=
  match l with
  | [] => match cur with "" => [] | _ => [cur] end
  | c :: l =>
      if line_end c then
        match c, l with
        | String "013" "", String "010" "" :: l => cur :: lines_of "" l
        | _, _ => cur :: lines_of "" l
        end
      else lines_of (cur +:+ c) l
  end.
Definition str_splitlines (s : string) : list string := lines_of "" (chars s).

(** ** The home *)

Record RestartHome := mkHome {
  rh_outbox : option (gmap string string);
  rh_journal : option string;
}.

(** [Path.stem] of a name that ends in [.json]. *)
Definition stem (name : string) : string :=
  if decide (name = ".json") then name else String.substring 0 (String.length name - 5) name.

Section restart.
Context `{PyPlatform}.

Definition entry := list (string * json).

Definition read_text (raw : string) : result string :=
  if utf8_valid raw then Ok raw else raise UnicodeDecodeError "invalid start byte".

Definition corrupt (msg : string) : exn := Exn OutboxRestartError msg.

(** [json.loads], where any failure is the given error, and the value must be
    a dict. *)
Definition loads_dict (bad not_dict : string) (text : string) : result entry :=
  match loads text with
  | Ok (JObj kvs) => Ok kvs
  | Ok _ => Err (corrupt not_dict)
  | Err _ => Err (corrupt bad)
  end.

Definition parse_entry (file : string * string) : result (string * entry) :=
  raw ← read_text file.2;
  data ← loads_dict "corrupt outbox entry" "corrupt outbox entry (not a dict)" raw;
  match jget_none "effect_key" data with
  | JStr s => if py_blank s then Err (corrupt "corrupt outbox entry (missing or empty effect_key)") else Ok (file.1, data)
  | _ => Err (corrupt "corrupt outbox entry (missing or empty effect_key)")
  end.

(** The files in the order of their names. *)
Definition by_name (a b : string * string) : Prop := String.le a.1 b.1.
#[export] Instance by_name_dec : RelDecision by_name.
Proof. intros a b. unfold by_name. apply _. Defined.
Definition sorted_files (files : gmap string string) : list (string * string) := merge_sort by_name (map_to_list files).

Definition parse_entries (files : gmap string string) : result (list (string * entry)) :=
  mapM parse_entry (sorted_files files).

(** [confirmed.add(x)], where [x] is skipped when it is falsy. *)
Definition add_key (x : json) (confirmed : list json) : result (list json) :=
  if negb (py_truthy x) then Ok confirmed
  else if json_hashable x then Ok (x :: confirmed) else raise TypeError "unhashable type".

(** [x in confirmed] *)
Definition in_keys (x : json) (confirmed : list json) : result bool :=
  if json_hashable x then Ok (existsb (py_eq x) confirmed) else raise TypeError "unhashable type".

Definition load_line (confirmed : list json) (line : string) : result (list json) :=
  if py_blank line then Ok confirmed
  else
    data ← loads_dict "corrupt journal line" "corrupt journal line (not a dict)" (py_strip line);
    confirmed ← add_key (jget_none "effect_key" data) confirmed;
    add_key (jget_none "dispatch_id" data) confirmed.

Fixpoint load_lines (confirmed : list json) (lines : list string) : result (list json) :=
  match lines with
  | [] => Ok confirmed
  | line :: lines => confirmed ← load_line confirmed line; load_lines confirmed lines
  end.

Definition _load_confirmed_keys (h : RestartHome) : result (list json) :=
  match rh_journal h with
  | None => Ok []
  | Some raw => text ← read_text raw; load_lines [] (str_splitlines text)
  end.

(** [record_confirmation], at the time [now] that [time.time] gives. *)
Definition confirmation (now effect_key dispatch_id : string) : json :=
  JObj [("effect_key", JStr effect_key); ("dispatch_id", JStr dispatch_id); ("timestamp", JFloat now);
        ("status", JStr "CONFIRMED")].

Definition record_confirmation (now : string) (effect_key : string) (dispatch_id : json) (h : RestartHome)
    : result unit * RestartHome :=
  if py_blank effect_key then (Err (corrupt "effect_key must be a non-empty string"), h)
  else
    match dispatch_id with
    | JStr d =>
        if py_blank d then (Err (corrupt "dispatch_id must be a non-empty string"), h)
        else (Ok tt, mkHome (rh_outbox h)
                (Some (default "" (rh_journal h) +:+ dumps_spaced (canon (confirmation now effect_key d)) +:+ String LF "")))
    | _ => (Err (corrupt "dispatch_id must be a non-empty string"), h)
    end.

(** ** Resuming *)

(** What happened: the effects that were executed, and whether the journal
    confirms them; the callback's answers and the clock are asked by the
    number of the execution. *)
Record Restart := mkRestart { rs_home : RestartHome; rs_executed : list (string * bool) }.

Section resume.
Context (callback : nat → entry → result unit) (now : nat → string).

(** [entry.get("dispatch_id") or p.stem] *)
Definition dispatch_of (name : string) (data : entry) : json :=
  let d := jget_none "dispatch_id" data in if py_truthy d then d else JStr (stem name).

Definition key_of (data : entry) : string :=
  match jget_none "effect_key" data with JStr s => s | _ => "" end.

Fixpoint resume_entries (entries : list (string * entry)) (confirmed : list json) (seen : list string)
    (continued skipped : list json) (s : Restart) : result (list json * list json) * Restart :=
  match entries with
  | [] => (Ok (continued, skipped), s)
  | (name, data) :: entries =>
      let effect_key := key_of data in
      let dispatch_id := dispatch_of name data in
      match (if existsb (py_eq (JStr effect_key)) confirmed then Ok true else in_keys dispatch_id confirmed) with
      | Err e => (Err e, s)
      | Ok is_confirmed =>
          if (is_confirmed || bool_decide (effect_key ∈ seen))%bool
          then resume_entries entries confirmed seen continued (skipped ++ [dispatch_id]) s
          else
            let n := length (rs_executed s) in
            match callback n data with
            | Err e => (Err e, mkRestart (rs_home s) (rs_executed s ++ [(effect_key, false)]))
            | Ok _ =>
                match record_confirmation (now n) effect_key dispatch_id (rs_home s) with
                | (Err e, home) => (Err e, mkRestart home (rs_executed s ++ [(effect_key, false)]))
                | (Ok _, home) =>
                    resume_entries entries (dispatch_id :: JStr effect_key :: confirmed) (effect_key :: seen)
                      (continued ++ [dispatch_id]) skipped (mkRestart home (rs_executed s ++ [(effect_key, true)]))
                end
            end
      end
  end.

Definition resume_outbox (s : Restart) : result (list json * list json) * Restart :=
  match rh_outbox (rs_home s) with
  | None => (Ok ([], []), s)
  | Some files =>
      match (entries ← parse_entries files; confirmed ← _load_confirmed_keys (rs_home s); mret (entries, confirmed)) with
      | Err e => (Err e, s)
      | Ok (entries, confirmed) => resume_entries entries confirmed [] [] [] s
      end
  end.

End resume.

(** ** Cleaning up *)

(** [entry.get("dispatch_id", p.stem)] *)
Definition cleanup_id (name : string) (data : entry) : json := default (JStr (stem name)) (jget "dispatch_id" data).

Fixpoint cleanup_entries (entries : list (string * entry)) (confirmed : list json) (files : gmap string string)
    (removed : list json) : result (list json) * gmap string string :=
  match entries with
  | [] => (Ok removed, files)
  | (name, data) :: entries =>
      let dispatch_id := cleanup_id name data in
      match (if existsb (py_eq (JStr (key_of data))) confirmed then Ok true else in_keys dispatch_id confirmed) with
      | Err e => (Err e, files)
      | Ok true => cleanup_entries entries confirmed (delete name files) (removed ++ [dispatch_id])
      | Ok false => cleanup_entries entries confirmed files removed
      end
  end.

Definition cleanup_confirmed (h : RestartHome) : result (list json) * RestartHome :=
  match rh_outbox h with
  | None => (Ok [], h)
  | Some files =>
      match (entries ← parse_entries files; confirmed ← _load_confirmed_keys h; mret (entries, confirmed)) with
      | Err e => (Err e, h)
      | Ok (entries, confirmed) =>
          let '(r, files) := cleanup_entries entries confirmed files [] in (r, mkHome (Some files) (rh_journal h))
      end
  end.

(** ** A confirmation is read back *)

Lemma chars_aux_app raw s cur :
  match s with String a _ => is_cont a = false | "" => True end →
  chars_aux cur (raw +:+ s) = (chars_aux cur raw ++ chars_aux "" s)%list.
Proof.
  intros Hs. revert cur. induction raw as [|a raw IH]; intros cur.
  - destruct s as [|a s]; simpl; [by rewrite app_nil_r|]. rewrite Hs. by destruct cur.
  - rewrite string_app_cons. simpl. destruct (is_cont a); [apply IH|]. rewrite !IH. by destruct cur.
Qed.

Lemma chars_complete raw s :
  complete raw → is_ascii s = true → chars (raw +:+ s) = (chars raw ++ chars s)%list ∧
  (raw = "" ∨ ∃ l, chars raw = (l ++ [String LF ""])%list).
Proof.
  intros Hr Hs. split.
  - apply chars_aux_app. destruct s as [|a s]; [done|]. unfold is_ascii in Hs. simpl in Hs. bool_hyps.
    unfold is_cont. by rewrite (proj2 (Z.leb_gt _ _)).
  - destruct Hr as [->|Hr]; [by left|]. right. destruct (string_snoc raw) as [->|(r & a & ->)]; [done|].
    assert (a = LF) as ->.
    { clear -Hr. induction r as [|b r IH]; [simpl in Hr; by destruct (Ascii.eqb_spec a LF)|].
      apply IH. rewrite string_app_cons in Hr. destruct r; exact Hr. }
    exists (chars r). unfold chars. by rewrite chars_aux_app.
Qed.

Lemma lines_of_app l m cur :
  (l = [] ∧ cur = "") ∨ (∃ k, l = (k ++ [String LF ""])%list) → lines_of cur (l ++ m) = (lines_of cur l ++ lines_of "" m)%list.
Proof.
  assert (∀ n l cur, (length l < n)%nat → (l = [] ∧ cur = "") ∨ (∃ k, l = (k ++ [String LF ""])%list) →
    lines_of cur (l ++ m) = (lines_of cur l ++ lines_of "" m)%list) as Hn; [|intros; eapply (Hn (S (length l))); [lia|done]].
  induction n as [|n IH]; intros l' cur' Hlt Hl; [lia|].
  destruct l' as [|c l']; [destruct Hl as [[_ ->]|[[] ?]]; done|]. destruct Hl as [[? _]|[k Hk]]; [done|].
  assert (l' = [] ∧ c = String LF "" ∨ ∃ k', l' = (k' ++ [String LF ""])%list) as Hl'.
  { destruct k as [|c' k]; simplify_eq/=; [by left|right; by exists k]. }
  simpl in Hlt. cbn [app lines_of]. destruct (line_end c) eqn:Ec.
  - assert (lines_of "" (l' ++ m) = (lines_of "" l' ++ lines_of "" m)%list) as E.
    { apply IH; [lia|]. destruct Hl' as [[-> _]|Hl']; [by left|by right]. }
    destruct (decide (c = String CR "")) as [->|Hcr].
    + destruct Hl' as [[_ ?]|[k' Hk']]; [done|]. destruct l' as [|d l']; [by destruct k'|]. cbn [app] in *.
      destruct (decide (d = String LF "")) as [->|Hd].
      * change (cur' :: lines_of "" (l' ++ m) = cur' :: lines_of "" l' ++ lines_of "" m)%list. f_equal.
        apply IH; [simpl in Hlt; lia|]. destruct k' as [|? k'']; simplify_eq/=; [by left|right; by exists k''].
      * destruct d as [|[[] [] [] [] [] [] [] []] [|]]; cbn [app]; (exfalso; by apply Hd) || exact (f_equal (cons cur') E).
    + destruct c as [|[[] [] [] [] [] [] [] []] [|]]; try (by exact (f_equal (cons cur') E)); by destruct Hcr.
  - destruct Hl' as [[_ ->]|Hl']; [done|]. apply IH; [lia|by right].
Qed.

Lemma lines_of_printable text cur :
  printable text = true → lines_of cur (map char1 (String.list_ascii_of_string text) ++ [String LF ""]) = [cur +:+ text].
Proof.
  revert cur. induction text as [|a text IH]; intros cur Ht; [by rewrite string_app_nil_r|].
  rewrite printable_cons in Ht. bool_hyps. simpl.
  assert (line_end (char1 a) = false) as -> by (destruct a as [[] [] [] [] [] [] [] []]; done).
  rewrite IH by done. by rewrite string_app_assoc.
Qed.

Lemma splitlines_snoc raw text :
  complete raw → printable text = true →
  str_splitlines (raw +:+ text +:+ String LF "") = (str_splitlines raw ++ [text])%list.
Proof.
  intros Hr Ht. pose proof (printable_ascii _ Ht) as Ha.
  assert (is_ascii (text +:+ String LF "") = true) as Hs by (by rewrite is_ascii_app, Ha).
  unfold str_splitlines. destruct (chars_complete raw _ Hr Hs) as [-> Hl]. rewrite lines_of_app.
  - f_equal. rewrite chars_ascii by done. rewrite list_ascii_app, map_app. by apply lines_of_printable.
  - destruct Hl as [->|?]; [by left|by right].
Qed.

Lemma confirmation_read now k d :
  float_token now → utf8_valid k = true → utf8_valid d = true →
  let text := dumps_spaced (canon (confirmation now k d)) in
  printable text = true ∧ py_blank text = false ∧ py_strip text = text ∧
  ∃ kvs, loads text = Ok (JObj kvs) ∧ jget_none "effect_key" kvs = JStr k ∧ jget_none "dispatch_id" kvs = JStr d.
Proof.
  intros Hnow Hk Hd text. assert (well_formed (confirmation now k d)) as Hw.
  { split; [|by repeat split]. split; [by apply (bool_decide_unpack _)|]. by repeat split. }
  pose proof (well_formed_canon _ Hw) as Hc.
  assert (printable text = true) as Hp by (apply print_printable; [done..|apply Hc]).
  assert (∃ body, text = "{" +:+ body +:+ "}") as [body Hbody] by (eexists; reflexivity).
  split; [done|]. split; [|split].
  - unfold py_blank. rewrite code_points_ascii by (by apply printable_ascii). by rewrite Hbody.
  - rewrite Hbody in Hp |- *. rewrite !printable_app in Hp. bool_hyps. by apply py_strip_braces.
  - eexists. split; [by apply loads_dumps_spaced|]. done.
Qed.

Lemma load_lines_app conf l m : load_lines conf (l ++ m) = (conf ← load_lines conf l; load_lines conf m).
Proof. revert conf. induction l as [|x l IH]; intros conf; simpl; [done|]. destruct (load_line conf x); [apply IH|done]. Qed.

Lemma blank_empty s : py_blank s = false → negb (bool_decide (s = "")) = true.
Proof. intros Hs. rewrite bool_decide_false; [done|]. by intros ->. Qed.

Lemma record_read now k d h h' conf :
  float_token now → utf8_valid k = true → (∀ x, d = JStr x → utf8_valid x = true) →
  complete (default "" (rh_journal h)) → _load_confirmed_keys h = Ok conf → record_confirmation now k d h = (Ok tt, h') →
  complete (default "" (rh_journal h')) ∧ _load_confirmed_keys h' = Ok (d :: JStr k :: conf) ∧ rh_outbox h' = rh_outbox h.
Proof.
  intros Hnow Hk Hd Hc Hl Hr. unfold record_confirmation in Hr. destruct (py_blank k) eqn:Ek; [done|].
  destruct d as [| | | |d| |]; try done. destruct (py_blank d) eqn:Ed; [done|].
  destruct (confirmation_read now k d) as (Hp & Hb & Hs & kvs & Hload & Hek & Hed); [done..|by apply Hd|].
  set (text := dumps_spaced _) in *. clearbody text. injection Hr as <-. split; [apply complete_append|]. split; [|done].
  assert (∃ raw, default "" (rh_journal h) = raw ∧ utf8_valid raw = true ∧ load_lines [] (str_splitlines raw) = Ok conf)
    as (raw & Hraw & Hvalid & Hlines).
  { unfold _load_confirmed_keys, read_text in Hl. destruct (rh_journal h) as [raw|]; [|by exists ""].
    exists raw. split; [done|]. by destruct (utf8_valid raw). }
  rewrite Hraw in *. unfold _load_confirmed_keys, read_text. cbn [rh_journal].
  assert (utf8_valid (raw +:+ text +:+ String LF "") = true) as ->.
  { apply utf8_app; [done|]. apply ascii_utf8. by rewrite is_ascii_app, printable_ascii. }
  cbn [mbind result_bind]. rewrite splitlines_snoc, load_lines_app, Hlines by done. cbn [mbind result_bind load_lines].
  unfold load_line, loads_dict. rewrite Hb, Hs, Hload. cbn [mbind result_bind]. rewrite Hek, Hed.
  unfold add_key. cbn [py_truthy json_hashable]. by rewrite !blank_empty.
Qed.

(** ** Histories *)

(** Names and keys are texts without lone surrogates. *)
Definition decent (files : option (gmap string string)) : Prop :=
  ∀ fs name raw data, files = Some fs → fs !! name = Some raw → loads raw = Ok (JObj data) →
    utf8_valid (key_of data) = true ∧ ∀ d, dispatch_of name data = JStr d → utf8_valid d = true.

(** Restarts with any callback, cleanups, and whatever else happens to the
    outbox. *)
Inductive restart_step : Restart → Restart → Prop :=
  | step_resume callback now s r s' :
      (∀ n, float_token (now n)) → resume_outbox callback now s = (r, s') → restart_step s s'
  | step_cleanup s r h :
      cleanup_confirmed (rs_home s) = (r, h) → restart_step s (mkRestart h (rs_executed s))
  | step_files s files :
      decent files → restart_step s (mkRestart (mkHome files (rh_journal (rs_home s))) (rs_executed s)).

Definition confirms (h : RestartHome) (k : string) : Prop := ∃ conf, _load_confirmed_keys h = Ok conf ∧ JStr k ∈ conf.

(** A confirmed execution is the last of its effect. *)
Definition never_again (x y : string * bool) : Prop := x.2 = true → y.1 ≠ x.1.

Definition sane (s : Restart) : Prop := complete (default "" (rh_journal (rs_home s))) ∧ decent (rh_outbox (rs_home s)).

(** What one or more steps do to a sane state. *)
Record unreplayed (s s' : Restart) : Prop := {
  ur_sane : sane s';
  ur_keys : ∀ k, confirms (rs_home s) k → confirms (rs_home s') k;
  ur_new : ∃ new, rs_executed s' = (rs_executed s ++ new)%list ∧ StronglySorted never_again new ∧
    ∀ k b, (k, b) ∈ new → ¬ confirms (rs_home s) k ∧ (b = true → confirms (rs_home s') k);
}.

Lemma unreplayed_same s s' :
  sane s' → rh_journal (rs_home s') = rh_journal (rs_home s) → rs_executed s' = rs_executed s → unreplayed s s'.
Proof.
  intros Hs Hj He. assert (∀ k, confirms (rs_home s) k → confirms (rs_home s') k) as Hk.
  { intros k (conf & Hl & Hin). exists conf. split; [|done]. unfold _load_confirmed_keys in *. by rewrite Hj. }
  split; [done|done|]. exists []. rewrite app_nil_r. split_and!; [done|constructor|]. by intros ?? ?%elem_of_nil.
Qed.

Lemma unreplayed_trans s1 s2 s3 : unreplayed s1 s2 → unreplayed s2 s3 → unreplayed s1 s3.
Proof.
  intros [_ K1 (n1 & E1 & S1 & N1)] [Hs K2 (n2 & E2 & S2 & N2)]. split; [done|auto|]. exists (n1 ++ n2)%list.
  split; [by rewrite E2, E1, app_assoc|]. split.
  - clear E1 E2. induction S1 as [|x l S1 IH Hall]; [done|]. cbn [app]. constructor.
    + apply IH. intros k b Hin. apply N1. by right.
    + apply Forall_app. split; [done|]. apply Forall_forall. intros [k b] Hin Hx ?. simpl in *. subst.
      destruct (N2 _ _ Hin) as [Hno _]. apply Hno. destruct x as [k b']. simpl in *. subst. apply (N1 k true); [by left|done].
  - intros k b [Hin|Hin]%elem_of_app.
    + destruct (N1 k b Hin) as [? Hc]. split; [done|]. intros Hb. by apply K2, Hc.
    + destruct (N2 k b Hin) as [Hno Hc]. split; [|done]. intros Hk. by apply Hno, K1.
Qed.

Lemma existsb_key k conf : existsb (py_eq (JStr k)) conf = true ↔ JStr k ∈ conf.
Proof.
  rewrite existsb_exists. split.
  - intros (x & Hin & Hx). apply list_elem_of_In. destruct x; simpl in Hx; try done. by apply bool_decide_eq_true in Hx as ->.
  - intros Hin. exists (JStr k). split; [by apply list_elem_of_In|]. simpl. by apply bool_decide_eq_true.
Qed.

(** An execution, confirmed or not. *)
Lemma unreplayed_execution s k b h :
  ¬ confirms (rs_home s) k → (b = true → confirms h k) → (∀ k, confirms (rs_home s) k → confirms h k) →
  sane (mkRestart h (rs_executed s ++ [(k, b)])) → unreplayed s (mkRestart h (rs_executed s ++ [(k, b)])).
Proof.
  intros Hno Hb Hmono Hs. split; [done|done|]. exists [(k, b)]. split; [done|]. split; [by repeat constructor|].
  intros k' b' [= -> ->]%list_elem_of_singleton. done.
Qed.

Lemma resume_entries_unreplayed callback now entries confirmed seen c k s r s' :
  (∀ n, float_token (now n)) → sane s → _load_confirmed_keys (rs_home s) = Ok confirmed →
  Forall (λ e, utf8_valid (key_of e.2) = true ∧ ∀ d, dispatch_of e.1 e.2 = JStr d → utf8_valid d = true) entries →
  resume_entries callback now entries confirmed seen c k s = (r, s') → unreplayed s s'.
Proof.
  intros Hnow. revert confirmed seen c k s. induction entries as [|[name data] entries IH];
    intros confirmed seen c k s Hs Hl Hvalid Hr; cbn [resume_entries] in Hr.
  { simplify_eq. by apply unreplayed_same. }
  apply Forall_cons in Hvalid as [[Hk Hd] Hvalid]. set (key := key_of data) in *. set (d := dispatch_of name data) in *.
  destruct (if existsb _ confirmed then _ else _) as [isc|e] eqn:Ec; [|simplify_eq; by apply unreplayed_same].
  destruct (isc || _)%bool eqn:Eskip; [by eapply IH|]. bool_hyps. subst isc.
  assert (¬ confirms (rs_home s) key) as Hno.
  { intros (conf & Hl' & Hin). assert (conf = confirmed) as -> by congruence.
    apply existsb_key in Hin. by rewrite Hin in Ec. }
  destruct (callback _ data) as [u|e].
  2: { simplify_eq. by apply unreplayed_execution. }
  destruct (record_confirmation _ key d (rs_home s)) as [[[]|e] h] eqn:Erec.
  2: { simplify_eq. assert (h = rs_home s) as ->; [|by apply unreplayed_execution].
       unfold record_confirmation in Erec. repeat case_match; congruence. }
  destruct (record_read (now (length (rs_executed s))) key d (rs_home s) h confirmed) as (Hc' & Hl' & Ho'); [done|done|done|apply Hs|done..|].
  assert (sane (mkRestart h (rs_executed s ++ [(key, true)]))) as Hs'.
  { split; [done|]. simpl. rewrite Ho'. apply Hs. }
  eapply unreplayed_trans; [|by eapply IH]. apply unreplayed_execution; try done.
  - intros _. eexists. split; [exact Hl'|]. right. by left.
  - intros k' (conf & Hl2 & Hin). assert (conf = confirmed) as -> by congruence.
    eexists. split; [exact Hl'|]. by do 2 right.
Qed.

Lemma parse_entry_data file e :
  parse_entry file = Ok e → e.1 = file.1 ∧ loads file.2 = Ok (JObj e.2) ∧ ∃ k, jget_none "effect_key" e.2 = JStr k ∧ py_blank k = false.
Proof.
  unfold parse_entry, read_text, loads_dict. destruct (utf8_valid file.2); [|done]. cbn [mbind result_bind].
  destruct (loads file.2) as [[| | | | | |data]|]; try done. cbn [mbind result_bind].
  destruct (jget_none "effect_key" data) as [| | | |k| |] eqn:Ek; try done. destruct (py_blank k) eqn:Eb; [done|].
  intros [= <-]. eauto.
Qed.

Lemma mapM_result {A B} (f : A → result B) l k : mapM f l = Ok k ↔ Forall2 (λ x y, f x = Ok y) l k.
Proof.
  revert k. induction l as [|x l IH]; intros k; simpl.
  - split; [by intros [= <-]; constructor|by inversion 1].
  - split.
    + intros (y & Hy & (k' & Hk & [= <-])%bind_Ok)%bind_Ok. constructor; [done|by apply IH].
    + inversion 1 as [|? y ? k' Hy Hk]; subst. rewrite Hy. simpl. apply IH in Hk. by rewrite Hk.
Qed.

Lemma sorted_files_elem files name raw : (name, raw) ∈ sorted_files files ↔ files !! name = Some raw.
Proof. unfold sorted_files. by rewrite merge_sort_Permutation, elem_of_map_to_list. Qed.

Lemma parsed_entries files entries :
  decent (Some files) → parse_entries files = Ok entries →
  Forall (λ e, utf8_valid (key_of e.2) = true ∧ ∀ d, dispatch_of e.1 e.2 = JStr d → utf8_valid d = true) entries.
Proof.
  intros Hdec Hp%mapM_result. apply Forall_forall. intros e He. apply list_elem_of_lookup in He as [i Hi].
  destruct (Forall2_lookup_r _ _ _ _ _ Hp Hi) as ([name raw] & Hf & He). apply parse_entry_data in He as (-> & Hl & _).
  eapply Hdec; [done|by eapply sorted_files_elem, list_elem_of_lookup_2|done].
Qed.

Lemma cleanup_subset entries confirmed files removed r files' :
  cleanup_entries entries confirmed files removed = (r, files') → files' ⊆ files.
Proof.
  revert files removed. induction entries as [|[name data] entries IH]; intros files removed Hc; simpl in Hc.
  - by simplify_eq.
  - destruct (if existsb _ confirmed then _ else _) as [[]|]; [|by apply IH in Hc|by simplify_eq].
    apply IH in Hc. etrans; [exact Hc|]. apply delete_subseteq.
Qed.

Lemma decent_subset files files' : files' ⊆ files → decent (Some files) → decent (Some files').
Proof. intros Hsub Hd fs name raw data [= <-] Hl. eapply Hd; [done|]. by eapply lookup_weaken. Qed.

Lemma step_unreplayed s s' : sane s → restart_step s s' → unreplayed s s'.
Proof.
  intros Hs. destruct 1 as [callback now s r s' Hnow Hr|s r h Hc|s files Hd].
  - unfold resume_outbox in Hr. destruct (rh_outbox (rs_home s)) as [files|] eqn:Ef; [|simplify_eq; by apply unreplayed_same].
    destruct (parse_entries files) as [entries|e] eqn:Ep; [|simplify_eq/=; by apply unreplayed_same].
    destruct (_load_confirmed_keys (rs_home s)) as [confirmed|e] eqn:El; [|simplify_eq/=; by apply unreplayed_same].
    simpl in Hr. eapply resume_entries_unreplayed; [done..| |exact Hr]. eapply parsed_entries; [|done].
    rewrite <- Ef. apply Hs.
  - unfold cleanup_confirmed in Hc. destruct (rh_outbox (rs_home s)) as [files|] eqn:Ef.
    2: { simplify_eq. apply unreplayed_same; [|done..]. split; [apply Hs|]. apply Hs. }
    assert (∀ files', files' ⊆ files → sane (mkRestart (mkHome (Some files') (rh_journal (rs_home s))) (rs_executed s))) as Hsub.
    { intros files' Hsub. split; [apply Hs|]. eapply decent_subset; [done|]. rewrite <- Ef. apply Hs. }
    destruct (parse_entries files) as [entries|e]; [|simplify_eq/=; apply unreplayed_same; [|done..]; apply Hs].
    destruct (_load_confirmed_keys (rs_home s)) as [confirmed|e]; [|simplify_eq/=; apply unreplayed_same; [|done..]; apply Hs].
    simpl in Hc. destruct (cleanup_entries _ _ _ _) as [r' files'] eqn:Ec. apply cleanup_subset in Ec. simplify_eq.
    apply unreplayed_same; [by apply Hsub|done..].
  - apply unreplayed_same; [|done..]. split; [apply Hs|done].
Qed.

(** C17: effects are not replayed: through any restarts, with any callback
    that may fail at any point, any cleanups and any changes to the outbox,
    an effect the journal confirms is never executed, and an execution that
    was confirmed is the last one of its effect. *)
Theorem effects_are_not_replayed s s' :
  complete (default "" (rh_journal (rs_home s))) → decent (rh_outbox (rs_home s)) → rtc restart_step s s' →
  ∃ new, rs_executed s' = (rs_executed s ++ new)%list ∧ StronglySorted never_again new ∧
    ∀ k b, (k, b) ∈ new → ¬ confirms (rs_home s) k ∧ (b = true → confirms (rs_home s') k).
Proof.
  intros Hc Hd Hr. assert (unreplayed s s') as [_ _ ?]; [|done]. assert (sane s) as Hs by done. clear Hc Hd.
  induction Hr as [s|s s1 s2 Hstep _ IH]; [by apply unreplayed_same|].
  pose proof (step_unreplayed _ _ Hs Hstep) as H1. eapply unreplayed_trans; [exact H1|]. apply IH, H1.
Qed.

(** ** What a restart achieves *)

(** The identifier an execution is confirmed with, when it is one. *)
Definition id_of (e : string * entry) : json := dispatch_of e.1 e.2.
Definition usable (e : string * entry) : Prop :=
  match jget "dispatch_id" e.2 with
  | None => py_blank (stem e.1) = false
  | Some (JStr d) => py_blank d = false
  | Some _ => False
  end.

Lemma usable_id e : usable e → ∃ d, id_of e = JStr d ∧ py_blank d = false ∧ cleanup_id e.1 e.2 = JStr d.
Proof.
  unfold usable, id_of, dispatch_of, cleanup_id, jget_none. destruct (jget "dispatch_id" e.2) as [[| | | |d| |]|] eqn:E; try done.
  - intros Hd. exists d. simpl. by rewrite blank_empty.
  - intros Hd. by exists (stem e.1).
Qed.

Definition settled (confirmed : list json) (e : string * entry) : Prop :=
  JStr (key_of e.2) ∈ confirmed ∨ id_of e ∈ confirmed.

Lemma settled_test confirmed e :
  usable e → settled confirmed e →
  (if existsb (py_eq (JStr (key_of e.2))) confirmed then Ok true else in_keys (id_of e) confirmed) = Ok true.
Proof.
  intros (d & Hd & _)%usable_id [Hk|Hi].
  - by rewrite (proj2 (existsb_key _ _) Hk).
  - destruct (existsb _ confirmed); [done|]. rewrite Hd in Hi |- *. unfold in_keys. cbn [json_hashable].
    by rewrite (proj2 (existsb_key _ _) Hi).
Qed.

Lemma resume_all callback now entries confirmed seen c k s :
  (∀ n, float_token (now n)) → (∀ n data, callback n data = Ok tt) →
  sane s → _load_confirmed_keys (rs_home s) = Ok confirmed →
  Forall (λ e, utf8_valid (key_of e.2) = true ∧ ∀ d, dispatch_of e.1 e.2 = JStr d → utf8_valid d = true) entries →
  Forall usable entries → Forall (λ e, py_blank (key_of e.2) = false) entries → (∀ x, x ∈ seen → JStr x ∈ confirmed) →
  ∃ did skipped s' confirmed',
    resume_entries callback now entries confirmed seen c k s = (Ok ((c ++ did)%list, (k ++ skipped)%list), s') ∧
    did ++ skipped ≡ₚ map id_of entries ∧ sane s' ∧ rh_outbox (rs_home s') = rh_outbox (rs_home s) ∧
    _load_confirmed_keys (rs_home s') = Ok confirmed' ∧ confirmed ⊆ confirmed' ∧ Forall (settled confirmed') entries.
Proof.
  intros Hnow Hcb. revert confirmed seen c k s.
  induction entries as [|[name data] entries IH]; intros confirmed seen c k s Hs Hl Hvalid Husable Hblank Hseen.
  { exists [], [], s, confirmed. rewrite !app_nil_r. by split_and!. }
  apply Forall_cons in Hvalid as [[Hk Hd] Hvalid]. apply Forall_cons in Husable as [Hu Husable].
  apply Forall_cons in Hblank as [Hkb Hblank]. destruct (usable_id _ Hu) as (d & Ed & Hdb & _).
  cbn [resume_entries map]. unfold id_of in Ed at 1. cbn [fst snd] in *. rewrite Ed. set (key := key_of data) in *.
  assert (∃ isc, (if existsb (py_eq (JStr key)) confirmed then Ok true else in_keys (JStr d) confirmed) = Ok isc) as [isc Eisc].
  { destruct (existsb _ _); [by eexists|]. unfold in_keys. by eexists. }
  rewrite Eisc. destruct (isc || bool_decide (key ∈ seen))%bool eqn:Eskip.
  - destruct (IH confirmed seen c (k ++ [JStr d])%list s) as (did & sk & s' & conf' & -> & Hperm & Hs' & Ho & Hl' & Hsub & Hall); try done.
    exists did, (JStr d :: sk), s', conf'. rewrite <- app_assoc. split; [done|].
    split; [unfold id_of at 1; cbn [fst snd]; by rewrite Ed, <- Hperm, Permutation_middle|]. split_and!; try done.
    constructor; [|done]. apply orb_true_iff in Eskip as [->|Hin].
    + destruct (existsb _ confirmed) eqn:Ex; [left; by apply Hsub, existsb_key|].
      right. unfold in_keys in Eisc. cbn [json_hashable] in Eisc. injection Eisc as Ein. unfold id_of. cbn [fst snd].
      rewrite Ed. by apply Hsub, existsb_key.
    + left. apply bool_decide_eq_true in Hin. by apply Hsub, Hseen.
  - rewrite Hcb. unfold record_confirmation. rewrite Hkb, Hdb.
    set (h := mkHome _ _). set (n := length _) in h.
    assert (record_confirmation (now n) key (JStr d) (rs_home s) = (Ok tt, h)) as Hrec.
    { unfold record_confirmation. by rewrite Hkb, Hdb. }
    destruct (record_read _ _ _ _ _ _ (Hnow n) Hk (λ x E, Hd x ltac:(by rewrite Ed)) (proj1 Hs) Hl Hrec) as (Hc' & Hl' & Ho').
    destruct (IH (JStr d :: JStr key :: confirmed) (key :: seen) (c ++ [JStr d])%list k (mkRestart h (rs_executed s ++ [(key, true)])))
      as (did & sk & s' & conf' & -> & Hperm & Hs' & Ho & Hl2 & Hsub & Hall); try done.
    { split; [done|]. simpl. apply Hs. }
    { intros x [->|Hx]%elem_of_cons; [right; by left|]. do 2 right. by apply Hseen. }
    exists (JStr d :: did), sk, s', conf'. rewrite <- app_assoc. split; [done|].
    split; [unfold id_of at 1; cbn [fst snd]; by rewrite Ed, <- Hperm|]. split_and!; try done; [set_solver|].
    constructor; [|done]. left. apply Hsub. right. by left.
Qed.

Lemma resume_none callback now entries confirmed seen c k s :
  Forall usable entries → Forall (settled confirmed) entries →
  resume_entries callback now entries confirmed seen c k s = (Ok (c, (k ++ map id_of entries)%list), s).
Proof.
  intros Hu Hset. revert k. induction entries as [|[name data] entries IH]; intros k; [by rewrite app_nil_r|].
  apply Forall_cons in Hu as [Hu1 Hu]. apply Forall_cons in Hset as [Hs1 Hset].
  cbn [resume_entries map]. pose proof (settled_test _ _ Hu1 Hs1) as Ht. unfold id_of in Ht. cbn [fst snd] in Ht. rewrite Ht.
  cbn [orb]. rewrite IH by done. by rewrite <- app_assoc.
Qed.

Lemma cleanup_all entries confirmed files removed :
  Forall usable entries → Forall (settled confirmed) entries →
  cleanup_entries entries confirmed files removed = (Ok (removed ++ map id_of entries)%list, foldr delete files (rev (map fst entries))).
Proof.
  intros Hu Hset. revert files removed. induction entries as [|[name data] entries IH]; intros files removed.
  { by rewrite app_nil_r. }
  apply Forall_cons in Hu as [Hu1 Hu]. apply Forall_cons in Hset as [Hs1 Hset].
  cbn [cleanup_entries map rev]. pose proof (settled_test _ _ Hu1 Hs1) as Ht.
  destruct (usable_id _ Hu1) as (d & Ed & _ & Ec). rewrite Ed in Ht |- *. cbn [fst snd] in *. rewrite Ec, Ht.
  rewrite IH by done. rewrite <- app_assoc, foldr_app. done.
Qed.

Lemma delete_all {A} (m : gmap string A) l : (∀ k, is_Some (m !! k) → k ∈ l) → foldr delete m l = ∅.
Proof.
  intros Hl. apply map_empty. intros k. assert (k ∈ l ∨ m !! k = None) as Hk.
  { destruct (m !! k) eqn:E; [left; by apply Hl|by right]. }
  clear Hl. induction l as [|x l IH]; simpl; [destruct Hk as [?%elem_of_nil|]; done|].
  destruct (decide (x = k)) as [->|Hne]; [apply lookup_delete_eq|]. rewrite lookup_delete_ne by done.
  apply IH. destruct Hk as [[?|?]%elem_of_cons|]; [congruence|by left|by right].
Qed.

Lemma parsed_names files entries :
  parse_entries files = Ok entries →
  (∀ k, is_Some (files !! k) → k ∈ rev (map fst entries)) ∧ Forall (λ e, py_blank (key_of e.2) = false) entries.
Proof.
  intros Hp%mapM_result. split.
  - intros k [raw Hk]. apply sorted_files_elem, list_elem_of_lookup in Hk as [i Hi].
    destruct (Forall2_lookup_l _ _ _ _ _ Hp Hi) as (e & He & [Hfst _]%parse_entry_data).
    apply list_elem_of_In. rewrite <- in_rev. apply list_elem_of_In, list_elem_of_fmap. exists e.
    split; [done|by eapply list_elem_of_lookup_2].
  - apply Forall_forall. intros e [i Hi]%list_elem_of_lookup.
    destruct (Forall2_lookup_r _ _ _ _ _ Hp Hi) as (f & _ & (_ & _ & k & Hk & Hb)%parse_entry_data).
    unfold key_of. by rewrite Hk.
Qed.

(** C29: a restart settles the outbox: when every entry is readable and has a
    usable identifier and the callback succeeds, [resume_outbox] returns,
    telling of every entry once that it was continued or skipped; another
    restart then executes nothing, whatever its callback, and a cleanup
    removes every entry. *)
Theorem restarts_settle_the_outbox callback now s files entries confirmed :
  (∀ n, float_token (now n)) → (∀ n data, callback n data = Ok tt) →
  complete (default "" (rh_journal (rs_home s))) → rh_outbox (rs_home s) = Some files → decent (Some files) →
  parse_entries files = Ok entries → _load_confirmed_keys (rs_home s) = Ok confirmed → Forall usable entries →
  ∃ continued skipped s', resume_outbox callback now s = (Ok (continued, skipped), s') ∧
    continued ++ skipped ≡ₚ map id_of entries ∧
    (∀ callback' now', resume_outbox callback' now' s' = (Ok ([], map id_of entries), s')) ∧
    cleanup_confirmed (rs_home s') = (Ok (map id_of entries), mkHome (Some ∅) (rh_journal (rs_home s'))).
Proof.
  intros Hnow Hcb Hc Hf Hdec Hp Hl Hu. destruct (parsed_names _ _ Hp) as [Hnames Hblank].
  assert (sane s) as Hs by (split; [done|by rewrite Hf]).
  destruct (resume_all callback now entries confirmed [] [] [] s Hnow Hcb Hs Hl (parsed_entries _ _ Hdec Hp) Hu Hblank)
    as (did & sk & s' & conf' & Hr & Hperm & _ & Ho & Hl' & _ & Hset); [by intros ? ?%elem_of_nil|].
  exists did, sk, s'. rewrite Hf in Ho. split; [|split; [done|split]].
  - unfold resume_outbox. rewrite Hf, Hp, Hl. exact Hr.
  - intros cb' now'. unfold resume_outbox. rewrite Ho, Hp, Hl'. simpl. by rewrite resume_none.
  - unfold cleanup_confirmed. rewrite Ho, Hp, Hl'. simpl. rewrite cleanup_all by done. by rewrite delete_all.
Qed.

(** What cannot be read stops a restart and a cleanup before anything is
    executed or removed. *)
Lemma corruption_stops callback now s files e :
  rh_outbox (rs_home s) = Some files → (parse_entries files = Err e ∨ ∃ es, parse_entries files = Ok es ∧ _load_confirmed_keys (rs_home s) = Err e) →
  resume_outbox callback now s = (Err e, s) ∧ cleanup_confirmed (rs_home s) = (Err e, rs_home s).
Proof.
  intros Hf Hbad. unfold resume_outbox, cleanup_confirmed. rewrite Hf.
  destruct Hbad as [->|(es & -> & ->)]; done.
Qed.

End restart.
