(* ===== verification/Fixtures.v ===== *)
(** * Concrete inputs

    A platform, a world, and the events of one task's life, on which the
    witnesses of the theorems are evaluated. *)

From Stdlib Require Import Ascii.
From S2P Require Import Prelude PyText Json Sha256 Events StateMachine Lifecycle History Projection Replay Journal Ledger Verification Controller.

(** A platform without floats: what the fixtures use has none. *)
#[export] Instance demo_platform : PyPlatform :=
  {| float_norm := λ _, Some "0.0"; float_val := λ _, 0%Q; isprintable := λ _, true |}.

Definition demo_verifier : Verifier :=
  mkVerifier (JObj [("kind", JStr "adapter")])
    (λ _ _, Returned_ (RVerdict (JBool true) (JStr "ok") (JBool false))).

Definition letter (n : nat) : string := String (ascii_of_nat (97 + n mod 26)) "".

(** Identifiers numbered by the call, a clock that advances one
    second per call, a lock that is always free. *)
#[export] Instance demo_world : World :=
  {| w_uuid := λ n, "id" +:+ letter (n / 26) +:+ letter n;
     w_utc_now := λ _, "2026-01-01T00:00:00.000000Z";
     w_clock := λ n, inject_Z (Z.of_nat n);
     w_lock := λ _, true;
     w_pid := 7;
     w_build := JObj [("version", JStr "1")];
     w_quick_check := λ _, "ok";
     w_verifier := λ a, if decide (a = "listclean") then Returned_ (Some demo_verifier)
                        else Returned_ None |}.

Definition no_event : Event :=
  mkEvent TASK_CREATED None None None None None [] "" "" None 0 None None None.
Definition the_event (r : result Event) : Event := match r with Ok e => e | Err _ => no_event end.

(** The n-th event of task [t1]. *)
Definition demo_event (t : EventType) (attempt : option Z) (dispatch_id worker_id result_id : option string)
    (payload : list (string * json)) (n : string) : result Event :=
  new_event t (Some "t1") attempt dispatch_id worker_id result_id payload ("evt-" +:+ n)
    "2026-01-01T00:00:00.000000Z" None.

Lemma demo_valid t a d w r p n :
  json_wf (JObj p) → is_ok (demo_event t a d w r p n) = true →
  Valid (the_event (demo_event t a d w r p n)).
Proof.
  intros Hw Ho. destruct (demo_event t a d w r p n) as [e|] eqn:E; [|done].
  unfold demo_event, new_event in E. by apply post_init_valid in E as [? _].
Qed.

Ltac demo_valid :=
  apply demo_valid;
  [apply json_ok_obj; split; [apply (bool_decide_unpack _); vm_compute; exact I|];
   repeat (apply Forall_cons; split); try apply Forall_nil; simpl; try done; repeat constructor
  |vm_compute; reflexivity].

Definition e_created := the_event (demo_event TASK_CREATED None None None None
  [("adapter", JStr "listclean"); ("params", JObj []); ("effect_class", JStr "non_idempotent");
   ("max_attempts", JInt 1); ("lease_ttl_s", JInt 30)] "1").
Definition e_claim1 := the_event (demo_event TASK_CLAIMED (Some 1) (Some "d1") (Some "w1") None
  [("ttl_s", JInt 30)] "2").
Definition e_start1 := the_event (demo_event TASK_STARTED (Some 1) (Some "d1") (Some "w1") None [] "3").
Definition e_expired := the_event (demo_event LEASE_EXPIRED (Some 1) (Some "d1") (Some "w1") None
  [("reason", JStr "ttl")] "4").
Definition e_blocked := the_event (demo_event TASK_BLOCKED None None None None
  [("reason", JStr "outcome unknown")] "5").
Definition e_authorized := the_event (demo_event RETRY_AUTHORIZED (Some 1) None None None
  [("actor", JStr "ann"); ("reason", JStr "checked")] "6").
Definition e_claim2 := the_event (demo_event TASK_CLAIMED (Some 2) (Some "d2") (Some "w1") None
  [("ttl_s", JInt 30)] "7").
Definition e_start2 := the_event (demo_event TASK_STARTED (Some 2) (Some "d2") (Some "w1") None [] "8").
Definition e_ready2 := the_event (demo_event RESULT_READY (Some 2) (Some "d2") (Some "w1") (Some "r2")
  [("outcome", JStr "success"); ("artifacts", JArr [])] "9").
Definition e_accepted2 := the_event (demo_event RESULT_ACCEPTED (Some 2) (Some "d2") None (Some "r2")
  [("reason", JStr "ok")] "10").
Definition e_complete2 := the_event (demo_event TASK_COMPLETE (Some 2) (Some "d2") None (Some "r2") [] "11").
Definition e_late := the_event (demo_event LATE_RESULT_DISCARDED None (Some "d1") None (Some "r1")
  [("reason", JStr "late")] "12").

Lemma v_created : Valid e_created. Proof. demo_valid. Qed.
Lemma v_claim1 : Valid e_claim1. Proof. demo_valid. Qed.
Lemma v_start1 : Valid e_start1. Proof. demo_valid. Qed.
Lemma v_expired : Valid e_expired. Proof. demo_valid. Qed.
Lemma v_blocked : Valid e_blocked. Proof. demo_valid. Qed.
Lemma v_authorized : Valid e_authorized. Proof. demo_valid. Qed.
Lemma v_claim2 : Valid e_claim2. Proof. demo_valid. Qed.
Lemma v_start2 : Valid e_start2. Proof. demo_valid. Qed.
Lemma v_ready2 : Valid e_ready2. Proof. demo_valid. Qed.
Lemma v_accepted2 : Valid e_accepted2. Proof. demo_valid. Qed.
Lemma v_complete2 : Valid e_complete2. Proof. demo_valid. Qed.
Lemma v_late : Valid e_late. Proof. demo_valid. Qed.

#[export] Hint Resolve v_created v_claim1 v_start1 v_expired v_blocked v_authorized v_claim2 v_start2
  v_ready2 v_accepted2 v_complete2 v_late : courier.

(** The history of a task whose first attempt is lost and whose second,
    authorised by a human, completes. *)
Definition h_started : list Event := [e_created; e_claim1; e_start1].
Definition h_blocked : list Event := h_started ++ [e_expired; e_blocked].
Definition h_done : list Event :=
  h_blocked ++ [e_authorized; e_claim2; e_start2; e_ready2; e_accepted2; e_complete2].

Ltac all_valid := repeat (apply Forall_cons; split); try apply Forall_nil; auto with courier.
Lemma v_h_started : Forall Valid h_started. Proof. all_valid. Qed.
Lemma v_h_blocked : Forall Valid h_blocked. Proof. all_valid. Qed.
Lemma v_h_done : Forall Valid h_done. Proof. all_valid. Qed.
#[export] Hint Resolve v_h_started v_h_blocked v_h_done : courier.

(** The state a history leads to. *)
Definition state_after (es : list Event) : TaskState :=
  match run None es with
  | Ok (Some s) => s
  | _ => mkTask "" QUEUED "" JNull "" 0 0 None 0 None None false None None false None JNull None 0
           None None None JNull None None
  end.

(** The same history with sequence numbers. *)
Fixpoint numbered (n : Z) (es : list Event) : list Event :=
  match es with
  | [] => []
  | e :: es => set_seal e (Some (n + 1)) None None :: numbered (n + 1) es
  end.

Lemma numbered_valid n es : Forall Valid es → Forall Valid (numbered n es).
Proof.
  intros Hv. revert n. induction Hv as [|e es Hv _ IH]; intros n; constructor; [by apply valid_set_seal|done].
Qed.

Lemma numbered_contiguous n es : contiguous n (numbered n es).
Proof. revert n. induction es as [|e es IH]; intros n; [done|]. by split. Qed.

(** A fresh journal, and the one after the first append. *)
Definition db0 : Db := (open_db empty_db).2.
Definition j0 : Journal := mkJournal false true db0.
Definition j1 : Journal := (append j0 e_created).2.

Lemma sound_db0 : Sound db0 [] ∅.
Proof.
  destruct (open_db_sound empty_db [] ∅) as (db & Ho & Hs & _); [|by left|done|].
  - split; try done; try constructor.
  - unfold db0. by rewrite Ho.
Qed.

Definition r1 : AppendResult :=
  match (append j0 e_created).1 with Ok r => r | Err _ => mkAppend no_event false None end.

Lemma append_first : append j0 e_created = (Ok r1, j1).
Proof. vm_compute. reflexivity. Qed.

Lemma sound_first db e r j :
  Sound db [] ∅ → Valid e → ev_seq e = None → ev_hash e = None →
  append (mkJournal false true db) e = (Ok r, j) → ∃ m, Sound (j_db j) [ar_event r] m.
Proof.
  intros Hs Hv Hq Hh. rewrite append_unfold by done. simpl.
  rewrite (append_body_new _ [] ∅) by (done || apply Hs).
  destruct (append_new db e) as [[r' db']|x] eqn:E; [|done].
  apply (append_new_Ok _ [] ∅) in E as (s & m & h & Er & _ & _ & Hs' & _); [|done..].
  intros [= <- <-]. exists m. rewrite Er. exact Hs'.
Qed.

Lemma sound_j1 : ∃ m, Sound (j_db j1) [ar_event r1] m.
Proof.
  refine (sound_first db0 e_created r1 j1 sound_db0 v_created _ _ append_first); vm_compute; reflexivity.
Qed.

(** The same creation with another budget. *)
Definition e_created' := the_event (demo_event TASK_CREATED None None None None
  [("adapter", JStr "listclean"); ("params", JObj []); ("effect_class", JStr "non_idempotent");
   ("max_attempts", JInt 2); ("lease_ttl_s", JInt 30)] "13").
Lemma v_created' : Valid e_created'. Proof. demo_valid. Qed.

(** A failure the worker says may be retried. *)
Definition e_failed := the_event (demo_event RESULT_READY (Some 2) (Some "d2") (Some "w1") (Some "r3")
  [("outcome", JStr "failure"); ("artifacts", JArr []); ("retryable", JBool true);
   ("reason", JStr "disk full")] "14").

(** A running controller over the fresh journal, with memory as given. *)
Definition controller (leases : list Lease) (queue : list string) : Ctl :=
  mkCtl NORMAL None None (Some db0) (Some false) leases queue 0 false None true 0.

(** A world whose lock is never free. *)
Definition busy_world : World :=
  {| w_uuid := λ _, "id"; w_utc_now := λ _, "2026-01-01T00:00:00.000000Z"; w_clock := λ _, 0%Q;
     w_lock := λ _, false; w_pid := 7; w_build := JObj []; w_quick_check := λ _, "ok";
     w_verifier := λ _, Returned_ None |}.

Lemma recorded_rows db db' es m : Recorded db es m → db_events db' = db_events db → Recorded db' es m.
Proof. intros [] E. split; try done. by rewrite E. Qed.
