(* ===== verification/Witnesses.v ===== *)
(** * Witnesses

    Each theorem that has hypotheses, applied at a concrete input where they
    hold. *)

From Stdlib Require Import Ascii.
From S2P Require Import Prelude PyText Json Sha256 Events StateMachine Lifecycle History Projection Replay Journal Ledger Verification Controller Service Duties Fixtures.

(** ** Life cycle *)

Definition s_created : TaskState := state_after [e_created].
Definition s_started : TaskState := state_after h_started.
Definition s_lost : TaskState := state_after (h_started ++ [e_expired]).
Definition s_blocked : TaskState := state_after h_blocked.
Definition s_authorized : TaskState := state_after (h_blocked ++ [e_authorized]).
Definition s_done : TaskState := state_after h_done.

Lemma apply_implements_step_witness :
  apply (Some s_created) e_claim1 = Ok (Some (state_after [e_created; e_claim1])) ↔
  ev_task_id e_claim1 = Some (ts_task_id s_created) ∧
  ∃ s0, step s_created e_claim1 s0
        ∧ Some (state_after [e_created; e_claim1]) = Some (with_updated_seq s0 (ev_seq e_claim1)).
Proof. apply apply_implements_step; [exact v_claim1|vm_compute; reflexivity]. Defined.

Lemma apply_raises_only_transition_error_witness :
  exn_cls (Exn TransitionError "only a claimed attempt can start") = TransitionError.
Proof.
  apply (apply_raises_only_transition_error (Some s_created) e_start1);
    [exact v_start1|vm_compute; reflexivity].
Defined.

Lemma run_invariant_witness : TaskInv s_done.
Proof. apply (run_invariant h_done); [exact v_h_done|vm_compute; reflexivity]. Defined.

Lemma exactly_once_completion_witness :
  count RESULT_ACCEPTED h_done ≤ 1
  ∧ count TASK_COMPLETE h_done + count EFFECT_CONFIRMED h_done ≤ 1
  ∧ (count TASK_COMPLETE h_done + count EFFECT_CONFIRMED h_done = 1 ↔ ts_status s_done = COMPLETE)
  ∧ (count RESULT_ACCEPTED h_done = 1 ↔ is_Some (ts_accepted_result_id s_done)).
Proof. apply exactly_once_completion; [exact v_h_done|vm_compute; reflexivity]. Defined.

Lemma attempts_in_order_and_bounded_witness :
  map ev_attempt (claims h_done)
  = map (λ n, Some (Z.of_nat n)) (seq 1 (length (claims h_done)))
  ∧ count TASK_CLAIMED h_done = ts_attempt s_done
  ∧ count TASK_CLAIMED h_done ≤ created_budget h_done + count RETRY_AUTHORIZED h_done
  ∧ count TASK_CLAIMED h_done ≤ MAX_ATTEMPTS_LIMIT.
Proof. apply attempts_in_order_and_bounded; [exact v_h_done|vm_compute; reflexivity]. Defined.

Lemma dispatch_fencing_witness :
  ∃ c, last (claims [e_created; e_claim1]) = Some c ∧ ev_attempt e_start1 = ev_attempt c
       ∧ ev_dispatch_id e_start1 = ev_dispatch_id c
       ∧ (ev_worker_id e_start1 = ev_worker_id c ∨ ev_type e_start1 = TASK_PROGRESS ∧ ev_worker_id e_start1 = None).
Proof.
  apply (dispatch_fencing _ (state_after [e_created; e_claim1]) _ (Some s_started));
    [all_valid|exact v_start1|vm_compute; reflexivity..].
Defined.

Lemma no_blind_replay_witness :
  Exists (λ e, ev_type e = RETRY_AUTHORIZED) [e_blocked; e_authorized].
Proof.
  apply (no_blind_replay s_started e_expired s_lost [e_blocked; e_authorized] s_authorized e_claim2
           (Some (state_after (h_blocked ++ [e_authorized; e_claim2]))));
    [exact v_expired|all_valid|exact v_claim2|vm_compute; reflexivity..].
Defined.

Lemma terminal_absorbing_witness :
  let s := state_after (h_done ++ [e_late]) in
  ts_status s = ts_status s_done ∧ ts_resolution s = ts_resolution s_done
  ∧ ts_accepted_result_id s = ts_accepted_result_id s_done ∧ ts_attempt s = ts_attempt s_done
  ∧ Forall (λ e, ev_type e = LATE_RESULT_DISCARDED ∨ SYSTEM_EVENTS (ev_type e) = true) [e_late].
Proof. cbv zeta. apply terminal_absorbing; [all_valid|vm_compute; reflexivity..]. Defined.

Lemma blocked_needs_human_witness : Exists human_decision [e_authorized].
Proof.
  apply (blocked_needs_human _ s_blocked s_authorized);
    [all_valid|vm_compute; reflexivity..|vm_compute; discriminate].
Defined.

Lemma decision_is_legal_witness :
  (ev_type e_blocked = decision_event (decision_of s_lost) →
   (decision_of s_lost = D_RETRY → ev_attempt e_blocked = Some (ts_attempt s_lost)) →
   ∃ s', apply (Some s_lost) e_blocked = Ok (Some s')
         ∧ ts_status s' = decision_status (decision_of s_lost))
  ∧ (∀ s', ev_type e_blocked = TASK_RETRY_SCHEDULED → apply (Some s_lost) e_blocked = Ok s' →
           decision_of s_lost = D_RETRY).
Proof. apply decision_is_legal; [exact v_blocked|vm_compute; reflexivity..]. Defined.

(** ** Replay *)

Definition n_done : list Event := numbered 0 h_done.
Lemma v_n_done : Forall Valid n_done.
Proof. apply numbered_valid, v_h_done. Qed.

Lemma rebuild_refines_fold_witness :
  match rebuild (map Ok n_done) with
  | Ok p => ∃ m, fold n_done = Ok m ∧ p_tasks p = (_to_row ∘ norm) <$> m
                 ∧ p_last_seq p = Z.of_nat (length n_done)
  | Err x => fold n_done = Err x
  end.
Proof.
  apply rebuild_refines_fold; [exact v_n_done|apply numbered_contiguous| |vm_compute; discriminate].
  apply (bool_decide_unpack _). vm_compute. exact I.
Defined.

Lemma fold_is_per_task_run_witness :
  (∀ m, fold n_done = Ok m → ∀ k, run None (events_of k n_done) = Ok (m !! k))
  ∧ ((∀ k, ∃ st, run None (events_of k n_done) = Ok st) → ∃ m, fold n_done = Ok m).
Proof. apply fold_is_per_task_run. exact v_n_done. Defined.

Definition stored_p : Projection :=
  match store (create_schema None) (Some s_done) 11 with Ok p => p | Err _ => create_schema None end.

Lemma stored_task_reads_back_witness :
  load_task stored_p (Some (ts_task_id s_done)) = Ok (Some (norm s_done)) ∧ p_last_seq stored_p = 11
  ∧ ∀ k, k ≠ ts_task_id s_done → load_task stored_p (Some k) = load_task (create_schema None) (Some k).
Proof.
  apply (stored_task_reads_back h_done); [exact v_h_done|vm_compute; reflexivity..].
Defined.

Definition empty_hash : string :=
  match projection_hash (create_schema None) with Ok h => h | Err _ => "" end.

Lemma projection_hash_identifies_table_witness :
  p_tasks (create_schema None) = p_tasks (create_schema None) ∨ sha256_collision.
Proof.
  apply (projection_hash_identifies_table (create_schema None) ∅ (create_schema None) ∅ empty_hash);
    [apply agrees_empty..|vm_compute; reflexivity|vm_compute; reflexivity].
Defined.

(** ** Journal *)

Lemma append_is_atomic_witness :
  match append j0 e_created with
  | (Err _, j') => j' = j0
  | (Ok r, j') =>
      let n := Z.of_nat (length (@nil Event)) + 1 in
      if ar_duplicate r then
        j_db j' = j_db j0 ∧ ar_event r ∈ [] ∧ content (ar_event r) = content e_created
        ∧ ev_dedupe_key (ar_event r) = ev_dedupe_key e_created ∧ is_Some (ev_dedupe_key e_created)
      else
        (∃ h, ar_event r = set_seal e_created (Some n) (Some (last_hash GENESIS_HASH [])) (Some h))
        ∧ ∃ m', fold_from ∅ [ar_event r] = Ok m' ∧ Sound (j_db j') ([] ++ [ar_event r]) m'
                ∧ (SYSTEM_EVENTS (ev_type e_created) = false →
                   norm <$> ar_state r = norm <$> m' !! fmt (ev_task_id e_created))
  end.
Proof.
  apply (append_is_atomic j0 e_created [] ∅);
    [reflexivity|reflexivity|exact sound_db0|exact v_created|vm_compute; reflexivity..].
Defined.

Lemma append_is_idempotent_witness :
  ∃ st, append j1 e_created = (Ok (mkAppend (ar_event r1) true st), j1).
Proof.
  apply (append_is_idempotent j0 e_created [] ∅ "created:t1");
    [reflexivity|reflexivity|exact sound_db0|exact v_created|vm_compute; reflexivity..].
Defined.

Lemma append_refusals_witness :
  ∃ y, y ∈ [ar_event r1] ∧ ev_dedupe_key y = ev_dedupe_key e_created' ∧ content y ≠ content e_created'.
Proof.
  destruct sound_j1 as [m Hs].
  exact (append_refusals j1 e_created' _ m
    (Exn DedupeConflict "dedupe_key already used with different content")
    ltac:(vm_compute; reflexivity) ltac:(vm_compute; reflexivity) Hs v_created'
    ltac:(vm_compute; reflexivity) ltac:(vm_compute; reflexivity) ltac:(vm_compute; reflexivity)).
Defined.

Lemma task_is_the_run_of_its_events_witness :
  events (j_db j1) 0 (Some "t1") = map Ok (events_of "t1" [ar_event r1])
  ∧ ∃ st, run None (events_of "t1" [ar_event r1]) = Ok st ∧ task (j_db j1) "t1" = Ok (norm <$> st).
Proof.
  destruct sound_j1 as [m Hs]. exact (task_is_the_run_of_its_events _ _ m "t1" Hs).
Defined.

Lemma sound_chain_verifies_witness :
  verify_chain (j_db j1) = Ok (mkReport true 1 1 (last_hash GENESIS_HASH [ar_event r1]) None None).
Proof. destruct sound_j1 as [m Hs]. exact (sound_chain_verifies _ _ m Hs). Defined.

Definition db1_erased : Db := with_events (j_db j1) (map erase_default_key (db_events (j_db j1))).
Definition report (db : Db) : ChainReport :=
  match verify_chain db with Ok r => r | Err _ => mkReport false 0 0 "" None None end.

Lemma chain_is_tamper_evident_witness :
  Forall2 same_row (db_events (j_db j1)) (db_events db1_erased) ∨ sha256_collision.
Proof.
  apply (chain_is_tamper_evident _ _ (report (j_db j1)) (report db1_erased)); vm_compute; reflexivity.
Defined.

Lemma sound_projection_verifies_witness : verify_projection (j_db j1) = Ok true.
Proof. destruct sound_j1 as [m Hs]. exact (sound_projection_verifies _ _ m Hs). Defined.

Definition db1_stale : Db :=
  mkDb (db_events (j_db j1)) [] 1 (Some (mkProjection ∅ "2" 0)).

Lemma reopening_restores_projection_witness :
  ∃ m j', open false (Some db1_stale) = (Ok j', Some (j_db j')) ∧ Sound (j_db j') [ar_event r1] m
          ∧ db_events (j_db j') = db_events db1_stale
          ∧ ∀ k, task (j_db j') k = Ok (norm <$> m !! k).
Proof.
  destruct sound_j1 as [m [Hr _ _]]. exists m.
  refine (reopening_restores_projection db1_stale [ar_event r1] m _ _ _).
  - exact (recorded_rows (j_db j1) db1_stale _ _ Hr eq_refl).
  - right. reflexivity.
  - intros p [= <-]. vm_compute. discriminate.
Defined.

Lemma reachable_journals_grow_witness :
  ∃ es m ext m', Sound db0 es m ∧ Sound (j_db j1) (es ++ ext) m'
                 ∧ db_events (j_db j1) = db_events db0 ++ map event_row ext.
Proof.
  apply (reachable_journals_grow db0); [vm_compute; reflexivity|apply rtc_refl|].
  apply rtc_once. exact (js_append db0 e_created _ _ v_created append_first).
Defined.

(** ** Verification *)

Lemma retryable_verdict_is_certain_witness :
  let task := with_status s_done VERIFYING in
  let allowed := run_verifier w_verifier task e_failed in
  vt_retryable allowed = true
  ∧ ∃ reason, vt_reason allowed = py_take 500 reason ∧ py_in "timeout" (py_lower reason) = false.
Proof.
  cbv zeta. split; [vm_compute; reflexivity|].
  apply retryable_verdict_is_certain; vm_compute; reflexivity.
Defined.

(** ** Controller *)

Lemma demo_world_wf : WorldWf.
Proof.
  split.
  - apply json_ok_obj. split; [|repeat constructor]. apply (bool_decide_unpack _). vm_compute. exact I.
  - intros a v. simpl. case_decide; [|done]. intros [= <-]. apply json_ok_obj.
    split; [|repeat constructor]. apply (bool_decide_unpack _). vm_compute. exact I.
Qed.

Lemma controller_keeps_history_witness :
  let c := controller [] [] in
  let c' := serve_all [RTick; RVerify; RStop] (boot c).2 in
  ∃ db' ext m', c_file c' = Some db' ∧ Sound db' ([] ++ ext) m'.
Proof.
  cbv zeta.
  refine (proj2 (proj2 (controller_keeps_history (controller [] []) [RTick; RVerify; RStop] demo_world_wf _ _))
            db0 [] ∅ eq_refl sound_db0).
  - intros db [= <-]. exists [], ∅. exact sound_db0.
  - repeat constructor.
Defined.

(** One character of the stored payload changed. *)
Definition tamper (r : Row) : Row :=
  mkRow (r_seq r) (r_event_id r) (r_schema_v r) (r_type r) (r_task_id r) (r_attempt r)
    (r_dispatch_id r) (r_worker_id r) (r_result_id r) (r_dedupe_key r) (r_ts_utc r)
    (r_payload r +:+ " ") (r_prev_hash r) (r_hash r).
Definition db1_tampered : Db := with_events (j_db j1) (map tamper (db_events (j_db j1))).

Lemma degraded_never_writes_witness :
  let c' := (boot (new_controller (Some db1_tampered) 0)).2 in
  c_mode c' = DEGRADED ∧ c_first_bad_seq c' = Some 1
  ∧ c_degraded_reason c' = Some "hash chain broken: hash mismatch: stored event was modified"
  ∧ c_file (serve_all [RTick; RClaim (JObj [("worker_id", JStr "w1")])] c') = Some db1_tampered.
Proof. apply degraded_never_writes; vm_compute; reflexivity. Defined.

Definition due_lease : Lease := mkLease "t9" "d9" "w9" 30 0 "ttl".

Lemma tick_leaves_no_due_lease_witness :
  let c := controller [due_lease] [] in
  let c' := (tick c).2 in
  let now := w_clock (S (c_calls c)) in
  let leases := c_leases (extend_for_gap now c) in
  Forall (λ l, due now l = false) (c_leases c') ∧ c_last_tick c' = Some now
  ∧ ∀ l, l ∈ leases → due now l = false →
      (∀ l', l' ∈ leases → l_dispatch_id l' = l_dispatch_id l → l' = l) → l ∈ c_leases c'.
Proof. cbv zeta. apply tick_leaves_no_due_lease; vm_compute; reflexivity. Defined.

Lemma drain_terminates_witness :
  let c := controller [] ["t8"; "t9"] in
  drain 7 c = drain (S (length (c_queue c))) c ∧ ((drain 7 c).1 = Ok tt → c_queue (drain 7 c).2 = []).
Proof. cbv zeta. apply drain_terminates. apply (bool_decide_unpack _). vm_compute. exact I. Defined.

Lemma busy_verification_is_forgotten_witness :
  (@verify_next demo_platform busy_world (controller [] ["t8"; "t9"])).1
  = raise (ApiError 503 "busy") "busy"
  ∧ c_queue (@verify_next demo_platform busy_world (controller [] ["t8"; "t9"])).2 = ["t9"]
  ∧ c_file (@verify_next demo_platform busy_world (controller [] ["t8"; "t9"])).2
    = c_file (controller [] ["t8"; "t9"]).
Proof.
  apply (@busy_verification_is_forgotten demo_platform busy_world _ "t8"); vm_compute; reflexivity.
Defined.

Lemma py_len_le_length s : py_len s ≤ Z.of_nat (String.length s).
Proof.
  induction s as [|a s IH]; [done|]. cbn [py_len String.length]. destruct (is_cont a); lia.
Qed.

Lemma demo_world_fresh : WorldFresh.
Proof.
  split; [|done]. intros n. split; [done|]. etransitivity; [apply py_len_le_length|].
  unfold MAX_ID_LENGTH. simpl. lia.
Qed.

Definition task_request : list (string * json) :=
  [("adapter", JStr "listclean"); ("params", JObj []); ("effect_class", JStr "idempotent");
   ("max_attempts", JInt 2); ("lease_ttl_s", JInt 30); ("idempotency_key", JStr "order-7")].
Definition task_request_id : string :=
  "task-" +:+ py_take 32 (sha256_hex (String.list_ascii_of_string "order-7")).

Lemma create_task_is_idempotent_witness :
  let c1 := (create_task (JObj task_request) (controller [] [])).2 in
  ∃ c2, create_task (JObj task_request) c1 = (Ok (200, task_request_id, true), c2)
        ∧ c_file c2 = c_file c1.
Proof.
  cbv zeta.
  apply (create_task_is_idempotent (controller [] []) db0 [] ∅ task_request "order-7" 201 task_request_id
           false); try (vm_compute; reflexivity).
  - exact demo_world_fresh.
  - exact sound_db0.
  - apply json_ok_obj. split; [apply (bool_decide_unpack _); vm_compute; exact I|].
    repeat (apply Forall_cons; split); try apply Forall_nil; simpl; try done; repeat constructor.
Defined.
