(* ===== verification/QueueWitnesses.v ===== *)
(** * The queue on concrete files

    A catalog of two items, runs of calls over it, and the theorems of the
    queue and its auditor applied there. *)

From S2P Require Import Prelude PyText AsciiText PyTime Scope Json WorkItems WorkQueue QueueLedger QueueSafety QueueSpec.
From S2P Require Import QueueAudit QueueAuditSpec Fixtures.

#[local] Existing Instance demo_platform.

Definition seed_json (id : string) (scope deps : list string) : json :=
  JObj [("id", JStr id); ("title", JStr "a title"); ("lane", JStr "L4"); ("branch", JStr "lane/L4");
    ("files_scope", JArr (map JStr scope)); ("depends_on", JArr (map JStr deps));
    ("acceptance", JArr [JStr "tests"]); ("provider_hints", JArr []); ("status", JStr "READY");
    ("lease", JNull)].

Definition demo_disk : Disk :=
  MkDisk (Some [("B.json", Regular (print (seed_json "B" ["src/"] [])));
                ("A.json", Regular (print (seed_json "A" ["src/a.py"; "docs/"] [])));
                ("C.json", Regular (print (seed_json "C" ["tests/"] ["A"])))])
    (Regular (print work_item_schema)) Absent.

Definition demo_items : list Item := match replay demo_disk with Ok l => l | Err _ => [] end.

(** 2025-10-09 08:53:20, in microseconds, and moments after it. *)
Definition demo_time : Z := 1760000000 * MICROS.
Definition after (seconds : Z) : Z := demo_time + seconds * MICROS.

Definition demo_claim (item holder : string) (ttl : Z) : Op :=
  OClaim (JStr item) (JStr holder) (JInt ttl) (JStr "local") [] [] [].

(** B overlaps A and is refused until A is released; C waits for A. *)
Definition demo_run : list (Z * Op) :=
  [(after 0, demo_claim "A" "ann" 60); (after 1, demo_claim "B" "bob" 60); (after 2, demo_claim "C" "bob" 60);
   (after 30, ORenew (JStr "A") (JStr "ann") (JInt 90));
   (after 40, ORelease (JStr "A") (JStr "ann") (JStr " tests pass: 7/7 "));
   (after 50, demo_claim "B" "bob" 10); (after 70, demo_claim "C" "cid" 60)].

Definition demo_after : list Item :=
  match replay (perform_all demo_disk demo_run) with Ok l => l | Err _ => [] end.

Example demo_run_result :
  map (λ i, (it_id i, it_status i, l_holder <$> it_lease i, it_result i)) demo_after
  = [("A", DONE, None, Some "tests pass: 7/7"); ("B", CLAIMED, Some "bob", None);
     ("C", CLAIMED, Some "cid", None)].
Proof. by vm_compute. Qed.

(** ** Discharging the hypotheses on concrete disks *)
Lemma catalog_printable_compute d seeds :
  _load_seeds (dk_items d) (dk_schema d) = Ok seeds →
  forallb (λ i, match it_lease i with None => true | Some l => printable (l_host l) end) seeds = true →
  catalog_printable d.
Proof.
  intros Hs Hf seeds' Hs' i l Hi Hl. rewrite Hs in Hs'. simplify_eq. rewrite forallb_forall in Hf.
  apply list_elem_of_In in Hi. specialize (Hf _ Hi). by rewrite Hl in Hf.
Qed.

Lemma none_held_exclusive moment items :
  forallb (λ i, negb (_held i moment)) items = true → exclusive moment items.
Proof.
  rewrite forallb_forall. intros Hf i j Hi%list_elem_of_In _ _ Hh. specialize (Hf _ Hi). by rewrite Hh in Hf.
Qed.

Lemma demo_items_eq : replay demo_disk = Ok demo_items.
Proof. vm_compute. reflexivity. Qed.

Lemma demo_catalog : catalog_printable demo_disk.
Proof. apply (catalog_printable_compute _ demo_items); vm_compute; reflexivity. Qed.

Lemma demo_run_fine : run_fine demo_time demo_run.
Proof.
  unfold demo_run, run_fine, op_fine, after, demo_time, MICROS.
  assert (year_start 1000 = -30610224000000000 ∧ year_start 10000 = 253402300800000000) as [-> ->] by (by vm_compute).
  repeat split; try lia; by vm_compute.
Qed.

(** A disk on which ann holds A. *)
Definition held_disk : Disk := perform demo_disk (after 0) (demo_claim "A" "ann" 60).
Definition held_items : list Item := match replay held_disk with Ok l => l | Err _ => [] end.
Definition bob_run : list (Z * Op) :=
  [(after 10, demo_claim "A" "bob" 60); (after 20, ORenew (JStr "A") (JStr "bob") (JInt 90));
   (after 30, ORelease (JStr "A") (JStr "bob") (JStr "done")); (after 40, demo_claim "B" "bob" 60)].

Lemma held_items_eq : replay held_disk = Ok held_items.
Proof. vm_compute. reflexivity. Qed.

Lemma bob_run_fine : run_fine demo_time bob_run.
Proof.
  unfold bob_run, run_fine, op_fine, after, demo_time, MICROS.
  assert (year_start 1000 = -30610224000000000 ∧ year_start 10000 = 253402300800000000) as [-> ->] by (by vm_compute).
  repeat split; try lia; by vm_compute.
Qed.

Lemma demo_clock n : 0 ≤ n ≤ 1000 → year_start 1000 ≤ after n < year_start 10000.
Proof.
  assert (year_start 1000 = -30610224000000000 ∧ year_start 10000 = 253402300800000000) as [-> ->] by (by vm_compute).
  unfold after, demo_time, MICROS. lia.
Qed.

(** ** The properties *)
Lemma comparable_compute left right :
  forallb (λ a, forallb (comparable a) right) left = true →
  ∀ a b, a ∈ left → b ∈ right → comparable a b = true.
Proof.
  rewrite forallb_forall. setoid_rewrite forallb_forall.
  intros Hf a b Ha%list_elem_of_In Hb%list_elem_of_In. by apply Hf.
Qed.

Lemma disjoint_scopes_share_no_file_witness :
  (covered ["src/*.py"; "docs/readme.md"] "docs/readme.md"
   && covered ["lib/*.py"; "lib/b.md"] "docs/readme.md")%bool = false.
Proof.
  apply disjoint_scopes_share_no_file.
  - repeat constructor.
  - repeat constructor.
  - apply comparable_compute. vm_compute. reflexivity.
  - vm_compute. reflexivity.
  - vm_compute. reflexivity.
Defined.

Lemma calls_implement_protocol_witness :
  ∃ items', replay (perform demo_disk (after 0) (demo_claim "A" "ann" 60)) = Ok items'
    ∧ step "ann" (after 0) demo_items items'
    ∧ ledger_complete (perform demo_disk (after 0) (demo_claim "A" "ann" 60)).
Proof.
  apply (calls_implement_protocol demo_disk (after 0) (demo_claim "A" "ann" 60) demo_items).
  - exact I.
  - exact demo_catalog.
  - split; [apply demo_clock; lia|exact I].
  - exact demo_items_eq.
Defined.

Lemma leases_stay_exclusive_witness :
  ∃ items', replay (perform_all demo_disk demo_run) = Ok items'
    ∧ exclusive (end_clock demo_time demo_run) items'.
Proof.
  apply (leases_stay_exclusive demo_disk demo_time demo_run demo_items).
  - exact I.
  - exact demo_catalog.
  - exact demo_run_fine.
  - exact demo_items_eq.
  - apply none_held_exclusive. vm_compute. reflexivity.
Defined.

Definition held_a : Item := List.hd (MkItem "" "" "" "" [] [] [] [] READY None None None) held_items.

Lemma live_leases_are_respected_witness :
  ∃ items', replay (perform_all held_disk bob_run) = Ok items' ∧ held_a ∈ items'.
Proof.
  apply (live_leases_are_respected held_disk demo_time bob_run held_items held_a).
  - vm_compute. right. reflexivity.
  - apply perform_printable, demo_catalog.
  - exact bob_run_fine.
  - exact held_items_eq.
  - vm_compute. left.
  - right. split; [vm_compute; reflexivity|]. eexists. split; [vm_compute; reflexivity|].
    repeat constructor; discriminate.
Defined.

Lemma claim_takes_effect_witness :
  ∃ i t items', JInt t = JInt 60 ∧ JStr (it_id i) = JStr "A" ∧ i ∈ demo_items ∧ replay held_disk = Ok items' ∧
    (∀ j, j ∈ items' → it_id j ≠ it_id i → j ∈ demo_items) ∧
    ∃ i', find_item (it_id i) items' = Some i' ∧ JStr "ann" = JStr "ann" ∧
      it_lease i' = Some (MkLease "ann" "local" "2025-10-09T08:54:20Z") ∧
      (∀ now, _held i' now = (now <? (after 0 + t * MICROS) / MICROS * MICROS)).
Proof.
  apply (claim_takes_effect demo_disk (JStr "A") (JStr "ann") (JInt 60) (JStr "local") (after 0) [] [] []
    demo_items (MkClaimView "A" "ann" "local" "2025-10-09T08:54:20Z" false) held_disk).
  - exact I.
  - apply demo_clock. lia.
  - exact demo_items_eq.
  - vm_compute. reflexivity.
  - reflexivity.
Defined.

Lemma written_ledgers_pass_audit_witness :
  ar_valid (audit (dk_ledger (perform_all demo_disk demo_run)) (dk_items demo_disk)) = true.
Proof.
  apply (written_ledgers_pass_audit demo_disk demo_time demo_run demo_items).
  - reflexivity.
  - exact demo_catalog.
  - exact demo_run_fine.
  - exact demo_items_eq.
  - vm_compute. repeat constructor; discriminate.
  - vm_compute. reflexivity.
Defined.

(** ** The boundary second

    A lease that ends at a second is over for the queue and live for the
    auditor: the takeover the queue grants there is reported. *)
Definition boundary_run : list (Z * Op) :=
  [(after 0, demo_claim "A" "ann" 10); (after 10, demo_claim "A" "bob" 10)].

Lemma boundary_takeover_reported :
  map va_code (ar_violations (audit (dk_ledger (perform_all demo_disk boundary_run)) (dk_items demo_disk)))
  = ["DUPLICATE_CLAIM"].
Proof. vm_compute. reflexivity. Qed.

(** ** A ledger that ends in the middle of a line

    The next claim is granted and answered, and its line is lost with the one
    before it: nothing can be read any more. *)
Definition torn_disk : Disk :=
  MkDisk (dk_items demo_disk) (dk_schema demo_disk)
    (Regular (event_text (claim_event "A" "ann" "local" (stamp (after 60)) (after 0)))).

Lemma torn_ledger_swallows_a_claim :
  is_ok (claim torn_disk (JStr "B") (JStr "bob") (JInt 60) (JStr "local") (after 100) [] [] []) = true ∧
  _effective (perform torn_disk (after 100) (demo_claim "B" "bob" 60)) (after 101) = wq_raise "UNREADABLE".
Proof. vm_compute. repeat split. Qed.
