(* ===== verification/HttpWitnesses.v ===== *)
(** * The HTTP theorems at concrete inputs *)

From S2P Require Import Prelude PyText Json Sha256 Events StateMachine Lifecycle History Projection Replay Journal Ledger Verification Controller Service Http EventStream Serve Fixtures Witnesses.

(** Beyond ASCII, only the superscript two counts as a digit here. *)
#[export] Instance demo_digits : UnicodeDigits :=
  {| wide_digit := λ c, if decide (c = "²") then DigitOnly else NoDigit |}.

#[export] Instance demo_floats : FloatRepr.
Proof. intros t t' [= <-]. vm_compute. reflexivity. Qed.

Definition the_token : string := "0123456789abcdefghijklmnopqrstuvwxyzABCDEFG".

Lemma the_token_urlsafe : urlsafe_token the_token.
Proof. split; [vm_compute; lia|]. repeat constructor. Qed.

(** A connection with bytes to read, on which every write succeeds. *)
Definition line (bytes : string) : Conn := mkConn bytes EndOfFile [] (λ _, None) false.
Definition server (c : Ctl) : Server := mkServer the_token c MAX_EVENT_STREAMS false.

Definition get (path : string) (token after : option string) : HttpRequest :=
  mkHttp GET path after token None None None.
Definition post (path : string) (token : option string) (length : string) : HttpRequest :=
  mkHttp POST path None token (Some length) None None.

Lemma unauthorized_requests_touch_nothing_witness :
  let io := mkIo (line "{}") (server (controller [] [])) in
  let io' := (handle [] (post "/v1/claim" (Some "guess") "2") io).2 in
  io_server io' = io_server io ∧ cn_close (io_conn io') = true.
Proof.
  cbv zeta.
  destruct (unauthorized_requests_touch_nothing [] (post "/v1/claim" (Some "guess") "2")
    (mkIo (line "{}") (server (controller [] [])))) as (Hs & _ & Hc).
  - intros E. discriminate E.
  - split; [exact Hs|]. apply Hc. by right.
Defined.

Definition create_body : string := print (JObj
  [("adapter", JStr "listclean"); ("params", JObj []); ("effect_class", JStr "non_idempotent");
   ("max_attempts", JInt 1); ("lease_ttl_s", JInt 30)]).
Definition size (s : string) : string := str_of_Z (Z.of_nat (String.length s)).
Definition create : HttpRequest := post "/v1/tasks" (Some the_token) (size create_body).

(** The request is served: the task is created and the client told so. *)
Example create_is_answered :
  cn_out (io_conn (handle [] create (mkIo (line create_body) (server (controller [] [])))).2)
  = [Answer 201 (PCreated "task-idaa" false)].
Proof. vm_compute. reflexivity. Qed.

Lemma http_serves_the_controller_witness :
  let s := server (controller [] []) in
  let l := [(line create_body, [], create); (line "", [], get "/v1/health" None None)] in
  ∃ rs, (length rs ≤ 2)%nat ∧ sv_ctl (serve_http l s) = serve_all rs (sv_ctl s)
        ∧ file_ok (c_file (sv_ctl (serve_http l s))).
Proof.
  cbv zeta.
  destruct (http_serves_the_controller
    [(line create_body, [], create); (line "", [], get "/v1/health" None None)] (server (controller [] [])))
    as (rs & Hl & E & _ & Hg).
  exists rs. split; [exact Hl|split; [exact E|]]. apply Hg; [exact demo_world_wf|].
  intros db [= <-]. exists [], ∅. exact sound_db0.
Defined.

Lemma open_connections_stay_in_step_witness :
  body_read (post "/v1/claim" (Some the_token) "2") (mkIo (line "{}GET /v1/health") (server (controller [] [])))
    (handle [] (post "/v1/claim" (Some the_token) "2") (mkIo (line "{}GET /v1/health") (server (controller [] [])))).2.
Proof.
  apply open_connections_stay_in_step; [reflexivity|]. intros l [= <-] _. vm_compute. reflexivity.
Defined.

(** Two rounds, the second after an event was appended. *)
Definition round (j : Db) : Round :=
  mkRound (mkCtl NORMAL None None (Some j) (Some false) [] [] 0 false None true 0) false.

Lemma event_streams_deliver_witness :
  let io := mkIo (line "") (server (controller [] [])) in
  let io' := (handle [round db0; round (j_db j1)] (get "/v1/events" (Some the_token) (Some "0")) io).2 in
  io_server io' = io_server io
  ∧ ∃ n, frames io' = frames io ++ take n [ar_event r1].
Proof.
  cbv zeta. destruct sound_j1 as (m & Hm).
  assert (Forall2 shows [round db0; round (j_db j1)] [[]; [ar_event r1]]) as Hr.
  { constructor; [|constructor; [|constructor]]; (split; [reflexivity|split; [reflexivity|]]).
    - exists db0, ∅. split; [reflexivity|apply sound_db0].
    - exists (j_db j1), m. split; [reflexivity|apply Hm]. }
  assert (Forall (λ h, [] `prefix_of` h ∧ h `prefix_of` [ar_event r1]) [[]; [ar_event r1]]) as Hp.
  { apply Forall_cons; split; [by split; apply prefix_nil|].
    apply Forall_cons; split; [by split; [apply prefix_nil|]|by apply Forall_nil]. }
  destruct (event_streams_deliver [round db0; round (j_db j1)] [[]; [ar_event r1]] [] [ar_event r1]
    (get "/v1/events" (Some the_token) (Some "0")) (mkIo (line "") (server (controller [] []))) 0
    ltac:(vm_compute; reflexivity) eq_refl eq_refl ltac:(vm_compute; reflexivity)
    ltac:(vm_compute; reflexivity) ltac:(vm_compute; discriminate) ltac:(vm_compute; discriminate)
    (λ _, eq_refl) Hr Hp) as (Hs & n & Hf & _).
  split; [exact Hs|]. exists n. exact Hf.
Defined.

(** A frame as it goes over the wire. *)
Example frame_text : String.prefix "id: 1" (sse_text (ar_event r1)) = true.
Proof. vm_compute. reflexivity. Qed.

(** [²].isdigit() holds, int("²") raises: the request is answered 500, the
    connection stays open and its body is still there to be read as the next
    request. *)
Lemma superscript_length_leaves_the_body :
  let io' := (handle [] (post "/v1/claim" (Some the_token) "²")
                (mkIo (line "GET /v1/health") (server (controller [] [])))).2 in
  cn_out (io_conn io') = [Answer 500 (PError "internal")]
  ∧ cn_close (io_conn io') = false ∧ cn_in (io_conn io') = "GET /v1/health".
Proof. vm_compute. by split_and!. Qed.

(** A GET's body is never read. *)
Lemma get_leaves_the_body :
  let io' := (handle [] (mkHttp GET "/v1/health" None (Some the_token) (Some "14") None None)
                (mkIo (line "GET /v1/health") (server (controller [] [])))).2 in
  cn_close (io_conn io') = false ∧ cn_in (io_conn io') = "GET /v1/health".
Proof. vm_compute. by split. Qed.

(** A Last-Event-ID beyond 64 bits: a 500 answer inside a 200 stream. *)
Lemma huge_event_id_breaks_the_stream :
  cn_out (io_conn (handle [round db0] (get "/v1/events" (Some the_token) (Some "9223372036854775808"))
                     (mkIo (line "") (server (controller [] [])))).2)
  = [StreamHead; Answer 500 (PError "internal")].
Proof. vm_compute. reflexivity. Qed.

Lemma token_survives_restarts_witness :
  ∃ file', load_or_create_token Missing the_token = (Ok the_token, file')
           ∧ load_or_create_token file' "other" = (Ok the_token, file').
Proof.
  pose proof (token_survives_restarts Missing the_token "other" the_token_urlsafe) as [_ H].
  eexists. split; [reflexivity|exact H].
Defined.

Lemma service_start_is_all_or_nothing_witness :
  let s := mkSite None Missing (new_controller None 0) in
  st_lock (init 1 the_token (raise OSError "address in use") s).2 = None
  ∧ st_lock (init 1 the_token (Ok tt) s).2 = Some 1%nat
  ∧ init 2 the_token (Ok tt) (init 1 the_token (Ok tt) s).2
    = (raise SystemExit "another Courier controller already owns the home", (init 1 the_token (Ok tt) s).2).
Proof.
  cbv zeta.
  pose proof (service_start_is_all_or_nothing 1 the_token (Ok tt) (mkSite None Missing (new_controller None 0))
    the_token_urlsafe) as H.
  split_and!; [vm_compute; reflexivity| |vm_compute; reflexivity].
  destruct (init 1 the_token (Ok tt) _) as [[sv|x] s'] eqn:E; [apply H|].
  exfalso. vm_compute in E. discriminate E.
Defined.
