(* ===== verification/DagWitnesses.v ===== *)
(** * The dependency resolver on concrete catalogs *)

From S2P Require Import Prelude PyText AsciiText PyTime Scope Json WorkItems WorkQueue QueueLedger QueueSafety QueueSpec.
From S2P Require Import QueueAudit QueueAuditSpec DagResolver Readiness Fixtures QueueWitnesses.

#[local] Existing Instance demo_platform.

(** A diamond, and a dependency outside the catalog. *)
Definition diamond : Graph :=
  [("d", ["b"; "c"]); ("a", ["PR-1"]); ("c", ["a"]); ("b", ["a"])].

Example diamond_stages :
  resolve diamond = inl (mkReport ["a"; "b"; "c"; "d"] [["a"]; ["b"; "c"]; ["d"]] diamond).
Proof. vm_compute. reflexivity. Qed.

Definition diamond_report : DAGResolutionReport :=
  mkReport ["a"; "b"; "c"; "d"] [["a"]; ["b"; "c"]; ["d"]] diamond.

Lemma diamond_dict : NoDup (nodes diamond).
Proof. apply (bool_decide_unpack _). vm_compute. exact I. Qed.

Lemma schedules_respect_dependencies_witness :
  ∃ j, (j < 2)%nat ∧ in_stage diamond_report j "c".
Proof.
  destruct (schedules_respect_dependencies diamond diamond_report) as (_ & _ & Hd & _).
  - exact diamond_dict.
  - vm_compute. reflexivity.
  - apply (Hd 2%nat "d" "c").
    + exists ["d"]. split; [reflexivity|by left].
    + exists ["b"; "c"]. split; [by left|]. split; [by right; left|]. vm_compute. right. right. left.
Defined.

(** A cycle behind an item that waits for it. *)
Definition looped : Graph := [("x", ["y"]); ("y", ["z"]); ("z", ["y"]); ("w", [])].

Lemma resolve_fails_exactly_on_cycles_witness :
  acyclic diamond ∧ ¬ acyclic looped ∧ resolve looped = inr ["x"; "y"; "z"].
Proof.
  split_and!; [| |vm_compute; reflexivity].
  - apply (proj1 (resolve_fails_exactly_on_cycles diamond diamond_dict ltac:(
      intros n ds Hin; repeat (apply elem_of_cons in Hin as [[= -> ->]|Hin];
        [apply (bool_decide_unpack _); vm_compute; exact I|]); by apply not_elem_of_nil in Hin))).
    exists diamond_report. vm_compute. reflexivity.
  - intros Ha. apply (Ha "y").
    apply (tc_l _ _ "z"); [|apply tc_once]; eexists; (split; [vm_compute|]);
      [right; left|vm_compute; split; [left|right; right; left]|right; right; left|vm_compute; split; [left|right; left]].
Defined.

Lemma readiness_follows_the_queue_witness :
  ∃ items' C, replay (perform_all demo_disk demo_run) = Ok items'
    ∧ _load_completed_from_ledger (ledger_text (perform_all demo_disk demo_run)) = Ok C
    ∧ ∀ id, id ∈ C ↔ done_in items' id ∧ ¬ done_in demo_items id.
Proof.
  destruct (readiness_follows_the_queue demo_disk demo_time demo_run demo_items)
    as (items' & C & Hr & Hl & HC & _).
  - reflexivity.
  - exact demo_catalog.
  - exact demo_run_fine.
  - exact demo_items_eq.
  - repeat constructor.
  - exists items', C. split; [exact Hr|]. split; [exact Hl|exact HC].
Defined.

(** A dependency that is done in the catalog is met for the queue and missing
    for the resolver. *)
Definition done_seed (id : string) : json :=
  match seed_json id ["src/"] [] with
  | JObj kvs => JObj (map (λ kv, if bool_decide (kv.1 = "status") then (kv.1, JStr "DONE") else kv) kvs)
  | j => j
  end.
Definition done_catalog : Disk :=
  MkDisk (Some [("A.json", Regular (print (done_seed "A"))); ("C.json", Regular (print (seed_json "C" ["tests/"] ["A"])))])
    (Regular (print work_item_schema)) Absent.

Lemma catalog_done_items_are_missing :
  match replay done_catalog with Ok items => deps_met ["A"] items [] [] | Err _ => false end = true
  ∧ match _load_completed_from_ledger (ledger_text done_catalog) with
    | Ok C => eligible_items (evaluate_readiness [("A", []); ("C", ["A"])] C)
    | Err _ => []
    end = ["A"].
Proof. by vm_compute. Qed.

(** A dependency listed twice is taken for a cycle. *)
Lemma repeated_dependency_is_a_cycle : resolve [("a", []); ("b", ["a"; "a"])] = inr ["b"].
Proof. vm_compute. reflexivity. Qed.

(** A release the queue blocks the item with counts as completed for the
    resolver, one it closes the item with does not. *)
Definition worded_run (res : string) : list (Z * Op) :=
  [(after 0, demo_claim "A" "ann" 60); (after 10, ORelease (JStr "A") (JStr "ann") (JStr res))].

Definition verdicts (res : string) : option Status * bool :=
  let d := perform_all demo_disk (worded_run res) in
  (match replay d with Ok items => it_status <$> find_item "A" items | Err _ => None end,
   match _load_completed_from_ledger (ledger_text d) with Ok C => bool_decide ("A" ∈ C) | Err _ => false end).

Lemma programs_disagree_on_words :
  verdicts "BLOCKED on PR-1" = (Some BLOCKED, true) ∧ verdicts "REJECTED by review" = (Some DONE, false).
Proof. by vm_compute. Qed.
