(* ===== verification/LockWitnesses.v ===== *)
(** * Locks and fencing tokens on concrete runs *)

From S2P Require Import Prelude PyText AsciiText Sha256 FencingToken LockManager.

(** No letters beyond ASCII. *)
#[export] Instance demo_alnum : UnicodeAlnum := {| wide_alnum := λ _, false |}.

(** Ann's lease runs out, bob takes the lock over, ann tries to renew. *)
Definition ann : LockHandle := mkHandle "db" "ann" 1 30 false.
Definition bob : LockHandle := mkHandle "db" "bob" 2 130 false.
Definition takeover : list (Q * LockOp) :=
  [(0, LAcquire "db" "ann" 30); (10, LAcquire "db" "bob" 30); (100, LAcquire "db" "bob" 30);
   (110, LRenew ann 30)]%Q.

Example takeover_grants : (run ∅ takeover).1 = [ann; bob].
Proof. vm_compute. reflexivity. Qed.

Lemma fencing_tokens_fence_witness :
  validate_token (run ∅ takeover).2 "db" (lh_fencing_token ann) 120 = false.
Proof.
  pose proof (fencing_tokens_fence "db" ∅ takeover) as Hf.
  assert (Forall (λ o, apart "db" o.2) takeover) as Hap by (repeat constructor).
  specialize (Hf Hap). assert ((run ∅ takeover).1 = [ann; bob]) as Eg by (vm_compute; reflexivity).
  destruct (run ∅ takeover) as [hs st]. simpl in Eg. subst hs. destruct Hf as [_ Hf].
  apply (Hf ann bob 120%Q).
  - vm_compute. left.
  - vm_compute. right. left.
  - vm_compute. reflexivity.
Defined.

Definition held_state : LockState := mkLock "db" "ann" 1 30 false.
Definition held_storage : Storage := (acquire ∅ "db" "ann" 30 0).2.

Lemma active_locks_exclude_others_witness :
  let '(hs, st) := run held_storage [(10, LAcquire "db" "bob" 30); (20, LRelease (mkHandle "db" "bob" 1 30 false))]%Q in
  _load_state st "db" = Some held_state ∧ granted_here "db" hs = [].
Proof.
  apply (active_locks_exclude_others "db" held_storage held_state).
  - vm_compute. reflexivity.
  - reflexivity.
  - repeat constructor; discriminate.
Defined.

Lemma free_locks_are_granted_witness :
  ∃ h st, acquire (run ∅ takeover).2 "db" "cid" 30 200 = (Some h, st) ∧ lh_fencing_token h = 3
    ∧ validate_token st "db" 3 210 = true.
Proof.
  pose proof (free_locks_are_granted "db" (run ∅ takeover).2 "cid" 30 200) as Hf.
  assert (_load_state (run ∅ takeover).2 "db" = Some (mkLock "db" "bob" 2 130 false)) as El by (vm_compute; reflexivity).
  unfold position in Hf. rewrite El in Hf. specialize (Hf eq_refl).
  destruct (acquire _ _ _ _ _) as [h st]. destruct Hf as (token & -> & Et & Hv). simpl in Et. subst token.
  eexists _, st. split; [reflexivity|]. split; [reflexivity|]. rewrite Hv. reflexivity.
Defined.

(** Two resources, one lock file: bob's lock removes ann's, and the token of
    the next holder is one that ann already has. *)
Lemma lock_files_are_shared :
  let '(_, st) := acquire ∅ "a/b" "ann" 30 0 in
  let '(_, st) := acquire st "a_b__c14cddc033f6" "bob" 30 1 in
  lh_fencing_token <$> (acquire st "a/b" "cid" 30 2).1 = Some 1.
Proof. vm_compute. reflexivity. Qed.

(** A lock file that cannot be read is taken for none: the lock is granted
    again with the first token. *)
Lemma unreadable_lock_is_free :
  lh_fencing_token <$> (acquire (<[_lock_file "db" := Corrupt]> ∅) "db" "bob" 30 1).1 = Some 1.
Proof. vm_compute. reflexivity. Qed.

Lemma only_the_newest_generation_commits_witness :
  let '(facts, m) := FencingToken.run (open_manager Missing)
    [(0, FAcquire "disk" "ann" 30); (1, FCommit "disk" 1 (Some "ann")); (40, FRestart);
     (41, FAcquire "disk" "bob" 30); (42, FCommit "disk" 1 (Some "ann")); (43, FCommit "disk" 2 None)]%Q in
  fenced 0 (omap (of_resource "disk") facts) ∧ in_order m.
Proof.
  apply (only_the_newest_generation_commits "disk" (open_manager Missing)).
  split; [reflexivity|apply map_Forall_empty].
Defined.
