(* ===== verification/WorkerWitnesses.v ===== *)
(** * The worker on concrete inputs

    A worker with one stored result, a controller that answers it with one
    claim, a child that exits at once, and the controller's side of the same
    report. *)

From Stdlib Require Import Ascii Qminmax Qround.
From S2P Require Import Prelude PyText AsciiText Scope Utf8 Json JsonAscii Sha256 Events StateMachine Lifecycle History Projection Replay Journal Ledger Verification Controller Service Duties Redelivery LockManager WorkerSpec WorkerSpecSafety WorkerOutbox WorkerHost WorkerLoop WorkerDelivery WorkerResults WorkerProtocol Fixtures Witnesses LockWitnesses.

#[export] Instance demo_worker_platform : WorkerPlatform :=
  {| sys_executable := "/usr/bin/python3"; RUNNER_SCRIPT := "/opt/courier/adapter_runner.py" |}.

(** ** A claim and its spec *)

Definition demo_spec : json :=
  JObj [("adapter", JStr "synthetic"); ("params", JObj [("content", JStr "hello")]);
        ("effect_class", JStr "idempotent"); ("timeout_s", JInt 60); ("effect_key", JStr "cfx-1")].
Definition demo_claim : json :=
  JObj [("task_id", JStr "t1"); ("dispatch_id", JStr "d1"); ("attempt", JInt 1); ("ttl_s", JInt 30);
        ("heartbeat_s", JInt 10); ("spec", demo_spec)].

Definition demo_resolved : ExecutionSpec :=
  match resolve_spec demo_claim "w1" "/home/w/artifacts" 5 "/home/w" with
  | Ok x => x
  | Err _ => mkSpec "" 0 "" "" "" [] 0 0 "" 0 None [] "" JNull None
  end.

Example claim_resolves :
  resolve_spec demo_claim "w1" "/home/w/artifacts" 5 "/home/w" = Ok demo_resolved
  ∧ xs_argv demo_resolved = ["/usr/bin/python3"; "/opt/courier/adapter_runner.py"; "/home/w/run/requests/d1.json"]
  ∧ xs_artifact_dir demo_resolved = "/home/w/artifacts/d1".
Proof. vm_compute. done. Qed.

Lemma demo_bounded : bounded demo_resolved.
Proof.
  destruct (resolve_Ok demo_claim "w1" "/home/w/artifacts" 5 "/home/w" demo_resolved) as [Hb _]; [|done].
  vm_compute. reflexivity.
Qed.

(** A claim cannot carry a command, nor a transform that is a list. *)
Example commands_are_refused :
  resolve_spec (JObj [("task_id", JStr "t1"); ("dispatch_id", JStr "d1"); ("attempt", JInt 1); ("ttl_s", JInt 30);
                      ("spec", JObj [("argv", JArr [JStr "sh"])])]) "w1" "/a" 5 "/h"
  = raise SpecError "claim spec must not carry argv; the worker never runs a supplied command".
Proof. vm_compute. reflexivity. Qed.

Example unhashable_transform_escapes :
  exn_cls <$> match resolve_spec (JObj [("task_id", JStr "t1"); ("dispatch_id", JStr "d1"); ("attempt", JInt 1);
                ("ttl_s", JInt 30); ("spec", JObj [("adapter", JStr "synthetic");
                  ("params", JObj [("from_input", JArr [])]); ("effect_key", JStr "k")])]) "w1" "/a" 5 "/h" with
              | Err e => Some e | Ok _ => None end = Some TypeError.
Proof. vm_compute. reflexivity. Qed.

(** A time beyond the floats is neither refused nor taken. *)
Example huge_times_overflow :
  exn_cls <$> match resolve_spec (JObj [("task_id", JStr "t1"); ("dispatch_id", JStr "d1"); ("attempt", JInt 1);
                ("ttl_s", JInt (10 ^ 400)); ("spec", demo_spec)]) "w1" "/a" 5 "/h" with
              | Err e => Some e | Ok _ => None end = Some OverflowError.
Proof. vm_compute. reflexivity. Qed.

(** ** Runs of a child *)

(** The child exits with [code] after [waits] turns of one second, each
    heartbeat taking a tenth. *)
Definition demo_env (waits : nat) (code : Z) : RunEnv :=
  {| re_pressure := None; re_spawn := Ok tt; re_record := Ok tt; re_start := 0; re_setup := 1 # 10;
     re_late := λ _, 0%Q; re_beat := λ _, (1 # 10)%Q; re_pause := λ _, 0%Q; re_exceeded := λ _, false;
     re_wait := λ i, if (waits <=? i)%nat then Some code else None; re_exceeded_after := λ _, false;
     re_terminate := λ _, Ok tt; re_poll := λ _, Some (-15);
     re_files := [mkWalked "out.txt" 5 "2cf24dba5fb0a30e26e83b2ac5b9e29e1b161e5c1fa7425e73043362938b9824"];
     re_last_terminate := Ok tt |}.

Lemma demo_clocked waits code : clocked (demo_env waits code).
Proof. split; try intros i; cbn; discriminate. Qed.

Definition beats (n : nat) : result bool * nat := (Ok true, S n).
Definition never (n : nat) : result bool * nat := (Ok false, n).

(** A child that never ends is stopped at its timeout. *)
Lemma waits_are_bounded_witness :
  ∃ r st, _wait (Some beats) (Some never) demo_resolved (demo_env 1000 0) 0%nat = Some (r, st) ∧
          ∀ e, r = Ok e → Z.of_nat (er_wakes e) ≤ 120.
Proof.
  destruct (waits_are_bounded (Some beats) (Some never) demo_resolved (demo_env 1000 0) 0%nat
              demo_bounded (demo_clocked _ _)) as (r & st & Hw & He).
  exists r, st. split; [exact Hw|]. intros e Hr. specialize (He e Hr). vm_compute in He |- *. exact He.
Defined.

Lemma hosts_tell_the_truth_witness :
  ∃ r h st, run_once (Some beats) (Some never) demo_resolved (demo_env 2 0) (mkHost None ∅) 0%nat = Some (r, h, st) ∧
            hs_active h = None ∧ ∀ res, r = Ok res → truthful (Some beats) (Some never) demo_resolved (demo_env 2 0) 0%nat res.
Proof.
  destruct (hosts_tell_the_truth (Some beats) (Some never) demo_resolved (demo_env 2 0) (mkHost None ∅) 0%nat
              demo_bounded (demo_clocked _ _)) as (r & h & st & Hr & _ & Hidle).
  destruct (Hidle eq_refl) as [Ha Ht]. exists r, h, st. split; [exact Hr|]. split; [apply Ha; reflexivity|].
  intros res Hres. apply (Ht res Hres).
Defined.

(** Heartbeats that renew the lease only every second time. *)
Definition every_second (n : nat) : result bool * nat := (Ok (Nat.odd n), S n).
Definition short_lease : ExecutionSpec :=
  mkSpec "t1" 1 "d1" "w1" "r-d1" ["/bin/true"] 12 (5 # 4) "/home/w/artifacts/d1" 1 None [] "k" JNull None.
Definition idle_env : RunEnv :=
  {| re_pressure := None; re_spawn := Ok tt; re_record := Ok tt; re_start := 0; re_setup := 0;
     re_late := λ _, 0%Q; re_beat := λ _, 0%Q; re_pause := λ _, 0%Q; re_exceeded := λ _, false;
     re_wait := λ _, None; re_exceeded_after := λ _, false; re_terminate := λ _, Ok tt; re_poll := λ _, None;
     re_files := []; re_last_terminate := Ok tt |}.

(** Nineteen or twenty wakes where twelve quanta and a slack of three were
    announced. *)
Example wakes_exceed_the_quanta :
  match _wait (Some every_second) None short_lease idle_env 0%nat with
  | Some (Ok e, _) => er_outcome e = TIMEOUT ∧ (16 <= er_wakes e)%nat
  | _ => False
  end ∧ is_ok (post_init short_lease) = true.
Proof. vm_compute. repeat split; lia. Qed.

(** ** A worker and its home *)

Definition artifact_sha : string := "2cf24dba5fb0a30e26e83b2ac5b9e29e1b161e5c1fa7425e73043362938b9824".
Definition demo_report : json := JObj [("outcome", JStr "success")].

(** The controller answers a claim with [demo_claim] and a result with
    [status]; the child exits at once and its runner reports success. *)
Definition demo_worker_world (status : Z) : WorkerWorld :=
  {| ww_reply := λ _ method path _,
       if decide (path = "/claim") then Answered 200 (dumps demo_claim)
       else if decide (path = "/result") then Answered status (dumps (JObj []))
       else if decide (path = "/health") then Answered 200 (dumps (JObj [("mode", JStr "normal")]))
       else Answered 200 (dumps (JObj []));
     ww_time := λ n, inject_Z (Z.of_nat n); ww_mtime := λ n, Z.of_nat n; ww_pressure := λ _, None;
     ww_stop := λ n, (40 <=? n)%nat; ww_watch := λ _, false; ww_run := λ _, demo_env 1 0;
     ww_report := λ _, Some (dumps demo_report) |}.

Definition demo_settings : Settings := mkSettings "/home/w" "/" "w1" 5.

Lemma not_meta d : ends_with "a" d = false → no_meta d.
Proof.
  intros Hd d' E. rewrite E in Hd. clear E. induction d' as [|a d' IH]; [done|].
  rewrite string_app_cons in Hd. cbn [ends_with] in Hd. destruct (d' +:+ ".meta") eqn:E; [by destruct d'|].
  by apply IH.
Qed.

Lemma demo_decent status : decent_world (H2 := demo_worker_world status) demo_settings.
Proof.
  split; [done|done| | |].
  - intros n f Hf. cbn in Hf. apply list_elem_of_singleton in Hf as ->. done.
  - intros n t r [= <-] Hr rep ->. vm_compute in Hr. injection Hr as <-. vm_compute. reflexivity.
  - intros n body raw kvs [= <-] Hj. vm_compute in Hj. injection Hj as <-. apply not_meta. vm_compute. reflexivity.
Qed.

(** A home that holds the result of an earlier dispatch. *)
Definition old_result : list (string * json) := build_spec_failure_payload "d0" "r-d0" "no luck".
Definition empty_worker : Worker :=
  mkWorker (mkOutbox ∅ ∅) ∅ ∅ ∅ 0 "NORMAL" (mkHost None ∅) false [] 0.
Definition old_file : OutboxFile := mkFile 7 (serialized old_result).
Definition old_worker : Worker :=
  set_outbox (λ _, mkOutbox {["d0.json" := old_file]} ∅) empty_worker.

Lemma old_reads : read_json (of_text old_file) = Some (canon (JObj old_result)).
Proof. vm_compute. reflexivity. Qed.

Lemma old_tidy : tidy (wk_outbox old_worker).
Proof.
  intros name f payload Hn Hr. cbn in Hn. apply lookup_singleton_Some in Hn as [<- <-].
  rewrite old_reads in Hr. injection Hr as <-. exists "d0".
  eexists. split; [reflexivity|]. split; [vm_compute; reflexivity|].
  split; [vm_compute; reflexivity|]. split; [vm_compute; reflexivity|]. apply not_meta. vm_compute. reflexivity.
Qed.

(** The controller cannot take results for now: after three turns and a
    restart the old result is still there. *)
Definition session : Worker := (@run _ _ _ (demo_worker_world 503) demo_settings 3 old_worker).2.
Definition later : Worker := set_attempts (λ _, ∅) session.

Lemma session_lives : rtc (lives (H2 := demo_worker_world 503) demo_settings) old_worker later.
Proof.
  apply (rtc_l _ old_worker session later); [apply lives_run|]. apply rtc_once. unfold later.
  generalize session. intros w. by apply lives_restart.
Qed.

Lemma results_are_not_lost_witness :
  tidy (wk_outbox later) ∧
  ∃ new, wk_sent later = new ∧ fate later new "d0" old_file (canon (JObj old_result)).
Proof.
  destruct (results_are_not_lost (H2 := demo_worker_world 503) demo_settings old_worker later (demo_decent 503) old_tidy)
    as (Ht & new & Hs & Hf).
  - exact session_lives.
  - split; [exact Ht|]. exists new. split; [exact Hs|]. apply Hf. split; [reflexivity|exact old_reads].
Defined.

Example old_result_stays :
  ob_files (wk_outbox later) !! "d0.json" = Some old_file ∧ size (ob_files (wk_outbox later)) = 2%nat.
Proof. vm_compute. done. Qed.

(** A cycle that delivers. *)
Definition delivered : Worker := (@iterate _ _ _ (demo_worker_world 200) demo_settings old_worker).2.

Lemma deliveries_are_settled_witness :
  ∃ d kvs new, jget "dispatch_id" kvs = Some (JStr d) ∧ wk_sent delivered = new ∧ settled d kvs new delivered.
Proof.
  apply (deliveries_are_settled (H2 := demo_worker_world 200) demo_settings old_worker delivered Delivered).
  - exact (demo_decent 200).
  - exact old_tidy.
  - vm_compute. reflexivity.
  - left. reflexivity.
Defined.

Example delivery_empties_the_outbox :
  ob_files (wk_outbox delivered) = ∅ ∧
  map cl_path (wk_sent delivered) = ["/result"; "/claim"; "/start"; "/heartbeat"; "/result"].
Proof. vm_compute. done. Qed.

(** ** The controller's side *)

Definition order : json :=
  JObj [("adapter", JStr "synthetic"); ("params", JObj []); ("effect_class", JStr "idempotent");
        ("max_attempts", JInt 2); ("lease_ttl_s", JInt 30)].
Definition issued_id : string := "dsp-idaf".
Definition before_start : list Request := [RCreate order; RClaim (JObj [("worker_id", JStr "w1")])].
Definition waiting : Ctl := serve_all before_start (controller [] []).
Definition started : Ctl := (serve (RStart (JObj [("dispatch_id", JStr issued_id)])) waiting).2.

Ltac json_wf_closed :=
  repeat first [exact I | apply wf_obj; [apply (bool_decide_unpack _); vm_compute; exact I|]
               | apply json_ok_arr | apply Forall_cons; split | apply Forall_nil_2 | progress cbn [snd]].

Lemma started_grows : grows (controller [] []) started.
Proof.
  change started with (serve_all (before_start ++ [RStart (JObj [("dispatch_id", JStr issued_id)])]) (controller [] [])).
  apply serve_all_grows; [exact demo_world_wf| |].
  - unfold before_start, order. cbn [app]. repeat (apply Forall_cons; split); try apply Forall_nil_2;
      cbn [request_wf]; json_wf_closed.
  - intros db [= <-]. exists [], ∅. exact sound_db0.
Qed.

Definition started_db : Db := default db0 (c_file started).

Lemma started_sound : c_file started = Some started_db ∧ ∃ es m, Sound started_db es m.
Proof.
  pose proof started_grows as Hg. unfold grows in Hg. cbn [c_file controller] in Hg.
  destruct Hg as (db & Hf & Hg). unfold started_db. rewrite Hf. split; [reflexivity|].
  destruct (Hg [] ∅ sound_db0) as (ext & m & Hs). by exists ([] ++ ext), m.
Qed.

(** The worker's run of the issued dispatch. *)
Definition issued_spec : ExecutionSpec :=
  match resolve_spec (JObj [("task_id", JStr "t1"); ("dispatch_id", JStr issued_id); ("attempt", JInt 1);
          ("ttl_s", JInt 30); ("spec", demo_spec)]) "w1" "/home/w/artifacts" 5 "/home/w" with
  | Ok x => x
  | Err _ => demo_resolved
  end.
Definition issued_result : ExecutionResult :=
  mkResult issued_spec COMPLETED (Some 0) false [mkArtifact "out.txt" artifact_sha] false 1.
Definition worker_report : json :=
  JObj (build_result_payload "/" "/home/w" issued_result (Some [("outcome", JStr "success")])).

Lemma issued_bounded : bounded issued_spec.
Proof.
  destruct (resolve_Ok (JObj [("task_id", JStr "t1"); ("dispatch_id", JStr issued_id); ("attempt", JInt 1);
          ("ttl_s", JInt 30); ("spec", demo_spec)]) "w1" "/home/w/artifacts" 5 "/home/w" issued_spec) as [Hb _];
    [vm_compute; reflexivity|exact Hb].
Qed.

Lemma report_json : json_wf worker_report.
Proof.
  apply run_payload_wf; [exact issued_bounded|reflexivity|vm_compute; reflexivity| |].
  - intros a Ha. cbn in Ha. apply list_elem_of_singleton in Ha as ->. done.
  - intros rep [= <-]. vm_compute. reflexivity.
Qed.

Definition reported : Ctl := (result_report worker_report started).2.
Definition answer_of (r : result (string * string * Z)) : string * string * Z :=
  match r with Ok a => a | Err _ => ("", "", 0) end.
Definition report_answer : string * string * Z := answer_of (result_report worker_report started).1.

Lemma started_open : open_to_requests started.
Proof. vm_compute. done. Qed.

Lemma report_answered : result_report worker_report started = (Ok report_answer, reported).
Proof.
  assert (is_ok (result_report worker_report started).1 = true) as Hok by (vm_compute; reflexivity).
  unfold report_answer, reported. destruct (result_report worker_report started) as [[a|x] c]; [reflexivity|discriminate].
Qed.

Example report_is_taken : report_answer.1.1 = "ACCEPTED_FOR_VERIFY".
Proof. vm_compute. reflexivity. Qed.

(** A tick and a repetition later the same report is a duplicate. *)
Lemma results_are_taken_once_witness :
  let c2 := serve_all [RTick; RResult worker_report] reported in
  ∃ c3, result_report worker_report c2 = (Ok ("ACK_DUPLICATE", report_answer.1.2, report_answer.2), c3)
        ∧ c_file c3 = c_file c2.
Proof.
  destruct started_sound as (Hf & es & m & Hs).
  refine (proj2 (results_are_taken_once started started_db es m worker_report report_answer.1.1 report_answer.1.2
            report_answer.2 reported [RTick; RResult worker_report] demo_world_fresh demo_world_wf started_open Hf Hs
            _ _ _ _ _)).
  - exact report_json.
  - apply Forall_cons. split; [exact I|]. apply Forall_cons. split; [exact report_json|apply Forall_nil_2].
  - rewrite report_answered. destruct report_answer as [[st t] seq]. reflexivity.
  - vm_compute. split; [reflexivity|]. split; reflexivity.
  - reflexivity.
Defined.

Definition is_claim (r : result (option Event)) : bool := match r with Ok (Some _) => true | _ => false end.

Lemma started_claimed es m : Sound started_db es m → ∃ cl, claimed es issued_id = Some cl.
Proof.
  intros Hs. pose proof (claim_claimed _ _ _ issued_id (sd_recorded _ _ _ Hs)) as Hc.
  assert (is_claim (claim_for_dispatch started_db issued_id) = true) as Hok by (vm_compute; reflexivity).
  rewrite Hc in Hok. destruct (claimed es issued_id) as [cl|]; [by exists cl|discriminate].
Qed.

Lemma reports_are_well_formed_witness :
  ∃ cl payload e, Valid e ∧
    result_report worker_report started
    = report_keyed cl e issued_id ("r-" +:+ issued_id) payload (count_call (count_call (count_call started))).
Proof.
  destruct started_sound as (Hf & es & m & Hs).
  destruct (started_claimed es m Hs) as [cl Hcl]. exists cl.
  refine (reports_are_well_formed started started_db es m cl "/" "/home/w" issued_result
    (Some [("outcome", JStr "success")]) demo_world_fresh started_open Hf Hs eq_refl Hcl issued_bounded _ _ _ _
    worker_report (or_introl eq_refl)).
  - vm_compute. reflexivity.
  - vm_compute. discriminate.
  - vm_compute. lia.
  - repeat constructor; vm_compute; done.
Defined.

(** A claim that is no spec: its report comes before the start and is
    refused, so the reason is never recorded. *)
Example rejected_specs_are_not_recorded :
  (result_report (JObj (build_spec_failure_payload issued_id ("r-" +:+ issued_id) "spec-invalid: no"))  waiting).1
  = raise (ApiError 409 "not_started") "not_started" ∧
  gone 409 = true.
Proof. vm_compute. done. Qed.
