(* ===== verification/RecoveryWitnesses.v ===== *)
(** * The ring, patches and restarts on concrete inputs *)

From Stdlib Require Import Ascii.
From S2P Require Import Prelude PyBytes PyText AsciiText Utf8 Json JsonAscii Sha256 DeltaPatcher RingBuffer RingQueue LockManager WorkerSpec WorkerOutbox OutboxRestart Fixtures.

(** ** A ring of forty bytes, a writer of four messages, a reader

    The first message is in; while the bytes of the second go in, the reader
    takes the first one out, and no read of the header meets a write of it. *)

Definition demo_segment : bytes := match create (λ n, n) 40 with Ok buf => buf | Err _ => [] end.
Definition demo_messages : list bytes :=
  [[1; 2; 3; 4; 5; 6; 7; 8; 9; 10; 11; 12]; [21; 22; 23; 24; 25; 26; 27; 28; 29; 30]; [9; 9; 9; 9; 9; 9; 9; 9; 9]; [5; 4; 3; 2; 1; 0]].
Definition demo_schedule : list bool :=
  replicate 230 true ++ concat (replicate 20 [true; false; false; false]) ++ replicate 90 false ++
  replicate 400 true ++ replicate 100 false ++ replicate 300 true ++ replicate 1700 false.
Definition demo_start : Pair access := pair_start demo_segment demo_messages 5.

Example ring_runs :
  let s := pair_run demo_start demo_schedule in
  map snd (pr_done (pa_writer s)) = [Ok 1; Ok 2; Ok 3; Ok 4]
  ∧ map snd (pr_done (pa_reader s)) =
    [Ok (Some [1; 2; 3; 4; 5; 6; 7; 8; 9; 10; 11; 12]); Ok (Some [21; 22; 23; 24; 25; 26; 27; 28; 29; 30]); Ok None;
     Ok (Some [9; 9; 9; 9; 9; 9; 9; 9; 9]); Ok (Some [5; 4; 3; 2; 1; 0])].
Proof. vm_compute. done. Qed.

Lemma ring_is_a_queue_witness :
  let s := pair_run demo_start demo_schedule in
  (∃ log st, legal 40 ([], 0) log st ∧ follows (pa_writer s) (puts log) ∧ follows (pa_reader s) (gots log) ∧
     accepted (puts log) = handed_out (gots log) ++ st.1) ∧
  map fst (pr_done (pa_writer s)) = demo_messages ∧ length (pr_done (pa_reader s)) = 5%nat.
Proof.
  destruct (ring_is_a_queue (λ n, n) 40 demo_segment demo_messages 5 demo_schedule) as (Hlog & Hw & Hr).
  - intros k. lia.
  - vm_compute. reflexivity.
  - vm_compute. reflexivity.
  - split; [apply Hlog; vm_compute; reflexivity|]. split; [apply Hw|apply Hr]; vm_compute; lia.
Defined.

(** What the condition is for: the reader reads the header while the second
    head, that is zeroed before it is written, is zero.  It takes the second
    message, and then one more, and one more, that nobody wrote. *)
Example torn_header_makes_messages :
  let schedule := replicate 125 true ++ replicate 49 false ++ replicate 100 true ++ replicate 200 false ++ replicate 100 true in
  let s0 : Pair access := pair_start demo_segment [[1]; [2]] 4 in
  let s := pair_run s0 schedule in
  untorn s0 schedule = false ∧ pr_done (pa_writer s) = [([1], Ok 1); ([2], Ok 2)] ∧
  map snd (pr_done (pa_reader s)) = [Ok (Some [1]); Ok (Some [2]); Ok (Some []); Ok (Some [])].
Proof. vm_compute. done. Qed.

(** A segment that another process spoiled is refused. *)
Example spoiled_segments_are_refused :
  _validate_header demo_segment = Ok tt ∧
  exn_cls <$> match _validate_header (0 :: drop 1 demo_segment) with Err e => Some e | Ok _ => None end
  = Some CorruptRingBufferError.
Proof. vm_compute. done. Qed.

(** ** A patch *)

Definition demo_int (j : json) : result Z := match j with JInt n => Ok n | _ => raise TypeError "int" end.
Definition text_bytes : string → list ascii := String.list_ascii_of_string.

Definition demo_files : gmap string (list ascii) :=
  {["/old" := text_bytes "the quick brown fox jumps"; "/new" := text_bytes "see: the quick brown cat jumps"]}.

Example a_patch_copies_and_inserts :
  dp_operations <$> match create_patch 8 "/old" "/new" demo_files with Some (Ok p) => Some p | _ => None end
  = Some [insert_op (text_bytes "see: "); copy_op 0 16; insert_op (text_bytes "cat jumps")].
Proof. vm_compute. reflexivity. Qed.

Lemma patches_round_trip_witness :
  ∃ p, create_patch 8 "/old" "/new" demo_files = Some (Ok p) ∧ from_dict demo_int (to_dict p) = Ok p ∧
    apply_patch demo_int "/tmp1" "/old" p "/out" demo_files
    = (Ok "/out", <["/out" := text_bytes "see: the quick brown cat jumps"]> demo_files).
Proof.
  destruct (patches_round_trip demo_int (λ n, eq_refl) 8 "/old" "/new" demo_files
    (text_bytes "the quick brown fox jumps") (text_bytes "see: the quick brown cat jumps")) as (p & Hc & Hd & Ha).
  - lia.
  - vm_compute. reflexivity.
  - vm_compute. reflexivity.
  - exists p. split; [exact Hc|]. split; [exact Hd|]. apply Ha; vm_compute; reflexivity.
Defined.

Lemma applied_patches_are_verified_witness :
  exn_cls <$> match (apply_patch demo_int "/tmp1" "/new" (mkPatch "00" 0 "00" 0 8 []) "/out" demo_files).1 with
              | Err e => Some e | Ok _ => None end = Some BaseFileMismatchError ∧
  (apply_patch demo_int "/tmp1" "/new" (mkPatch "00" 0 "00" 0 8 []) "/out" demo_files).2 = demo_files.
Proof.
  split; [vm_compute; reflexivity|].
  pose proof (applied_patches_are_verified demo_int "/tmp1" "/new" (mkPatch "00" 0 "00" 0 8 []) "/out" demo_files) as H.
  rewrite (surjective_pairing (apply_patch _ _ _ _ _ _)) in H.
  destruct (apply_patch _ _ _ _ _ _).1 as [x|e] eqn:E; [|apply H; vm_compute; reflexivity].
  assert (is_ok (apply_patch demo_int "/tmp1" "/new" (mkPatch "00" 0 "00" 0 8 []) "/out" demo_files).1 = false) as Hbad
    by (vm_compute; reflexivity). by rewrite E in Hbad.
Defined.

(** ** A restart *)

Definition demo_now : nat → string := λ _, "0.0".
Definition demo_entry (key : string) : string := dumps (JObj [("effect_key", JStr key); ("dispatch_id", JStr ("d-" +:+ key))]).

Definition demo_outbox : gmap string string :=
  {["a.json" := demo_entry "k1"; "b.json" := demo_entry "k2"; "c.json" := dumps (JObj [("effect_key", JStr "k1")])]}.
Definition demo_restart : Restart := mkRestart (mkHome (Some demo_outbox) None) [].

(** A callback that fails on its second call. *)
Definition failing_once (n : nat) (_ : entry) : result unit := if decide (n = 1%nat) then raise OSError "gone" else Ok tt.

Definition after_failure : Restart := (resume_outbox failing_once demo_now demo_restart).2.

Example a_failed_restart_goes_on :
  rs_executed after_failure = [("k1", true); ("k2", false)] ∧
  resume_outbox (λ _ _, Ok tt) demo_now after_failure =
    (Ok ([JStr "d-k2"], [JStr "d-k1"; JStr "c"]), (resume_outbox (λ _ _, Ok tt) demo_now after_failure).2) ∧
  rs_executed (resume_outbox (λ _ _, Ok tt) demo_now after_failure).2 = [("k1", true); ("k2", false); ("k2", true)].
Proof. vm_compute. done. Qed.

Definition decent_entries (fs : gmap string string) : bool :=
  forallb (λ nf, match loads nf.2 with
                 | Ok (JObj data) =>
                     utf8_valid (key_of data) && match dispatch_of nf.1 data with JStr d => utf8_valid d | _ => true end
                 | _ => true
                 end)%bool (map_to_list fs).

Lemma decent_computes fs : decent_entries fs = true → decent (Some fs).
Proof.
  intros Hd ? name raw data [= <-] Hl Hload. unfold decent_entries in Hd. rewrite forallb_forall in Hd.
  specialize (Hd (name, raw)). rewrite <- list_elem_of_In, elem_of_map_to_list in Hd. specialize (Hd Hl).
  simpl in Hd. rewrite Hload in Hd. apply andb_true_iff in Hd as [Hk Hd]. split; [done|]. intros d Ed. by rewrite Ed in Hd.
Qed.

Lemma effects_are_not_replayed_witness :
  rtc restart_step demo_restart after_failure ∧
  ∃ new, rs_executed after_failure = ([] ++ new)%list ∧ StronglySorted never_again new ∧
    ∀ k b, (k, b) ∈ new → ¬ confirms (rs_home demo_restart) k ∧ (b = true → confirms (rs_home after_failure) k).
Proof.
  assert (rtc restart_step demo_restart after_failure) as Hr.
  { apply rtc_once. apply (step_resume failing_once demo_now _ (resume_outbox failing_once demo_now demo_restart).1).
    - intros n. vm_compute. reflexivity.
    - unfold after_failure. by destruct (resume_outbox _ _ _). }
  split; [exact Hr|]. apply (effects_are_not_replayed demo_restart after_failure).
  - by left.
  - apply decent_computes. vm_compute. reflexivity.
  - exact Hr.
Defined.

Definition demo_entries : list (string * entry) := match parse_entries demo_outbox with Ok es => es | Err _ => [] end.

Lemma demo_parsed : parse_entries demo_outbox = Ok demo_entries.
Proof. vm_compute. reflexivity. Qed.
Lemma demo_ids : map id_of demo_entries = [JStr "d-k1"; JStr "d-k2"; JStr "c"].
Proof. vm_compute. reflexivity. Qed.
Lemma demo_usable : Forall usable demo_entries.
Proof.
  assert (demo_entries = [("a.json", [("effect_key", JStr "k1"); ("dispatch_id", JStr "d-k1")]);
    ("b.json", [("effect_key", JStr "k2"); ("dispatch_id", JStr "d-k2")]); ("c.json", [("effect_key", JStr "k1")])]) as ->
    by (vm_compute; reflexivity). repeat constructor.
Qed.
Lemma demo_outbox_decent : decent (Some demo_outbox).
Proof. apply decent_computes. vm_compute. reflexivity. Qed.

Lemma restarts_settle_the_outbox_witness :
  ∃ continued skipped s', resume_outbox (λ _ _, Ok tt) demo_now demo_restart = (Ok (continued, skipped), s') ∧
    (continued ++ skipped)%list ≡ₚ [JStr "d-k1"; JStr "d-k2"; JStr "c"] ∧
    (∀ callback' now', resume_outbox callback' now' s' = (Ok ([], [JStr "d-k1"; JStr "d-k2"; JStr "c"]), s')) ∧
    cleanup_confirmed (rs_home s') = (Ok [JStr "d-k1"; JStr "d-k2"; JStr "c"], mkHome (Some ∅) (rh_journal (rs_home s'))).
Proof.
  rewrite <- demo_ids.
  apply (restarts_settle_the_outbox (λ _ _, Ok tt) demo_now demo_restart demo_outbox demo_entries []);
    [intros n; vm_compute; reflexivity|done|by left|done|exact demo_outbox_decent|exact demo_parsed|done|exact demo_usable].
Defined.

(** An entry whose identifier is no text is executed by every restart: the
    confirmation of its effect is refused after the effect. *)
Example numbered_entries_are_replayed :
  let fs : gmap string string := {["a.json" := dumps (JObj [("effect_key", JStr "k1"); ("dispatch_id", JInt 7)])]} in
  let s1 := (resume_outbox (λ _ _, Ok tt) demo_now (mkRestart (mkHome (Some fs) None) [])).2 in
  rs_executed (resume_outbox (λ _ _, Ok tt) demo_now s1).2 = [("k1", false); ("k1", false)].
Proof. vm_compute. reflexivity. Qed.

(** The results a worker stores in its outbox are no entries of a restart,
    which refuses the whole outbox. *)
Example stored_results_are_refused :
  let payload := [("dispatch_id", JStr "d1"); ("result_id", JStr "r-d1"); ("artifacts", JArr []); ("outcome", JStr "success")] in
  let files := of_text <$> ob_files (outbox_write 1 payload (mkOutbox ∅ ∅)).2 in
  exn_cls <$> match (resume_outbox (λ _ _, Ok tt) demo_now (mkRestart (mkHome (Some files) None) [])).1 with
              | Err e => Some e | Ok _ => None end = Some OutboxRestartError.
Proof. vm_compute. reflexivity. Qed.
