(* ===== verification/UpkeepWitnesses.v ===== *)
(** * Orphans, snapshots, rate limits and the scheduler on concrete inputs *)

From Stdlib Require Import Ascii Qminmax Qround.
From S2P Require Import Prelude PyText AsciiText Utf8 Json JsonAscii PyNumbers Sha256 PyTime Scope WorkItems WorkQueue QueueLedger LockManager WorkerSpec OrphanGate OrphanGateSafety LedgerCompactor CompactorSpec RateLimiter RateLimiterSpec PriorityScheduler SchedulerSpec Fixtures.

(** ** Two claim files: the owner of the first is gone, its child ends when it
    is told to and then takes a while; the second belongs to a worker that
    lives *)

#[export] Instance demo_system : System :=
  {| sys_alive := λ _ pid, pid =? 901;
     sys_created := λ _ _, None;
     sys_getpgid := λ _ pid, Some pid;
     sys_group := λ n _, (n <? 6)%nat;
     sys_signal := λ _ _ _, true;
     sys_took := λ _, 1 # 1000 |}.

Definition demo_dispatch (id : string) : ExecutionSpec :=
  mkSpec "t1" 1 id "w1" "r1" [] 0 0 "" 0 None [] "" JNull None.
Definition demo_claims : gmap string string :=
  {["dispatch-d1.json" := record_text (claim_record (demo_dispatch "d1") 900 950 None None);
    "dispatch-d2.json" := record_text (claim_record (demo_dispatch "d2") 901 951 None None)]}.
Definition demo_gate (claims : gmap string string) : Gate := mkGate claims ∅ [] 0 0.

Example the_gate_runs :
  (λ rg, (rg.1, g_acts rg.2, map fst (map_to_list (g_claims rg.2)))) <$> run_orphan_gate (λ _, None) 40 (demo_gate demo_claims)
  = Some (Ok 1, [Alive 900 false; Group 950 (Some 950); Sent 950 SIGTERM true; Present 950 true; Present 950 true;
                 Present 950 true; Present 950 false; Alive 901 true], ["dispatch-d2.json"]).
Proof. vm_compute. reflexivity. Qed.

Lemma demo_claims_written name text : demo_claims !! name = Some text → written text.
Proof.
  unfold demo_claims. intros [[<- <-]|[_ [<- <-]%lookup_singleton_Some]]%lookup_insert_Some.
  1: exists (demo_dispatch "d1"), 900, 950, None, None. 2: exists (demo_dispatch "d2"), 901, 951, None, None.
  all: unfold pid_max; split_and!; try done; naive_solver.
Qed.

Lemma only_orphans_are_signalled_witness :
  ∃ g' turns, run_orphan_gate (λ _, None) 40 (demo_gate demo_claims) = Some (Ok 1, g') ∧ g_acts g' = concat turns.*2 ∧
    Forall (turn_ok (λ _, None) (map_to_list demo_claims)) turns ∧ Sent 950 SIGTERM true ∈ g_acts g'.
Proof.
  pose proof the_gate_runs as Hr.
  destruct (run_orphan_gate (λ _, None) 40 (demo_gate demo_claims)) as [[r g']|] eqn:E; [|discriminate Hr].
  unfold fmap, option_fmap, option_map in Hr. cbn [fst snd] in Hr. injection Hr as Hr1 Hr2 _. subst r.
  destruct (only_orphans_are_signalled (λ _, None) 40 (demo_gate demo_claims) (Ok 1) g' E) as (turns & Ha & Ht & _).
  exists g', turns. split; [reflexivity|]. split; [exact Ha|]. split; [exact Ht|]. rewrite Hr2. right. right. left.
Defined.

Lemma orphan_gate_settles_witness :
  ∃ n g' seg, run_orphan_gate (λ _, None) 40 (demo_gate demo_claims) = Some (Ok n, g') ∧ g_acts g' = seg ∧
    g_corrupt g' = ∅ ∧ n = 2 - Z.of_nat (size (g_claims g')).
Proof.
  destruct (orphan_gate_settles (λ _, None)) with (g := demo_gate demo_claims) as (n & g' & seg & H1 & H2 & H3 & H4 & _).
  - intros k. vm_compute. discriminate.
  - exact demo_claims_written.
  - exists n, g', seg. auto.
Defined.

(** A file that holds no object, and a child that is no number, end the gate
    with an exception, and with it the start of the worker. *)
Example odd_records_stop_the_gate :
  (λ rg, exn_cls <$> match rg.1 with Err e => Some e | Ok _ => None end)
    <$> run_orphan_gate (λ _, None) 40 (demo_gate {["dispatch-x.json" := "[]"]}) = Some (Some AttributeError) ∧
  (λ rg, exn_cls <$> match rg.1 with Err e => Some e | Ok _ => None end)
    <$> run_orphan_gate (λ _, None) 40 (demo_gate {["dispatch-x.json" := dumps (JObj [("child_pid", JStr "none")])]}) = Some (Some ValueError).
Proof. vm_compute. done. Qed.

(** ** Snapshots *)

Definition demo_line (kind item holder : string) (more : list (string * json)) : string :=
  dumps_spaced (JObj ([("event_type", JStr kind); ("item_id", JStr item); ("holder", JStr holder)] ++ more)) +:+ String LF "".
Definition demo_prefix : string :=
  demo_line "CLAIM" "a" "alice" [("expires_at", JStr "2026-01-01T00:00:00Z")] +:+ demo_line "claim" "b" "bob" [] +:+ "torn {" +:+ String LF "".
Definition demo_suffix : string := demo_line "RELEASE" "a" "alice" [("result", JStr "DONE")] +:+ demo_line "NOTE" "c" "carol" [].
Definition demo_now (n : Z) : string := "2026-01-01T00:00:01Z".
Definition demo_snapshot : LedgerSnapshot * SnapshotFile :=
  match create_snapshot demo_now "snap_1" "2026-01-01T00:00:02Z" (Some demo_prefix) with
  | Ok r => r
  | Err _ => (mkSnapshot "" "" 0 [] "", Unreadable)
  end.

Lemma demo_created :
  create_snapshot demo_now "snap_1" "2026-01-01T00:00:02Z" (Some demo_prefix) = Ok (demo_snapshot.1, demo_snapshot.2).
Proof. vm_compute. reflexivity. Qed.

Definition demo_records : Records := Eval vm_compute in sn_records demo_snapshot.1.
Lemma demo_records_eq : sn_records demo_snapshot.1 = demo_records.
Proof. vm_compute. reflexivity. Qed.

Lemma demo_textual : textual (sn_records demo_snapshot.1).
Proof. rewrite demo_records_eq. repeat constructor. Qed.

(** The lines behind the snapshot are read later than those it was made of. *)
Definition demo_later (i : Z) : string := "2026-02-02T00:00:00Z".

(** The record of an item after the replay. *)
Lemma demo_replayed :
  match replay_with_delta demo_later (Some demo_snapshot.2) (Some (demo_prefix +:+ demo_suffix)) with
  | Ok st => option_map cr_status (lookup_rec (JStr "a") st)
  | Err _ => None
  end = Some (JStr "DONE").
Proof. vm_compute. reflexivity. Qed.

Lemma delta_replay_is_full_replay_witness :
  let n := sn_total_events_compacted demo_snapshot.1 in
  ∃ st st', replay_with_delta demo_later (Some demo_snapshot.2) (Some (demo_prefix +:+ demo_suffix)) = Ok st ∧
    fst <$> rebuild_ledger_state (λ i, if i <? n then demo_now i else demo_later i) (Some (demo_prefix +:+ demo_suffix)) 0 [] = Ok st' ∧
    equal st st' ∧ option_map cr_status (lookup_rec (JStr "a") st) = Some (JStr "DONE").
Proof.
  intros n. destruct (delta_replay_is_full_replay demo_now demo_later "snap_1" "2026-01-01T00:00:02Z" demo_prefix demo_suffix
    demo_snapshot.1 demo_snapshot.2 ltac:(right; vm_compute; reflexivity) demo_created demo_textual) as [Hs _].
  fold n in Hs. pose proof demo_replayed as Ha.
  destruct (replay_with_delta _ _ _) as [st|] eqn:E1; [|discriminate Ha].
  destruct (fst <$> rebuild_ledger_state _ _ _ _) as [st'|] eqn:E2; [|destruct Hs].
  exists st, st'. split; [reflexivity|]. split; [reflexivity|]. split; [exact Hs|exact Ha].
Defined.

Lemma fresh_snapshots_verify_witness :
  verify_equivalence demo_now (Some demo_prefix) (Some demo_snapshot.2) = Ok (true, []) ∧
  ∀ r, verify_equivalence demo_now (Some (demo_prefix +:+ demo_suffix)) (Some demo_snapshot.2) = Ok r → r.1 = false.
Proof.
  destruct (fresh_snapshots_verify demo_now demo_now "snap_1" "2026-01-01T00:00:02Z" demo_prefix demo_snapshot.1 demo_snapshot.2)
    as [H1 H2].
  - right. vm_compute. reflexivity.
  - exact demo_created.
  - exact demo_textual.
  - rewrite demo_records_eq. repeat constructor.
  - split; [exact H1|]. intros r. apply H2. discriminate.
Defined.

Definition demo_events : list Event :=
  [claim_event "L1-01" "alice" "host1" "2026-01-01T01:00:00Z" 1767225600; release_event "L1-01" "alice" "DONE" 1767225660].

Lemma queue_ledgers_compact_to_unknown_witness :
  ∃ st r, rebuild_ledger_state demo_now (Some (ledger_text demo_events)) 0 [] = Ok (st, 2) ∧
    lookup_rec (JStr "L1-01") st = Some r ∧ cr_status r = JStr "UNKNOWN" ∧ cr_event_count r = 2.
Proof.
  destruct (queue_ledgers_compact_to_unknown demo_now demo_events) as (st & E & Hst).
  - apply Forall_cons; split; [apply written_claim|]. apply Forall_cons; split; [apply written_release|]. apply Forall_nil_2.
  - apply (bool_decide_unpack _). vm_compute. exact I.
  - specialize (Hst "L1-01" ltac:(done)). destruct (lookup_rec (JStr "L1-01") st) as [r|] eqn:Er; [|by vm_compute in Hst].
    exists st, r. destruct Hst as (H1 & _ & H3). split; [exact E|]. split; [done|]. split; [exact H1|]. rewrite H3. reflexivity.
Defined.

(** A release without a result that is a text makes a snapshot that cannot be
    loaded: the state is written as it is and read as [str] of it. *)
Example odd_results_spoil_the_snapshot :
  let line := dumps (JObj [("event_type", JStr "RELEASE"); ("item_id", JStr "a"); ("result", JNull)]) in
  exn_cls <$> match ('(_, file) ← create_snapshot demo_now "s" "t" (Some line); load_snapshot (Some file)) with
              | Err e => Some e | Ok _ => None end = Some ValueError.
Proof. vm_compute. reflexivity. Qed.

(** A changed expiry, with a checksum of its own, passes verification. *)
Example expiries_are_not_compared :
  let changed := map (λ kr : json * CompactStateRecord, (kr.1, mkRec (cr_item_id kr.2) (cr_status kr.2) (cr_last_holder kr.2)
                      (JStr "never") (cr_event_count kr.2) (cr_last_updated kr.2))) (sn_records demo_snapshot.1) in
  (hash ← _canonical_records_hash changed 3;
   j ← snapshot_json (mkSnapshot "snap_2" "" 3 changed hash);
   verify_equivalence demo_now (Some demo_prefix) (Some (Document j))) = Ok (true, []).
Proof. vm_compute. reflexivity. Qed.

(** ** Rate limits *)

Definition demo_bucket : TokenBucketLimiter := mkBucket 1 2 2 0.

Lemma bucket_limits_throughput_witness :
  ((attempts [(1, 1); (2, 2); (3, 1)] (attempts [(0, 2)] demo_bucket).2).1 <= 2 + 1 * (3 - 1))%Q.
Proof.
  apply (bucket_limits_throughput 1 2 0 demo_bucket [(0, 2)%Q] 1 1 [(2, 2); (3, 1)]%Q).
  - reflexivity.
  - repeat constructor.
  - repeat split; discriminate.
Defined.

#[export] Instance demo_pace : Pace := {| took := λ _, 1 # 100 |}.

Lemma demo_patient n : (0 <= took n)%Q.
Proof. discriminate. Qed.

Lemma acquire_returns_witness :
  ∃ r th', acquire 41 2 true None (mkThread (mkBucket 1 2 0 0) 0 0) = Some (Ok r, th') ∧ r = true.
Proof.
  destruct (acquire_returns demo_patient 2 true None (mkThread (mkBucket 1 2 0 0) 0 0)) as (r & th' & E & Hr).
  - split; repeat split; discriminate.
  - discriminate.
  - reflexivity.
  - exists r, th'. split; [exact E|by apply Hr].
Defined.

Lemma window_is_exact_witness :
  let times := [0; 1; 2; 10; 11; 12]%Q in
  requests times (mkWindow 10 2 []) = [true; true; false; true; true; false] ∧
  ∀ e, (length (filter (in_window 10 e) (passed_times times (requests times (mkWindow 10 2 [])))) <= 2)%nat.
Proof.
  destruct (window_is_exact 10 2 (mkWindow 10 2 []) 0 [0; 1; 2; 10; 11; 12]%Q) as [E Hb].
  - reflexivity.
  - repeat split; discriminate.
  - split; [by rewrite E; vm_compute|exact Hb].
Defined.

(** The tiers do not check the amount: a negative one fills the buckets past
    their capacity. *)
Example negative_amounts_fill_the_tiers :
  (λ nb : string * TokenBucketLimiter, tb_tokens nb.2) <$> (acquire_all (λ _, 0%Q) (-5) [("burst", demo_bucket)]).2 = [(2 - -5)%Q].
Proof. reflexivity. Qed.

(** ** The scheduler *)

Definition demo_task (id : string) (p : TaskPriority) (at_ : Q) : ScheduledTask :=
  mkTask id p "default" true None (Some at_) None PENDING 0.
Definition demo_scheduler : Scheduler :=
  mkScheduler 1 60 [demo_task "b" HIGH 5; demo_task "c" NORMAL 6] [start 0 (demo_task "a" BACKGROUND 0)].

Lemma demo_distinct : distinct demo_scheduler.
Proof. apply (bool_decide_unpack _). vm_compute. exact I. Qed.

Lemma ticks_dispatch_the_first_witness :
  ∃ s' d, tick 2 10 demo_scheduler = Some (s', [d]) ∧ d ∈ running_tasks s' ∧ task_id d = "b".
Proof.
  destruct (ticks_dispatch_the_first 10 demo_scheduler demo_distinct ltac:(vm_compute; discriminate)) as (s' & ds & E & _ & _ & Hd & _).
  assert (map task_id ds = ["b"]) as Hids.
  { assert (map task_id <$> (snd <$> tick 2 10 demo_scheduler) = Some ["b"]) as Hc by (vm_compute; reflexivity).
    change (tick 2 10 demo_scheduler) with (tick (Z.to_nat (max_slots demo_scheduler) + length (running_tasks demo_scheduler)) 10 demo_scheduler) in Hc.
    rewrite E in Hc. by injection Hc. }
  destruct ds as [|d [|]]; try discriminate Hids. exists s', d. split; [exact E|]. split; [apply Hd; by left|by injection Hids].
Defined.

Lemma aging_bounds_overtaking_witness :
  goes_first 60 200 (demo_task "old" BACKGROUND 10) (demo_task "new" CRITICAL 55) = true.
Proof. apply (aging_bounds_overtaking 60 200 _ _ 10 55); [reflexivity|reflexivity|discriminate..]. Defined.

(** The time a task runs counts as waiting: a background task that has run for
    long is not preempted for a critical one. *)
Example long_runs_are_not_preempted :
  let s := mkScheduler 1 60 [demo_task "urgent" CRITICAL 200] [start 0 (demo_task "long" BACKGROUND 0)] in
  option_map snd (tick 2 200 s) = Some [].
Proof. vm_compute. reflexivity. Qed.
