(* ===== verification/FleetWitnesses.v ===== *)
(** * Work stealing, quorums, leases and recoveries on concrete inputs *)

From stdpp Require Import gmap.
From S2P Require Import Prelude PyText Json Sha256 WorkStealing StealingSpec QuorumVerifier QuorumSpec LeaseStore TaskLifecycle TaskRecovery.

(** ** Work stealing *)

Definition demo_work (capabilities : list string) : StealableTask := mkStealable "" (list_to_set capabilities) 0 JNull.
Definition demo_fleet_ops : list StealingSpec.Op :=
  [StealingSpec.Register "w1" 4 {["cpu"]}; StealingSpec.Register "w2" 4 {["cpu"]};
   StealingSpec.Enqueue "w1" "a" (demo_work ["cpu"]); StealingSpec.Enqueue "w1" "b" (demo_work ["cpu"]);
   StealingSpec.Enqueue "w1" "c" (demo_work ["cpu"]); StealingSpec.Start "w1" "a"].
Definition demo_fleet : WorkStealingCluster := default empty_cluster (StealingSpec.run demo_fleet_ops empty_cluster).

Lemma demo_fleet_run : StealingSpec.run demo_fleet_ops empty_cluster = Some demo_fleet.
Proof. vm_compute. reflexivity. Qed.

Lemma demo_fleet_sound : StealingSpec.sound demo_fleet.
Proof.
  destruct (run_spec demo_fleet_ops empty_cluster empty_sound) as (c & E & Hs & _).
  rewrite demo_fleet_run in E. by injection E as ->.
Qed.

Lemma rebalance_settles_witness :
  ∃ n c', rebalance (Z.to_nat (potential demo_fleet)) demo_fleet = Some (Ok n, c') ∧ n = 1 ∧ levelled c'.
Proof.
  destruct (rebalance_settles demo_fleet demo_fleet_sound) as (n & c' & E & _ & _ & _ & Hl). exists n, c'. split; [exact E|].
  split; [|exact Hl]. assert (option_map fst (rebalance (Z.to_nat (potential demo_fleet)) demo_fleet) = Some (Ok 1)) as H by (vm_compute; reflexivity).
  rewrite E in H. by injection H.
Defined.

(** The token of a running task verifies on, that of a stolen one does not. *)
Lemma stealing_is_fenced_witness :
  ∃ c', StealingSpec.run [StealingSpec.Steal "w2" "w1"; StealingSpec.Rebalance] demo_fleet = Some c' ∧
    verify_execution_token "a" "w1" 0 c' = Ok true.
Proof.
  destruct (stealing_is_fenced demo_fleet_ops) as (c & E & _ & Hmore). rewrite demo_fleet_run in E. injection E as <-.
  destruct (Hmore [StealingSpec.Steal "w2" "w1"; StealingSpec.Rebalance]) as (c' & E' & Hf). exists c'. split; [exact E'|].
  destruct (Hf "a" "w1" 0) as [Hr _]; [vm_compute; reflexivity|repeat constructor; discriminate|].
  apply Hr. exists (mkNode 4 {["cpu"]} ["b"; "c"] ["a"]). split; [vm_compute; reflexivity|by left].
Defined.

(** Rebalancing gives up at the first worker that can run none of the tasks,
    though another idle one could. *)
Example one_incapable_worker_stops_rebalancing :
  let ops := [StealingSpec.Register "w1" 4 {["gpu"]}; StealingSpec.Register "w2" 4 {["gpu"]}; StealingSpec.Register "w3" 4 {["cpu"]};
              StealingSpec.Enqueue "w1" "a" (demo_work ["gpu"]); StealingSpec.Enqueue "w1" "b" (demo_work ["gpu"]);
              StealingSpec.Enqueue "w1" "c" (demo_work ["gpu"])] in
  (c ← StealingSpec.run ops empty_cluster; option_map fst (rebalance 20 c)) = Some (Ok 0).
Proof. vm_compute. reflexivity. Qed.

(** A task that is entered again after its completion starts with its old
    tokens: the one it was stolen under verifies again. *)
Example tokens_start_over :
  let ops := [StealingSpec.Register "w1" 4 {["cpu"]}; StealingSpec.Register "w2" 4 {["cpu"]};
              StealingSpec.Enqueue "w1" "a" (demo_work ["cpu"])] in
  let more := [StealingSpec.Steal "w2" "w1"; StealingSpec.Start "w2" "a"; StealingSpec.Complete "w2" "a"; StealingSpec.Enqueue "w1" "a" (demo_work ["cpu"])] in
  (verify_execution_token "a" "w1" 0 <$> StealingSpec.run ops empty_cluster) = Some (Ok true) ∧
  (verify_execution_token "a" "w1" 0 <$> StealingSpec.run (ops ++ take 1 more) empty_cluster)
    = Some (raise StaleFencingTokenError "Stale or unauthorized execution") ∧
  (verify_execution_token "a" "w1" 0 <$> StealingSpec.run (ops ++ more) empty_cluster) = Some (Ok true).
Proof. vm_compute. done. Qed.

(** ** Quorums *)

Definition demo_votes : list QuorumSpec.Op :=
  [QuorumSpec.Submit "t" "w1" (JObj [("x", JInt 1)]) None; QuorumSpec.Submit "t" "w2" (JObj [("x", JInt 1)]) None;
   QuorumSpec.Submit "t" "w3" (JObj [("x", JInt 2)]) None].

Definition demo_verifier : Verifier := (QuorumSpec.run demo_votes (make_verifier 3 SUPERMAJORITY_TWO_THIRDS 3, [])).1.

Example two_of_three_agree :
  (λ rv : QuorumResult * Verifier, (qr_achieved rv.1, qr_consensus_output rv.1, qr_conforming_workers rv.1, qr_byzantine_workers rv.1))
    <$> evaluate_quorum "t" demo_verifier = Ok (true, Some (JObj [("x", JInt 1)]), ["w1"; "w2"], ["w3"]).
Proof. vm_compute. reflexivity. Qed.

(** Evaluating the same task again counts the same votes again: one deviating
    vote, evaluated three times, makes a worker untrusted. *)
Example one_deviation_slashes :
  let '(v, _) := QuorumSpec.run (demo_votes ++ [QuorumSpec.Evaluate "t"; QuorumSpec.Evaluate "t"; QuorumSpec.Evaluate "t"])
                   (make_verifier 3 SUPERMAJORITY_TWO_THIRDS 3, []) in
  re_is_untrusted (get_worker_reputation "w3" v).1 = true ∧ re_byzantine_count (get_worker_reputation "w3" v).1 = 3.
Proof. vm_compute. done. Qed.

(** ** Leases *)

Example a_lost_lease_does_not_write :
  let '(db, granted) := foldl LeaseStore.perform (∅, [])
    [LeaseStore.Acquire 0 "main" "alice" "k1" 10; LeaseStore.Acquire 11 "main" "bob" "k2" 10] in
  map le_token granted = [1; 2] ∧ is_ok (LeaseStore.check_write 12 "main" 1 db) = false ∧
  is_ok (LeaseStore.check_write 12 "main" 2 db) = true.
Proof. vm_compute. done. Qed.

(** ** Recoveries *)

Definition demo_record (id : string) (waiting_on : option string) (recovery : option string) (count : Z) : TaskRecord :=
  mkTask id "key" "session" "host" "42" "start" NETWORK_IO 0 0 None [] recovery HEALTHY count waiting_on 0 0 0 0 None None false.
Definition demo_manager (ts : list TaskRecord) : Manager := mkManager (map (λ t, (tr_task_id t, t)) ts) (mkHealer [] []).
Definition demo_deadlock : Manager :=
  demo_manager [demo_record "a" (Some "b") None 0; demo_record "b" (Some "a") None 0; demo_record "c" (Some "b") None 0].

Lemma recoveries_are_bounded_witness :
  ∃ m', TaskRecovery.run [Detect "i"; Resume 1 1 "a"; Detect "i"; Restart "i"] demo_deadlock = Some m' ∧
    receipts_of "a" (ma_healer m') ≤ 2.
Proof.
  destruct (recoveries_are_bounded [Detect "i"; Resume 1 1 "a"; Detect "i"; Restart "i"] demo_deadlock "a") as (m' & E & _ & _ & H).
  - intros x t. simpl. repeat case_decide; intros [= <-]; subst; reflexivity.
  - repeat constructor.
  - change (receipts_of "a" (ma_healer demo_deadlock)) with 0 in H. rewrite Z.sub_0_r in H. exists m'. split; [exact E|exact H].
Defined.

(** A task behind a cycle makes the detection break the cycle a second time, at
    another task. *)
Example tasks_behind_a_cycle_break_it_again : fst <$> detect_deadlocks "i" demo_deadlock = Some ["a"; "b"].
Proof. vm_compute. reflexivity. Qed.

(** A restart removes tasks that were being recovered, and those that wait for
    the user after three recoveries. *)
Example restarts_drop_tasks :
  let m := demo_manager [demo_record "a" None (Some "SPAWNING_SUCCESSOR") 1; demo_record "b" None None 3; demo_record "c" None None 0] in
  map fst (ma_active_tasks (reconcile_after_restart "i" m)) = ["c"].
Proof. vm_compute. reflexivity. Qed.

(** A recovery that stops at an unproven ownership is never tried again. *)
Example unproven_recoveries_stay_open (i : string) (h : Healer) :
  let t := with_state (mkTask "a" "key" "session" "host" "" "start" COMPUTE 0 0 None [] None HEALTHY 0 None 0 0 0 0 None None false) OWNER_LOST in
  let '(r, t, h) := recover_task i t h in
  r = None ∧ (recover_task i (with_state t OWNER_LOST) h).1.1 = None ∧ tr_recovery_state t = Some "VERIFYING_OWNERSHIP".
Proof. done. Qed.
